(** * Timeout multiplexer and portal registry

    A shallow embedding of [src/backend/utils/misc/timeout.c] and
    [src/backend/utils/mmgr/portalmem.c], and the properties of the two
    modules proved over it.

    Conventions shared by both modules:
    - C code that mutates process-global state is a function from the state
      to a [result]: normal return with a value, [ereport]/[elog] at level
      ERROR or FATAL (a non-local exit that leaves the state as it was at the
      point of the throw), or C undefined behaviour (an access outside an
      array, a call through a null function pointer, a dangling pointer).
    - [Assert] compiles to nothing in a production build; the asserted
      conditions are stated as preconditions of the theorems that need them.
    - arrays are lists read with [!!] and written with [<[_:=_]>]; an access
      out of range is [Undefined], it is never silently ignored. *)

From Stdlib Require Import ZArith Lia.
From stdpp Require Import base numbers list sorting strings pretty gmap.

Open Scope Z_scope.

(** ** Error reporting (elog.h) *)

Inductive elevel := ERROR | FATAL.

Inductive sqlstate :=
| ERRCODE_INTERNAL_ERROR                  (* plain elog(...) *)
| ERRCODE_CONFIGURATION_LIMIT_EXCEEDED
| ERRCODE_DUPLICATE_CURSOR
| ERRCODE_INVALID_CURSOR_STATE
| ERRCODE_FEATURE_NOT_SUPPORTED
| ERRCODE_OBJECT_NOT_IN_PREREQUISITE_STATE.

Inductive result (S A : Type) :=
| Ok (a : A) (s : S)
| Raise (lvl : elevel) (code : sqlstate) (s : S)
| Undefined.
Arguments Ok {S A} a s.
Arguments Raise {S A} lvl code s.
Arguments Undefined {S A}.

(** A severity the caller can recover from: ERROR unwinds to the nearest
    handler and the backend keeps running, FATAL ends the process. *)
Definition recoverable (lvl : elevel) : bool :=
  match lvl with ERROR => true | FATAL => false end.

Definition M (S A : Type) : Type := S -> result S A.

Definition ret {S A} (a : A) : M S A := fun s => Ok a s.

Definition bind {S A B} (m : M S A) (k : A -> M S B) : M S B :=
  fun s =>
    match m s with
    | Ok a s' => k a s'
    | Raise lvl code s' => Raise lvl code s'
    | Undefined => Undefined
    end.

Definition ereport {S A} (lvl : elevel) (code : sqlstate) : M S A :=
  fun s => Raise lvl code s.

Definition undefined {S A} : M S A := fun _ => Undefined.

Definition get {S} : M S S := fun s => Ok s s.
Definition modify {S} (f : S -> S) : M S unit := fun s => Ok tt (f s).

Declare Scope c_scope.
Delimit Scope c_scope with C.
Notation "'let!' x ':=' m 'in' k" := (bind m (fun x => k))
  (at level 10, x name, m at level 100, k at level 200,
   format "'[v' 'let!'  x  ':='  m  'in' '/' k ']'") : c_scope.
Notation "m ;; k" := (bind m (fun _ => k))
  (at level 100, k at level 200, right associativity) : c_scope.
Notation "'when' b 'then' m" := (if b then m else ret tt)
  (at level 99, b at level 9, m at level 99) : c_scope.
Open Scope c_scope.

(** The state a computation stopped in, when it has one. *)
Definition final_state {S A} (r : result S A) : option S :=
  match r with
  | Ok _ s => Some s
  | Raise _ _ s => Some s
  | Undefined => None
  end.

Lemma bind_Ok {S A B} (m : M S A) (k : A -> M S B) s b s' :
  bind m k s = Ok b s' ->
  exists a s1, m s = Ok a s1 /\ k a s1 = Ok b s'.
Proof.
  unfold bind. destruct (m s) as [a s1| |]; [eauto | discriminate..].
Qed.

Lemma bind_of_Ok {S A B} (m : M S A) (k : A -> M S B) s a s1 :
  m s = Ok a s1 -> bind m k s = k a s1.
Proof. unfold bind. now intros ->. Qed.

Lemma bind_of_Raise {S A B} (m : M S A) (k : A -> M S B) s lvl code s1 :
  m s = Raise lvl code s1 -> bind m k s = Raise lvl code s1.
Proof. unfold bind. now intros ->. Qed.

Lemma bind_final_state {S A B} (m : M S A) (k : A -> M S B) s s' :
  final_state (bind m k s) = Some s' ->
  (exists a s1, m s = Ok a s1 /\ final_state (k a s1) = Some s') \/
  (exists lvl code, m s = Raise lvl code s').
Proof.
  unfold bind. destruct (m s) as [a s1|lvl code s1|]; simpl; [eauto| |done].
  intros [= <-]. eauto.
Qed.

(** * Part A: the timeout multiplexer (timeout.c) *)

Module Timeout.

(** [TimeoutId] is an enum and [TimestampTz] is [int64]; no arithmetic is
    done on either in this file. *)
Abbreviation TimeoutId := nat (only parsing).
Abbreviation TimestampTz := Z (only parsing).

(** [EnableTimeoutParams.type]: an enum field, which in C can also hold an
    integer that is neither of the two enumerators. *)
Inductive TimeoutType :=
| TMPARAM_AFTER
| TMPARAM_AT
| TMPARAM_unrecognized (v : Z).

Record EnableTimeoutParams := {
  etp_id : TimeoutId;
  etp_type : TimeoutType;
  etp_delay_ms : Z;
  etp_fin_time : TimestampTz
}.

Record DisableTimeoutParams := {
  dtp_id : TimeoutId;
  dtp_keep_indicator : bool
}.

Section Multiplexer.

Local Set Default Proof Using "Type".

(** The enumerators of [TimeoutId] that the code names (utils/timeout.h):
    user-defined reasons are [USER_TIMEOUT .. GP_PARALLEL_RETRIEVE_CURSOR_CHECK_TIMEOUT - 1]. *)
Variable USER_TIMEOUT : TimeoutId.
Variable GP_PARALLEL_RETRIEVE_CURSOR_CHECK_TIMEOUT : TimeoutId.
Variable MAX_TIMEOUTS : nat.

(** [timeout_handler_proc]: the values a handler function pointer can take. *)
Variable timeout_handler_proc : Type.

(** [struct timeout_params] *)
Record timeout_params := {
  index : TimeoutId;
  active : bool;
  indicator : bool;
  timeout_handler : option timeout_handler_proc;   (* None is NULL *)
  start_time : TimestampTz;
  fin_time : TimestampTz
}.

Definition set_tp_active (b : bool) (tp : timeout_params) :=
  {| index := index tp; active := b; indicator := indicator tp;
     timeout_handler := timeout_handler tp;
     start_time := start_time tp; fin_time := fin_time tp |}.
Definition set_tp_indicator (b : bool) (tp : timeout_params) :=
  {| index := index tp; active := active tp; indicator := b;
     timeout_handler := timeout_handler tp;
     start_time := start_time tp; fin_time := fin_time tp |}.
Definition set_tp_handler (h : option timeout_handler_proc) (tp : timeout_params) :=
  {| index := index tp; active := active tp; indicator := indicator tp;
     timeout_handler := h;
     start_time := start_time tp; fin_time := fin_time tp |}.
Definition set_tp_start_time (t : TimestampTz) (tp : timeout_params) :=
  {| index := index tp; active := active tp; indicator := indicator tp;
     timeout_handler := timeout_handler tp;
     start_time := t; fin_time := fin_time tp |}.
Definition set_tp_fin_time (t : TimestampTz) (tp : timeout_params) :=
  {| index := index tp; active := active tp; indicator := indicator tp;
     timeout_handler := timeout_handler tp;
     start_time := start_time tp; fin_time := t |}.

(** What the module touches outside its own variables: the wall clock, the
    interval timer, the interrupt-holdoff bookkeeping of miscadmin.h and the
    process latch.  [clock_reads] and [itimer_calls] count the calls made so
    far; the host's answers are the functions [GetCurrentTimestamp_value]
    and [setitimer_rc] below. *)
Record host_state := {
  clock_reads : nat;
  itimer_calls : nat;
  itimer_value : Z * Z;                 (* it_value last armed: secs, usecs *)
  ImmediateInterruptOK : bool;
  InterruptHoldoffCount : nat;
  latch_set : bool
}.

(** The file's static variables.  [active_timeouts] holds the first
    [num_active_timeouts] cells of the C array; a cell is a pointer
    [&all_timeouts[k]], kept as [k].  [handler_log] is a ghost record of the
    handler calls made by [handle_sig_alarm], oldest first: the [fin_time]
    and [index] read through [this_timeout] when its handler was called. *)
Record mux_state := {
  all_timeouts : list timeout_params;
  all_timeouts_initialized : bool;
  active_timeouts : list nat;
  alarm_enabled : bool;
  host : host_state;
  handler_log : list (TimestampTz * TimeoutId)
}.

Definition num_active_timeouts (s : mux_state) : Z :=
  Z.of_nat (length (active_timeouts s)).

Definition set_all_timeouts (t : list timeout_params) (s : mux_state) :=
  {| all_timeouts := t; all_timeouts_initialized := all_timeouts_initialized s;
     active_timeouts := active_timeouts s; alarm_enabled := alarm_enabled s;
     host := host s; handler_log := handler_log s |}.
Definition set_initialized (b : bool) (s : mux_state) :=
  {| all_timeouts := all_timeouts s; all_timeouts_initialized := b;
     active_timeouts := active_timeouts s; alarm_enabled := alarm_enabled s;
     host := host s; handler_log := handler_log s |}.
Definition set_active_timeouts (q : list nat) (s : mux_state) :=
  {| all_timeouts := all_timeouts s;
     all_timeouts_initialized := all_timeouts_initialized s;
     active_timeouts := q; alarm_enabled := alarm_enabled s;
     host := host s; handler_log := handler_log s |}.
Definition set_alarm_enabled (b : bool) (s : mux_state) :=
  {| all_timeouts := all_timeouts s;
     all_timeouts_initialized := all_timeouts_initialized s;
     active_timeouts := active_timeouts s; alarm_enabled := b;
     host := host s; handler_log := handler_log s |}.
Definition set_host (h : host_state) (s : mux_state) :=
  {| all_timeouts := all_timeouts s;
     all_timeouts_initialized := all_timeouts_initialized s;
     active_timeouts := active_timeouts s; alarm_enabled := alarm_enabled s;
     host := h; handler_log := handler_log s |}.
Definition set_handler_log (l : list (TimestampTz * TimeoutId)) (s : mux_state) :=
  {| all_timeouts := all_timeouts s;
     all_timeouts_initialized := all_timeouts_initialized s;
     active_timeouts := active_timeouts s; alarm_enabled := alarm_enabled s;
     host := host s; handler_log := l |}.

Abbreviation T := (M mux_state).

(** *** The host *)

(** Reading of the wall clock at its n-th call, return code of the n-th
    [setitimer] call, and the two timestamp helpers of utils/timestamp.h. *)
Variable GetCurrentTimestamp_value : nat -> TimestampTz.
Variable setitimer_rc : nat -> Z.
Variable TimestampTzPlusMilliseconds : TimestampTz -> Z -> TimestampTz.
Variable TimestampDifference : TimestampTz -> TimestampTz -> Z * Z.

Definition GetCurrentTimestamp : T TimestampTz := fun s =>
  let h := host s in
  Ok (GetCurrentTimestamp_value (clock_reads h))
     (set_host {| clock_reads := S (clock_reads h);
                  itimer_calls := itimer_calls h;
                  itimer_value := itimer_value h;
                  ImmediateInterruptOK := ImmediateInterruptOK h;
                  InterruptHoldoffCount := InterruptHoldoffCount h;
                  latch_set := latch_set h |} s).

(** [setitimer(ITIMER_REAL, &timeval, NULL)], returning its return code. *)
Definition setitimer (v : Z * Z) : T Z := fun s =>
  let h := host s in
  let rc := setitimer_rc (itimer_calls h) in
  Ok rc
     (set_host {| clock_reads := clock_reads h;
                  itimer_calls := S (itimer_calls h);
                  itimer_value := if rc =? 0 then v else itimer_value h;
                  ImmediateInterruptOK := ImmediateInterruptOK h;
                  InterruptHoldoffCount := InterruptHoldoffCount h;
                  latch_set := latch_set h |} s).

Definition set_ImmediateInterruptOK (b : bool) : T unit :=
  modify (fun s => let h := host s in
    set_host {| clock_reads := clock_reads h; itimer_calls := itimer_calls h;
                itimer_value := itimer_value h; ImmediateInterruptOK := b;
                InterruptHoldoffCount := InterruptHoldoffCount h;
                latch_set := latch_set h |} s).
Definition HOLD_INTERRUPTS : T unit :=
  modify (fun s => let h := host s in
    set_host {| clock_reads := clock_reads h; itimer_calls := itimer_calls h;
                itimer_value := itimer_value h;
                ImmediateInterruptOK := ImmediateInterruptOK h;
                InterruptHoldoffCount := S (InterruptHoldoffCount h);
                latch_set := latch_set h |} s).
Definition RESUME_INTERRUPTS : T unit :=
  modify (fun s => let h := host s in
    set_host {| clock_reads := clock_reads h; itimer_calls := itimer_calls h;
                itimer_value := itimer_value h;
                ImmediateInterruptOK := ImmediateInterruptOK h;
                InterruptHoldoffCount := pred (InterruptHoldoffCount h);
                latch_set := latch_set h |} s).
Definition SetLatch : T unit :=
  modify (fun s => let h := host s in
    set_host {| clock_reads := clock_reads h; itimer_calls := itimer_calls h;
                itimer_value := itimer_value h;
                ImmediateInterruptOK := ImmediateInterruptOK h;
                InterruptHoldoffCount := InterruptHoldoffCount h;
                latch_set := true |} s).

(** *** Access to the two arrays *)

(** [all_timeouts[id]] as an rvalue. *)
Definition slot (id : TimeoutId) : T timeout_params := fun s =>
  match all_timeouts s !! id with
  | Some tp => Ok tp s
  | None => Undefined
  end.

(** [all_timeouts[id].field = ...] *)
Definition update_slot (id : TimeoutId) (f : timeout_params -> timeout_params)
  : T unit := fun s =>
  match all_timeouts s !! id with
  | Some tp => Ok tt (set_all_timeouts (<[id := f tp]> (all_timeouts s)) s)
  | None => Undefined
  end.

Definition disable_alarm : T unit := modify (set_alarm_enabled false).
Definition enable_alarm : T unit := modify (set_alarm_enabled true).

(** *** Internal helper functions *)

(** The loop of [find_active_timeout], from cell [i] on; [q] is the part of
    [active_timeouts] not yet visited. *)
Fixpoint find_active_timeout_from (id : TimeoutId) (q : list nat) (i : Z)
  : T Z :=
  match q with
  | [] => ret (-1)
  | p :: q' =>
      let! tp := slot p in
      if Nat.eqb (index tp) id then ret i
      else find_active_timeout_from id q' (i + 1)
  end.

Definition find_active_timeout (id : TimeoutId) : T Z :=
  let! s := get in
  find_active_timeout_from id (active_timeouts s) 0.

(** The shift loop moves cells [index .. num_active_timeouts-1] one place
    up and ends with a store to cell [num_active_timeouts] at the latest,
    which is outside the array when all [MAX_TIMEOUTS] cells are in use. *)
Definition insert_timeout (id : TimeoutId) (index : Z) : T unit :=
  let! s := get in
  if (index <? 0) || (index >? num_active_timeouts s)
  then ereport FATAL ERRCODE_INTERNAL_ERROR
  else
    update_slot id (set_tp_active true) ;;
    if (MAX_TIMEOUTS <=? length (active_timeouts s))%nat then undefined
    else
      modify (fun s =>
        let q := active_timeouts s in
        let i := Z.to_nat index in
        set_active_timeouts (take i q ++ id :: drop i q) s).

Definition remove_timeout_index (index : Z) : T unit :=
  let! s := get in
  if (index <? 0) || (index >=? num_active_timeouts s)
  then ereport FATAL ERRCODE_INTERNAL_ERROR
  else
    match active_timeouts s !! Z.to_nat index with
    | None => undefined
    | Some p =>
        update_slot p (set_tp_active false) ;;
        modify (fun s =>
          set_active_timeouts (delete (Z.to_nat index) (active_timeouts s)) s)
    end.

(** The search loop of [enable_timeout]: the first cell whose timeout sorts
    after ([fin_time], [id]), or [num_active_timeouts]. *)
Fixpoint enable_timeout_scan (id : TimeoutId) (fin : TimestampTz)
    (q : list nat) (i : Z) : T Z :=
  match q with
  | [] => ret i
  | p :: q' =>
      let! old_timeout := slot p in
      if fin <? fin_time old_timeout then ret i
      else if (fin =? fin_time old_timeout)
              && (id <? index old_timeout)%nat then ret i
      else enable_timeout_scan id fin q' (i + 1)
  end.

Definition enable_timeout (id : TimeoutId) (now fin : TimestampTz) : T unit :=
  let! tp := slot id in
  (when (active tp) then
     (let! i := find_active_timeout id in remove_timeout_index i)) ;;
  let! s := get in
  let! i := enable_timeout_scan id fin (active_timeouts s) 0 in
  update_slot id (set_tp_indicator false) ;;
  update_slot id (set_tp_start_time now) ;;
  update_slot id (set_tp_fin_time fin) ;;
  insert_timeout id i.

Definition schedule_alarm (now : TimestampTz) : T unit :=
  let! s := get in
  match active_timeouts s with
  | [] => ret tt
  | p :: _ =>
      let! head := slot p in
      let d := TimestampDifference now (fin_time head) in
      let secs := fst d in
      let usecs := if (secs =? 0) && (snd d =? 0) then 1 else snd d in
      enable_alarm ;;
      let! rc := setitimer (secs, usecs) in
      if rc =? 0 then ret tt else ereport FATAL ERRCODE_INTERNAL_ERROR
  end.

(** *** Signal handler *)

(** What a call through a registered handler pointer does.  A handler is
    arbitrary backend code: it may use the public functions of this module
    and it may leave by [ereport]. *)
Variable handler_body : timeout_handler_proc -> T unit.

(** [MyProc != NULL], and [CHECK_FOR_INTERRUPTS()] of miscadmin.h, which
    either returns or leaves by [ereport]. *)
Variable MyProc : bool.
Variable CHECK_FOR_INTERRUPTS : M host_state unit.

Definition on_host {A} (m : M host_state A) : T A := fun s =>
  match m (host s) with
  | Ok a h => Ok a (set_host h s)
  | Raise lvl code h => Raise lvl code (set_host h s)
  | Undefined => Undefined
  end.

(** The [while] loop of [handle_sig_alarm].  The loop need not end (a
    handler may re-arm a timeout that is already due), so it runs on fuel:
    [None] is returned when [fuel] iterations were not enough, [Some now]
    with the last clock reading when the loop condition became false. *)
Fixpoint handle_sig_alarm_loop (fuel : nat) (now : TimestampTz)
  : T (option TimestampTz) :=
  let! s := get in
  match active_timeouts s with
  | [] => ret (Some now)
  | p :: _ =>
      let! head := slot p in
      if now >=? fin_time head then
        match fuel with
        | O => ret None
        | S fuel' =>
            (* this_timeout = active_timeouts[0] *)
            remove_timeout_index 0 ;;
            update_slot p (set_tp_indicator true) ;;
            let! this_timeout := slot p in
            modify (fun s =>
              set_handler_log
                (handler_log s ++ [(fin_time this_timeout, index this_timeout)])
                s) ;;
            match timeout_handler this_timeout with
            | None => undefined
            | Some h => handler_body h
            end ;;
            let! now' := GetCurrentTimestamp in
            handle_sig_alarm_loop fuel' now'
        end
      else ret (Some now)
  end.

Definition handle_sig_alarm (fuel : nat) : T (option unit) :=
  let! s0 := get in
  let save_ImmediateInterruptOK := ImmediateInterruptOK (host s0) in
  set_ImmediateInterruptOK false ;;
  HOLD_INTERRUPTS ;;
  (when MyProc then SetLatch) ;;
  let! s := get in
  let! fired :=
    (if alarm_enabled s then
       disable_alarm ;;
       match active_timeouts s with
       | [] => ret (Some tt)
       | _ :: _ =>
           let! now := GetCurrentTimestamp in
           let! r := handle_sig_alarm_loop fuel now in
           match r with
           | None => ret None
           | Some now' => schedule_alarm now' ;; ret (Some tt)
           end
       end
     else ret (Some tt)) in
  match fired with
  | None => ret None
  | Some _ =>
      RESUME_INTERRUPTS ;;
      set_ImmediateInterruptOK save_ImmediateInterruptOK ;;
      (when save_ImmediateInterruptOK then on_host CHECK_FOR_INTERRUPTS) ;;
      ret (Some tt)
  end.

(** *** Public API *)

Definition blank_timeout (i : TimeoutId) : timeout_params :=
  {| index := i; active := false; indicator := false;
     timeout_handler := None; start_time := 0; fin_time := 0 |}.

(** [pqsignal(SIGALRM, handle_sig_alarm)] installs the handler with the
    host; the module's own variables are not touched by it. *)
Definition InitializeTimeouts : T unit :=
  disable_alarm ;;
  modify (set_active_timeouts []) ;;
  modify (set_all_timeouts (blank_timeout <$> seq 0 MAX_TIMEOUTS)) ;;
  modify (set_initialized true).

(** The allocation loop of [RegisterTimeout]: [n] ids remain to be tried,
    starting at [id]; the result is the value of [id] when the loop ends. *)
Fixpoint RegisterTimeout_scan (n : nat) (id : TimeoutId) : T TimeoutId :=
  match n with
  | O => ret id
  | S n' =>
      let! tp := slot id in
      match timeout_handler tp with
      | None => ret id
      | Some _ => RegisterTimeout_scan n' (S id)
      end
  end.

Definition RegisterTimeout (id : TimeoutId)
    (handler : option timeout_handler_proc) : T TimeoutId :=
  let! id :=
    (if (USER_TIMEOUT <=? id)%nat
        && (id <? GP_PARALLEL_RETRIEVE_CURSOR_CHECK_TIMEOUT)%nat
     then
       let! id := RegisterTimeout_scan
                    (GP_PARALLEL_RETRIEVE_CURSOR_CHECK_TIMEOUT - USER_TIMEOUT)
                    USER_TIMEOUT in
       if (GP_PARALLEL_RETRIEVE_CURSOR_CHECK_TIMEOUT <=? id)%nat
       then ereport FATAL ERRCODE_CONFIGURATION_LIMIT_EXCEEDED
       else ret id
     else ret id) in
  update_slot id (set_tp_handler handler) ;;
  ret id.

Definition reschedule_timeouts : T unit :=
  let! s := get in
  if all_timeouts_initialized s then
    disable_alarm ;;
    match active_timeouts s with
    | [] => ret tt
    | _ :: _ => let! now := GetCurrentTimestamp in schedule_alarm now
    end
  else ret tt.

Definition enable_timeout_after (id : TimeoutId) (delay_ms : Z) : T unit :=
  disable_alarm ;;
  let! now := GetCurrentTimestamp in
  let fin_time := TimestampTzPlusMilliseconds now delay_ms in
  enable_timeout id now fin_time ;;
  schedule_alarm now.

Definition enable_timeout_at (id : TimeoutId) (fin_time : TimestampTz)
  : T unit :=
  disable_alarm ;;
  let! now := GetCurrentTimestamp in
  enable_timeout id now fin_time ;;
  schedule_alarm now.

Fixpoint enable_timeouts_loop (now : TimestampTz)
    (timeouts : list EnableTimeoutParams) : T unit :=
  match timeouts with
  | [] => ret tt
  | t :: rest =>
      match etp_type t with
      | TMPARAM_AFTER =>
          enable_timeout (etp_id t) now
            (TimestampTzPlusMilliseconds now (etp_delay_ms t))
      | TMPARAM_AT => enable_timeout (etp_id t) now (etp_fin_time t)
      | TMPARAM_unrecognized _ => ereport ERROR ERRCODE_INTERNAL_ERROR
      end ;;
      enable_timeouts_loop now rest
  end.

Definition enable_timeouts (timeouts : list EnableTimeoutParams) : T unit :=
  disable_alarm ;;
  let! now := GetCurrentTimestamp in
  enable_timeouts_loop now timeouts ;;
  schedule_alarm now.

(** The part shared by [disable_timeout] and the loop body of
    [disable_timeouts]: the two functions repeat it verbatim. *)
Definition disable_one (id : TimeoutId) (keep_indicator : bool) : T unit :=
  let! tp := slot id in
  (when (active tp) then
     (let! i := find_active_timeout id in remove_timeout_index i)) ;;
  (when (negb keep_indicator) then update_slot id (set_tp_indicator false)).

Definition reschedule_if_active : T unit :=
  let! s := get in
  match active_timeouts s with
  | [] => ret tt
  | _ :: _ => let! now := GetCurrentTimestamp in schedule_alarm now
  end.

Definition disable_timeout (id : TimeoutId) (keep_indicator : bool) : T unit :=
  disable_alarm ;;
  disable_one id keep_indicator ;;
  reschedule_if_active.

Fixpoint disable_timeouts_loop (timeouts : list DisableTimeoutParams)
  : T unit :=
  match timeouts with
  | [] => ret tt
  | t :: rest =>
      disable_one (dtp_id t) (dtp_keep_indicator t) ;;
      disable_timeouts_loop rest
  end.

Definition disable_timeouts (timeouts : list DisableTimeoutParams) : T unit :=
  disable_alarm ;;
  disable_timeouts_loop timeouts ;;
  reschedule_if_active.

Definition disable_all_timeouts (keep_indicators : bool) : T unit :=
  disable_alarm ;;
  let! s := get in
  (match active_timeouts s with
   | [] => ret tt
   | _ :: _ =>
       let! rc := setitimer (0, 0) in
       if rc =? 0 then ret tt else ereport FATAL ERRCODE_INTERNAL_ERROR
   end) ;;
  modify (set_active_timeouts []) ;;
  modify (fun s =>
    set_all_timeouts
      ((fun tp =>
          let tp := set_tp_active false tp in
          if keep_indicators then tp else set_tp_indicator false tp)
         <$> all_timeouts s) s).

Definition get_timeout_active (id : TimeoutId) : T bool :=
  let! tp := slot id in ret (active tp).

Definition get_timeout_indicator (id : TimeoutId) (reset_indicator : bool)
  : T bool :=
  let! tp := slot id in
  if indicator tp then
    (when reset_indicator then update_slot id (set_tp_indicator false)) ;;
    ret true
  else ret false.

Definition get_timeout_start_time (id : TimeoutId) : T TimestampTz :=
  let! tp := slot id in ret (start_time tp).

Definition get_timeout_finish_time (id : TimeoutId) : T TimestampTz :=
  let! tp := slot id in ret (fin_time tp).

(** ** Specification vocabulary *)

(** The sort key of a timeout: [fin_time], then [index] ("priority"). *)
Definition key : Type := TimestampTz * TimeoutId.

Definition key_lt (a b : key) : Prop :=
  a.1 < b.1 \/ (a.1 = b.1 /\ (a.2 < b.2)%nat).
Definition key_le (a b : key) : Prop :=
  a.1 < b.1 \/ (a.1 = b.1 /\ (a.2 <= b.2)%nat).
Definition key_ltb (a b : key) : bool :=
  (a.1 <? b.1) || ((a.1 =? b.1) && (a.2 <? b.2)%nat).

(** The key seen through the pointer stored in a cell of [active_timeouts]. *)
Definition cell_key (tbl : list timeout_params) (p : nat) : key :=
  match tbl !! p with
  | Some tp => (fin_time tp, index tp)
  | None => (0, 0%nat)
  end.

Definition sorted_by (K : nat -> key) (q : list nat) : Prop :=
  StronglySorted (fun a b => key_le (K a) (K b)) q.

(** The active list is in ascending order of ([fin_time], [index]). *)
Definition queue_sorted (s : mux_state) : Prop :=
  sorted_by (cell_key (all_timeouts s)) (active_timeouts s).

(** Number of cells of the active list that point to [all_timeouts[id]]. *)
Definition occurrences (id : TimeoutId) (q : list nat) : nat :=
  length (filter (fun p => p = id) q).

(** Position at which the search loop of [enable_timeout] stops. *)
Fixpoint insert_pos (K : nat -> key) (kx : key) (q : list nat) : nat :=
  match q with
  | [] => 0%nat
  | p :: q' => if key_ltb kx (K p) then 0%nat else S (insert_pos K kx q')
  end.

(** First position of [id] in the list. *)
Fixpoint position (id : nat) (q : list nat) : option nat :=
  match q with
  | [] => None
  | p :: q' => if Nat.eqb p id then Some 0%nat else S <$> position id q'
  end.

(** The representation invariant of the module's variables. *)
Record mux_inv (s : mux_state) : Prop := {
  inv_length : length (all_timeouts s) = MAX_TIMEOUTS;
  inv_index : forall i tp, all_timeouts s !! i = Some tp -> index tp = i;
  inv_cells : forall p, p ∈ active_timeouts s -> (p < MAX_TIMEOUTS)%nat;
  inv_nodup : NoDup (active_timeouts s);
  inv_active : forall i tp, all_timeouts s !! i = Some tp ->
                 (active tp = true <-> i ∈ active_timeouts s);
  inv_sorted : queue_sorted s
}.

(** The operations that claim T1 ranges over. *)
Inductive mainline_op :=
| Op_enable_timeout_after (id : TimeoutId) (delay_ms : Z)
| Op_enable_timeout_at (id : TimeoutId) (fin_time : TimestampTz)
| Op_enable_timeouts (timeouts : list EnableTimeoutParams)
| Op_disable_timeout (id : TimeoutId) (keep_indicator : bool)
| Op_disable_timeouts (timeouts : list DisableTimeoutParams).

Definition run_op (op : mainline_op) : T unit :=
  match op with
  | Op_enable_timeout_after id d => enable_timeout_after id d
  | Op_enable_timeout_at id f => enable_timeout_at id f
  | Op_enable_timeouts l => enable_timeouts l
  | Op_disable_timeout id k => disable_timeout id k
  | Op_disable_timeouts l => disable_timeouts l
  end.

Definition op_ids (op : mainline_op) : list TimeoutId :=
  match op with
  | Op_enable_timeout_after id _ => [id]
  | Op_enable_timeout_at id _ => [id]
  | Op_enable_timeouts l => etp_id <$> l
  | Op_disable_timeout id _ => [id]
  | Op_disable_timeouts l => dtp_id <$> l
  end.

(** Arithmetic goals are closed by [lia] after the parameters of the
    section that the goal does not mention are cleared, so that no lemma
    depends on a parameter its statement does not name. *)
Ltac tidy :=
  try clear handler_body; try clear CHECK_FOR_INTERRUPTS; try clear MyProc;
  try clear TimestampDifference; try clear TimestampTzPlusMilliseconds;
  try clear setitimer_rc; try clear GetCurrentTimestamp_value;
  try clear USER_TIMEOUT; try clear GP_PARALLEL_RETRIEVE_CURSOR_CHECK_TIMEOUT;
  try clear MAX_TIMEOUTS.

Ltac lia := tidy; Lia.lia.

(** ** Keys and sorted insertion *)

Lemma key_ltb_spec a b : key_ltb a b = true <-> key_lt a b.
Proof.
  unfold key_ltb, key_lt. rewrite orb_true_iff, andb_true_iff.
  rewrite Z.ltb_lt, Z.eqb_eq, Nat.ltb_lt. tidy. tauto.
Qed.

Lemma key_lt_le a b : key_lt a b -> key_le a b.
Proof. unfold key_lt, key_le. lia. Qed.

Lemma key_not_lt_le a b : ~ key_lt a b -> key_le b a.
Proof. unfold key_lt, key_le. lia. Qed.

Lemma key_lt_le_trans a b c : key_lt a b -> key_le b c -> key_lt a c.
Proof. unfold key_lt, key_le. lia. Qed.

Lemma key_le_neq_lt a b : key_le a b -> a.2 <> b.2 -> key_lt a b.
Proof. unfold key_lt, key_le. lia. Qed.

Lemma key_lt_irrefl a : ~ key_lt a a.
Proof. unfold key_lt. lia. Qed.

Lemma sorted_by_filter K (P : nat -> Prop) `{forall x, Decision (P x)} q :
  sorted_by K q -> sorted_by K (filter P q).
Proof.
  induction 1 as [|p q Hs IH Hall]; [constructor|].
  rewrite filter_cons. destruct (decide (P p)); [|done].
  constructor; [done|]. rewrite Forall_forall in Hall |- *.
  intros x [_ Hx]%list_elem_of_filter. auto.
Qed.

Lemma sorted_by_ext K K' q :
  (forall p, p ∈ q -> K p = K' p) -> sorted_by K q -> sorted_by K' q.
Proof.
  intros Heq Hs. induction Hs as [|p q Hs IH Hall]; [constructor|].
  constructor.
  - apply IH. intros x Hx. apply Heq. by right.
  - rewrite Forall_forall in Hall |- *. intros x Hx.
    rewrite <- (Heq p), <- (Heq x); [auto | by right | by left].
Qed.

Lemma insert_pos_ext K K' kx q :
  (forall p, p ∈ q -> K p = K' p) -> insert_pos K kx q = insert_pos K' kx q.
Proof.
  induction q as [|p q IH]; intros Heq; simpl; [done|].
  rewrite (Heq p) by (by left). rewrite IH; [done|].
  intros x Hx. apply Heq. by right.
Qed.

Lemma insert_pos_le K kx q : (insert_pos K kx q <= length q)%nat.
Proof. induction q as [|p q IH]; simpl; [lia|]. destruct key_ltb; simpl; lia. Qed.

Lemma insert_pos_split K x q :
  sorted_by K q ->
  Forall (fun p => key_le (K p) (K x)) (take (insert_pos K (K x) q) q) /\
  Forall (fun p => key_lt (K x) (K p)) (drop (insert_pos K (K x) q) q).
Proof.
  induction 1 as [|p q Hs IH Hall]; simpl; [by split; constructor|].
  destruct (key_ltb (K x) (K p)) eqn:E; simpl.
  - apply key_ltb_spec in E. split; [constructor|].
    constructor; [done|]. eapply Forall_impl; [exact Hall|].
    intros y Hy. eapply key_lt_le_trans; eauto.
  - destruct IH as [IH1 IH2]. split; [|done].
    constructor; [|done]. apply key_not_lt_le.
    rewrite <- key_ltb_spec. congruence.
Qed.

Lemma insert_pos_sorted K x q :
  sorted_by K q ->
  sorted_by K (take (insert_pos K (K x) q) q
               ++ x :: drop (insert_pos K (K x) q) q).
Proof.
  intros Hs. destruct (insert_pos_split K x q Hs) as [H1 H2].
  unfold sorted_by in *.
  rewrite <- (take_drop (insert_pos K (K x) q) q) in Hs at 1.
  apply StronglySorted_app in Hs as (Htd & Ht & Hd).
  rewrite Forall_forall in H1. rewrite Forall_forall in H2.
  apply StronglySorted_app_2; [|done|].
  - intros a b Ha [->|Hb]%elem_of_cons; auto.
  - constructor; [done|]. apply Forall_forall.
    intros y Hy. apply key_lt_le; auto.
Qed.

Lemma position_Some id q k : position id q = Some k -> q !! k = Some id.
Proof.
  revert k. induction q as [|p q IH]; intros k; simpl; [done|].
  destruct (Nat.eqb_spec p id) as [->|Hne].
  - by intros [= <-].
  - destruct (position id q) as [k'|]; simpl; [|done].
    intros [= <-]. simpl. by apply IH.
Qed.

Lemma position_elem_of id q : id ∈ q -> is_Some (position id q).
Proof.
  induction q as [|p q IH]; [by intros ?%elem_of_nil|].
  intros [->|Hin]%elem_of_cons; simpl.
  - rewrite Nat.eqb_refl. eauto.
  - destruct (Nat.eqb p id); [eauto|].
    destruct (IH Hin) as [k ->]. simpl. eauto.
Qed.

Lemma delete_filter_ne (q : list nat) k id :
  NoDup q -> q !! k = Some id -> delete k q = filter (fun p => p <> id) q.
Proof.
  revert k. induction q as [|p q IH]; intros k Hnd Hk; [done|].
  apply NoDup_cons in Hnd as [Hnotin Hnd].
  destruct k as [|k]; simpl in *.
  - injection Hk as ->. rewrite filter_cons_False by (intros ?; congruence).
    symmetry. clear IH Hnd. induction q as [|x q IHq]; [done|].
    apply not_elem_of_cons in Hnotin as [Hne Hq].
    rewrite filter_cons_True by congruence. f_equal. auto.
  - assert (p <> id).
    { intros ->. apply Hnotin. eapply list_elem_of_lookup_2. eauto. }
    rewrite filter_cons_True by done. f_equal. auto.
Qed.

Lemma filter_ne_notin (q : list nat) id :
  id ∉ q -> filter (fun p => p <> id) q = q.
Proof.
  induction q as [|x q IH]; [done|].
  intros [Hne Hq]%not_elem_of_cons.
  rewrite filter_cons_True by congruence. f_equal. auto.
Qed.

Lemma filter_eq_notin (q : list nat) id :
  id ∉ q -> filter (fun p => p = id) q = [].
Proof.
  induction q as [|y q IHq]; [done|].
  intros [Hne Hq]%not_elem_of_cons.
  rewrite filter_cons_False by congruence. auto.
Qed.

Lemma occurrences_NoDup id q :
  NoDup q -> (occurrences id q = 1%nat <-> id ∈ q).
Proof.
  unfold occurrences. induction 1 as [|x q Hnotin Hnd IH].
  - simpl. split; [done | by intros ?%elem_of_nil].
  - rewrite filter_cons. case_decide as Hd.
    + subst x. rewrite filter_eq_notin by done. simpl.
      split; [intros _; by left | by intros _].
    + rewrite IH, elem_of_cons.
      split; [by right | by intros [?|?]; [congruence|]].
Qed.

(** ** The helper functions on a well-formed state *)

(** Safety and postcondition in one: the computation does not run into
    undefined behaviour, [Q] holds if it returns and [E] if it leaves by
    [ereport]. *)
Definition wp {A} (m : T A) (Q : A -> mux_state -> Prop)
    (E : mux_state -> Prop) (s : mux_state) : Prop :=
  match m s with
  | Ok a s' => Q a s'
  | Raise _ _ s' => E s'
  | Undefined => False
  end.

Lemma wp_bind {A B} (m : T A) (k : A -> T B) Q E s :
  wp m (fun a s1 => wp (k a) Q E s1) E s -> wp (bind m k) Q E s.
Proof. unfold wp, bind. destruct (m s); auto. Qed.

Lemma wp_Ok {A} (m : T A) Q E s a s' : m s = Ok a s' -> Q a s' -> wp m Q E s.
Proof. unfold wp. by intros ->. Qed.

Lemma wp_mono {A} (m : T A) (Q Q' : A -> mux_state -> Prop)
    (E E' : mux_state -> Prop) s :
  wp m Q E s -> (forall a s', Q a s' -> Q' a s') -> (forall s', E s' -> E' s') ->
  wp m Q' E' s.
Proof. unfold wp. destruct (m s); auto. Qed.

(** Two states with the same reason table, active list and handler log. *)
Definition same_queue (s s' : mux_state) : Prop :=
  all_timeouts s' = all_timeouts s /\
  active_timeouts s' = active_timeouts s /\
  handler_log s' = handler_log s.

Lemma same_queue_refl s : same_queue s s.
Proof. by split. Qed.

Lemma same_queue_trans s1 s2 s3 :
  same_queue s1 s2 -> same_queue s2 s3 -> same_queue s1 s3.
Proof. unfold same_queue. intros (-> & -> & ->) (-> & -> & ->). done. Qed.

Lemma mux_inv_same s s' : same_queue s s' -> mux_inv s -> mux_inv s'.
Proof.
  intros (Ht & Hq & _) [H1 H2 H3 H4 H5 H6].
  split; unfold queue_sorted in *; rewrite ?Ht, ?Hq; done.
Qed.

Lemma inv_lookup s id :
  mux_inv s -> (id < MAX_TIMEOUTS)%nat ->
  exists tp, all_timeouts s !! id = Some tp /\ index tp = id.
Proof.
  intros Hinv Hid.
  destruct (lookup_lt_is_Some_2 (all_timeouts s) id) as [tp Htp].
  { by rewrite (inv_length _ Hinv). }
  exists tp. split; [done|]. by eapply inv_index.
Qed.

Lemma inv_cell_lookup s p :
  mux_inv s -> p ∈ active_timeouts s ->
  exists tp, all_timeouts s !! p = Some tp /\ index tp = p.
Proof. intros Hinv Hp. apply inv_lookup; [done|]. by eapply inv_cells. Qed.

Lemma slot_Ok id s tp : all_timeouts s !! id = Some tp -> slot id s = Ok tp s.
Proof. unfold slot. by intros ->. Qed.

Lemma update_slot_Ok id f s tp :
  all_timeouts s !! id = Some tp ->
  update_slot id f s
  = Ok tt (set_all_timeouts (<[id := f tp]> (all_timeouts s)) s).
Proof. unfold update_slot. by intros ->. Qed.

Lemma find_active_timeout_from_Ok id q i s :
  (forall p, p ∈ q -> exists tp, all_timeouts s !! p = Some tp /\ index tp = p) ->
  find_active_timeout_from id q i s
  = Ok (match position id q with
        | Some k => i + Z.of_nat k
        | None => -1
        end) s.
Proof.
  revert i. induction q as [|p q IH]; intros i Hq; simpl; [done|].
  destruct (Hq p) as (tp & Htp & Hidx); [by left|].
  unfold bind. rewrite (slot_Ok _ _ _ Htp), Hidx.
  destruct (Nat.eqb p id).
  - unfold ret. f_equal. lia.
  - rewrite IH by (intros x Hx; apply Hq; by right).
    destruct (position id q) as [k|]; simpl; [|done]. f_equal. lia.
Qed.

Lemma remove_timeout_index_Ok k s p tp :
  active_timeouts s !! k = Some p ->
  all_timeouts s !! p = Some tp ->
  remove_timeout_index (Z.of_nat k) s
  = Ok tt (set_active_timeouts (delete k (active_timeouts s))
             (set_all_timeouts
                (<[p := set_tp_active false tp]> (all_timeouts s)) s)).
Proof.
  intros Hk Hp. unfold remove_timeout_index, bind, get.
  pose proof (lookup_lt_Some _ _ _ Hk) as Hlt.
  assert ((Z.of_nat k <? 0) || (Z.of_nat k >=? num_active_timeouts s) = false)
    as ->.
  { unfold num_active_timeouts. apply orb_false_iff. split; lia. }
  rewrite Nat2Z.id, Hk. rewrite (update_slot_Ok _ _ _ _ Hp). done.
Qed.

(** The state after [id] was taken out of the active list. *)
Definition removed (id : TimeoutId) (tp : timeout_params) (s : mux_state)
  : mux_state :=
  set_active_timeouts (filter (fun p => p <> id) (active_timeouts s))
    (set_all_timeouts (<[id := set_tp_active false tp]> (all_timeouts s)) s).

Lemma set_tp_active_id tp : set_tp_active (active tp) tp = tp.
Proof. by destruct tp. Qed.

Lemma deactivate_Ok id tp s :
  mux_inv s -> all_timeouts s !! id = Some tp ->
  (when (active tp) then
     (let! i := find_active_timeout id in remove_timeout_index i)) s
  = Ok tt (removed id tp s).
Proof.
  intros Hinv Htp. destruct (active tp) eqn:Hact.
  - assert (id ∈ active_timeouts s) as Hin by (by eapply inv_active).
    destruct (position_elem_of _ _ Hin) as [k Hk].
    unfold find_active_timeout, bind, get.
    rewrite find_active_timeout_from_Ok by (intros; by apply inv_cell_lookup).
    rewrite Hk, Z.add_0_l. apply position_Some in Hk.
    rewrite (remove_timeout_index_Ok _ _ _ _ Hk Htp).
    unfold removed. rewrite (delete_filter_ne _ k id); [done| |done].
    by apply inv_nodup.
  - unfold ret, removed. f_equal.
    rewrite filter_ne_notin.
    + rewrite <- Hact, set_tp_active_id, list_insert_id by done. by destruct s.
    + intros Hin. eapply inv_active in Hin; [|done..]. congruence.
Qed.

Lemma cell_key_insert_ne tbl id tp' p :
  p <> id -> cell_key (<[id := tp']> tbl) p = cell_key tbl p.
Proof. intros Hne. unfold cell_key. by rewrite list_lookup_insert_ne. Qed.

Lemma cell_key_insert_same tbl id tp tp' p :
  tbl !! id = Some tp ->
  fin_time tp' = fin_time tp -> index tp' = index tp ->
  cell_key (<[id := tp']> tbl) p = cell_key tbl p.
Proof.
  intros Htp Hf Hi. destruct (decide (p = id)) as [->|Hne].
  - unfold cell_key. rewrite list_lookup_insert_eq, Htp, Hf, Hi; [done|].
    by eapply lookup_lt_Some.
  - by apply cell_key_insert_ne.
Qed.

(** Writing fields of a slot other than [active], [index] and [fin_time]. *)
Lemma mux_inv_update_neutral s id tp tp' :
  mux_inv s -> all_timeouts s !! id = Some tp ->
  index tp' = index tp -> active tp' = active tp ->
  fin_time tp' = fin_time tp ->
  mux_inv (set_all_timeouts (<[id := tp']> (all_timeouts s)) s).
Proof.
  intros [H1 H2 H3 H4 H5 H6] Htp Hi Ha Hf. split; simpl.
  - by rewrite length_insert.
  - intros i x [(<- & <- & _)|[_ Hx]]%list_lookup_insert_Some; [|eauto].
    rewrite Hi. eauto.
  - done.
  - done.
  - intros i x [(<- & <- & _)|[_ Hx]]%list_lookup_insert_Some; [|eauto].
    rewrite Ha. eauto.
  - unfold queue_sorted in *. simpl. eapply sorted_by_ext; [|exact H6].
    intros p _. symmetry. by eapply cell_key_insert_same.
Qed.

Lemma removed_inv id tp s :
  mux_inv s -> all_timeouts s !! id = Some tp -> mux_inv (removed id tp s).
Proof.
  intros [H1 H2 H3 H4 H5 H6] Htp. unfold removed. split; simpl.
  - by rewrite length_insert.
  - intros i x [(<- & <- & _)|[_ Hx]]%list_lookup_insert_Some; simpl; eauto.
  - intros p [_ Hp]%list_elem_of_filter. auto.
  - by apply NoDup_filter.
  - intros i x [(<- & <- & _)|[Hne Hx]]%list_lookup_insert_Some; simpl.
    + rewrite list_elem_of_filter. split; [done | by intros [? _]].
    + rewrite list_elem_of_filter, (H5 _ _ Hx). split; [|by intros [_ ?]].
      intros ?; split; [congruence | done].
  - unfold queue_sorted in *. simpl. apply sorted_by_filter.
    eapply sorted_by_ext; [|exact H6].
    intros p _. symmetry. by eapply cell_key_insert_same.
Qed.

Lemma removed_lookup id tp s :
  all_timeouts s !! id = Some tp ->
  all_timeouts (removed id tp s) !! id = Some (set_tp_active false tp).
Proof.
  intros Htp. simpl. apply list_lookup_insert_eq. by eapply lookup_lt_Some.
Qed.

Lemma removed_notin id tp s : id ∉ active_timeouts (removed id tp s).
Proof. simpl. by intros [? _]%list_elem_of_filter. Qed.

(** The slot of [id] after [enable_timeout]. *)
Definition armed_slot (tp : timeout_params) (now fin : TimestampTz)
  : timeout_params :=
  {| index := index tp; active := true; indicator := false;
     timeout_handler := timeout_handler tp;
     start_time := now; fin_time := fin |}.

(** The state after [enable_timeout id now fin], for [tp] the slot of [id]
    before the call. *)
Definition enabled (id : TimeoutId) (tp : timeout_params)
    (now fin : TimestampTz) (s : mux_state) : mux_state :=
  let tbl := <[id := armed_slot tp now fin]> (all_timeouts s) in
  let q := filter (fun p => p <> id) (active_timeouts s) in
  let k := insert_pos (cell_key tbl) (fin, id) q in
  set_active_timeouts (take k q ++ id :: drop k q) (set_all_timeouts tbl s).

Lemma enable_timeout_scan_Ok id fin q i s :
  (forall p, p ∈ q -> is_Some (all_timeouts s !! p)) ->
  enable_timeout_scan id fin q i s
  = Ok (i + Z.of_nat (insert_pos (cell_key (all_timeouts s)) (fin, id) q)) s.
Proof.
  revert i. induction q as [|p q IH]; intros i Hq; simpl.
  - unfold ret. f_equal. lia.
  - destruct (Hq p) as [tp Htp]; [by left|].
    unfold bind. rewrite (slot_Ok _ _ _ Htp).
    assert (cell_key (all_timeouts s) p = (fin_time tp, index tp)) as Hk
      by (unfold cell_key; by rewrite Htp).
    unfold key_ltb. rewrite Hk. simpl.
    destruct (fin <? fin_time tp); simpl.
    + unfold ret. f_equal. lia.
    + destruct ((fin =? fin_time tp) && (id <? index tp)%nat); simpl.
      * unfold ret. f_equal. lia.
      * rewrite IH by (intros x Hx; apply Hq; by right). f_equal. lia.
Qed.

Lemma insert_timeout_Ok id k s tp :
  all_timeouts s !! id = Some tp ->
  (k <= length (active_timeouts s))%nat ->
  (length (active_timeouts s) < MAX_TIMEOUTS)%nat ->
  insert_timeout id (Z.of_nat k) s
  = Ok tt (set_active_timeouts
             (take k (active_timeouts s) ++ id :: drop k (active_timeouts s))
             (set_all_timeouts
                (<[id := set_tp_active true tp]> (all_timeouts s)) s)).
Proof.
  intros Htp Hk Hlen. unfold insert_timeout, bind, get.
  assert ((Z.of_nat k <? 0) || (Z.of_nat k >? num_active_timeouts s) = false)
    as ->.
  { unfold num_active_timeouts. apply orb_false_iff. split; lia. }
  rewrite (update_slot_Ok _ _ _ _ Htp). simpl.
  destruct (Nat.leb_spec MAX_TIMEOUTS (length (active_timeouts s))); [lia|].
  unfold modify. simpl. by rewrite Nat2Z.id.
Qed.

(** A list of distinct numbers below [n] that misses one of them is shorter
    than [n]: the active array cannot overflow. *)
Lemma NoDup_bounded_length (q : list nat) n x :
  NoDup q -> (forall p, p ∈ q -> (p < n)%nat) -> (x < n)%nat -> x ∉ q ->
  (length q < n)%nat.
Proof.
  intros Hnd Hb Hx Hnotin.
  assert (x :: q ⊆+ seq 0 n) as Hsub.
  { apply NoDup_submseteq; [by apply NoDup_cons|].
    intros y [->|Hy]%elem_of_cons; apply elem_of_seq; [lia|].
    specialize (Hb _ Hy). lia. }
  apply submseteq_length in Hsub. rewrite length_seq in Hsub. simpl in Hsub. lia.
Qed.

Lemma update_slot_lookup id tp' s :
  (id < length (all_timeouts s))%nat ->
  all_timeouts (set_all_timeouts (<[id := tp']> (all_timeouts s)) s) !! id
  = Some tp'.
Proof. intros. simpl. by apply list_lookup_insert_eq. Qed.

Lemma enable_timeout_Ok id tp now fin s :
  mux_inv s -> all_timeouts s !! id = Some tp ->
  enable_timeout id now fin s = Ok tt (enabled id tp now fin s).
Proof.
  intros Hinv Htp. unfold enable_timeout.
  pose proof (lookup_lt_Some _ _ _ Htp) as Hlt.
  rewrite (bind_of_Ok _ _ _ _ _ (slot_Ok _ _ _ Htp)).
  rewrite (bind_of_Ok _ _ _ _ _ (deactivate_Ok _ _ _ Hinv Htp)).
  pose proof (removed_inv _ _ _ Hinv Htp) as Hinv1.
  pose proof (removed_lookup _ _ _ Htp) as Htp1.
  pose proof (removed_notin id tp s) as Hnotin.
  assert (Hcells : forall p, p ∈ active_timeouts (removed id tp s) ->
                     is_Some (all_timeouts (removed id tp s) !! p)).
  { intros p Hp. destruct (inv_cell_lookup _ _ Hinv1 Hp) as (x & Hx & _). eauto. }
  rewrite (bind_of_Ok _ _ _ _ _ (eq_refl : get (removed id tp s) = Ok _ _)).
  rewrite (bind_of_Ok _ _ _ _ _ (enable_timeout_scan_Ok id fin _ 0 _ Hcells)).
  rewrite (bind_of_Ok _ _ _ _ _ (update_slot_Ok id _ _ _ Htp1)).
  erewrite bind_of_Ok; cycle 1.
  { apply update_slot_Ok. apply update_slot_lookup. simpl.
    by rewrite length_insert. }
  erewrite bind_of_Ok; cycle 1.
  { apply update_slot_Ok. apply update_slot_lookup. simpl.
    by rewrite !length_insert. }
  rewrite Z.add_0_l. erewrite insert_timeout_Ok; cycle 1.
  { apply update_slot_lookup. simpl. by rewrite !length_insert. }
  { simpl. apply insert_pos_le. }
  { simpl. eapply NoDup_bounded_length;
      [exact (inv_nodup _ Hinv1) | exact (inv_cells _ Hinv1) |
       rewrite <- (inv_length _ Hinv); exact Hlt | exact Hnotin]. }
  unfold enabled, removed, set_active_timeouts, set_all_timeouts. simpl.
  rewrite !list_insert_insert_eq. f_equal. f_equal.
  assert (insert_pos
            (cell_key (<[id:=set_tp_active false tp]> (all_timeouts s)))
            (fin, id) (filter (fun p => p <> id) (active_timeouts s))
          = insert_pos
              (cell_key (<[id:=armed_slot tp now fin]> (all_timeouts s)))
              (fin, id) (filter (fun p => p <> id) (active_timeouts s))) as ->;
    [|done].
  apply insert_pos_ext. intros p [Hp _]%list_elem_of_filter.
  by rewrite !cell_key_insert_ne.
Qed.


Lemma enabled_queue_elem_of id tp now fin s p :
  p ∈ active_timeouts (enabled id tp now fin s)
  <-> p = id \/ (p <> id /\ p ∈ active_timeouts s).
Proof.
  simpl. rewrite elem_of_app, elem_of_cons.
  set (q := filter (fun p => p <> id) (active_timeouts s)).
  set (k := insert_pos _ _ q).
  assert (p ∈ q <-> p ∈ take k q \/ p ∈ drop k q) as Hq.
  { rewrite <- elem_of_app. by rewrite take_drop. }
  assert (p ∈ q <-> p <> id /\ p ∈ active_timeouts s) as Hf
    by (unfold q; by rewrite list_elem_of_filter).
  tidy. tauto.
Qed.

Lemma enabled_lookup id tp now fin s :
  all_timeouts s !! id = Some tp ->
  all_timeouts (enabled id tp now fin s) !! id = Some (armed_slot tp now fin).
Proof.
  intros Htp. simpl. apply list_lookup_insert_eq. by eapply lookup_lt_Some.
Qed.

Lemma enabled_lookup_ne id tp now fin s j :
  j <> id ->
  all_timeouts (enabled id tp now fin s) !! j = all_timeouts s !! j.
Proof. intros Hne. simpl. by apply list_lookup_insert_ne. Qed.

Lemma enabled_filter id tp now fin s :
  filter (fun p => p <> id) (active_timeouts (enabled id tp now fin s))
  = filter (fun p => p <> id) (active_timeouts s).
Proof.
  simpl. set (q := filter (fun p => p <> id) (active_timeouts s)).
  rewrite filter_app, filter_cons_False by (intros ?; congruence).
  rewrite <- filter_app, take_drop. apply filter_ne_notin.
  by intros [? _]%list_elem_of_filter.
Qed.

Lemma enabled_inv id tp now fin s :
  mux_inv s -> all_timeouts s !! id = Some tp ->
  mux_inv (enabled id tp now fin s).
Proof.
  intros Hinv Htp.
  pose proof (lookup_lt_Some _ _ _ Htp) as Hlt.
  pose proof (inv_index _ Hinv _ _ Htp) as Hidx.
  split.
  - simpl. rewrite length_insert. by apply inv_length.
  - intros i x. simpl.
    intros [(<- & <- & _)|[_ Hx]]%list_lookup_insert_Some; simpl; [done|].
    by eapply inv_index.
  - intros p [->|[_ Hp]]%enabled_queue_elem_of.
    + by rewrite <- (inv_length _ Hinv).
    + by eapply inv_cells.
  - simpl. set (q := filter (fun p => p <> id) (active_timeouts s)).
    set (k := insert_pos _ _ q).
    assert (take k q ++ id :: drop k q ≡ₚ id :: q) as ->.
    { rewrite <- Permutation_middle. by rewrite take_drop. }
    apply NoDup_cons. split.
    + by intros [? _]%list_elem_of_filter.
    + apply NoDup_filter. by apply inv_nodup.
  - intros i x Hx. rewrite enabled_queue_elem_of.
    destruct (decide (i = id)) as [->|Hne].
    + rewrite (enabled_lookup _ _ _ _ _ Htp) in Hx. injection Hx as <-.
      simpl. split; [by left | done].
    + rewrite enabled_lookup_ne in Hx by done.
      rewrite (inv_active _ Hinv _ _ Hx). split; [by right | by intros [?|[_ ?]]].
  - unfold queue_sorted. simpl.
    set (tbl := <[id := armed_slot tp now fin]> (all_timeouts s)).
    set (q := filter (fun p => p <> id) (active_timeouts s)).
    assert (cell_key tbl id = (fin, id)) as Hkey.
    { unfold cell_key, tbl. rewrite list_lookup_insert_eq by done.
      simpl. by rewrite Hidx. }
    rewrite <- Hkey. apply insert_pos_sorted.
    eapply sorted_by_ext;
      [|apply sorted_by_filter; exact (inv_sorted _ Hinv)].
    intros p [Hne _]%list_elem_of_filter. unfold tbl.
    by rewrite cell_key_insert_ne.
Qed.

(** ** The public functions preserve the invariant *)

Lemma wp_ret {A} (a : A) (Q : A -> mux_state -> Prop) E s :
  Q a s -> wp (ret a) Q E s.
Proof. done. Qed.

Lemma wp_modify f (Q : unit -> mux_state -> Prop) E s :
  Q tt (f s) -> wp (modify f) Q E s.
Proof. done. Qed.

Lemma wp_get (Q : mux_state -> mux_state -> Prop) E s :
  Q s s -> wp get Q E s.
Proof. done. Qed.

Lemma wp_GetCurrentTimestamp (Q : Z -> mux_state -> Prop) E s :
  (forall s', same_queue s s' ->
     Q (GetCurrentTimestamp_value (clock_reads (host s))) s') ->
  wp GetCurrentTimestamp Q E s.
Proof. intros HQ. apply HQ. by split. Qed.

Lemma wp_disable_alarm (Q : unit -> mux_state -> Prop) E s :
  (forall s', same_queue s s' -> Q tt s') -> wp disable_alarm Q E s.
Proof. intros HQ. apply HQ. by split. Qed.

Lemma wp_schedule_alarm now (Q : unit -> mux_state -> Prop)
    (E : mux_state -> Prop) s :
  mux_inv s ->
  (forall s', same_queue s s' -> Q tt s') ->
  (forall s', same_queue s s' -> E s') ->
  wp (schedule_alarm now) Q E s.
Proof.
  intros Hinv HQ HE. unfold schedule_alarm. apply wp_bind, wp_get.
  destruct (active_timeouts s) as [|p q] eqn:Hq.
  { apply wp_ret, HQ, same_queue_refl. }
  destruct (inv_cell_lookup s p Hinv) as (tp & Htp & _).
  { rewrite Hq. by left. }
  apply wp_bind. eapply wp_Ok; [by apply slot_Ok|].
  apply wp_bind, wp_modify, wp_bind. unfold wp, setitimer. simpl.
  destruct (setitimer_rc _ =? 0); simpl; [apply HQ | apply HE]; by split.
Qed.

Lemma wp_enable_timeout id now fin s :
  mux_inv s -> (id < MAX_TIMEOUTS)%nat ->
  wp (enable_timeout id now fin) (fun _ => mux_inv) mux_inv s.
Proof.
  intros Hinv Hid. destruct (inv_lookup s id Hinv Hid) as (tp & Htp & _).
  eapply wp_Ok; [by apply enable_timeout_Ok|]. by apply enabled_inv.
Qed.

Lemma wp_disable_one id keep s :
  mux_inv s -> (id < MAX_TIMEOUTS)%nat ->
  wp (disable_one id keep) (fun _ => mux_inv) mux_inv s.
Proof.
  intros Hinv Hid. destruct (inv_lookup s id Hinv Hid) as (tp & Htp & _).
  unfold disable_one. apply wp_bind. eapply wp_Ok; [by apply slot_Ok|].
  apply wp_bind. eapply wp_Ok; [by apply deactivate_Ok|].
  pose proof (removed_inv _ _ _ Hinv Htp) as Hinv1.
  destruct keep; simpl; [done|].
  eapply wp_Ok; [apply update_slot_Ok; by apply removed_lookup|].
  eapply mux_inv_update_neutral; [done | by apply removed_lookup | done..].
Qed.

Lemma wp_enable_timeouts_loop now l s :
  mux_inv s -> Forall (fun id => (id < MAX_TIMEOUTS)%nat) (etp_id <$> l) ->
  wp (enable_timeouts_loop now l) (fun _ => mux_inv) mux_inv s.
Proof.
  revert s. induction l as [|t l IH]; intros s Hinv Hids; simpl; [done|].
  apply Forall_cons in Hids as [Hid Hids]. apply wp_bind.
  destruct (etp_type t).
  - eapply wp_mono; [by apply wp_enable_timeout | | done].
    intros ? s' Hs'. by apply IH.
  - eapply wp_mono; [by apply wp_enable_timeout | | done].
    intros ? s' Hs'. by apply IH.
  - done.
Qed.

Lemma wp_disable_timeouts_loop l s :
  mux_inv s -> Forall (fun id => (id < MAX_TIMEOUTS)%nat) (dtp_id <$> l) ->
  wp (disable_timeouts_loop l) (fun _ => mux_inv) mux_inv s.
Proof.
  revert s. induction l as [|t l IH]; intros s Hinv Hids; simpl; [done|].
  apply Forall_cons in Hids as [Hid Hids]. apply wp_bind.
  eapply wp_mono; [by apply wp_disable_one | | done].
  intros ? s' Hs'. by apply IH.
Qed.

Lemma wp_reschedule_if_active s :
  mux_inv s -> wp reschedule_if_active (fun _ => mux_inv) mux_inv s.
Proof.
  intros Hinv. unfold reschedule_if_active. apply wp_bind, wp_get.
  destruct (active_timeouts s); [done|].
  apply wp_bind, wp_GetCurrentTimestamp. intros s1 Hs1.
  apply wp_schedule_alarm; [by eapply mux_inv_same | |];
    intros s2 Hs2; eapply mux_inv_same; [|exact Hinv | |exact Hinv];
    by eapply same_queue_trans.
Qed.

(** Every mainline operation is safe on a well-formed state and leaves a
    well-formed state, whether it returns or leaves by [ereport]. *)
Lemma wp_run_op op s :
  mux_inv s -> Forall (fun id => (id < MAX_TIMEOUTS)%nat) (op_ids op) ->
  wp (run_op op) (fun _ => mux_inv) mux_inv s.
Proof.
  intros Hinv Hids.
  assert (Hsched : forall now s1, mux_inv s1 ->
            wp (schedule_alarm now) (fun _ => mux_inv) mux_inv s1).
  { intros now s1 H1. apply wp_schedule_alarm; [done|..];
      intros s2 Hs2; by eapply mux_inv_same. }
  destruct op as [id d|id f|l|id k|l]; simpl in *.
  - apply Forall_cons in Hids as [Hid _]. unfold enable_timeout_after.
    apply wp_bind, wp_disable_alarm. intros s1 Hs1.
    apply wp_bind, wp_GetCurrentTimestamp. intros s2 Hs2. apply wp_bind.
    eapply wp_mono; [apply wp_enable_timeout; [|done] | | done].
    + eapply mux_inv_same; [|exact Hinv]. by eapply same_queue_trans.
    + intros ? s3 Hs3. by apply Hsched.
  - apply Forall_cons in Hids as [Hid _]. unfold enable_timeout_at.
    apply wp_bind, wp_disable_alarm. intros s1 Hs1.
    apply wp_bind, wp_GetCurrentTimestamp. intros s2 Hs2. apply wp_bind.
    eapply wp_mono; [apply wp_enable_timeout; [|done] | | done].
    + eapply mux_inv_same; [|exact Hinv]. by eapply same_queue_trans.
    + intros ? s3 Hs3. by apply Hsched.
  - unfold enable_timeouts.
    apply wp_bind, wp_disable_alarm. intros s1 Hs1.
    apply wp_bind, wp_GetCurrentTimestamp. intros s2 Hs2. apply wp_bind.
    eapply wp_mono; [apply wp_enable_timeouts_loop; [|done] | | done].
    + eapply mux_inv_same; [|exact Hinv]. by eapply same_queue_trans.
    + intros ? s3 Hs3. by apply Hsched.
  - apply Forall_cons in Hids as [Hid _]. unfold disable_timeout.
    apply wp_bind, wp_disable_alarm. intros s1 Hs1. apply wp_bind.
    eapply wp_mono; [apply wp_disable_one; [|done] | | done].
    + by eapply mux_inv_same.
    + intros ? s3 Hs3. by apply wp_reschedule_if_active.
  - unfold disable_timeouts.
    apply wp_bind, wp_disable_alarm. intros s1 Hs1. apply wp_bind.
    eapply wp_mono; [apply wp_disable_timeouts_loop; [|done] | | done].
    + by eapply mux_inv_same.
    + intros ? s3 Hs3. by apply wp_reschedule_if_active.
Qed.

(** [InitializeTimeouts] establishes the invariant from any state. *)
Lemma InitializeTimeouts_inv s :
  exists s', InitializeTimeouts s = Ok tt s' /\ mux_inv s' /\
    active_timeouts s' = [] /\
    all_timeouts s' = blank_timeout <$> seq 0 MAX_TIMEOUTS.
Proof.
  eexists. split; [reflexivity|]. split; [|done].
  split; simpl.
  - by rewrite length_fmap, length_seq.
  - intros i tp Hi. rewrite list_lookup_fmap in Hi.
    destruct (seq 0 MAX_TIMEOUTS !! i) as [j|] eqn:Hj; [|done].
    apply lookup_seq in Hj as [-> _]. by injection Hi as <-.
  - by intros p ?%elem_of_nil.
  - constructor.
  - intros i tp Hi. rewrite list_lookup_fmap in Hi.
    destruct (seq 0 MAX_TIMEOUTS !! i) as [j|]; [|done].
    injection Hi as <-. simpl. split; [done | by intros ?%elem_of_nil].
  - constructor.
Qed.

(** ** T1 and I-T1 *)

(** C2: after each of [enable_timeout_after], [enable_timeout_at],
    [enable_timeouts], [disable_timeout] and [disable_timeouts] returns, the
    active list is sorted ascending by ([fin_time], [index]) and every
    reason's [active] flag is true exactly when one cell of the active list
    points to it.  The operation starts in a well-formed state ([mux_inv],
    which [InitializeTimeouts] establishes and which is kept by every
    operation, see [wp_run_op]) and is given ids below [MAX_TIMEOUTS]. *)
Theorem mainline_ops_keep_queue_sorted op s s' :
  mux_inv s ->
  Forall (fun id => (id < MAX_TIMEOUTS)%nat) (op_ids op) ->
  run_op op s = Ok tt s' ->
  queue_sorted s' /\
  (forall id tp, all_timeouts s' !! id = Some tp ->
     (active tp = true <-> occurrences id (active_timeouts s') = 1%nat)).
Proof.
  intros Hinv Hids Hrun.
  pose proof (wp_run_op op s Hinv Hids) as Hwp.
  unfold wp in Hwp. rewrite Hrun in Hwp.
  split; [by apply inv_sorted|].
  intros id tp Htp. rewrite occurrences_NoDup by (by apply inv_nodup).
  by apply inv_active.
Qed.

(** ** Rescheduling an active reason *)

(** What [enable_timeout] leaves behind for reason [id] armed at [fin]
    when the clock read [now]: [s] is the state before, [s'] after. *)
Definition rescheduled (id : TimeoutId) (now fin : TimestampTz)
    (s s' : mux_state) : Prop :=
  occurrences id (active_timeouts s') = 1%nat /\
  (exists before after,
     active_timeouts s' = before ++ id :: after /\
     Forall (fun p => key_lt (cell_key (all_timeouts s') p) (fin, id)) before /\
     Forall (fun p => key_lt (fin, id) (cell_key (all_timeouts s') p)) after) /\
  (exists tp', all_timeouts s' !! id = Some tp' /\
     active tp' = true /\ indicator tp' = false /\
     start_time tp' = now /\ fin_time tp' = fin) /\
  filter (fun p => p <> id) (active_timeouts s')
    = filter (fun p => p <> id) (active_timeouts s) /\
  (forall j, j <> id -> all_timeouts s' !! j = all_timeouts s !! j).

Lemma rescheduled_same id now fin s0 s s' s'' :
  same_queue s0 s -> same_queue s' s'' ->
  rescheduled id now fin s s' -> rescheduled id now fin s0 s''.
Proof.
  intros (Ht0 & Hq0 & _) (Ht & Hq & _). unfold rescheduled.
  by rewrite Ht, Hq, Ht0, Hq0.
Qed.

Lemma enabled_rescheduled id tp now fin s :
  mux_inv s -> all_timeouts s !! id = Some tp ->
  rescheduled id now fin s (enabled id tp now fin s).
Proof.
  intros Hinv Htp.
  pose proof (enabled_inv id tp now fin s Hinv Htp) as Hinv'.
  pose proof (inv_index _ Hinv _ _ Htp) as Hidx.
  pose proof (enabled_lookup id tp now fin s Htp) as Htp'.
  split_and!.
  - rewrite occurrences_NoDup by (by apply inv_nodup).
    apply enabled_queue_elem_of. by left.
  - set (tbl := all_timeouts (enabled id tp now fin s)).
    set (q := filter (fun p => p <> id) (active_timeouts s)).
    assert (cell_key tbl id = (fin, id)) as Hkey.
    { unfold cell_key, tbl. rewrite Htp'. simpl. by rewrite Hidx. }
    assert (sorted_by (cell_key tbl) q) as Hsorted.
    { eapply sorted_by_ext;
        [|apply sorted_by_filter; exact (inv_sorted _ Hinv)].
      intros p [Hne _]%list_elem_of_filter. unfold tbl. simpl.
      by rewrite cell_key_insert_ne. }
    destruct (insert_pos_split (cell_key tbl) id q Hsorted) as [Hb Ha].
    rewrite Hkey in Hb, Ha.
    exists (take (insert_pos (cell_key tbl) (fin, id) q) q),
           (drop (insert_pos (cell_key tbl) (fin, id) q) q).
    split_and!; [done| |done].
    rewrite Forall_forall in Hb |- *. intros p Hp.
    apply key_le_neq_lt; [by apply Hb|]. simpl.
    assert (p ∈ q) as Hq.
    { rewrite <- (take_drop (insert_pos (cell_key tbl) (fin, id) q) q).
      apply elem_of_app. by left. }
    apply list_elem_of_filter in Hq as [Hne Hq].
    destruct (inv_cell_lookup s p Hinv Hq) as (x & Hx & Hxi).
    unfold cell_key, tbl. rewrite enabled_lookup_ne, Hx by done.
    simpl. congruence.
  - exists (armed_slot tp now fin). by split_and!.
  - apply enabled_filter.
  - intros j Hj. by apply enabled_lookup_ne.
Qed.

Lemma schedule_alarm_Ok now s :
  mux_inv s -> setitimer_rc (itimer_calls (host s)) = 0 ->
  exists s', schedule_alarm now s = Ok tt s' /\ same_queue s s'.
Proof.
  intros Hinv Hrc. unfold schedule_alarm.
  rewrite (bind_of_Ok _ _ _ _ _ (eq_refl : get s = Ok s s)).
  destruct (active_timeouts s) as [|p q] eqn:Hq.
  { eexists. split; [reflexivity | apply same_queue_refl]. }
  destruct (inv_cell_lookup s p Hinv) as (tp & Htp & _).
  { rewrite Hq. by left. }
  rewrite (bind_of_Ok _ _ _ _ _ (slot_Ok _ _ _ Htp)).
  unfold bind, enable_alarm, modify, setitimer. simpl. rewrite Hrc. simpl.
  eexists. split; [reflexivity | by split].
Qed.

(** The state in which [enable_timeout] runs: the alarm is disabled and the
    clock has been read once. *)
Definition clock_read (s : mux_state) : mux_state :=
  let h := host s in
  set_host {| clock_reads := S (clock_reads h);
              itimer_calls := itimer_calls h;
              itimer_value := itimer_value h;
              ImmediateInterruptOK := ImmediateInterruptOK h;
              InterruptHoldoffCount := InterruptHoldoffCount h;
              latch_set := latch_set h |} (set_alarm_enabled false s).

Lemma enable_timeout_at_unfold id fin s :
  enable_timeout_at id fin s
  = (let now := GetCurrentTimestamp_value (clock_reads (host s)) in
     enable_timeout id now fin ;; schedule_alarm now) (clock_read s).
Proof. reflexivity. Qed.

Lemma enable_timeout_after_unfold id delay_ms s :
  enable_timeout_after id delay_ms s
  = (let now := GetCurrentTimestamp_value (clock_reads (host s)) in
     enable_timeout id now (TimestampTzPlusMilliseconds now delay_ms) ;;
     schedule_alarm now) (clock_read s).
Proof. reflexivity. Qed.

Lemma enable_then_schedule id tp now now' fin s :
  mux_inv s -> all_timeouts s !! id = Some tp ->
  setitimer_rc (itimer_calls (host s)) = 0 ->
  exists s', (enable_timeout id now fin ;; schedule_alarm now')
               (clock_read s) = Ok tt s' /\
             rescheduled id now fin s s'.
Proof.
  intros Hinv Htp Hrc.
  assert (same_queue s (clock_read s)) as Hsame by (by split).
  pose proof (mux_inv_same _ _ Hsame Hinv) as Hinv1.
  assert (all_timeouts (clock_read s) !! id = Some tp) as Htp1 by done.
  rewrite (bind_of_Ok _ _ _ _ _ (enable_timeout_Ok id tp now fin _ Hinv1 Htp1)).
  destruct (schedule_alarm_Ok now' (enabled id tp now fin (clock_read s)))
    as (s' & Hs' & Hsame'); [by apply enabled_inv | done |].
  exists s'. split; [done|].
  eapply rescheduled_same; [exact Hsame | exact Hsame' |].
  by apply enabled_rescheduled.
Qed.

(** C8: [enable_timeout_at] (and likewise [enable_timeout_after]) on a
    reason that is already active reschedules it.  Afterwards the reason
    has exactly one cell of the active list, every cell before it has a
    smaller ([fin_time], [index]) key and every cell after it a larger one,
    its indicator is false, its [start_time] is the clock reading and its
    [fin_time] the new deadline; the cells of all other reasons are kept in
    their order and the other slots are untouched.  [setitimer] is taken to
    succeed, otherwise the call ends the process. *)
Theorem enable_reschedules_active_reason id fin delay_ms tp s :
  mux_inv s ->
  all_timeouts s !! id = Some tp -> active tp = true ->
  setitimer_rc (itimer_calls (host s)) = 0 ->
  let now := GetCurrentTimestamp_value (clock_reads (host s)) in
  (exists s', enable_timeout_at id fin s = Ok tt s' /\
              rescheduled id now fin s s') /\
  (exists s', enable_timeout_after id delay_ms s = Ok tt s' /\
              rescheduled id now (TimestampTzPlusMilliseconds now delay_ms)
                s s').
Proof.
  intros Hinv Htp _ Hrc now. split.
  - rewrite enable_timeout_at_unfold. by eapply enable_then_schedule.
  - rewrite enable_timeout_after_unfold. by eapply enable_then_schedule.
Qed.

(** ** The fired indicator *)

(** C9: [get_timeout_indicator id true] returns true and clears the
    indicator when the indicator was set, and returns false and leaves the
    state as it is otherwise; in both cases a call made right after it
    returns false and changes nothing, so that one firing is reported by
    exactly one call. *)
Theorem get_timeout_indicator_reports_once id tp s :
  all_timeouts s !! id = Some tp ->
  (indicator tp = true ->
     get_timeout_indicator id true s
     = Ok true (set_all_timeouts
                  (<[id := set_tp_indicator false tp]> (all_timeouts s)) s)) /\
  (indicator tp = false -> get_timeout_indicator id true s = Ok false s) /\
  (forall b s', get_timeout_indicator id true s = Ok b s' ->
     b = indicator tp /\ get_timeout_indicator id true s' = Ok false s').
Proof.
  intros Htp.
  assert (Hset : indicator tp = true ->
     get_timeout_indicator id true s
     = Ok true (set_all_timeouts
                  (<[id := set_tp_indicator false tp]> (all_timeouts s)) s)).
  { intros Hi. unfold get_timeout_indicator.
    rewrite (bind_of_Ok _ _ _ _ _ (slot_Ok _ _ _ Htp)), Hi.
    by rewrite (bind_of_Ok _ _ _ _ _ (update_slot_Ok _ _ _ _ Htp)). }
  assert (Hclear : indicator tp = false ->
     get_timeout_indicator id true s = Ok false s).
  { intros Hi. unfold get_timeout_indicator.
    by rewrite (bind_of_Ok _ _ _ _ _ (slot_Ok _ _ _ Htp)), Hi. }
  split_and!; [done..|].
  intros b s' Hcall. destruct (indicator tp) eqn:Hi.
  - rewrite Hset in Hcall by done. injection Hcall as <- <-.
    split; [done|]. unfold get_timeout_indicator.
    erewrite bind_of_Ok; [|apply slot_Ok, update_slot_lookup;
                            by eapply lookup_lt_Some].
    done.
  - rewrite Hclear in Hcall by done. injection Hcall as <- <-. auto.
Qed.

(** ** Registration *)

Definition user_range_exhausted (s : mux_state) : Prop :=
  forall id, (USER_TIMEOUT <= id < GP_PARALLEL_RETRIEVE_CURSOR_CHECK_TIMEOUT)%nat ->
    exists tp h, all_timeouts s !! id = Some tp /\ timeout_handler tp = Some h.

Lemma RegisterTimeout_scan_full n id s :
  (forall j, (id <= j < id + n)%nat ->
     exists tp h, all_timeouts s !! j = Some tp /\ timeout_handler tp = Some h) ->
  RegisterTimeout_scan n id s = Ok (id + n)%nat s.
Proof.
  revert id. induction n as [|n IH]; intros id Hfull; simpl.
  - unfold ret. f_equal. lia.
  - destruct (Hfull id) as (tp & h & Htp & Hh); [lia|].
    rewrite (bind_of_Ok _ _ _ _ _ (slot_Ok _ _ _ Htp)), Hh.
    rewrite IH by (intros j Hj; apply Hfull; lia). f_equal. lia.
Qed.

(** C1 (as the code has it): registering a user-defined timeout when every
    id of the user range is taken fails with
    ERRCODE_CONFIGURATION_LIMIT_EXCEEDED at level FATAL, which is not a
    recoverable level: the process ends.  The reason table is as it was
    when the error is raised. *)
Theorem RegisterTimeout_user_range_exhausted handler s :
  (USER_TIMEOUT < GP_PARALLEL_RETRIEVE_CURSOR_CHECK_TIMEOUT)%nat ->
  user_range_exhausted s ->
  RegisterTimeout USER_TIMEOUT handler s
  = Raise FATAL ERRCODE_CONFIGURATION_LIMIT_EXCEEDED s /\
  recoverable FATAL = false.
Proof.
  intros Hrange Hfull. split; [|done]. unfold RegisterTimeout.
  destruct (Nat.leb_spec USER_TIMEOUT USER_TIMEOUT); [|lia].
  destruct (Nat.ltb_spec USER_TIMEOUT GP_PARALLEL_RETRIEVE_CURSOR_CHECK_TIMEOUT);
    [|lia].
  simpl. unfold bind at 1. unfold bind at 1.
  rewrite RegisterTimeout_scan_full by (intros j Hj; apply Hfull; lia).
  replace (USER_TIMEOUT
           + (GP_PARALLEL_RETRIEVE_CURSOR_CHECK_TIMEOUT - USER_TIMEOUT))%nat
    with GP_PARALLEL_RETRIEVE_CURSOR_CHECK_TIMEOUT by lia.
  by rewrite Nat.leb_refl.
Qed.

(** ** Activation times *)

(** The two timestamps of a slot, as [get_timeout_start_time] and
    [get_timeout_finish_time] read them. *)
Definition times (id : TimeoutId) (s : mux_state) : option (Z * Z) :=
  (fun tp => (start_time tp, fin_time tp)) <$> all_timeouts s !! id.

(** A computation that writes neither timestamp of reason [id], whether it
    returns or leaves by [ereport]. *)
Definition keeps_times (id : TimeoutId) {A} (m : T A) : Prop :=
  forall s s', final_state (m s) = Some s' -> times id s' = times id s.

(** Calls into the module, as the rest of the backend and the kernel make
    them. *)
Inductive api_call :=
| Call_RegisterTimeout (id : TimeoutId) (h : option timeout_handler_proc)
| Call_reschedule_timeouts
| Call_enable_timeout_after (id : TimeoutId) (delay_ms : Z)
| Call_enable_timeout_at (id : TimeoutId) (fin_time : TimestampTz)
| Call_enable_timeouts (timeouts : list EnableTimeoutParams)
| Call_disable_timeout (id : TimeoutId) (keep_indicator : bool)
| Call_disable_timeouts (timeouts : list DisableTimeoutParams)
| Call_disable_all_timeouts (keep_indicators : bool)
| Call_get_timeout_active (id : TimeoutId)
| Call_get_timeout_indicator (id : TimeoutId) (reset_indicator : bool)
| Call_get_timeout_start_time (id : TimeoutId)
| Call_get_timeout_finish_time (id : TimeoutId)
| Call_SIGALRM (fuel : nat).

(** The state a call leaves behind, if it leaves one. *)
Definition run_call (c : api_call) (s : mux_state) : option mux_state :=
  match c with
  | Call_RegisterTimeout id h => final_state (RegisterTimeout id h s)
  | Call_reschedule_timeouts => final_state (reschedule_timeouts s)
  | Call_enable_timeout_after id d => final_state (enable_timeout_after id d s)
  | Call_enable_timeout_at id f => final_state (enable_timeout_at id f s)
  | Call_enable_timeouts l => final_state (enable_timeouts l s)
  | Call_disable_timeout id k => final_state (disable_timeout id k s)
  | Call_disable_timeouts l => final_state (disable_timeouts l s)
  | Call_disable_all_timeouts k => final_state (disable_all_timeouts k s)
  | Call_get_timeout_active id => final_state (get_timeout_active id s)
  | Call_get_timeout_indicator id r => final_state (get_timeout_indicator id r s)
  | Call_get_timeout_start_time id => final_state (get_timeout_start_time id s)
  | Call_get_timeout_finish_time id => final_state (get_timeout_finish_time id s)
  | Call_SIGALRM fuel => final_state (handle_sig_alarm fuel s)
  end.

(** The calls that activate reason [id]. *)
Definition activates (c : api_call) (id : TimeoutId) : Prop :=
  match c with
  | Call_enable_timeout_after id' _ => id' = id
  | Call_enable_timeout_at id' _ => id' = id
  | Call_enable_timeouts l => id ∈ etp_id <$> l
  | _ => False
  end.

(** States reached from [InitializeTimeouts] by calls that do not activate
    reason [id]. *)
Inductive never_activated (id : TimeoutId) : mux_state -> Prop :=
| never_activated_init s s' :
    InitializeTimeouts s = Ok tt s' -> never_activated id s'
| never_activated_call s c s' :
    never_activated id s -> ~ activates c id -> run_call c s = Some s' ->
    never_activated id s'.

Lemma keeps_bind id {A B} (m : T A) (k : A -> T B) :
  keeps_times id m -> (forall a, keeps_times id (k a)) ->
  keeps_times id (bind m k).
Proof.
  intros Hm Hk s s'. unfold bind.
  destruct (m s) as [a s1|lvl code s1|] eqn:E; simpl.
  - intros H. rewrite (Hk a _ _ H). apply Hm. by rewrite E.
  - intros H. apply Hm. by rewrite E.
  - done.
Qed.

Lemma keeps_ret id {A} (a : A) : keeps_times id (ret a).
Proof. by intros s s' [= <-]. Qed.

Lemma keeps_get id : keeps_times id get.
Proof. by intros s s' [= <-]. Qed.

Lemma keeps_ereport id {A} lvl code : keeps_times id (@ereport _ A lvl code).
Proof. by intros s s' [= <-]. Qed.

Lemma keeps_undefined id {A} : keeps_times id (@undefined _ A).
Proof. by intros s s'. Qed.

Lemma keeps_modify id f :
  (forall s, all_timeouts (f s) = all_timeouts s) -> keeps_times id (modify f).
Proof. intros Hf s s' [= <-]. unfold times. by rewrite Hf. Qed.

Lemma keeps_slot id id' : keeps_times id (slot id').
Proof. intros s s'. unfold slot. by destruct (_ !! _); intros [= <-]. Qed.

Lemma keeps_update_slot id id' f :
  id' <> id \/ (forall tp, start_time (f tp) = start_time tp /\
                          fin_time (f tp) = fin_time tp) ->
  keeps_times id (update_slot id' f).
Proof.
  intros Hf s s'. unfold update_slot.
  destruct (all_timeouts s !! id') as [tp|] eqn:Htp; [|done].
  intros [= <-]. unfold times. simpl.
  destruct (decide (id' = id)) as [->|Hne].
  - destruct Hf as [?|Hf]; [done|].
    rewrite list_lookup_insert_eq by (by eapply lookup_lt_Some).
    rewrite Htp. simpl. by destruct (Hf tp) as [-> ->].
  - by rewrite list_lookup_insert_ne.
Qed.

Lemma keeps_on_host id {A} (m : M host_state A) : keeps_times id (on_host m).
Proof.
  intros s s'. unfold on_host. by destruct (m (host s)); intros [= <-].
Qed.

Lemma keeps_GetCurrentTimestamp id : keeps_times id GetCurrentTimestamp.
Proof. by intros s s' [= <-]. Qed.

Lemma keeps_setitimer id v : keeps_times id (setitimer v).
Proof. by intros s s' [= <-]. Qed.

(** Composite computations are taken apart by their syntax. *)
Ltac keeps_step :=
  first
    [ apply keeps_ret | apply keeps_get | apply keeps_ereport
    | apply keeps_undefined | apply keeps_slot | apply keeps_on_host
    | apply keeps_GetCurrentTimestamp | apply keeps_setitimer
    | apply keeps_modify; intros; reflexivity
    | apply keeps_update_slot; right; intros; split; reflexivity
    | apply keeps_bind; [|intros ?]
    | match goal with
      | |- keeps_times _ (if ?b then _ else _) => destruct b
      | |- keeps_times _ (match ?x with _ => _ end) => destruct x
      end ].

Lemma keeps_find_active_timeout_from id id' q i :
  keeps_times id (find_active_timeout_from id' q i).
Proof. revert i. induction q; intros i; simpl; repeat keeps_step. apply IHq. Qed.

Lemma keeps_remove_timeout_index id i : keeps_times id (remove_timeout_index i).
Proof. unfold remove_timeout_index. repeat keeps_step. Qed.

Lemma keeps_deactivate id id' :
  keeps_times id
    (let! i := find_active_timeout id' in remove_timeout_index i).
Proof.
  unfold find_active_timeout.
  repeat first [ apply keeps_find_active_timeout_from
               | apply keeps_remove_timeout_index | keeps_step ].
Qed.

Lemma keeps_schedule_alarm id now : keeps_times id (schedule_alarm now).
Proof. unfold schedule_alarm, enable_alarm. repeat keeps_step. Qed.

Lemma keeps_enable_timeout_scan id id' fin q i :
  keeps_times id (enable_timeout_scan id' fin q i).
Proof. revert i. induction q; intros i; simpl; repeat keeps_step. apply IHq. Qed.

Lemma keeps_enable_timeout id id' now fin :
  id' <> id -> keeps_times id (enable_timeout id' now fin).
Proof.
  intros Hne. unfold enable_timeout, insert_timeout.
  repeat first
    [ apply keeps_deactivate | apply keeps_enable_timeout_scan
    | apply keeps_update_slot; by left | keeps_step ].
Qed.

Lemma keeps_disable_one id id' keep : keeps_times id (disable_one id' keep).
Proof.
  unfold disable_one. repeat first [ apply keeps_deactivate | keeps_step ].
Qed.

Lemma keeps_reschedule_if_active id : keeps_times id reschedule_if_active.
Proof.
  unfold reschedule_if_active.
  repeat first [ apply keeps_schedule_alarm | keeps_step ].
Qed.

Lemma keeps_enable_timeouts_loop id now l :
  id ∉ etp_id <$> l -> keeps_times id (enable_timeouts_loop now l).
Proof.
  induction l as [|t l IH]; simpl; [intros _; apply keeps_ret|].
  intros [Hne Hl]%not_elem_of_cons.
  repeat first [ apply keeps_enable_timeout; congruence | by apply IH
               | keeps_step ].
Qed.

Lemma keeps_disable_timeouts_loop id l :
  keeps_times id (disable_timeouts_loop l).
Proof.
  induction l as [|t l IH]; simpl; [apply keeps_ret|].
  repeat first [ apply keeps_disable_one | apply IH | keeps_step ].
Qed.

Lemma keeps_disable_all_timeouts id k : keeps_times id (disable_all_timeouts k).
Proof.
  unfold disable_all_timeouts, disable_alarm.
  repeat first
    [ apply keeps_bind; [|intros ?] | apply keeps_get
    | apply keeps_modify; intros; reflexivity ].
  - repeat keeps_step.
  - intros s s' [= <-]. unfold times. simpl. rewrite list_lookup_fmap.
    destruct (all_timeouts s !! id) as [tp|]; simpl; [|done].
    by destruct k.
Qed.

Lemma keeps_RegisterTimeout_scan id n id' :
  keeps_times id (RegisterTimeout_scan n id').
Proof. revert id'. induction n; intros id'; simpl; repeat keeps_step. apply IHn. Qed.

Lemma keeps_RegisterTimeout id id' h : keeps_times id (RegisterTimeout id' h).
Proof.
  unfold RegisterTimeout.
  repeat first [ apply keeps_RegisterTimeout_scan | keeps_step ].
Qed.

Section Handlers.

Variable id : TimeoutId.
Hypothesis handlers_keep_times : forall h, keeps_times id (handler_body h).

Lemma keeps_handle_sig_alarm_loop fuel now :
  keeps_times id (handle_sig_alarm_loop fuel now).
Proof using handlers_keep_times.
  revert now. induction fuel as [|fuel IH]; intros now; simpl;
    repeat first [ apply keeps_remove_timeout_index | apply handlers_keep_times
                 | apply IH | keeps_step ].
Qed.

Lemma keeps_handle_sig_alarm fuel : keeps_times id (handle_sig_alarm fuel).
Proof using handlers_keep_times.
  unfold handle_sig_alarm, set_ImmediateInterruptOK, HOLD_INTERRUPTS,
    RESUME_INTERRUPTS, SetLatch, disable_alarm.
  repeat first [ apply keeps_handle_sig_alarm_loop | apply keeps_schedule_alarm
               | keeps_step ].
Qed.

Lemma keeps_run_call c s s' :
  ~ activates c id -> run_call c s = Some s' -> times id s' = times id s.
Proof using handlers_keep_times.
  destruct c; simpl; intros Hact.
  - apply keeps_RegisterTimeout.
  - unfold reschedule_timeouts, disable_alarm. revert s s'.
    change (keeps_times id reschedule_timeouts). unfold reschedule_timeouts,
      disable_alarm.
    repeat first [ apply keeps_schedule_alarm | keeps_step ].
  - revert s s'. change (keeps_times id (enable_timeout_after id0 delay_ms)).
    unfold enable_timeout_after, disable_alarm.
    repeat first [ apply keeps_schedule_alarm | by apply keeps_enable_timeout
                 | keeps_step ].
  - revert s s'. change (keeps_times id (enable_timeout_at id0 fin_time0)).
    unfold enable_timeout_at, disable_alarm.
    repeat first [ apply keeps_schedule_alarm | by apply keeps_enable_timeout
                 | keeps_step ].
  - revert s s'. change (keeps_times id (enable_timeouts timeouts)).
    unfold enable_timeouts, disable_alarm.
    repeat first [ apply keeps_schedule_alarm
                 | by apply keeps_enable_timeouts_loop | keeps_step ].
  - revert s s'. change (keeps_times id (disable_timeout id0 keep_indicator)).
    unfold disable_timeout, disable_alarm.
    repeat first [ apply keeps_reschedule_if_active | apply keeps_disable_one
                 | keeps_step ].
  - revert s s'. change (keeps_times id (disable_timeouts timeouts)).
    unfold disable_timeouts, disable_alarm.
    repeat first [ apply keeps_reschedule_if_active
                 | apply keeps_disable_timeouts_loop | keeps_step ].
  - apply keeps_disable_all_timeouts.
  - revert s s'. change (keeps_times id (get_timeout_active id0)).
    unfold get_timeout_active. repeat keeps_step.
  - revert s s'.
    change (keeps_times id (get_timeout_indicator id0 reset_indicator)).
    unfold get_timeout_indicator. repeat keeps_step.
  - revert s s'. change (keeps_times id (get_timeout_start_time id0)).
    unfold get_timeout_start_time. repeat keeps_step.
  - revert s s'. change (keeps_times id (get_timeout_finish_time id0)).
    unfold get_timeout_finish_time. repeat keeps_step.
  - apply keeps_handle_sig_alarm.
Qed.

Lemma never_activated_times s :
  (id < MAX_TIMEOUTS)%nat -> never_activated id s -> times id s = Some (0, 0).
Proof using handlers_keep_times.
  intros Hid. induction 1 as [s s' Hinit|s c s' _ IH Hact Hrun].
  - injection Hinit as <-. unfold times. simpl.
    rewrite list_lookup_fmap, lookup_seq_lt by done. done.
  - rewrite <- IH. by eapply keeps_run_call.
Qed.

End Handlers.

Lemma times_getters id s a b :
  times id s = Some (a, b) <->
  get_timeout_start_time id s = Ok a s /\ get_timeout_finish_time id s = Ok b s.
Proof.
  unfold times, get_timeout_start_time, get_timeout_finish_time, bind, slot.
  destruct (all_timeouts s !! id) as [tp|]; simpl; [|by split; [|intros []]].
  unfold ret. split.
  - by intros [= -> ->].
  - by intros [[= ->] [= ->]].
Qed.


(** ** One pass of the signal handler *)

(** A computation that leaves the reason table, the active list and the
    handler log alone. *)
Definition quiet {A} (m : T A) : Prop :=
  forall s s', final_state (m s) = Some s' -> same_queue s s'.

(** [s'] is [s] after the first [n] cells of the active list were fired in
    order: they are gone from the list, their keys were appended to the
    handler log, and no key in the table has changed. *)
Definition fired_prefix (n : nat) (s s' : mux_state) : Prop :=
  handler_log s'
    = handler_log s ++ (cell_key (all_timeouts s) <$> take n (active_timeouts s)) /\
  active_timeouts s' = drop n (active_timeouts s) /\
  (forall p, cell_key (all_timeouts s') p = cell_key (all_timeouts s) p).

(** The state in which the handler of the head [p] of the active list is
    called: [p] is off the list, marked fired and logged. *)
Definition fired_head (p : nat) (head : timeout_params) (s : mux_state)
  : mux_state :=
  set_handler_log (handler_log s ++ [(fin_time head, index head)])
    (set_active_timeouts (tail (active_timeouts s))
       (set_all_timeouts
          (<[p := set_tp_indicator true (set_tp_active false head)]>
             (all_timeouts s)) s)).

Lemma bind_final {A B} (m : T A) (k : A -> T B) s s' :
  final_state (bind m k s) = Some s' ->
  (exists a s1, m s = Ok a s1 /\ final_state (k a s1) = Some s') \/
  (exists lvl code, m s = Raise lvl code s').
Proof.
  unfold bind. destruct (m s) as [a s1|lvl code s1|]; simpl; [eauto| |done].
  intros [= <-]. eauto.
Qed.

Lemma fired_prefix_same_l n s0 s s' :
  same_queue s0 s -> fired_prefix n s s' -> fired_prefix n s0 s'.
Proof. intros (Ht & Hq & Hl). unfold fired_prefix. by rewrite Ht, Hq, Hl. Qed.

Lemma fired_prefix_same_r n s s' s'' :
  fired_prefix n s s' -> same_queue s' s'' -> fired_prefix n s s''.
Proof. intros H (Ht & Hq & Hl). unfold fired_prefix. by rewrite Ht, Hq, Hl. Qed.

Lemma fired_prefix_0 s : fired_prefix 0 s s.
Proof. split_and!; [|done..]. simpl. by rewrite app_nil_r. Qed.

Lemma fired_head_spec p q head s :
  mux_inv s -> active_timeouts s = p :: q ->
  all_timeouts s !! p = Some head ->
  mux_inv (fired_head p head s) /\ fired_prefix 1 s (fired_head p head s).
Proof.
  intros Hinv Hq Hhead.
  pose proof (removed_inv p head s Hinv Hhead) as Hinv1.
  assert (filter (fun x => x <> p) (active_timeouts s) = q) as Hfilter.
  { rewrite <- (delete_filter_ne _ 0 p); [by rewrite Hq | by apply inv_nodup|].
    by rewrite Hq. }
  split.
  - pose proof (mux_inv_update_neutral (removed p head s) p
                  (set_tp_active false head)
                  (set_tp_indicator true (set_tp_active false head))
                  Hinv1 (removed_lookup _ _ _ Hhead) eq_refl eq_refl eq_refl)
      as Hinv2.
    destruct Hinv2 as [H1 H2 H3 H4 H5 H6].
    unfold queue_sorted in H6. simpl in *.
    rewrite list_insert_insert_eq in *. rewrite Hfilter in *.
    split; unfold queue_sorted; simpl; rewrite ?Hq; done.
  - split_and!; simpl.
    + rewrite Hq. simpl. unfold cell_key. by rewrite Hhead.
    + by rewrite Hq.
    + intros x. by eapply cell_key_insert_same.
Qed.

Lemma fired_prefix_S n p q s s1 s' :
  active_timeouts s = p :: q ->
  fired_prefix 1 s s1 -> fired_prefix n s1 s' -> fired_prefix (S n) s s'.
Proof.
  unfold fired_prefix. intros Hq (Hl1 & Hq1 & Hk1) (Hl & Hq' & Hk).
  rewrite Hq in *. simpl in *. rewrite drop_0 in Hq1.
  split_and!.
  - rewrite Hl, Hl1, Hq1. rewrite <- app_assoc. simpl. do 2 f_equal.
    apply list_fmap_ext. intros _ x _. apply Hk1.
  - by rewrite Hq', Hq1.
  - intros x. by rewrite Hk, Hk1.
Qed.

Lemma handle_sig_alarm_loop_S fuel now s p q head :
  active_timeouts s = p :: q ->
  all_timeouts s !! p = Some head ->
  (now >=? fin_time head) = true ->
  handle_sig_alarm_loop (S fuel) now s
  = (match timeout_handler head with
     | None => undefined
     | Some h => handler_body h
     end ;;
     let! now' := GetCurrentTimestamp in
     handle_sig_alarm_loop fuel now') (fired_head p head s).
Proof.
  intros Hq Hhead Hdue. simpl.
  rewrite (bind_of_Ok _ _ _ _ _ (eq_refl : get s = Ok s s)), Hq.
  rewrite (bind_of_Ok _ _ _ _ _ (slot_Ok _ _ _ Hhead)), Hdue.
  assert (Hq0 : active_timeouts s !! 0%nat = Some p) by (by rewrite Hq).
  rewrite (bind_of_Ok _ _ _ _ _
             (remove_timeout_index_Ok 0 s p head Hq0 Hhead)).
  erewrite bind_of_Ok; cycle 1.
  { apply update_slot_Ok, update_slot_lookup. by eapply lookup_lt_Some. }
  erewrite bind_of_Ok; cycle 1.
  { apply slot_Ok. simpl. rewrite list_insert_insert_eq.
    apply list_lookup_insert_eq. by eapply lookup_lt_Some. }
  erewrite (bind_of_Ok (modify _)); [|reflexivity].
  simpl timeout_handler. f_equal.
  unfold fired_head. simpl. by rewrite list_insert_insert_eq, Hq.
Qed.

Lemma handle_sig_alarm_loop_stop fuel now s :
  mux_inv s ->
  (active_timeouts s = [] \/
   exists p q head, active_timeouts s = p :: q /\
     all_timeouts s !! p = Some head /\ (now >=? fin_time head) = false) ->
  handle_sig_alarm_loop fuel now s = Ok (Some now) s.
Proof.
  intros Hinv Hstop.
  destruct fuel; simpl;
    rewrite (bind_of_Ok _ _ _ _ _ (eq_refl : get s = Ok s s));
    (destruct Hstop as [->|(p & q & head & -> & Hhead & Hdue)]; [done|]);
    by rewrite (bind_of_Ok _ _ _ _ _ (slot_Ok _ _ _ Hhead)), Hdue.
Qed.

(** The three ways the loop condition can turn out. *)
Lemma loop_cases now s :
  mux_inv s ->
  (active_timeouts s = [] \/
   exists p q head, active_timeouts s = p :: q /\
     all_timeouts s !! p = Some head /\ (now >=? fin_time head) = false) \/
  (exists p q head, active_timeouts s = p :: q /\
     all_timeouts s !! p = Some head /\ (now >=? fin_time head) = true).
Proof.
  intros Hinv. destruct (active_timeouts s) as [|p q] eqn:Hq; [by left; left|].
  destruct (inv_cell_lookup s p Hinv) as (head & Hhead & _);
    [rewrite Hq; by left|].
  destruct (now >=? fin_time head) eqn:Hdue; [right | left; right]; eauto 10.
Qed.

(** With handlers that do not touch the active list the loop ends after at
    most one iteration per active timeout. *)
Lemma handle_sig_alarm_loop_enough_fuel fuel now s s' :
  (forall h, quiet (handler_body h)) ->
  mux_inv s ->
  (length (active_timeouts s) <= fuel)%nat ->
  handle_sig_alarm_loop fuel now s <> Ok None s'.
Proof.
  intros Hquiet. revert now s.
  induction fuel as [|fuel IH]; intros now s Hinv Hlen;
    (destruct (loop_cases now s Hinv)
       as [Hstop|(p & q & head & Hq & Hhead & Hdue)];
     [by rewrite handle_sig_alarm_loop_stop|]).
  { rewrite Hq in Hlen. simpl in Hlen. lia. }
  rewrite (handle_sig_alarm_loop_S _ _ _ _ _ _ Hq Hhead Hdue).
  destruct (fired_head_spec p q head s Hinv Hq Hhead) as [Hinv1 _].
  intros (? & s2 & Hh & Hrest)%bind_Ok.
  destruct (timeout_handler head) as [h|]; [|done].
  assert (same_queue (fired_head p head s) s2) as Hsame.
  { apply (Hquiet h). by rewrite Hh. }
  apply bind_Ok in Hrest as (now' & s3 & Hclock & Hrest).
  injection Hclock as <- <-. revert Hrest. apply IH.
  - eapply mux_inv_same; [|exact Hinv1].
    eapply same_queue_trans; [exact Hsame | by split].
  - simpl. destruct Hsame as (_ & -> & _). simpl.
    rewrite Hq in *. simpl in *. lia.
Qed.

Lemma quiet_bind {A B} (m : T A) (k : A -> T B) :
  quiet m -> (forall a, quiet (k a)) -> quiet (bind m k).
Proof.
  intros Hm Hk s s' [(a & s1 & Hms & Hks)|(lvl & code & Hms)]%bind_final.
  - eapply same_queue_trans; [apply Hm; by rewrite Hms | by eapply Hk].
  - apply Hm. by rewrite Hms.
Qed.

Lemma quiet_ret {A} (a : A) : quiet (ret a).
Proof. intros s s' [= <-]. apply same_queue_refl. Qed.

Lemma quiet_get : quiet get.
Proof. intros s s' [= <-]. apply same_queue_refl. Qed.

Lemma quiet_ereport {A} lvl code : quiet (@ereport _ A lvl code).
Proof. intros s s' [= <-]. apply same_queue_refl. Qed.

Lemma quiet_modify f : (forall s, same_queue s (f s)) -> quiet (modify f).
Proof. by intros Hf s s' [= <-]. Qed.

Lemma quiet_slot id : quiet (slot id).
Proof.
  intros s s'. unfold slot.
  destruct (_ !! _); intros [= <-]. apply same_queue_refl.
Qed.

Lemma quiet_on_host {A} (m : M host_state A) : quiet (on_host m).
Proof.
  intros s s'. unfold on_host. by destruct (m (host s)); intros [= <-].
Qed.

Lemma quiet_GetCurrentTimestamp : quiet GetCurrentTimestamp.
Proof. by intros s s' [= <-]. Qed.

Lemma quiet_setitimer v : quiet (setitimer v).
Proof. by intros s s' [= <-]. Qed.

Ltac quiet_step :=
  first
    [ apply quiet_ret | apply quiet_get | apply quiet_ereport
    | apply quiet_slot | apply quiet_on_host
    | apply quiet_GetCurrentTimestamp | apply quiet_setitimer
    | apply quiet_modify; intros; by split
    | apply quiet_bind; [|intros ?]
    | match goal with
      | |- quiet (if ?b then _ else _) => destruct b
      | |- quiet (match ?x with _ => _ end) => destruct x
      end ].

Lemma quiet_schedule_alarm now : quiet (schedule_alarm now).
Proof. unfold schedule_alarm, enable_alarm. repeat quiet_step. Qed.

Lemma handle_sig_alarm_enough_fuel fuel s s' :
  (forall h, quiet (handler_body h)) ->
  mux_inv s ->
  (length (active_timeouts s) <= fuel)%nat ->
  handle_sig_alarm fuel s <> Ok None s'.
Proof.
  intros Hquiet Hinv Hfuel. unfold handle_sig_alarm.
  intros (s0 & ? & [= <- <-] & H)%bind_Ok.
  apply bind_Ok in H as ([] & s1 & [= <-] & H).
  apply bind_Ok in H as ([] & s2 & [= <-] & H).
  apply bind_Ok in H as ([] & s3 & Hlatch & H).
  apply bind_Ok in H as (s4 & ? & [= -> <-] & H).
  assert (same_queue s s4) as Hsame.
  { destruct MyProc; injection Hlatch as <-; by split. }
  apply bind_Ok in H as (fired & s5 & Hfired & H).
  destruct fired as [[]|].
  { apply bind_Ok in H as (? & ? & _ & H).
    apply bind_Ok in H as (? & ? & _ & H).
    by apply bind_Ok in H as (? & ? & _ & [=]). }
  clear H. destruct (alarm_enabled s4); [|done].
  apply bind_Ok in Hfired as ([] & s6 & [= <-] & H).
  destruct (active_timeouts s4) as [|p q] eqn:Hq; [done|].
  apply bind_Ok in H as (now & s7 & [= <- <-] & H).
  apply bind_Ok in H as (r & s8 & Hloop & H).
  destruct r as [now'|].
  { by apply bind_Ok in H as (? & ? & _ & [=]). }
  injection H as <-. revert Hloop.
  apply handle_sig_alarm_loop_enough_fuel; [done| |].
  - eapply mux_inv_same; [|exact Hinv].
    eapply same_queue_trans; [exact Hsame | by split].
  - simpl. destruct Hsame as (_ & Hq4 & _). by rewrite Hq4.
Qed.

Lemma StronglySorted_lookup {A} (R : relation A) (l : list A) i j x y :
  StronglySorted R l -> l !! i = Some x -> l !! j = Some y -> (i < j)%nat ->
  R x y.
Proof.
  intros Hs. revert i j. induction Hs as [|a l Hs IH Hall]; intros i j; [done|].
  destruct i as [|i], j as [|j]; simpl; try lia.
  - intros [= <-] Hy _. rewrite Forall_forall in Hall.
    apply Hall. by eapply list_elem_of_lookup_2.
  - intros Hx Hy Hlt. apply (IH i j); [done..|lia].
Qed.

(** A computation that does not turn the count of clock readings back. *)
Definition steady {A} (m : T A) : Prop :=
  forall s s', final_state (m s) = Some s' ->
    (clock_reads (host s) <= clock_reads (host s'))%nat.

(** The wall clock does not go backwards. *)
Definition clock_monotone : Prop :=
  forall a b, (a <= b)%nat ->
    GetCurrentTimestamp_value a <= GetCurrentTimestamp_value b.

(** When the loop condition is false, no cell of the list is due. *)
Lemma stop_none_due now s :
  mux_inv s ->
  (active_timeouts s = [] \/
   exists p q head, active_timeouts s = p :: q /\
     all_timeouts s !! p = Some head /\ (now >=? fin_time head) = false) ->
  forall x, x ∈ active_timeouts s -> now < (cell_key (all_timeouts s) x).1.
Proof.
  intros Hinv [Hq|(p & q & head & Hq & Hhead & Hdue)] x Hx.
  { rewrite Hq in Hx. by apply elem_of_nil in Hx. }
  pose proof (inv_sorted _ Hinv) as Hs.
  unfold queue_sorted, sorted_by in Hs. rewrite Hq in Hs, Hx.
  apply StronglySorted_cons in Hs as [Hall _].
  assert ((cell_key (all_timeouts s) p).1 = fin_time head) as Hp.
  { unfold cell_key. by rewrite Hhead. }
  apply elem_of_cons in Hx as [->|Hx]; [lia|].
  rewrite Forall_forall in Hall. specialize (Hall x Hx).
  unfold key_le in Hall. lia.
Qed.

(** The loop of the pass, with handlers that leave the multiplexer alone
    and a clock that does not go backwards.  [now] is the reading number
    [i].  The cells fired are a prefix of the list; each of them was due at
    the reading before it was fired, so all are due at the last reading
    [j] of the loop; and when the loop ends by its condition, no cell left
    in the list is due at that reading. *)
Lemma handle_sig_alarm_loop_due fuel i s s' :
  (forall h, quiet (handler_body h)) ->
  (forall h, steady (handler_body h)) ->
  clock_monotone ->
  mux_inv s -> (i < clock_reads (host s))%nat ->
  final_state (handle_sig_alarm_loop fuel (GetCurrentTimestamp_value i) s)
  = Some s' ->
  exists n j,
    (i <= j)%nat /\ (j < clock_reads (host s'))%nat /\
    fired_prefix n s s' /\
    (forall p, p ∈ take n (active_timeouts s) ->
       (cell_key (all_timeouts s) p).1 <= GetCurrentTimestamp_value j) /\
    (forall now',
       handle_sig_alarm_loop fuel (GetCurrentTimestamp_value i) s
       = Ok (Some now') s' ->
       now' = GetCurrentTimestamp_value j /\
       forall p, p ∈ drop n (active_timeouts s) ->
         GetCurrentTimestamp_value j < (cell_key (all_timeouts s) p).1).
Proof.
  intros Hquiet Hsteady Hmono. revert i s.
  induction fuel as [|fuel IH]; intros i s Hinv Hi;
    (destruct (loop_cases (GetCurrentTimestamp_value i) s Hinv)
       as [Hstop|(p & q & head & Hq & Hhead & Hdue)];
     [rewrite handle_sig_alarm_loop_stop by done; intros [= <-];
      exists 0%nat, i; split_and!;
      [done | done | apply fired_prefix_0 | by intros ? ?%elem_of_nil
      | intros now' [= <-]; split; [done|]; rewrite drop_0;
        by apply stop_none_due ] |]).
  { simpl. rewrite (bind_of_Ok _ _ _ _ _ (eq_refl : get s = Ok s s)), Hq.
    rewrite (bind_of_Ok _ _ _ _ _ (slot_Ok _ _ _ Hhead)), Hdue.
    intros [= <-]. exists 0%nat, i.
    split_and!; [done | done | apply fired_prefix_0
                | by intros ? ?%elem_of_nil | by intros now' [=] ]. }
  rewrite (handle_sig_alarm_loop_S _ _ _ _ _ _ Hq Hhead Hdue).
  destruct (fired_head_spec p q head s Hinv Hq Hhead) as [Hinv1 Hfired1].
  assert (Hkey : (cell_key (all_timeouts s) p).1 = fin_time head).
  { unfold cell_key. by rewrite Hhead. }
  assert (Hdue' : fin_time head <= GetCurrentTimestamp_value i) by lia.
  destruct (timeout_handler head) as [h|];
    [|by intros [(? & ? & [=] & _)|(? & ? & [=])]%bind_final].
  intros [([] & s2 & Hh & Hrest)|(lvl & code & Hh)]%bind_final.
  - assert (same_queue (fired_head p head s) s2) as Hsame.
    { apply (Hquiet h). by rewrite Hh. }
    assert (clock_reads (host s) <= clock_reads (host s2))%nat as Hreads.
    { apply (Hsteady h (fired_head p head s)). by rewrite Hh. }
    apply bind_final in Hrest as [(now' & s3 & Hclock & Hrest)|(? & ? & ?)];
      [|done].
    injection Hclock as <- <-.
    set (s3 := set_host _ s2) in Hrest |- *.
    assert (same_queue (fired_head p head s) s3) as Hsame3.
    { eapply same_queue_trans; [exact Hsame | by split]. }
    destruct (IH (clock_reads (host s2)) s3) with (1 := mux_inv_same _ _ Hsame3 Hinv1)
      as (n & j & Hij & Hj & Hn & Htake & Hdrop); [simpl; lia | exact Hrest |].
    assert (Hq3 : active_timeouts s3 = q).
    { destruct Hsame3 as (_ & -> & _). simpl. by rewrite Hq. }
    assert (Hk3 : forall x,
              cell_key (all_timeouts s3) x = cell_key (all_timeouts s) x).
    { intros x. destruct Hsame3 as (-> & _ & _). apply Hfired1. }
    exists (S n), j. split_and!.
    + lia.
    + done.
    + eapply fired_prefix_S; [done..|]. by eapply fired_prefix_same_l.
    + rewrite Hq. simpl. intros x [->|Hx]%elem_of_cons.
      * rewrite Hkey. etrans; [exact Hdue'|]. apply Hmono. lia.
      * rewrite <- Hk3. apply Htake. by rewrite Hq3.
    + intros now'. rewrite (bind_of_Ok _ _ _ _ _ Hh).
      erewrite (bind_of_Ok GetCurrentTimestamp); [|reflexivity].
      intros Hloop. destruct (Hdrop now' Hloop) as [-> Hleft].
      split; [done|]. rewrite Hq. simpl. intros x Hx.
      rewrite <- Hk3. apply Hleft. by rewrite Hq3.
  - assert (same_queue (fired_head p head s) s') as Hsame.
    { apply (Hquiet h). by rewrite Hh. }
    assert (clock_reads (host s) <= clock_reads (host s'))%nat as Hreads.
    { apply (Hsteady h (fired_head p head s)). by rewrite Hh. }
    exists 1%nat, i. split_and!.
    + done.
    + lia.
    + by eapply fired_prefix_same_r.
    + rewrite Hq. simpl. intros x ->%list_elem_of_singleton. by rewrite Hkey.
    + intros now'. by rewrite (bind_of_Raise _ _ _ _ _ _ Hh).
Qed.

(** [handle_sig_alarm] taken apart: what comes before the pending timeouts
    are fired only touches the host, and the rest runs in the state [s1]
    that it leaves. *)
Lemma handle_sig_alarm_unfold fuel s :
  exists s1,
    same_queue s s1 /\ alarm_enabled s1 = alarm_enabled s /\
    clock_reads (host s1) = clock_reads (host s) /\
    handle_sig_alarm fuel s
    = (let! fired :=
         (if alarm_enabled s1 then
            disable_alarm ;;
            match active_timeouts s1 with
            | [] => ret (Some tt)
            | _ :: _ =>
                let! now := GetCurrentTimestamp in
                let! r := handle_sig_alarm_loop fuel now in
                match r with
                | None => ret None
                | Some now' => schedule_alarm now' ;; ret (Some tt)
                end
            end
          else ret (Some tt)) in
       match fired with
       | None => ret None
       | Some _ =>
           RESUME_INTERRUPTS ;;
           set_ImmediateInterruptOK (ImmediateInterruptOK (host s)) ;;
           (when (ImmediateInterruptOK (host s)) then
              on_host CHECK_FOR_INTERRUPTS) ;;
           ret (Some tt)
       end) s1.
Proof.
  exists (match (set_ImmediateInterruptOK false ;; HOLD_INTERRUPTS ;;
                 when MyProc then SetLatch) s with
          | Ok _ s1 => s1
          | _ => s
          end).
  unfold handle_sig_alarm. destruct MyProc; (split_and!; [by split|done..]).
Qed.

(** The end of [handle_sig_alarm] leaves reason table, active list and
    handler log alone, and returns [Some tt] if it returns. *)
Lemma handle_sig_alarm_end save s :
  match (RESUME_INTERRUPTS ;;
         set_ImmediateInterruptOK save ;;
         (when save then on_host CHECK_FOR_INTERRUPTS) ;;
         ret (Some tt)) s with
  | Ok a s' => a = Some tt /\ same_queue s s'
  | Raise _ _ s' => same_queue s s'
  | Undefined => True
  end.
Proof.
  destruct save; unfold bind, RESUME_INTERRUPTS, set_ImmediateInterruptOK,
    modify, on_host, ret; simpl; [|by split].
  destruct (CHECK_FOR_INTERRUPTS _); simpl; try done; by split.
Qed.

(** What one pass leaves behind: [n] cells were fired, all of them due at
    reading [j] of the clock; if the pass returned, no cell left in the list
    is due at that reading. *)
Definition pass_fired (n j : nat) (s s' : mux_state) : Prop :=
  (clock_reads (host s) <= j)%nat /\
  fired_prefix n s s' /\
  (forall p, p ∈ take n (active_timeouts s) ->
     (cell_key (all_timeouts s) p).1 <= GetCurrentTimestamp_value j).

Definition pass_left (n j : nat) (s : mux_state) : Prop :=
  forall p, p ∈ drop n (active_timeouts s) ->
    GetCurrentTimestamp_value j < (cell_key (all_timeouts s) p).1.

Lemma pass_fired_same n j s0 s s1 s' :
  same_queue s0 s -> (clock_reads (host s0) <= clock_reads (host s))%nat ->
  same_queue s1 s' -> pass_fired n j s s1 -> pass_fired n j s0 s'.
Proof.
  intros Hs Hreads Hs' (Hj & Hfired & Hdue). split_and!.
  - lia.
  - eapply fired_prefix_same_l; [exact Hs|].
    eapply fired_prefix_same_r; [exact Hfired | exact Hs'].
  - destruct Hs as (Ht & Hq & _). intros p. rewrite <- Ht, <- Hq. apply Hdue.
Qed.

Lemma handle_sig_alarm_pass fuel s :
  (forall h, quiet (handler_body h)) ->
  (forall h, steady (handler_body h)) ->
  clock_monotone ->
  mux_inv s ->
  match handle_sig_alarm fuel s with
  | Ok a s' =>
      exists n j, pass_fired n j s s' /\
        (a = Some tt -> alarm_enabled s = true -> pass_left n j s)
  | Raise _ _ s' => exists n j, pass_fired n j s s'
  | Undefined => True
  end.
Proof.
  intros Hquiet Hsteady Hmono Hinv.
  destruct (handle_sig_alarm_unfold fuel s) as (s1 & Hsame & Hen & Hreads & ->).
  pose proof (mux_inv_same _ _ Hsame Hinv) as Hinv1.
  assert (Hnone : forall s2, same_queue s1 s2 ->
            pass_fired 0 (clock_reads (host s)) s s2).
  { intros s2 Hs2.
    eapply pass_fired_same; [exact Hsame | lia | exact Hs2 |].
    split_and!; [lia | apply fired_prefix_0 | by intros ? ?%elem_of_nil]. }
  assert (Hend : forall n j s5,
            pass_fired n j s s5 ->
            (alarm_enabled s = true -> pass_left n j s) ->
            match (RESUME_INTERRUPTS ;;
                   set_ImmediateInterruptOK (ImmediateInterruptOK (host s)) ;;
                   (when (ImmediateInterruptOK (host s)) then
                      on_host CHECK_FOR_INTERRUPTS) ;;
                   ret (Some tt)) s5 with
            | Ok a s' =>
                exists n j, pass_fired n j s s' /\
                  (a = Some tt -> alarm_enabled s = true -> pass_left n j s)
            | Raise _ _ s' => exists n j, pass_fired n j s s'
            | Undefined => True
            end).
  { intros n j s5 Hfired Hleft.
    pose proof (handle_sig_alarm_end (ImmediateInterruptOK (host s)) s5) as He.
    match type of He with
    | match ?x with _ => _ end => destruct x as [a s'|lvl code s'|]
    end; [| |done].
    - destruct He as [_ He]. exists n, j. split; [|auto].
      eapply pass_fired_same; [apply same_queue_refl | lia | exact He | done].
    - exists n, j.
      eapply pass_fired_same; [apply same_queue_refl | lia | exact He | done]. }
  destruct (alarm_enabled s1) eqn:Hen1; cycle 1.
  { erewrite (bind_of_Ok (ret _)); [|reflexivity].
    apply (Hend 0%nat (clock_reads (host s))).
    - apply Hnone, same_queue_refl.
    - rewrite <- Hen. congruence. }
  destruct (active_timeouts s1) as [|p0 q0] eqn:Hq1.
  { erewrite (bind_of_Ok (_ ;; _)); [|reflexivity].
    apply (Hend 0%nat (clock_reads (host s))).
    - apply Hnone. by split.
    - intros _ p. destruct Hsame as (_ & Hq & _). rewrite <- Hq, Hq1.
      rewrite drop_nil. by intros ?%elem_of_nil. }
  set (s2 := set_alarm_enabled false s1).
  set (i := clock_reads (host s1)).
  set (s3 := match GetCurrentTimestamp s2 with Ok _ s3 => s3 | _ => s2 end).
  assert (same_queue s1 s3) as Hsame3 by (by split).
  assert (Hstep : forall K : option unit -> T (option unit),
            ((let! fired :=
                (disable_alarm ;;
                 let! now := GetCurrentTimestamp in
                 let! r := handle_sig_alarm_loop fuel now in
                 match r with
                 | None => ret None
                 | Some now' => schedule_alarm now' ;; ret (Some tt)
                 end) in K fired) s1)
            = (let! fired :=
                 (let! r := handle_sig_alarm_loop fuel
                              (GetCurrentTimestamp_value i) in
                  match r with
                  | None => ret None
                  | Some now' => schedule_alarm now' ;; ret (Some tt)
                  end) in K fired) s3) by reflexivity.
  rewrite Hstep. clear Hstep.
  assert (same_queue s s3) as Hsame03
    by (eapply same_queue_trans; [exact Hsame | exact Hsame3]).
  assert (Hloop : forall r s4,
            handle_sig_alarm_loop fuel (GetCurrentTimestamp_value i) s3 = r ->
            final_state r = Some s4 ->
            exists n j, pass_fired n j s s4 /\
              forall now', r = Ok (Some now') s4 ->
                now' = GetCurrentTimestamp_value j /\ pass_left n j s).
  { intros r s4 <- Hfinal.
    destruct (handle_sig_alarm_loop_due fuel i s3 s4)
      as (n & j & Hij & Hj & Hn & Htake & Hdrop);
      [done | done | done | by eapply mux_inv_same | simpl; lia | done |].
    destruct Hsame03 as (Ht & Hq & Hl).
    exists n, j. split; [split_and!|].
    - unfold i in Hij. lia.
    - eapply fired_prefix_same_l; [|exact Hn]. by split.
    - intros p. rewrite <- Ht, <- Hq. apply Htake.
    - intros now' Hnow. destruct (Hdrop now' Hnow) as [-> Hleft].
      split; [done|]. intros p. rewrite <- Ht, <- Hq. apply Hleft. }
  unfold bind at 1.
  destruct (handle_sig_alarm_loop fuel (GetCurrentTimestamp_value i) s3)
    as [[now'|] s4|lvl code s4|] eqn:Hrun.
  - destruct (Hloop _ s4 eq_refl eq_refl) as (n & j & Hfired & Hnow).
    destruct (Hnow now' eq_refl) as [-> Hleft].
    rewrite (bind_of_Ok _ _ _ _ _ Hrun). unfold bind at 1.
    destruct (schedule_alarm (GetCurrentTimestamp_value j) s4)
      as [[] s5|lvl code s5|] eqn:Hsched; [| |done].
    + apply (Hend n j); [|done].
      eapply pass_fired_same; [apply same_queue_refl | lia | | exact Hfired].
      apply (quiet_schedule_alarm (GetCurrentTimestamp_value j)).
      by rewrite Hsched.
    + exists n, j.
      eapply pass_fired_same; [apply same_queue_refl | lia | | exact Hfired].
      apply (quiet_schedule_alarm (GetCurrentTimestamp_value j)).
      by rewrite Hsched.
  - destruct (Hloop _ s4 eq_refl eq_refl) as (n & j & Hfired & _).
    rewrite (bind_of_Ok _ _ _ _ _ Hrun). exists n, j. by split.
  - destruct (Hloop _ s4 eq_refl eq_refl) as (n & j & Hfired & _).
    rewrite (bind_of_Raise _ _ _ _ _ _ Hrun). by exists n, j.
  - unfold bind. by rewrite Hrun.
Qed.

(** C7 (handlers that leave the multiplexer alone, a clock that does not
    go backwards): one pass of [handle_sig_alarm] fires a prefix of the
    active list, in list order.  The reasons fired are removed from the
    list; their handlers are called in nondecreasing ([fin_time], [index])
    order; no reason is fired twice; and of two fired reasons with the same
    [fin_time] the one with the smaller id is called first.  Every reason
    fired was due: its [fin_time] is not after [now], what the clock gives
    at reading [j], the first reading of the pass or a later one.  This much
    holds in whatever state the pass stops, also when a handler leaves by
    [ereport]; and the loop of the pass ends within one iteration per active
    timeout.  When a pass with the alarm enabled returns, the reasons fired
    are exactly the due ones: no reason left in the list is due at [now],
    and every reason that was due at the first reading of the pass was
    fired; so of two reasons with the same [fin_time], both due when the
    pass starts, both handlers are called, the one of the smaller id first.
    The handlers are [quiet] and [steady]: they leave reason table, active
    list and handler log alone, and the clock they may read is read on, not
    reset. *)
Theorem expiry_pass_fires_in_key_order fuel s s' :
  (forall h, quiet (handler_body h)) ->
  (forall h, steady (handler_body h)) ->
  clock_monotone ->
  mux_inv s ->
  final_state (handle_sig_alarm fuel s) = Some s' ->
  ((length (active_timeouts s) <= fuel)%nat ->
   handle_sig_alarm fuel s <> Ok None s') /\
  exists n j,
    let K := cell_key (all_timeouts s) in
    let fired := K <$> take n (active_timeouts s) in
    let first := GetCurrentTimestamp_value (clock_reads (host s)) in
    let now := GetCurrentTimestamp_value j in
    (clock_reads (host s) <= j)%nat /\
    handler_log s' = handler_log s ++ fired /\
    active_timeouts s' = drop n (active_timeouts s) /\
    StronglySorted key_le fired /\
    NoDup fired.*2 /\
    (forall i1 i2 t a b,
       fired !! i1 = Some (t, a) -> fired !! i2 = Some (t, b) ->
       (a < b)%nat -> (i1 < i2)%nat) /\
    (forall k, k ∈ fired -> k.1 <= now) /\
    (alarm_enabled s = true -> handle_sig_alarm fuel s = Ok (Some tt) s' ->
     (forall p, p ∈ active_timeouts s' ->
        now < (cell_key (all_timeouts s') p).1) /\
     (forall p, p ∈ active_timeouts s -> (K p).1 <= first -> K p ∈ fired) /\
     (forall a b t,
        a ∈ active_timeouts s -> b ∈ active_timeouts s ->
        (K a).1 = t -> (K b).1 = t -> t <= first ->
        ((K a).2 < (K b).2)%nat ->
        exists i1 i2,
          fired !! i1 = Some (K a) /\ fired !! i2 = Some (K b) /\
          (i1 < i2)%nat)).
Proof.
  intros Hquiet Hsteady Hmono Hinv Hrun. split.
  { intros Hfuel. by apply handle_sig_alarm_enough_fuel. }
  pose proof (handle_sig_alarm_pass fuel s Hquiet Hsteady Hmono Hinv) as Hpass.
  assert (exists n j, pass_fired n j s s' /\
            (alarm_enabled s = true ->
             handle_sig_alarm fuel s = Ok (Some tt) s' -> pass_left n j s))
    as (n & j & (Hj & (Hlog & Hq & Hkeys) & Hdue) & Hleft).
  { destruct (handle_sig_alarm fuel s) as [a s1|lvl code s1|];
      simpl in Hrun; [| |done]; injection Hrun as ->.
    - destruct Hpass as (n & j & Hfired & Hleft). exists n, j.
      split; [done|]. intros Hen [= ->]. by apply Hleft.
    - destruct Hpass as (n & j & Hfired). exists n, j. by split. }
  exists n, j. intros K fired first now.
  assert (StronglySorted key_le fired) as Hsorted.
  { unfold fired. eapply StronglySorted_fmap; [intros x y H; exact H|].
    pose proof (inv_sorted _ Hinv) as Hs. unfold queue_sorted, sorted_by in Hs.
    rewrite <- (take_drop n (active_timeouts s)) in Hs.
    by apply StronglySorted_app_1_l in Hs. }
  assert (fired.*2 = take n (active_timeouts s)) as Hids.
  { unfold fired. rewrite <- list_fmap_compose.
    rewrite <- (list_fmap_id (take n (active_timeouts s))) at 2.
    apply list_fmap_ext. intros _ p Hp%list_elem_of_lookup_2. simpl.
    assert (p ∈ active_timeouts s) as Hin.
    { rewrite <- (take_drop n (active_timeouts s)). apply elem_of_app. by left. }
    destruct (inv_cell_lookup s p Hinv Hin) as (tp & Htp & Hidx).
    unfold K, cell_key. by rewrite Htp. }
  assert (NoDup fired.*2) as Hnodup.
  { rewrite Hids. pose proof (inv_nodup _ Hinv) as Hnd.
    rewrite <- (take_drop n (active_timeouts s)) in Hnd.
    by apply NoDup_app in Hnd as [? _]. }
  assert (Horder : forall i1 i2 t a b,
            fired !! i1 = Some (t, a) -> fired !! i2 = Some (t, b) ->
            (a < b)%nat -> (i1 < i2)%nat).
  { intros i1 i2 t a b Hi Hi2 Hab.
    destruct (decide (i1 < i2)%nat) as [|Hge]; [done|]. exfalso.
    destruct (decide (i1 = i2)) as [->|Hne].
    - rewrite Hi in Hi2. injection Hi2 as ->. lia.
    - assert (key_le (t, b) (t, a)) as Hle.
      { eapply (StronglySorted_lookup _ fired i2 i1); [done..|lia]. }
      unfold key_le in Hle. simpl in Hle. lia. }
  split_and!; [done..| |].
  { intros k (p & -> & Hp)%list_elem_of_fmap. by apply Hdue. }
  intros Hen Hok. specialize (Hleft Hen Hok).
  assert (Hfirst : first <= now) by (apply Hmono; lia).
  assert (Hall : forall p, p ∈ active_timeouts s -> (K p).1 <= first ->
            K p ∈ fired).
  { intros p Hp Hpdue. apply list_elem_of_fmap. exists p. split; [done|].
    rewrite <- (take_drop n (active_timeouts s)) in Hp.
    apply elem_of_app in Hp as [Hp|Hp]; [done|].
    specialize (Hleft p Hp). unfold K, first, now in *. lia. }
  split_and!.
  - intros p Hp. rewrite Hkeys. apply Hleft. by rewrite <- Hq.
  - exact Hall.
  - intros a b t Ha Hb Hta Htb Ht Hab.
    pose proof (Hall a Ha ltac:(lia)) as [i1 Hi1]%list_elem_of_lookup_1.
    pose proof (Hall b Hb ltac:(lia)) as [i2 Hi2]%list_elem_of_lookup_1.
    exists i1, i2. split_and!; [done..|].
    apply (Horder i1 i2 t (K a).2 (K b).2); [| |done].
    + transitivity (Some (K a)); [exact Hi1|].
      f_equal. rewrite <- Hta. by destruct (K a).
    + transitivity (Some (K b)); [exact Hi2|].
      f_equal. rewrite <- Htb. by destruct (K b).
Qed.

(** ** Checking the invariant of a given state *)

#[local] Instance key_le_dec : RelDecision key_le.
Proof. intros a b. unfold key_le. apply _. Defined.

Definition mux_inv_check (s : mux_state) : bool :=
  (length (all_timeouts s) =? MAX_TIMEOUTS)%nat
  && forallb
       (fun i =>
          match all_timeouts s !! i with
          | Some tp =>
              (index tp =? i)%nat
              && bool_decide (active tp = bool_decide (i ∈ active_timeouts s))
          | None => false
          end)
       (seq 0 MAX_TIMEOUTS)
  && forallb (fun p => (p <? MAX_TIMEOUTS)%nat) (active_timeouts s)
  && bool_decide (NoDup (active_timeouts s))
  && bool_decide (StronglySorted key_le
                    (cell_key (all_timeouts s) <$> active_timeouts s)).

Lemma mux_inv_check_sound s : mux_inv_check s = true -> mux_inv s.
Proof.
  unfold mux_inv_check. rewrite !andb_true_iff.
  intros ((((Hlen & Hslots) & Hcells) & Hnd) & Hsorted).
  apply Nat.eqb_eq in Hlen.
  rewrite forallb_forall in Hslots. rewrite forallb_forall in Hcells.
  apply bool_decide_eq_true in Hnd. apply bool_decide_eq_true in Hsorted.
  assert (Hslot : forall i tp, all_timeouts s !! i = Some tp ->
            index tp = i /\ active tp = bool_decide (i ∈ active_timeouts s)).
  { intros i tp Htp. pose proof (lookup_lt_Some _ _ _ Htp) as Hlt.
    specialize (Hslots i). rewrite Htp in Hslots.
    rewrite andb_true_iff, Nat.eqb_eq, bool_decide_eq_true in Hslots.
    apply Hslots, in_seq. lia. }
  split.
  - done.
  - intros i tp Htp. by apply Hslot.
  - intros p Hp. apply Nat.ltb_lt, Hcells. by apply list_elem_of_In.
  - done.
  - intros i tp Htp. destruct (Hslot i tp Htp) as [_ ->].
    apply bool_decide_eq_true.
  - unfold queue_sorted, sorted_by. clear -Hsorted.
    induction (active_timeouts s) as [|p q IH]; [constructor|].
    simpl in Hsorted. apply StronglySorted_cons in Hsorted as [Hall Hs].
    constructor; [by apply IH|]. by rewrite Forall_fmap in Hall.
Qed.

Lemma RegisterTimeout_inv id h s id' s' :
  mux_inv s -> RegisterTimeout id h s = Ok id' s' -> mux_inv s'.
Proof.
  intros Hinv. unfold RegisterTimeout.
  intros (i & s1 & Halloc & (? & s2 & Hupd & Hret)%bind_Ok)%bind_Ok.
  injection Hret as _ Hs'. subst s'.
  assert (s1 = s) as ->.
  { destruct ((USER_TIMEOUT <=? id)%nat &&
              (id <? GP_PARALLEL_RETRIEVE_CURSOR_CHECK_TIMEOUT)%nat);
      [|by injection Halloc].
    apply bind_Ok in Halloc as (j & s3 & Hscan & Hret).
    assert (s3 = s) as ->.
    { clear -Hscan. revert Hscan.
      generalize (GP_PARALLEL_RETRIEVE_CURSOR_CHECK_TIMEOUT - USER_TIMEOUT)%nat.
      generalize USER_TIMEOUT. intros a n. revert a.
      induction n as [|n IH]; intros a; simpl; [by intros [= _ <-]|].
      unfold bind, slot. destruct (all_timeouts s !! a) as [tp|]; [|done].
      destruct (timeout_handler tp); [apply IH | by intros [= _ <-]]. }
    destruct (_ <=? j)%nat; [done | by injection Hret]. }
  unfold update_slot in Hupd.
  destruct (all_timeouts s !! i) as [tp|] eqn:Htp; [|done].
  injection Hupd as Hs2. subst s2. by eapply mux_inv_update_neutral.
Qed.

Lemma run_op_inv op s s' :
  mux_inv s -> Forall (fun id => (id < MAX_TIMEOUTS)%nat) (op_ids op) ->
  run_op op s = Ok tt s' -> mux_inv s'.
Proof.
  intros Hinv Hids Hrun. pose proof (wp_run_op op s Hinv Hids) as Hwp.
  unfold wp in Hwp. by rewrite Hrun in Hwp.
Qed.

(** A history of calls, each started in the state the previous one left. *)
Fixpoint run_calls (cs : list api_call) (s : mux_state) : option mux_state :=
  match cs with
  | [] => Some s
  | c :: cs' =>
      match run_call c s with
      | Some s1 => run_calls cs' s1
      | None => None
      end
  end.

Lemma never_activated_calls id cs s s' :
  never_activated id s -> Forall (fun c => ~ activates c id) cs ->
  run_calls cs s = Some s' -> never_activated id s'.
Proof.
  revert s. induction cs as [|c cs IH]; intros s Hs Hcs; simpl.
  - by intros [= <-].
  - apply Forall_cons in Hcs as [Hc Hcs].
    destruct (run_call c s) as [s1|] eqn:Hrun; [|done].
    apply IH; [|done]. by eapply never_activated_call.
Qed.

(** ** Arming the interval timer *)

(** The [it_value] that [schedule_alarm] hands to [setitimer] when the
    nearest timeout is [head]: the time left, and one microsecond when none
    is left. *)
Definition timer_value (now : TimestampTz) (head : timeout_params) : Z * Z :=
  let d := TimestampDifference now (fin_time head) in
  (fst d, if (fst d =? 0) && (snd d =? 0) then 1 else snd d).

(** The state after a successful [schedule_alarm] on a non-empty list. *)
Definition timer_armed (v : Z * Z) (s : mux_state) : mux_state :=
  let h := host s in
  set_host {| clock_reads := clock_reads h;
              itimer_calls := S (itimer_calls h);
              itimer_value := v;
              ImmediateInterruptOK := ImmediateInterruptOK h;
              InterruptHoldoffCount := InterruptHoldoffCount h;
              latch_set := latch_set h |} (set_alarm_enabled true s).

Lemma schedule_alarm_armed now s p q head :
  active_timeouts s = p :: q -> all_timeouts s !! p = Some head ->
  setitimer_rc (itimer_calls (host s)) = 0 ->
  schedule_alarm now s = Ok tt (timer_armed (timer_value now head) s).
Proof.
  intros Hq Hhead Hrc. unfold schedule_alarm.
  rewrite (bind_of_Ok _ _ _ _ _ (eq_refl : get s = Ok s s)), Hq.
  rewrite (bind_of_Ok _ _ _ _ _ (slot_Ok _ _ _ Hhead)).
  unfold bind, enable_alarm, modify, setitimer. simpl. rewrite Hrc. reflexivity.
Qed.

Lemma schedule_alarm_fails now s p q head :
  active_timeouts s = p :: q -> all_timeouts s !! p = Some head ->
  setitimer_rc (itimer_calls (host s)) <> 0 ->
  exists s', schedule_alarm now s = Raise FATAL ERRCODE_INTERNAL_ERROR s' /\
             same_queue s s' /\ alarm_enabled s' = true /\
             itimer_value (host s') = itimer_value (host s).
Proof.
  intros Hq Hhead Hrc. unfold schedule_alarm.
  rewrite (bind_of_Ok _ _ _ _ _ (eq_refl : get s = Ok s s)), Hq.
  rewrite (bind_of_Ok _ _ _ _ _ (slot_Ok _ _ _ Hhead)).
  unfold bind, enable_alarm, modify, setitimer. simpl.
  apply Z.eqb_neq in Hrc. rewrite Hrc. simpl.
  eexists. split; [reflexivity|]. by split_and!.
Qed.

Lemma timer_value_nonzero now head : timer_value now head <> (0, 0).
Proof.
  unfold timer_value. destruct (TimestampDifference now (fin_time head)) as [a b].
  simpl. destruct (Z.eqb_spec a 0) as [->|Ha]; simpl.
  - destruct (Z.eqb_spec b 0) as [->|Hb]; [done|congruence].
  - congruence.
Qed.

(** X1: [reschedule_timeouts] does nothing before [InitializeTimeouts]; with
    no active timeout it only disables the alarm, reading no clock and
    setting no timer; with active timeouts it reads the clock once, enables
    the alarm and arms the timer for the head of the active list with the
    time left until its [fin_time], never with a zero interval (which would
    cancel the timer): a difference of zero is armed as one microsecond.
    The reason table and the active list are left as they are.  When
    [setitimer] fails the call ends with FATAL. *)
Theorem reschedule_timeouts_arms_nearest s :
  (all_timeouts_initialized s = false -> reschedule_timeouts s = Ok tt s) /\
  (all_timeouts_initialized s = true -> active_timeouts s = [] ->
   reschedule_timeouts s = Ok tt (set_alarm_enabled false s)) /\
  (forall p q head,
     all_timeouts_initialized s = true ->
     active_timeouts s = p :: q -> all_timeouts s !! p = Some head ->
     let now := GetCurrentTimestamp_value (clock_reads (host s)) in
     (setitimer_rc (itimer_calls (host s)) = 0 ->
      exists s',
        reschedule_timeouts s = Ok tt s' /\ same_queue s s' /\
        alarm_enabled s' = true /\
        clock_reads (host s') = S (clock_reads (host s)) /\
        itimer_value (host s') = timer_value now head /\
        itimer_value (host s') <> (0, 0)) /\
     (setitimer_rc (itimer_calls (host s)) <> 0 ->
      exists s',
        reschedule_timeouts s = Raise FATAL ERRCODE_INTERNAL_ERROR s' /\
        same_queue s s')).
Proof.
  split_and!.
  - intros Hinit. unfold reschedule_timeouts.
    by rewrite (bind_of_Ok _ _ _ _ _ (eq_refl : get s = Ok s s)), Hinit.
  - intros Hinit Hq. unfold reschedule_timeouts.
    rewrite (bind_of_Ok _ _ _ _ _ (eq_refl : get s = Ok s s)), Hinit, Hq.
    reflexivity.
  - intros p q head Hinit Hq Hhead now.
    assert (Hunfold : reschedule_timeouts s
                      = schedule_alarm now (clock_read s)).
    { unfold reschedule_timeouts.
      rewrite (bind_of_Ok _ _ _ _ _ (eq_refl : get s = Ok s s)), Hinit, Hq.
      reflexivity. }
    rewrite Hunfold. split; intros Hrc.
    + erewrite schedule_alarm_armed; [|exact Hq|exact Hhead|exact Hrc].
      eexists. split; [reflexivity|]. split_and!; try done.
      simpl. apply timer_value_nonzero.
    + destruct (schedule_alarm_fails now (clock_read s) p q head Hq Hhead Hrc)
        as (s' & Hs' & (Ht & Ha & Hl) & _).
      exists s'. split; [done|]. by split_and!.
Qed.

(** ** Cancelling timeouts *)

(** The slot of a reason after [disable_timeout]. *)
Definition cancelled_slot (keep_indicator : bool) (tp : timeout_params)
  : timeout_params :=
  {| index := index tp; active := false;
     indicator := if keep_indicator then indicator tp else false;
     timeout_handler := timeout_handler tp;
     start_time := start_time tp; fin_time := fin_time tp |}.

(** Reason table and active list after [id] was cancelled. *)
Definition disabled (id : TimeoutId) (keep_indicator : bool)
    (tp : timeout_params) (s : mux_state) : mux_state :=
  set_active_timeouts (filter (fun p => p <> id) (active_timeouts s))
    (set_all_timeouts
       (<[id := cancelled_slot keep_indicator tp]> (all_timeouts s)) s).

Lemma disable_one_Ok id keep tp s :
  mux_inv s -> all_timeouts s !! id = Some tp ->
  disable_one id keep s = Ok tt (disabled id keep tp s).
Proof.
  intros Hinv Htp. unfold disable_one.
  rewrite (bind_of_Ok _ _ _ _ _ (slot_Ok _ _ _ Htp)).
  rewrite (bind_of_Ok _ _ _ _ _ (deactivate_Ok _ _ _ Hinv Htp)).
  destruct keep; simpl.
  - unfold ret, disabled, removed, cancelled_slot. reflexivity.
  - rewrite (update_slot_Ok _ _ _ _ (removed_lookup _ _ _ Htp)).
    unfold disabled, removed, cancelled_slot. simpl.
    by rewrite list_insert_insert_eq.
Qed.

Lemma disabled_inv id keep tp s :
  mux_inv s -> all_timeouts s !! id = Some tp -> mux_inv (disabled id keep tp s).
Proof.
  intros Hinv Htp.
  pose proof (removed_inv _ _ _ Hinv Htp) as Hinv1.
  pose proof (mux_inv_update_neutral (removed id tp s) id
                (set_tp_active false tp) (cancelled_slot keep tp)
                Hinv1 (removed_lookup _ _ _ Htp) eq_refl eq_refl eq_refl)
    as Hinv2.
  unfold removed in Hinv2. simpl in Hinv2.
  rewrite list_insert_insert_eq in Hinv2. exact Hinv2.
Qed.

Lemma reschedule_if_active_Ok s :
  mux_inv s ->
  active_timeouts s = [] \/ setitimer_rc (itimer_calls (host s)) = 0 ->
  exists s',
    reschedule_if_active s = Ok tt s' /\ same_queue s s' /\
    alarm_enabled s'
    = match active_timeouts s with [] => alarm_enabled s | _ :: _ => true end.
Proof.
  intros Hinv Hrc. unfold reschedule_if_active.
  rewrite (bind_of_Ok _ _ _ _ _ (eq_refl : get s = Ok s s)).
  destruct (active_timeouts s) as [|p q] eqn:Hq.
  { exists s. split_and!; [done|apply same_queue_refl|done]. }
  destruct Hrc as [?|Hrc]; [done|].
  destruct (inv_cell_lookup s p Hinv) as (head & Hhead & _);
    [rewrite Hq; by left|].
  erewrite (bind_of_Ok GetCurrentTimestamp); [|reflexivity].
  erewrite schedule_alarm_armed; [|exact Hq|exact Hhead|exact Hrc].
  eexists. split; [reflexivity|]. by split_and!.
Qed.

Lemma disable_timeout_Ok id keep tp s :
  mux_inv s -> all_timeouts s !! id = Some tp ->
  setitimer_rc (itimer_calls (host s)) = 0 ->
  exists s',
    disable_timeout id keep s = Ok tt s' /\
    same_queue (disabled id keep tp s) s' /\
    alarm_enabled s' = bool_decide (active_timeouts s' <> []).
Proof.
  intros Hinv Htp Hrc. unfold disable_timeout.
  erewrite (bind_of_Ok disable_alarm); [|reflexivity].
  assert (Hinv0 : mux_inv (set_alarm_enabled false s))
    by (eapply mux_inv_same; [|exact Hinv]; by split).
  rewrite (bind_of_Ok _ _ _ _ _
             (disable_one_Ok id keep tp (set_alarm_enabled false s) Hinv0 Htp)).
  destruct (reschedule_if_active_Ok
              (disabled id keep tp (set_alarm_enabled false s)))
    as (s' & Hs' & Hsame & Halarm); [by apply disabled_inv|by right|].
  exists s'. split; [done|]. split.
  { eapply same_queue_trans; [|exact Hsame]. by split. }
  rewrite Halarm. destruct Hsame as (_ & -> & _).
  by destruct (active_timeouts _).
Qed.

(** X2: [disable_timeout] cancels reason [id] and nothing else.  After the
    call the reason is not in the active list, its [active] flag is false,
    and its indicator is false unless [keep_indicator] is given, in which
    case it is kept; handler and timestamps of the reason, the slots of all
    other reasons and the order of the other active timeouts are as before.
    Cancelling a reason that is not active is no error and leaves the active
    list as it is.  The alarm is left enabled exactly when an active timeout
    remains.  [setitimer] is taken to succeed. *)
Theorem disable_timeout_cancels id keep_indicator tp s :
  mux_inv s -> all_timeouts s !! id = Some tp ->
  setitimer_rc (itimer_calls (host s)) = 0 ->
  exists s',
    disable_timeout id keep_indicator s = Ok tt s' /\
    active_timeouts s' = filter (fun p => p <> id) (active_timeouts s) /\
    (id ∉ active_timeouts s') /\
    (active tp = false -> active_timeouts s' = active_timeouts s) /\
    all_timeouts s' !! id
    = Some {| index := index tp; active := false;
              indicator := if keep_indicator then indicator tp else false;
              timeout_handler := timeout_handler tp;
              start_time := start_time tp; fin_time := fin_time tp |} /\
    (forall j, j <> id -> all_timeouts s' !! j = all_timeouts s !! j) /\
    alarm_enabled s' = bool_decide (active_timeouts s' <> []) /\
    mux_inv s'.
Proof.
  intros Hinv Htp Hrc.
  destruct (disable_timeout_Ok id keep_indicator tp s Hinv Htp Hrc)
    as (s' & Hs' & Hsame & Halarm).
  pose proof (mux_inv_same _ _ Hsame (disabled_inv id keep_indicator tp s Hinv Htp))
    as Hinv'.
  destruct Hsame as (Ht & Hq & _).
  exists s'. split; [done|]. rewrite Ht, Hq. simpl. split_and!; try done.
  - by intros [? _]%list_elem_of_filter.
  - intros Hact. apply filter_ne_notin. intros Hin.
    eapply inv_active in Hin; [|done..]. congruence.
  - apply list_lookup_insert_eq. by eapply lookup_lt_Some.
  - intros j Hj. by apply list_lookup_insert_ne.
  - by rewrite Halarm, Hq.
Qed.

(** X3: arming a reason that is not active and cancelling it again gives
    back the active list as it was.  Of the reason table only the slot of
    that reason has changed: it is inactive, its indicator is false also
    when [keep_indicator] is given (arming has cleared it), and it holds the
    clock reading and the deadline of the arming. *)
Theorem enable_then_disable_restores_queue id fin keep_indicator tp s :
  mux_inv s -> all_timeouts s !! id = Some tp -> active tp = false ->
  (forall n, setitimer_rc n = 0) ->
  exists s1 s2,
    enable_timeout_at id fin s = Ok tt s1 /\
    disable_timeout id keep_indicator s1 = Ok tt s2 /\
    active_timeouts s2 = active_timeouts s /\
    all_timeouts s2 !! id
    = Some {| index := index tp; active := false; indicator := false;
              timeout_handler := timeout_handler tp;
              start_time := GetCurrentTimestamp_value (clock_reads (host s));
              fin_time := fin |} /\
    (forall j, j <> id -> all_timeouts s2 !! j = all_timeouts s !! j).
Proof.
  intros Hinv Htp Hact Hrc.
  rewrite enable_timeout_at_unfold.
  assert (same_queue s (clock_read s)) as Hsame0 by (by split).
  pose proof (mux_inv_same _ _ Hsame0 Hinv) as Hinv0.
  cbv zeta. set (now := GetCurrentTimestamp_value (clock_reads (host s))).
  rewrite (bind_of_Ok _ _ _ _ _
             (enable_timeout_Ok id tp now fin (clock_read s) Hinv0 Htp)).
  pose proof (enabled_inv id tp now fin _ Hinv0 Htp) as Hinv1.
  destruct (schedule_alarm_Ok now (enabled id tp now fin (clock_read s)) Hinv1
              (Hrc _)) as (s1 & Hs1 & Hsame1).
  pose proof (mux_inv_same _ _ Hsame1 Hinv1) as Hinv1'.
  destruct Hsame1 as (Ht1 & Hq1 & _).
  assert (Htp1 : all_timeouts s1 !! id = Some (armed_slot tp now fin)).
  { rewrite Ht1. by apply enabled_lookup. }
  destruct (disable_timeout_Ok id keep_indicator _ s1 Hinv1' Htp1 (Hrc _))
    as (s2 & Hs2 & (Ht2 & Hq2 & _) & _).
  exists s1, s2. split_and!; [done|done| | |].
  - rewrite Hq2. simpl. rewrite Hq1, enabled_filter. simpl.
    apply filter_ne_notin. intros Hin.
    eapply inv_active in Hin; [|done..]. congruence.
  - rewrite Ht2. simpl. rewrite list_lookup_insert_eq.
    + unfold cancelled_slot. simpl. by destruct keep_indicator.
    + rewrite Ht1. simpl. rewrite length_insert. by eapply lookup_lt_Some.
  - intros j Hj. rewrite Ht2. simpl. rewrite list_lookup_insert_ne by done.
    rewrite Ht1. by rewrite enabled_lookup_ne.
Qed.

(** Reason table and active list after the reasons of [l] were cancelled
    one after the other. *)
Fixpoint disabled_list (l : list DisableTimeoutParams) (s : mux_state)
  : mux_state :=
  match l with
  | [] => s
  | t :: rest =>
      match all_timeouts s !! dtp_id t with
      | Some tp =>
          disabled_list rest (disabled (dtp_id t) (dtp_keep_indicator t) tp s)
      | None => s
      end
  end.

(** [disable_timeout] called for each entry of [l] in turn. *)
Fixpoint disable_timeout_each (l : list DisableTimeoutParams) : T unit :=
  match l with
  | [] => ret tt
  | t :: rest =>
      disable_timeout (dtp_id t) (dtp_keep_indicator t) ;;
      disable_timeout_each rest
  end.

Lemma disabled_list_same l s s0 :
  same_queue s s0 -> same_queue (disabled_list l s) (disabled_list l s0).
Proof.
  revert s s0. induction l as [|t l IH]; intros s s0 Hsame; simpl; [done|].
  pose proof Hsame as (Ht & Hq & Hl). rewrite Ht.
  destruct (all_timeouts s !! dtp_id t) as [tp|]; [|done].
  apply IH. unfold disabled. split_and!; simpl; by rewrite ?Ht, ?Hq, ?Hl.
Qed.

Lemma disabled_list_host l s :
  host (disabled_list l s) = host s /\
  alarm_enabled (disabled_list l s) = alarm_enabled s.
Proof.
  revert s. induction l as [|t l IH]; intros s; simpl; [done|].
  destruct (all_timeouts s !! dtp_id t) as [tp|]; [|done].
  destruct (IH (disabled (dtp_id t) (dtp_keep_indicator t) tp s)) as [-> ->].
  done.
Qed.

Lemma disable_timeouts_loop_Ok l s :
  mux_inv s -> Forall (fun id => (id < MAX_TIMEOUTS)%nat) (dtp_id <$> l) ->
  disable_timeouts_loop l s = Ok tt (disabled_list l s) /\
  mux_inv (disabled_list l s).
Proof.
  revert s. induction l as [|t l IH]; intros s Hinv Hids; simpl; [done|].
  apply Forall_cons in Hids as [Hid Hids].
  destruct (inv_lookup s (dtp_id t) Hinv Hid) as (tp & Htp & _).
  rewrite Htp, (bind_of_Ok _ _ _ _ _ (disable_one_Ok _ _ _ _ Hinv Htp)).
  apply IH; [by apply disabled_inv|done].
Qed.

Lemma disable_timeout_each_Ok l s :
  (forall n, setitimer_rc n = 0) ->
  mux_inv s -> Forall (fun id => (id < MAX_TIMEOUTS)%nat) (dtp_id <$> l) ->
  exists s', disable_timeout_each l s = Ok tt s' /\
             same_queue (disabled_list l s) s'.
Proof.
  intros Hrc. revert s. induction l as [|t l IH]; intros s Hinv Hids; simpl.
  { exists s. split; [done|apply same_queue_refl]. }
  apply Forall_cons in Hids as [Hid Hids].
  destruct (inv_lookup s (dtp_id t) Hinv Hid) as (tp & Htp & _).
  destruct (disable_timeout_Ok _ (dtp_keep_indicator t) _ _ Hinv Htp (Hrc _))
    as (s1 & Hs1 & Hsame1 & _).
  rewrite (bind_of_Ok _ _ _ _ _ Hs1), Htp.
  destruct (IH s1) as (s' & Hs' & Hsame');
    [eapply mux_inv_same; [exact Hsame1|by apply disabled_inv]|done|].
  exists s'. split; [done|].
  eapply same_queue_trans; [|exact Hsame']. by apply disabled_list_same.
Qed.

(** X4: [disable_timeouts] works like calling [disable_timeout] for each
    entry in turn: both leave the same reason table and the same active
    list.  It does so with at most one reading of the clock and at most one
    [setitimer] call, whatever the number of entries.  [setitimer] is taken
    to succeed. *)
Theorem disable_timeouts_like_repeated_disable_timeout l s :
  mux_inv s -> Forall (fun id => (id < MAX_TIMEOUTS)%nat) (dtp_id <$> l) ->
  (forall n, setitimer_rc n = 0) ->
  exists s1 s2,
    disable_timeouts l s = Ok tt s1 /\
    disable_timeout_each l s = Ok tt s2 /\
    all_timeouts s1 = all_timeouts s2 /\
    active_timeouts s1 = active_timeouts s2 /\
    (clock_reads (host s1) <= S (clock_reads (host s)))%nat /\
    (itimer_calls (host s1) <= S (itimer_calls (host s)))%nat.
Proof.
  intros Hinv Hids Hrc.
  destruct (disable_timeout_each_Ok l s Hrc Hinv Hids) as (s2 & Hs2 & Hsame2).
  unfold disable_timeouts.
  erewrite (bind_of_Ok disable_alarm); [|reflexivity].
  assert (Hsame0 : same_queue s (set_alarm_enabled false s)) by (by split).
  destruct (disable_timeouts_loop_Ok l (set_alarm_enabled false s))
    as [Hloop Hinv1]; [by eapply mux_inv_same|done|].
  rewrite (bind_of_Ok _ _ _ _ _ Hloop).
  set (s0 := disabled_list l (set_alarm_enabled false s)) in *.
  assert (Hhost : host s0 = host s)
    by (unfold s0; by destruct (disabled_list_host l (set_alarm_enabled false s))).
  assert (Hsame1 : same_queue (disabled_list l s) s0)
    by (by apply disabled_list_same).
  unfold reschedule_if_active.
  rewrite (bind_of_Ok _ _ _ _ _ (eq_refl : get s0 = Ok s0 s0)).
  destruct (active_timeouts s0) as [|p q] eqn:Hq.
  - exists s0, s2. split; [done|]. split; [done|].
    destruct Hsame1 as (Ht1 & Hq1 & _), Hsame2 as (Ht2 & Hq2 & _).
    rewrite Hhost. split_and!; [congruence|congruence|lia|lia].
  - destruct (inv_cell_lookup s0 p Hinv1) as (head & Hhead & _);
      [rewrite Hq; by left|].
    erewrite (bind_of_Ok GetCurrentTimestamp); [|reflexivity].
    erewrite schedule_alarm_armed; [|exact Hq|exact Hhead|apply Hrc].
    eexists _, s2. split; [reflexivity|]. split; [done|].
    destruct Hsame1 as (Ht1 & Hq1 & _), Hsame2 as (Ht2 & Hq2 & _).
    simpl. rewrite Hhost. split_and!; [congruence|congruence|lia|lia].
Qed.

(** X5: [disable_all_timeouts] empties the active list and clears every
    [active] flag, whatever state the module's variables are in; the
    indicators are cleared too unless [keep_indicators] is given; handlers
    and timestamps are kept, and the alarm is left disabled.  The timer is
    reset (to zero) only when some timeout was active, with one [setitimer]
    call; when that call fails the function ends with FATAL before anything
    was removed from the active list. *)
Theorem disable_all_timeouts_clears keep_indicators s :
  (active_timeouts s = [] \/ setitimer_rc (itimer_calls (host s)) = 0 ->
   exists s',
     disable_all_timeouts keep_indicators s = Ok tt s' /\
     active_timeouts s' = [] /\ alarm_enabled s' = false /\
     all_timeouts s'
     = (fun tp =>
          {| index := index tp; active := false;
             indicator := if keep_indicators then indicator tp else false;
             timeout_handler := timeout_handler tp;
             start_time := start_time tp; fin_time := fin_time tp |})
         <$> all_timeouts s /\
     itimer_calls (host s')
     = (match active_timeouts s with
        | [] => itimer_calls (host s)
        | _ :: _ => S (itimer_calls (host s))
        end) /\
     (active_timeouts s <> [] -> itimer_value (host s') = (0, 0)) /\
     (length (all_timeouts s) = MAX_TIMEOUTS ->
      (forall i tp, all_timeouts s !! i = Some tp -> index tp = i) ->
      mux_inv s')) /\
  (active_timeouts s <> [] -> setitimer_rc (itimer_calls (host s)) <> 0 ->
   exists s',
     disable_all_timeouts keep_indicators s
     = Raise FATAL ERRCODE_INTERNAL_ERROR s' /\
     same_queue s s' /\ alarm_enabled s' = false).
Proof.
  split.
  - intros Hrc. unfold disable_all_timeouts.
    erewrite (bind_of_Ok disable_alarm); [|reflexivity].
    erewrite (bind_of_Ok get); [|reflexivity]. simpl active_timeouts.
    assert (Hinv' : forall tbl,
              length tbl = MAX_TIMEOUTS ->
              (forall i tp, tbl !! i = Some tp -> index tp = i) ->
              forall s0, active_timeouts s0 = [] ->
              all_timeouts s0
              = (fun tp =>
                   {| index := index tp; active := false;
                      indicator := if keep_indicators then indicator tp else false;
                      timeout_handler := timeout_handler tp;
                      start_time := start_time tp; fin_time := fin_time tp |})
                  <$> tbl ->
              mux_inv s0).
    { intros tbl Hlen Hidx s0 Hq Ht. split; rewrite ?Hq, ?Ht.
      - by rewrite length_fmap.
      - intros i tp Hi. rewrite list_lookup_fmap in Hi.
        destruct (tbl !! i) as [x|] eqn:Hx; [|done].
        injection Hi as <-. simpl. eauto.
      - by intros p ?%elem_of_nil.
      - constructor.
      - intros i tp Hi. rewrite list_lookup_fmap in Hi.
        destruct (tbl !! i) as [x|] eqn:Hx; [|done].
        injection Hi as <-. simpl. split; [done|by intros ?%elem_of_nil].
      - unfold queue_sorted. rewrite Hq. constructor. }
    assert (Hmap : forall tbl : list timeout_params,
              (fun tp => let tp0 := set_tp_active false tp in
                         if keep_indicators then tp0
                         else set_tp_indicator false tp0) <$> tbl
              = (fun tp =>
                   {| index := index tp; active := false;
                      indicator := if keep_indicators then indicator tp else false;
                      timeout_handler := timeout_handler tp;
                      start_time := start_time tp; fin_time := fin_time tp |})
                  <$> tbl).
    { intros tbl. apply list_fmap_ext. intros _ tp _. by destruct keep_indicators. }
    destruct (active_timeouts s) as [|p q] eqn:Hq.
    + erewrite (bind_of_Ok (ret tt)); [|reflexivity].
      erewrite (bind_of_Ok (modify _)); [|reflexivity].
      eexists. split; [reflexivity|]. simpl. rewrite Hmap.
      split_and!; try done. intros Hlen Hidx. by eapply Hinv'.
    + destruct Hrc as [?|Hrc]; [done|].
      unfold bind at 1. unfold bind at 1. unfold setitimer. simpl.
      rewrite Hrc. simpl.
      eexists. split; [reflexivity|]. simpl. rewrite Hmap.
      split_and!; try done. intros Hlen Hidx. by eapply Hinv'.
  - intros Hq Hrc. unfold disable_all_timeouts.
    erewrite (bind_of_Ok disable_alarm); [|reflexivity].
    erewrite (bind_of_Ok get); [|reflexivity]. simpl active_timeouts.
    destruct (active_timeouts s) as [|p q]; [done|].
    unfold bind at 1. unfold bind at 1. unfold setitimer. simpl.
    apply Z.eqb_neq in Hrc. rewrite Hrc. simpl.
    eexists. split; [reflexivity|]. by split_and!.
Qed.

(** ** A batch with an entry of unknown type *)

Definition recognized (t : EnableTimeoutParams) : Prop :=
  match etp_type t with
  | TMPARAM_AFTER | TMPARAM_AT => True
  | TMPARAM_unrecognized _ => False
  end.

Lemma enable_timeouts_loop_raises now l1 t v l2 s :
  mux_inv s ->
  Forall (fun id => (id < MAX_TIMEOUTS)%nat) (etp_id <$> l1) ->
  Forall recognized l1 ->
  etp_type t = TMPARAM_unrecognized v ->
  exists s',
    enable_timeouts_loop now (l1 ++ t :: l2) s
    = Raise ERROR ERRCODE_INTERNAL_ERROR s' /\
    mux_inv s' /\ host s' = host s /\ alarm_enabled s' = alarm_enabled s /\
    (forall p, p ∈ active_timeouts s'
               <-> p ∈ active_timeouts s \/ p ∈ etp_id <$> l1).
Proof.
  intros Hinv Hids Hrec Ht. revert s Hinv.
  induction l1 as [|t1 l1 IH]; intros s Hinv; simpl.
  { rewrite Ht. exists s. split; [done|]. split_and!; try done.
    intros p. rewrite elem_of_nil. tidy. tauto. }
  apply Forall_cons in Hids as [Hid Hids].
  apply Forall_cons in Hrec as [Hrec1 Hrec].
  destruct (inv_lookup s (etp_id t1) Hinv Hid) as (tp & Htp & _).
  assert (Hstep : exists fin,
            (match etp_type t1 with
             | TMPARAM_AFTER =>
                 enable_timeout (etp_id t1) now
                   (TimestampTzPlusMilliseconds now (etp_delay_ms t1))
             | TMPARAM_AT => enable_timeout (etp_id t1) now (etp_fin_time t1)
             | TMPARAM_unrecognized _ => ereport ERROR ERRCODE_INTERNAL_ERROR
             end) s = Ok tt (enabled (etp_id t1) tp now fin s)).
  { unfold recognized in Hrec1. destruct (etp_type t1); [| |done];
      eexists; by apply enable_timeout_Ok. }
  destruct Hstep as [fin Hstep]. rewrite (bind_of_Ok _ _ _ _ _ Hstep).
  destruct (IH Hids Hrec (enabled (etp_id t1) tp now fin s))
    as (s' & Hs' & Hinv' & Hhost & Halarm & Hq); [by apply enabled_inv|].
  exists s'. split; [done|]. split_and!; [done|by rewrite Hhost|by rewrite Halarm|].
  intros p. rewrite Hq, enabled_queue_elem_of, elem_of_cons.
  destruct (decide (p = etp_id t1)); tidy; tauto.
Qed.

(** X6: [enable_timeouts] is not all-or-nothing.  When an entry of the
    batch has a type that is neither TMPARAM_AFTER nor TMPARAM_AT, the call
    ends with an ERROR, after the entries before it were put into the
    active list and none of the entries after it: the active list then
    holds what it held before and the reasons of the earlier entries.  The
    alarm is left disabled and no timer was set, so nothing fires until a
    later call schedules the alarm again. *)
Theorem enable_timeouts_stops_at_unrecognized_type l1 t v l2 s :
  mux_inv s ->
  Forall (fun id => (id < MAX_TIMEOUTS)%nat) (etp_id <$> l1) ->
  Forall recognized l1 ->
  etp_type t = TMPARAM_unrecognized v ->
  exists s',
    enable_timeouts (l1 ++ t :: l2) s = Raise ERROR ERRCODE_INTERNAL_ERROR s' /\
    (forall p, p ∈ active_timeouts s'
               <-> p ∈ active_timeouts s \/ p ∈ etp_id <$> l1) /\
    alarm_enabled s' = false /\
    itimer_calls (host s') = itimer_calls (host s) /\
    itimer_value (host s') = itimer_value (host s) /\
    mux_inv s'.
Proof.
  intros Hinv Hids Hrec Ht. unfold enable_timeouts.
  erewrite (bind_of_Ok disable_alarm); [|reflexivity].
  erewrite (bind_of_Ok GetCurrentTimestamp); [|reflexivity].
  match goal with |- context [enable_timeouts_loop ?now _] =>
    destruct (enable_timeouts_loop_raises now l1 t v l2 (clock_read s))
      as (s' & Hs' & Hinv' & Hhost & Halarm & Hq); [|done..|] end.
  { eapply mux_inv_same; [|exact Hinv]. by split. }
  exists s'. split.
  { change (set_host _ (set_alarm_enabled false s)) with (clock_read s).
    by rewrite (bind_of_Raise _ _ _ _ _ _ Hs'). }
  rewrite Hhost, Halarm. by split_and!.
Qed.

(** ** Registering reasons *)

Lemma RegisterTimeout_scan_finds n a id tp s :
  (a <= id < a + n)%nat ->
  all_timeouts s !! id = Some tp -> timeout_handler tp = None ->
  (forall j, (a <= j < id)%nat ->
     exists tpj h, all_timeouts s !! j = Some tpj /\ timeout_handler tpj = Some h) ->
  RegisterTimeout_scan n a s = Ok id s.
Proof.
  revert a. induction n as [|n IH]; intros a Hid Htp Hfree Hfull; [lia|].
  simpl. destruct (decide (a = id)) as [->|Hne].
  - by rewrite (bind_of_Ok _ _ _ _ _ (slot_Ok _ _ _ Htp)), Hfree.
  - destruct (Hfull a) as (tpa & h & Htpa & Hh); [lia|].
    rewrite (bind_of_Ok _ _ _ _ _ (slot_Ok _ _ _ Htpa)), Hh.
    apply IH; [lia|done..|]. intros j Hj. apply Hfull. lia.
Qed.

Lemma RegisterTimeout_scan_inv n a id s s' :
  RegisterTimeout_scan n a s = Ok id s' ->
  s' = s /\ (a <= id <= a + n)%nat /\
  ((id < a + n)%nat ->
   exists tp, all_timeouts s !! id = Some tp /\ timeout_handler tp = None).
Proof.
  revert a. induction n as [|n IH]; intros a; simpl.
  { intros [= <- <-]. split_and!; [done|lia|lia|lia]. }
  unfold bind, slot. destruct (all_timeouts s !! a) as [tp|] eqn:Htp; [|done].
  destruct (timeout_handler tp) eqn:Hh.
  - intros (-> & Hr & Hfree)%IH. split_and!; [done|lia|lia|].
    intros Hlt. apply Hfree. lia.
  - intros [= <- <-]. split_and!; [done|lia|lia|]. eauto.
Qed.

(** X7: a request in the user-defined range, whichever id of the range it
    names, is given the lowest id of the range whose slot has no handler:
    [RegisterTimeout] stores the handler there, returns that id and changes
    nothing else.  A request for any other id stores the handler in the
    slot of that very id, replacing a handler registered before. *)
Theorem RegisterTimeout_allocates_lowest_free_id request handler id tp s :
  all_timeouts s !! id = Some tp ->
  ((USER_TIMEOUT <= request < GP_PARALLEL_RETRIEVE_CURSOR_CHECK_TIMEOUT)%nat ->
   (USER_TIMEOUT <= id < GP_PARALLEL_RETRIEVE_CURSOR_CHECK_TIMEOUT)%nat ->
   timeout_handler tp = None ->
   (forall j, (USER_TIMEOUT <= j < id)%nat ->
      exists tpj h, all_timeouts s !! j = Some tpj /\
                    timeout_handler tpj = Some h) ->
   RegisterTimeout request handler s
   = Ok id (set_all_timeouts
              (<[id := set_tp_handler handler tp]> (all_timeouts s)) s)) /\
  (~ (USER_TIMEOUT <= id < GP_PARALLEL_RETRIEVE_CURSOR_CHECK_TIMEOUT)%nat ->
   RegisterTimeout id handler s
   = Ok id (set_all_timeouts
              (<[id := set_tp_handler handler tp]> (all_timeouts s)) s)).
Proof.
  intros Htp. split.
  - intros Hreq Hid Hfree Hfull. unfold RegisterTimeout.
    destruct (Nat.leb_spec USER_TIMEOUT request); [|lia].
    destruct (Nat.ltb_spec request GP_PARALLEL_RETRIEVE_CURSOR_CHECK_TIMEOUT);
      [|lia].
    simpl. unfold bind at 1. unfold bind at 1.
    rewrite (RegisterTimeout_scan_finds _ _ id tp) by (done || lia).
    destruct (Nat.leb_spec GP_PARALLEL_RETRIEVE_CURSOR_CHECK_TIMEOUT id); [lia|].
    simpl. by rewrite (bind_of_Ok _ _ _ _ _ (update_slot_Ok _ _ _ _ Htp)).
  - intros Hid. unfold RegisterTimeout.
    assert ((USER_TIMEOUT <=? id)%nat
            && (id <? GP_PARALLEL_RETRIEVE_CURSOR_CHECK_TIMEOUT)%nat = false)
      as ->.
    { destruct (Nat.leb_spec USER_TIMEOUT id); [|done].
      destruct (Nat.ltb_spec id GP_PARALLEL_RETRIEVE_CURSOR_CHECK_TIMEOUT);
        [lia|done]. }
    erewrite (bind_of_Ok (ret id)); [|reflexivity].
    by rewrite (bind_of_Ok _ _ _ _ _ (update_slot_Ok _ _ _ _ Htp)).
Qed.

Lemma RegisterTimeout_user_inv request handler s id s' :
  (USER_TIMEOUT <= request < GP_PARALLEL_RETRIEVE_CURSOR_CHECK_TIMEOUT)%nat ->
  RegisterTimeout request handler s = Ok id s' ->
  (USER_TIMEOUT <= id < GP_PARALLEL_RETRIEVE_CURSOR_CHECK_TIMEOUT)%nat /\
  exists tp, all_timeouts s !! id = Some tp /\ timeout_handler tp = None /\
    s' = set_all_timeouts (<[id := set_tp_handler handler tp]> (all_timeouts s)) s.
Proof.
  intros Hreq. unfold RegisterTimeout.
  destruct (Nat.leb_spec USER_TIMEOUT request); [|lia].
  destruct (Nat.ltb_spec request GP_PARALLEL_RETRIEVE_CURSOR_CHECK_TIMEOUT);
    [|lia].
  simpl.
  intros (i & s1 & Halloc & (? & s2 & Hupd & Hret)%bind_Ok)%bind_Ok.
  injection Hret as <- <-.
  apply bind_Ok in Halloc as (j & s3 & Hscan & Hret).
  apply RegisterTimeout_scan_inv in Hscan as (-> & Hrange & Hfree).
  destruct (Nat.leb_spec GP_PARALLEL_RETRIEVE_CURSOR_CHECK_TIMEOUT j);
    [done|].
  injection Hret as <- <-.
  destruct Hfree as (tp & Htp & Hnone); [lia|].
  split; [lia|]. exists tp. split_and!; [done..|].
  rewrite (update_slot_Ok _ _ _ _ Htp) in Hupd. by injection Hupd.
Qed.

(** *** Registered handlers stay registered *)

(** The handler pointer of slot [id]; [None] is NULL. *)
Definition handler_of (id : TimeoutId) (s : mux_state)
  : option timeout_handler_proc :=
  all_timeouts s !! id ≫= timeout_handler.

(** A computation that leaves the handler registered for reason [id] in
    place, whether it returns or leaves by [ereport]. *)
Definition keeps_handler (id : TimeoutId) {A} (m : T A) : Prop :=
  forall s s' h, final_state (m s) = Some s' ->
    handler_of id s = Some h -> handler_of id s' = Some h.

Lemma kh_bind id {A B} (m : T A) (k : A -> T B) :
  keeps_handler id m -> (forall a, keeps_handler id (k a)) ->
  keeps_handler id (bind m k).
Proof.
  intros Hm Hk s s' h [(a & s1 & Hms & Hks)|(lvl & code & Hms)]%bind_final Hh.
  - eapply Hk; [exact Hks|]. eapply Hm; [by rewrite Hms | done].
  - eapply Hm; [by rewrite Hms | done].
Qed.

Lemma kh_ret id {A} (a : A) : keeps_handler id (ret a).
Proof. by intros s s' h [= <-]. Qed.

Lemma kh_get id : keeps_handler id get.
Proof. by intros s s' h [= <-]. Qed.

Lemma kh_ereport id {A} lvl code : keeps_handler id (@ereport _ A lvl code).
Proof. by intros s s' h [= <-]. Qed.

Lemma kh_undefined id {A} : keeps_handler id (@undefined _ A).
Proof. by intros s s' h. Qed.

Lemma kh_modify id f :
  (forall s, all_timeouts (f s) = all_timeouts s) -> keeps_handler id (modify f).
Proof. intros Hf s s' h [= <-]. unfold handler_of. by rewrite Hf. Qed.

Lemma kh_slot id id' : keeps_handler id (slot id').
Proof. intros s s' h. unfold slot. by destruct (_ !! _); intros [= <-]. Qed.

Lemma kh_update_slot id id' f :
  id' <> id \/ (forall tp, timeout_handler (f tp) = timeout_handler tp) ->
  keeps_handler id (update_slot id' f).
Proof.
  intros Hf s s' h. unfold update_slot.
  destruct (all_timeouts s !! id') as [tp|] eqn:Htp; [|done].
  intros [= <-]. unfold handler_of. simpl.
  destruct (decide (id' = id)) as [->|Hne].
  - destruct Hf as [?|Hf]; [done|].
    rewrite list_lookup_insert_eq by (by eapply lookup_lt_Some).
    rewrite Htp. simpl. by rewrite Hf.
  - by rewrite list_lookup_insert_ne.
Qed.

Lemma kh_on_host id {A} (m : M host_state A) : keeps_handler id (on_host m).
Proof.
  intros s s' h. unfold on_host. by destruct (m (host s)); intros [= <-].
Qed.

Lemma kh_GetCurrentTimestamp id : keeps_handler id GetCurrentTimestamp.
Proof. by intros s s' h [= <-]. Qed.

Lemma kh_setitimer id v : keeps_handler id (setitimer v).
Proof. by intros s s' h [= <-]. Qed.

Ltac kh_step :=
  first
    [ apply kh_ret | apply kh_get | apply kh_ereport
    | apply kh_undefined | apply kh_slot | apply kh_on_host
    | apply kh_GetCurrentTimestamp | apply kh_setitimer
    | apply kh_modify; intros; reflexivity
    | apply kh_update_slot; right; intros; reflexivity
    | apply kh_bind; [|intros ?]
    | match goal with
      | |- keeps_handler _ (if ?b then _ else _) => destruct b
      | |- keeps_handler _ (match ?x with _ => _ end) => destruct x
      end ].

Lemma kh_find_active_timeout_from id id' q i :
  keeps_handler id (find_active_timeout_from id' q i).
Proof. revert i. induction q; intros i; simpl; repeat kh_step. apply IHq. Qed.

Lemma kh_remove_timeout_index id i : keeps_handler id (remove_timeout_index i).
Proof. unfold remove_timeout_index. repeat kh_step. Qed.

Lemma kh_deactivate id id' :
  keeps_handler id
    (let! i := find_active_timeout id' in remove_timeout_index i).
Proof.
  unfold find_active_timeout.
  repeat first [ apply kh_find_active_timeout_from
               | apply kh_remove_timeout_index | kh_step ].
Qed.

Lemma kh_schedule_alarm id now : keeps_handler id (schedule_alarm now).
Proof. unfold schedule_alarm, enable_alarm. repeat kh_step. Qed.

Lemma kh_enable_timeout_scan id id' fin q i :
  keeps_handler id (enable_timeout_scan id' fin q i).
Proof. revert i. induction q; intros i; simpl; repeat kh_step. apply IHq. Qed.

Lemma kh_enable_timeout id id' now fin :
  keeps_handler id (enable_timeout id' now fin).
Proof.
  unfold enable_timeout, insert_timeout.
  repeat first [ apply kh_deactivate | apply kh_enable_timeout_scan | kh_step ].
Qed.

Lemma kh_disable_one id id' keep : keeps_handler id (disable_one id' keep).
Proof. unfold disable_one. repeat first [ apply kh_deactivate | kh_step ]. Qed.

Lemma kh_reschedule_if_active id : keeps_handler id reschedule_if_active.
Proof.
  unfold reschedule_if_active. repeat first [ apply kh_schedule_alarm | kh_step ].
Qed.

Lemma kh_enable_timeouts_loop id now l :
  keeps_handler id (enable_timeouts_loop now l).
Proof.
  induction l as [|t l IH]; simpl; [apply kh_ret|].
  repeat first [ apply kh_enable_timeout | apply IH | kh_step ].
Qed.

Lemma kh_disable_timeouts_loop id l :
  keeps_handler id (disable_timeouts_loop l).
Proof.
  induction l as [|t l IH]; simpl; [apply kh_ret|].
  repeat first [ apply kh_disable_one | apply IH | kh_step ].
Qed.

Lemma kh_disable_all_timeouts id k : keeps_handler id (disable_all_timeouts k).
Proof.
  unfold disable_all_timeouts, disable_alarm.
  repeat first
    [ apply kh_bind; [|intros ?] | apply kh_get
    | apply kh_modify; intros; reflexivity ].
  - repeat kh_step.
  - intros s s' h [= <-]. unfold handler_of. simpl. rewrite list_lookup_fmap.
    destruct (all_timeouts s !! id) as [tp|]; simpl; [|done].
    by destruct k.
Qed.

Lemma kh_RegisterTimeout_scan id n id' :
  keeps_handler id (RegisterTimeout_scan n id').
Proof. revert id'. induction n; intros id'; simpl; repeat kh_step. apply IHn. Qed.

(** A registration leaves the handlers of the user-defined range in place:
    a request in the range goes to a slot without handler, any other
    request to the slot it names. *)
Lemma kh_RegisterTimeout id id' h' :
  (USER_TIMEOUT <= id < GP_PARALLEL_RETRIEVE_CURSOR_CHECK_TIMEOUT)%nat ->
  keeps_handler id (RegisterTimeout id' h').
Proof.
  intros Hid s s' h. unfold RegisterTimeout.
  destruct ((USER_TIMEOUT <=? id')%nat
            && (id' <? GP_PARALLEL_RETRIEVE_CURSOR_CHECK_TIMEOUT)%nat)
    eqn:Hrange.
  - intros [(j & s1 & Halloc & Hrest)|(lvl & code & Halloc)]%bind_final Hh.
    + apply bind_Ok in Halloc as (j0 & s2 & Hscan & Hret).
      apply RegisterTimeout_scan_inv in Hscan as (-> & Hr & Hfree).
      destruct (Nat.leb_spec GP_PARALLEL_RETRIEVE_CURSOR_CHECK_TIMEOUT j0);
        [done|].
      injection Hret as <- <-.
      destruct Hfree as (tp & Htp & Hnone); [lia|].
      assert (j0 <> id) as Hne.
      { intros ->. unfold handler_of in Hh. rewrite Htp in Hh. simpl in Hh.
        congruence. }
      revert Hrest Hh. apply kh_bind; [|intros ?; apply kh_ret].
      apply kh_update_slot. by left.
    + assert (Hk : keeps_handler id
                (let! j := RegisterTimeout_scan
                             (GP_PARALLEL_RETRIEVE_CURSOR_CHECK_TIMEOUT
                              - USER_TIMEOUT) USER_TIMEOUT in
                 if (GP_PARALLEL_RETRIEVE_CURSOR_CHECK_TIMEOUT <=? j)%nat
                 then ereport FATAL ERRCODE_CONFIGURATION_LIMIT_EXCEEDED
                 else ret j)).
      { apply kh_bind; [apply kh_RegisterTimeout_scan|].
        intros ?. repeat kh_step. }
      eapply Hk; [by rewrite Halloc | exact Hh].
  - assert (id' <> id) as Hne.
    { intros ->. apply andb_false_iff in Hrange as [?%Nat.leb_gt|?%Nat.ltb_ge];
        lia. }
    erewrite (bind_of_Ok (ret id')); [|reflexivity].
    apply kh_bind; [|intros ?; apply kh_ret].
    apply kh_update_slot. by left.
Qed.

Section HandlersKeepHandler.

Variable id : TimeoutId.
Hypothesis id_user :
  (USER_TIMEOUT <= id < GP_PARALLEL_RETRIEVE_CURSOR_CHECK_TIMEOUT)%nat.
Hypothesis handlers_keep_handler : forall h, keeps_handler id (handler_body h).

Lemma kh_handle_sig_alarm_loop fuel now :
  keeps_handler id (handle_sig_alarm_loop fuel now).
Proof using handlers_keep_handler.
  revert now. induction fuel as [|fuel IH]; intros now; simpl;
    repeat first [ apply kh_remove_timeout_index | apply handlers_keep_handler
                 | apply IH | kh_step ].
Qed.

Lemma kh_handle_sig_alarm fuel : keeps_handler id (handle_sig_alarm fuel).
Proof using handlers_keep_handler.
  unfold handle_sig_alarm, set_ImmediateInterruptOK, HOLD_INTERRUPTS,
    RESUME_INTERRUPTS, SetLatch, disable_alarm.
  repeat first [ apply kh_handle_sig_alarm_loop | apply kh_schedule_alarm
               | kh_step ].
Qed.

Lemma kh_run_call c s s' h :
  run_call c s = Some s' -> handler_of id s = Some h ->
  handler_of id s' = Some h.
Proof using id_user handlers_keep_handler.
  destruct c; simpl.
  - by apply kh_RegisterTimeout.
  - revert s s' h. change (keeps_handler id reschedule_timeouts).
    unfold reschedule_timeouts, disable_alarm.
    repeat first [ apply kh_schedule_alarm | kh_step ].
  - revert s s' h. change (keeps_handler id (enable_timeout_after id0 delay_ms)).
    unfold enable_timeout_after, disable_alarm.
    repeat first [ apply kh_schedule_alarm | apply kh_enable_timeout
                 | kh_step ].
  - revert s s' h. change (keeps_handler id (enable_timeout_at id0 fin_time0)).
    unfold enable_timeout_at, disable_alarm.
    repeat first [ apply kh_schedule_alarm | apply kh_enable_timeout
                 | kh_step ].
  - revert s s' h. change (keeps_handler id (enable_timeouts timeouts)).
    unfold enable_timeouts, disable_alarm.
    repeat first [ apply kh_schedule_alarm | apply kh_enable_timeouts_loop
                 | kh_step ].
  - revert s s' h. change (keeps_handler id (disable_timeout id0 keep_indicator)).
    unfold disable_timeout, disable_alarm.
    repeat first [ apply kh_reschedule_if_active | apply kh_disable_one
                 | kh_step ].
  - revert s s' h. change (keeps_handler id (disable_timeouts timeouts)).
    unfold disable_timeouts, disable_alarm.
    repeat first [ apply kh_reschedule_if_active
                 | apply kh_disable_timeouts_loop | kh_step ].
  - apply kh_disable_all_timeouts.
  - revert s s' h. change (keeps_handler id (get_timeout_active id0)).
    unfold get_timeout_active. repeat kh_step.
  - revert s s' h.
    change (keeps_handler id (get_timeout_indicator id0 reset_indicator)).
    unfold get_timeout_indicator. repeat kh_step.
  - revert s s' h. change (keeps_handler id (get_timeout_start_time id0)).
    unfold get_timeout_start_time. repeat kh_step.
  - revert s s' h. change (keeps_handler id (get_timeout_finish_time id0)).
    unfold get_timeout_finish_time. repeat kh_step.
  - apply kh_handle_sig_alarm.
Qed.

Lemma kh_run_calls cs s s' h :
  run_calls cs s = Some s' -> handler_of id s = Some h ->
  handler_of id s' = Some h.
Proof using id_user handlers_keep_handler.
  revert s. induction cs as [|c cs IH]; intros s; simpl.
  - by intros [= <-].
  - destruct (run_call c s) as [s1|] eqn:Hrun; [|done].
    intros Hrest Hh. apply (IH s1 Hrest). by eapply kh_run_call.
Qed.

End HandlersKeepHandler.

(** X8: user-defined timeout ids are not handed out twice as long as the
    module is not initialized again.  When a registration in the
    user-defined range with a handler that is not NULL has returned an id,
    every later registration in that range returns another id, whatever
    calls of the interface were made in between: further registrations,
    enables and disables, and passes of the signal handler whose handlers
    leave the handlers registered in the user-defined range in place. *)
Theorem RegisterTimeout_user_ids_distinct
    req1 req2 h1 handler2 cs s id1 s1 s2 id2 s3 :
  (forall id h,
     (USER_TIMEOUT <= id < GP_PARALLEL_RETRIEVE_CURSOR_CHECK_TIMEOUT)%nat ->
     keeps_handler id (handler_body h)) ->
  (USER_TIMEOUT <= req1 < GP_PARALLEL_RETRIEVE_CURSOR_CHECK_TIMEOUT)%nat ->
  (USER_TIMEOUT <= req2 < GP_PARALLEL_RETRIEVE_CURSOR_CHECK_TIMEOUT)%nat ->
  RegisterTimeout req1 (Some h1) s = Ok id1 s1 ->
  run_calls cs s1 = Some s2 ->
  RegisterTimeout req2 handler2 s2 = Ok id2 s3 ->
  id1 <> id2.
Proof.
  intros Hh Hreq1 Hreq2 H1 Hcs H2.
  apply RegisterTimeout_user_inv in H1 as (Hid1 & tp1 & Htp1 & _ & ->);
    [|done].
  apply RegisterTimeout_user_inv in H2 as (_ & tp2 & Htp2 & Hnone & _); [|done].
  intros <-.
  assert (handler_of id1 s2 = Some h1) as Hkept.
  { eapply (kh_run_calls id1 Hid1 (fun h => Hh id1 h Hid1)); [exact Hcs|].
    unfold handler_of. simpl.
    by rewrite list_lookup_insert_eq by (by eapply lookup_lt_Some). }
  unfold handler_of in Hkept. rewrite Htp2 in Hkept. simpl in Hkept.
  congruence.
Qed.


(** ** The signal handler while the alarm is disabled *)

(** X9: a SIGALRM that arrives while the alarm is disabled fires nothing,
    also when timeouts are overdue: no handler is called, reason table and
    active list are untouched and the alarm stays disabled, so the overdue
    timeouts wait for the next [schedule_alarm].  The latch of the process
    is set all the same when there is a [MyProc].  When immediate interrupts
    were off, the handler returns with the interrupt holdoff count back at
    its old value, having read no clock and set no timer. *)
Theorem handle_sig_alarm_while_disabled fuel s :
  alarm_enabled s = false ->
  (forall s', final_state (handle_sig_alarm fuel s) = Some s' ->
     same_queue s s' /\ alarm_enabled s' = false) /\
  (ImmediateInterruptOK (host s) = false ->
   handle_sig_alarm fuel s
   = Ok (Some tt)
       (set_host {| clock_reads := clock_reads (host s);
                    itimer_calls := itimer_calls (host s);
                    itimer_value := itimer_value (host s);
                    ImmediateInterruptOK := false;
                    InterruptHoldoffCount := InterruptHoldoffCount (host s);
                    latch_set := MyProc || latch_set (host s) |} s)).
Proof.
  intros Halarm. split.
  - intros s'. unfold handle_sig_alarm, bind, get, set_ImmediateInterruptOK,
      HOLD_INTERRUPTS, SetLatch, RESUME_INTERRUPTS, modify, ret, on_host.
    destruct MyProc; simpl; rewrite Halarm; simpl;
      (destruct (ImmediateInterruptOK (host s)); simpl;
       [destruct (CHECK_FOR_INTERRUPTS _); simpl|]);
      try done; by intros [= <-].
  - intros Hoff. unfold handle_sig_alarm, bind, get, set_ImmediateInterruptOK,
      HOLD_INTERRUPTS, SetLatch, RESUME_INTERRUPTS, modify, ret, on_host.
    destruct MyProc; simpl; rewrite Halarm, Hoff; reflexivity.
Qed.

(** ** The invariant across the whole interface *)

Definition keeps_inv {A} (m : T A) : Prop :=
  forall s s', mux_inv s -> final_state (m s) = Some s' -> mux_inv s'.

Lemma keeps_inv_bind {A B} (m : T A) (k : A -> T B) :
  keeps_inv m -> (forall a, keeps_inv (k a)) -> keeps_inv (bind m k).
Proof.
  intros Hm Hk s s' Hinv [(a & s1 & Hms & Hks)|(lvl & code & Hms)]%bind_final.
  - eapply Hk; [|done]. eapply Hm; [done|]. by rewrite Hms.
  - eapply Hm; [done|]. by rewrite Hms.
Qed.

Lemma keeps_inv_quiet {A} (m : T A) : quiet m -> keeps_inv m.
Proof. intros Hm s s' Hinv Hs. eapply mux_inv_same; [|done]. by apply Hm. Qed.

Lemma wp_final {A} (m : T A) s :
  wp m (fun _ => mux_inv) mux_inv s ->
  exists s', final_state (m s) = Some s' /\ mux_inv s'.
Proof. unfold wp. destruct (m s); simpl; [eauto..|done]. Qed.

Lemma keeps_inv_wp {A} (m : T A) :
  (forall s, mux_inv s -> wp m (fun _ => mux_inv) mux_inv s) -> keeps_inv m.
Proof.
  intros Hm s s' Hinv Hs. destruct (wp_final m s (Hm s Hinv)) as (s1 & H1 & ?).
  congruence.
Qed.

Lemma cleared_inv (f : timeout_params -> timeout_params) tbl s0 :
  length tbl = MAX_TIMEOUTS ->
  (forall i tp, tbl !! i = Some tp -> index tp = i) ->
  (forall tp, index (f tp) = index tp /\ active (f tp) = false) ->
  active_timeouts s0 = [] -> all_timeouts s0 = f <$> tbl ->
  mux_inv s0.
Proof.
  intros Hlen Hidx Hf Hq Ht. split; rewrite ?Hq, ?Ht.
  - by rewrite length_fmap.
  - intros i tp Hi. rewrite list_lookup_fmap in Hi.
    destruct (tbl !! i) as [x|] eqn:Hx; [|done].
    injection Hi as <-. destruct (Hf x) as [-> _]. eauto.
  - by intros p ?%elem_of_nil.
  - constructor.
  - intros i tp Hi. rewrite list_lookup_fmap in Hi.
    destruct (tbl !! i) as [x|] eqn:Hx; [|done].
    injection Hi as <-. destruct (Hf x) as [_ ->].
    split; [done|by intros ?%elem_of_nil].
  - unfold queue_sorted. rewrite Hq. constructor.
Qed.

Lemma wp_disable_all_timeouts keep s :
  mux_inv s -> wp (disable_all_timeouts keep) (fun _ => mux_inv) mux_inv s.
Proof.
  intros Hinv. unfold disable_all_timeouts.
  apply wp_bind, wp_disable_alarm. intros s1 Hs1.
  pose proof (mux_inv_same _ _ Hs1 Hinv) as Hinv1.
  apply wp_bind, wp_get. apply wp_bind.
  assert (Hclear : forall s2, same_queue s1 s2 ->
            wp (modify (set_active_timeouts []) ;;
                modify (fun s =>
                  set_all_timeouts
                    ((fun tp =>
                        let tp := set_tp_active false tp in
                        if keep then tp else set_tp_indicator false tp)
                       <$> all_timeouts s) s))
               (fun _ => mux_inv) mux_inv s2).
  { intros s2 (Ht & _ & _). unfold wp, bind, modify.
    eapply (cleared_inv _ (all_timeouts s2)); [| | |done|done].
    - rewrite Ht. by apply inv_length.
    - rewrite Ht. by apply inv_index.
    - intros tp. by destruct keep. }
  destruct (active_timeouts s1).
  - apply wp_ret, Hclear, same_queue_refl.
  - apply wp_bind. unfold wp at 1, setitimer. simpl.
    destruct (setitimer_rc _ =? 0); simpl.
    + apply wp_ret, Hclear. by split.
    + eapply mux_inv_same; [|exact Hinv1]. by split.
Qed.

Lemma wp_slot id (Q : timeout_params -> mux_state -> Prop) E s :
  mux_inv s -> (id < MAX_TIMEOUTS)%nat ->
  (forall tp, all_timeouts s !! id = Some tp -> Q tp s) ->
  wp (slot id) Q E s.
Proof.
  intros Hinv Hid HQ. destruct (inv_lookup s id Hinv Hid) as (tp & Htp & _).
  eapply wp_Ok; [by apply slot_Ok|auto].
Qed.

Lemma wp_update_slot_neutral id f s :
  mux_inv s -> (id < MAX_TIMEOUTS)%nat ->
  (forall tp, index (f tp) = index tp /\ active (f tp) = active tp /\
              fin_time (f tp) = fin_time tp) ->
  wp (update_slot id f) (fun _ => mux_inv) mux_inv s.
Proof.
  intros Hinv Hid Hf. destruct (inv_lookup s id Hinv Hid) as (tp & Htp & _).
  eapply wp_Ok; [by apply update_slot_Ok|].
  destruct (Hf tp) as (? & ? & ?). by eapply mux_inv_update_neutral.
Qed.

Lemma wp_RegisterTimeout_scan n a (Q : TimeoutId -> mux_state -> Prop) E s :
  mux_inv s -> (a + n <= MAX_TIMEOUTS)%nat ->
  (forall i, (a <= i <= a + n)%nat -> Q i s) ->
  wp (RegisterTimeout_scan n a) Q E s.
Proof.
  revert a. induction n as [|n IH]; intros a Hinv Hle HQ; simpl.
  { apply wp_ret, HQ. lia. }
  apply wp_bind, wp_slot; [done|lia|]. intros tp _.
  destruct (timeout_handler tp).
  - apply IH; [done|lia|]. intros i Hi. apply HQ. lia.
  - apply wp_ret, HQ. lia.
Qed.

Lemma wp_RegisterTimeout id h s :
  mux_inv s -> (id < MAX_TIMEOUTS)%nat ->
  (GP_PARALLEL_RETRIEVE_CURSOR_CHECK_TIMEOUT <= MAX_TIMEOUTS)%nat ->
  wp (RegisterTimeout id h) (fun _ => mux_inv) mux_inv s.
Proof.
  intros Hinv Hid Hgp. unfold RegisterTimeout. apply wp_bind.
  assert (Hstore : forall i, (i < MAX_TIMEOUTS)%nat ->
            wp (update_slot i (set_tp_handler h) ;; ret i)
               (fun _ => mux_inv) mux_inv s).
  { intros i Hi. apply wp_bind.
    eapply wp_mono; [by apply wp_update_slot_neutral| |done].
    intros ? s' Hs'. by apply wp_ret. }
  destruct ((USER_TIMEOUT <=? id)%nat
            && (id <? GP_PARALLEL_RETRIEVE_CURSOR_CHECK_TIMEOUT)%nat) eqn:Hc.
  - apply andb_true_iff in Hc as [Hu%Nat.leb_le Hg%Nat.ltb_lt].
    apply wp_bind, wp_RegisterTimeout_scan; [done|lia|].
    intros i Hi.
    destruct (Nat.leb_spec GP_PARALLEL_RETRIEVE_CURSOR_CHECK_TIMEOUT i).
    + exact Hinv.
    + apply wp_ret, Hstore. lia.
  - apply wp_ret, Hstore. done.
Qed.

Lemma wp_reschedule_timeouts s :
  mux_inv s -> wp reschedule_timeouts (fun _ => mux_inv) mux_inv s.
Proof.
  intros Hinv. unfold reschedule_timeouts. apply wp_bind, wp_get.
  destruct (all_timeouts_initialized s); [|by apply wp_ret].
  apply wp_bind, wp_disable_alarm. intros s1 Hs1.
  pose proof (mux_inv_same _ _ Hs1 Hinv) as Hinv1.
  destruct (active_timeouts s); [by apply wp_ret|].
  apply wp_bind, wp_GetCurrentTimestamp. intros s2 Hs2.
  pose proof (mux_inv_same _ _ Hs2 Hinv1) as Hinv2.
  apply wp_schedule_alarm; [done|..]; intros s3 Hs3; by eapply mux_inv_same.
Qed.

Lemma wp_get_timeout_indicator id reset s :
  mux_inv s -> (id < MAX_TIMEOUTS)%nat ->
  wp (get_timeout_indicator id reset) (fun _ => mux_inv) mux_inv s.
Proof.
  intros Hinv Hid. unfold get_timeout_indicator.
  apply wp_bind, wp_slot; [done..|]. intros tp _.
  destruct (indicator tp); [|by apply wp_ret].
  apply wp_bind. destruct reset; [|by apply wp_ret].
  eapply wp_mono; [by apply wp_update_slot_neutral| |done].
  intros ? s' Hs'. by apply wp_ret.
Qed.

(** The reason ids that a call names. *)
Definition call_ids (c : api_call) : list TimeoutId :=
  match c with
  | Call_RegisterTimeout id _ => [id]
  | Call_enable_timeout_after id _ => [id]
  | Call_enable_timeout_at id _ => [id]
  | Call_enable_timeouts l => etp_id <$> l
  | Call_disable_timeout id _ => [id]
  | Call_disable_timeouts l => dtp_id <$> l
  | Call_get_timeout_active id => [id]
  | Call_get_timeout_indicator id _ => [id]
  | Call_get_timeout_start_time id => [id]
  | Call_get_timeout_finish_time id => [id]
  | Call_reschedule_timeouts | Call_disable_all_timeouts _ | Call_SIGALRM _ => []
  end.

Definition is_signal (c : api_call) : bool :=
  match c with Call_SIGALRM _ => true | _ => false end.

Lemma wp_mainline_call c s :
  mux_inv s -> Forall (fun id => (id < MAX_TIMEOUTS)%nat) (call_ids c) ->
  (GP_PARALLEL_RETRIEVE_CURSOR_CHECK_TIMEOUT <= MAX_TIMEOUTS)%nat ->
  is_signal c = false ->
  exists s', run_call c s = Some s' /\ mux_inv s'.
Proof.
  intros Hinv Hids Hgp Hsig.
  destruct c as [id h| |id d|id f|l|id k|l|k|id|id r|id|id|fuel]; simpl in *;
    try discriminate; apply wp_final.
  - apply Forall_cons in Hids as [Hid _]. by apply wp_RegisterTimeout.
  - by apply wp_reschedule_timeouts.
  - by apply (wp_run_op (Op_enable_timeout_after id d)).
  - by apply (wp_run_op (Op_enable_timeout_at id f)).
  - by apply (wp_run_op (Op_enable_timeouts l)).
  - by apply (wp_run_op (Op_disable_timeout id k)).
  - by apply (wp_run_op (Op_disable_timeouts l)).
  - by apply wp_disable_all_timeouts.
  - apply Forall_cons in Hids as [Hid _]. unfold get_timeout_active.
    apply wp_bind, wp_slot; [done..|]. intros tp _. by apply wp_ret.
  - apply Forall_cons in Hids as [Hid _]. by apply wp_get_timeout_indicator.
  - apply Forall_cons in Hids as [Hid _]. unfold get_timeout_start_time.
    apply wp_bind, wp_slot; [done..|]. intros tp _. by apply wp_ret.
  - apply Forall_cons in Hids as [Hid _]. unfold get_timeout_finish_time.
    apply wp_bind, wp_slot; [done..|]. intros tp _. by apply wp_ret.
Qed.

(** X10: no mainline call runs outside the two arrays.  On a well-formed
    state, with reason ids below [MAX_TIMEOUTS] (and the user-defined range
    inside the table), every function of the interface other than the
    signal handler either returns or ends with [ereport]; it reads or
    writes no cell outside [all_timeouts] and [active_timeouts], and the
    active list never grows beyond [MAX_TIMEOUTS] cells. *)
Theorem mainline_calls_stay_in_bounds c s :
  mux_inv s -> Forall (fun id => (id < MAX_TIMEOUTS)%nat) (call_ids c) ->
  (GP_PARALLEL_RETRIEVE_CURSOR_CHECK_TIMEOUT <= MAX_TIMEOUTS)%nat ->
  is_signal c = false ->
  exists s', run_call c s = Some s' /\
             (length (active_timeouts s') <= MAX_TIMEOUTS)%nat.
Proof.
  intros Hinv Hids Hgp Hsig.
  destruct (wp_mainline_call c s Hinv Hids Hgp Hsig) as (s' & Hs' & Hinv').
  exists s'. split; [done|].
  pose proof (inv_nodup _ Hinv') as Hnd.
  assert (active_timeouts s' ⊆+ seq 0 MAX_TIMEOUTS) as Hsub.
  { apply NoDup_submseteq; [done|]. intros p Hp. apply elem_of_seq.
    pose proof (inv_cells _ Hinv' p Hp). lia. }
  apply submseteq_length in Hsub. by rewrite length_seq in Hsub.
Qed.

Section HandlersKeepInv.

Hypothesis handlers_keep_inv : forall h, keeps_inv (handler_body h).

Lemma keeps_inv_handle_sig_alarm_loop fuel now :
  keeps_inv (handle_sig_alarm_loop fuel now).
Proof using handlers_keep_inv.
  revert now. induction fuel as [|fuel IH]; intros now s s' Hinv;
    (destruct (loop_cases now s Hinv)
       as [Hstop|(p & q & head & Hq & Hhead & Hdue)];
     [rewrite handle_sig_alarm_loop_stop by done; by intros [= <-]|]).
  { simpl. rewrite (bind_of_Ok _ _ _ _ _ (eq_refl : get s = Ok s s)), Hq.
    rewrite (bind_of_Ok _ _ _ _ _ (slot_Ok _ _ _ Hhead)), Hdue.
    by intros [= <-]. }
  rewrite (handle_sig_alarm_loop_S _ _ _ _ _ _ Hq Hhead Hdue).
  destruct (fired_head_spec p q head s Hinv Hq Hhead) as [Hinv1 _].
  revert s' Hinv1. generalize (fired_head p head s). intros s1 s' Hinv1.
  revert s1 s' Hinv1. change (keeps_inv
    (match timeout_handler head with
     | Some h => handler_body h
     | None => undefined
     end ;; let! now' := GetCurrentTimestamp in
            handle_sig_alarm_loop fuel now')).
  apply keeps_inv_bind.
  - destruct (timeout_handler head); [apply handlers_keep_inv|by intros ? ?].
  - intros _. apply keeps_inv_bind; [apply keeps_inv_quiet; quiet_step|].
    intros now'. apply IH.
Qed.

Lemma keeps_inv_handle_sig_alarm fuel : keeps_inv (handle_sig_alarm fuel).
Proof using handlers_keep_inv.
  unfold handle_sig_alarm, set_ImmediateInterruptOK, HOLD_INTERRUPTS,
    RESUME_INTERRUPTS, SetLatch, disable_alarm.
  apply keeps_inv_bind; [apply keeps_inv_quiet; quiet_step | intros s0].
  apply keeps_inv_bind; [apply keeps_inv_quiet; quiet_step | intros ?].
  apply keeps_inv_bind; [apply keeps_inv_quiet; quiet_step | intros ?].
  apply keeps_inv_bind; [apply keeps_inv_quiet; repeat quiet_step | intros ?].
  apply keeps_inv_bind; [apply keeps_inv_quiet; quiet_step | intros s1].
  apply keeps_inv_bind; [|intros ?; apply keeps_inv_quiet; repeat quiet_step].
  destruct (alarm_enabled s1); [|apply keeps_inv_quiet; quiet_step].
  apply keeps_inv_bind; [apply keeps_inv_quiet; quiet_step | intros ?].
  destruct (active_timeouts s1); [apply keeps_inv_quiet; quiet_step|].
  apply keeps_inv_bind; [apply keeps_inv_quiet; quiet_step | intros now].
  apply keeps_inv_bind; [apply keeps_inv_handle_sig_alarm_loop|].
  intros ?. apply keeps_inv_quiet.
  repeat first [ apply quiet_schedule_alarm | quiet_step ].
Qed.

(** X11: the representation invariant holds across the whole interface.
    In a well-formed state (sorted active list without duplicates whose
    cells point into the table, [active] flags that say which reasons are
    in the list, every slot holding its own index), any call, the signal
    handler included, leaves a well-formed state, whether it returns or
    ends with [ereport].  The timeout handlers themselves are taken to
    keep the invariant, as they do when they change the module's state only
    through this interface. *)
Theorem every_call_keeps_invariant c s s' :
  mux_inv s -> Forall (fun id => (id < MAX_TIMEOUTS)%nat) (call_ids c) ->
  (GP_PARALLEL_RETRIEVE_CURSOR_CHECK_TIMEOUT <= MAX_TIMEOUTS)%nat ->
  run_call c s = Some s' -> mux_inv s'.
Proof using handlers_keep_inv.
  intros Hinv Hids Hgp Hrun. destruct (is_signal c) eqn:Hsig.
  - destruct c; try discriminate. simpl in Hrun.
    by eapply keeps_inv_handle_sig_alarm.
  - destruct (wp_mainline_call c s Hinv Hids Hgp Hsig) as (s1 & Hs1 & Hinv1).
    congruence.
Qed.

End HandlersKeepInv.

(** ** What a pass of the signal handler leaves in the reason table *)

(** [s'] is [s] after the first [n] cells of the active list were fired:
    besides [fired_prefix], the slots of those reasons are inactive with
    the indicator set, and all other slots are as they were. *)
Definition marks_fired (n : nat) (s s' : mux_state) : Prop :=
  fired_prefix n s s' /\
  forall p,
    all_timeouts s' !! p
    = if bool_decide (p ∈ take n (active_timeouts s))
      then (fun tp => set_tp_indicator true (set_tp_active false tp))
             <$> all_timeouts s !! p
      else all_timeouts s !! p.

Lemma marks_fired_0 s : marks_fired 0 s s.
Proof.
  split; [apply fired_prefix_0|]. intros p. rewrite take_0.
  by rewrite bool_decide_eq_false_2 by (by intros ?%elem_of_nil).
Qed.

Lemma marks_fired_same_l n s0 s s' :
  same_queue s0 s -> marks_fired n s s' -> marks_fired n s0 s'.
Proof.
  intros Hsame [Hf Hm]. split; [by eapply fired_prefix_same_l|].
  destruct Hsame as (Ht & Hq & _). intros p. by rewrite Hm, Ht, Hq.
Qed.

Lemma marks_fired_same_r n s s' s'' :
  marks_fired n s s' -> same_queue s' s'' -> marks_fired n s s''.
Proof.
  intros [Hf Hm] Hsame. split; [by eapply fired_prefix_same_r|].
  destruct Hsame as (Ht & _ & _). intros p. by rewrite Ht, Hm.
Qed.

Lemma fired_head_marks p q head s :
  mux_inv s -> active_timeouts s = p :: q ->
  all_timeouts s !! p = Some head ->
  marks_fired 1 s (fired_head p head s).
Proof.
  intros Hinv Hq Hhead.
  split; [by destruct (fired_head_spec p q head s Hinv Hq Hhead)|].
  intros x. rewrite Hq. simpl. rewrite take_0.
  destruct (decide (x = p)) as [->|Hne].
  - rewrite bool_decide_eq_true_2 by (by left).
    rewrite list_lookup_insert_eq by (by eapply lookup_lt_Some).
    by rewrite Hhead.
  - rewrite bool_decide_eq_false_2
      by (intros [?|?%elem_of_nil]%elem_of_cons; done).
    by rewrite list_lookup_insert_ne.
Qed.

Lemma marks_fired_S n p q s s1 s' :
  NoDup (active_timeouts s) -> active_timeouts s = p :: q ->
  marks_fired 1 s s1 -> marks_fired n s1 s' -> marks_fired (S n) s s'.
Proof.
  intros Hnd Hq [Hf1 Hm1] [Hf Hm].
  split; [by eapply fired_prefix_S|].
  assert (Hq1 : active_timeouts s1 = q).
  { destruct Hf1 as (_ & -> & _). by rewrite Hq. }
  rewrite Hq in Hnd. apply NoDup_cons in Hnd as [Hnotin _].
  intros x. rewrite Hm, Hq1, Hm1, Hq. simpl. rewrite take_0.
  destruct (decide (x = p)) as [->|Hne].
  - rewrite (bool_decide_eq_false_2 (p ∈ take n q)).
    + by rewrite !bool_decide_eq_true_2 by (by left).
    + intros Hin. apply Hnotin. by apply (subseteq_take n q).
  - rewrite (bool_decide_eq_false_2 (x ∈ [p]))
      by (intros [?|?%elem_of_nil]%elem_of_cons; done).
    destruct (decide (x ∈ take n q)) as [Hin|Hin].
    + rewrite !bool_decide_eq_true_2; [done|by right|done].
    + rewrite !bool_decide_eq_false_2; [done| |done].
      by intros [?|?]%elem_of_cons.
Qed.

Lemma handle_sig_alarm_loop_marks fuel now s s' :
  (forall h, quiet (handler_body h)) ->
  mux_inv s ->
  final_state (handle_sig_alarm_loop fuel now s) = Some s' ->
  mux_inv s' /\ exists n, marks_fired n s s'.
Proof.
  intros Hquiet. revert now s.
  induction fuel as [|fuel IH]; intros now s Hinv;
    (destruct (loop_cases now s Hinv)
       as [Hstop|(p & q & head & Hq & Hhead & Hdue)];
     [rewrite handle_sig_alarm_loop_stop by done;
      intros [= <-]; split; [done | exists 0%nat; apply marks_fired_0]|]).
  { simpl. rewrite (bind_of_Ok _ _ _ _ _ (eq_refl : get s = Ok s s)), Hq.
    rewrite (bind_of_Ok _ _ _ _ _ (slot_Ok _ _ _ Hhead)), Hdue.
    intros [= <-]. split; [done | exists 0%nat; apply marks_fired_0]. }
  rewrite (handle_sig_alarm_loop_S _ _ _ _ _ _ Hq Hhead Hdue).
  destruct (fired_head_spec p q head s Hinv Hq Hhead) as [Hinv1 _].
  pose proof (fired_head_marks p q head s Hinv Hq Hhead) as Hmarks1.
  intros [(? & s2 & Hh & Hrest)|(lvl & code & Hh)]%bind_final.
  - destruct (timeout_handler head) as [h|]; [|done].
    assert (same_queue (fired_head p head s) s2) as Hsame.
    { apply (Hquiet h). by rewrite Hh. }
    apply bind_final in Hrest as [(now' & s3 & Hclock & Hrest)|(? & ? & ?)];
      [|done].
    injection Hclock as <- <-.
    apply IH in Hrest as [Hinv' [n Hn]].
    + split; [done|]. exists (S n).
      eapply marks_fired_S; [by apply inv_nodup|done..|].
      eapply marks_fired_same_l; [|exact Hn].
      eapply same_queue_trans; [exact Hsame | by split].
    + eapply mux_inv_same; [|exact Hinv1].
      eapply same_queue_trans; [exact Hsame | by split].
  - destruct (timeout_handler head) as [h|]; [|done].
    assert (same_queue (fired_head p head s) s') as Hsame.
    { apply (Hquiet h). by rewrite Hh. }
    split; [by eapply mux_inv_same|].
    exists 1%nat. by eapply marks_fired_same_r.
Qed.

Definition post_marks {A} (m : T A) : Prop :=
  forall s s', mux_inv s -> final_state (m s) = Some s' ->
    mux_inv s' /\ exists n, marks_fired n s s'.

Lemma post_marks_quiet {A} (m : T A) : quiet m -> post_marks m.
Proof.
  intros Hm s s' Hinv Hs. specialize (Hm s s' Hs).
  split; [by eapply mux_inv_same|]. exists 0%nat.
  eapply marks_fired_same_r; [apply marks_fired_0 | done].
Qed.

Lemma post_marks_bind_l {A B} (m : T A) (k : A -> T B) :
  quiet m -> (forall a, post_marks (k a)) -> post_marks (bind m k).
Proof.
  intros Hm Hk s s' Hinv [(a & s1 & Hms & Hks)|(lvl & code & Hms)]%bind_final.
  - assert (same_queue s s1) as Hsame by (apply Hm; by rewrite Hms).
    destruct (Hk a s1 s') as [Hinv' [n Hn]];
      [by eapply mux_inv_same | done |].
    split; [done|]. exists n. by eapply marks_fired_same_l.
  - apply (post_marks_quiet m Hm); [done | by rewrite Hms].
Qed.

Lemma post_marks_bind_r {A B} (m : T A) (k : A -> T B) :
  post_marks m -> (forall a, quiet (k a)) -> post_marks (bind m k).
Proof.
  intros Hm Hk s s' Hinv [(a & s1 & Hms & Hks)|(lvl & code & Hms)]%bind_final.
  - destruct (Hm s s1) as [Hinv1 [n Hn]]; [done | by rewrite Hms |].
    specialize (Hk a s1 s' Hks).
    split; [by eapply mux_inv_same|]. exists n.
    by eapply marks_fired_same_r.
  - apply Hm; [done | by rewrite Hms].
Qed.

Lemma post_marks_handle_sig_alarm fuel :
  (forall h, quiet (handler_body h)) -> post_marks (handle_sig_alarm fuel).
Proof.
  intros Hquiet.
  unfold handle_sig_alarm, set_ImmediateInterruptOK, HOLD_INTERRUPTS,
    RESUME_INTERRUPTS, SetLatch, disable_alarm.
  apply post_marks_bind_l; [quiet_step | intros s0].
  apply post_marks_bind_l; [quiet_step | intros ?].
  apply post_marks_bind_l; [quiet_step | intros ?].
  apply post_marks_bind_l; [repeat quiet_step | intros ?].
  apply post_marks_bind_l; [quiet_step | intros s1].
  apply post_marks_bind_r; [|intros ?; repeat quiet_step].
  destruct (alarm_enabled s1); [|apply post_marks_quiet; quiet_step].
  apply post_marks_bind_l; [quiet_step | intros ?].
  destruct (active_timeouts s1); [apply post_marks_quiet; quiet_step|].
  apply post_marks_bind_l; [quiet_step | intros now].
  apply post_marks_bind_r.
  - intros s s' Hinv Hs. by eapply handle_sig_alarm_loop_marks.
  - intros ?. repeat first [ apply quiet_schedule_alarm | quiet_step ].
Qed.

(** X12: what a pass of the signal handler leaves behind for the mainline
    code.  The reasons it fired, a prefix of the active list, are off the
    list, each with [active] false and the indicator set, so that
    [get_timeout_indicator] reports them; handler, [start_time] and
    [fin_time] of a fired reason are kept.  The slot of every reason that
    was not fired is as it was.  (For handlers that leave the multiplexer
    alone.) *)
Theorem expiry_pass_marks_fired_reasons fuel s s' :
  (forall h, quiet (handler_body h)) ->
  mux_inv s ->
  final_state (handle_sig_alarm fuel s) = Some s' ->
  exists n,
    active_timeouts s' = drop n (active_timeouts s) /\
    (forall p tp,
       p ∈ take n (active_timeouts s) -> all_timeouts s !! p = Some tp ->
       all_timeouts s' !! p
       = Some {| index := index tp; active := false; indicator := true;
                 timeout_handler := timeout_handler tp;
                 start_time := start_time tp; fin_time := fin_time tp |}) /\
    (forall p, p ∉ take n (active_timeouts s) ->
       all_timeouts s' !! p = all_timeouts s !! p).
Proof.
  intros Hquiet Hinv Hrun.
  destruct (post_marks_handle_sig_alarm fuel Hquiet s s' Hinv Hrun)
    as [_ [n [(_ & Hq & _) Hm]]].
  exists n. split_and!; [done| |].
  - intros p tp Hp Htp. by rewrite Hm, bool_decide_eq_true_2, Htp.
  - intros p Hp. by rewrite Hm, bool_decide_eq_false_2.
Qed.

(** ** Initialization *)

(** X13: [InitializeTimeouts] can be called in any state, also a second
    time: it empties the active list, disables the alarm, and blanks every
    slot, so that every registered handler is forgotten and every
    timestamp is zero again; the timer itself is not touched.  The state it
    leaves is well formed, and the first registration in the user-defined
    range that follows gets [USER_TIMEOUT]. *)
Theorem InitializeTimeouts_starts_afresh handler s :
  (USER_TIMEOUT < GP_PARALLEL_RETRIEVE_CURSOR_CHECK_TIMEOUT)%nat ->
  (GP_PARALLEL_RETRIEVE_CURSOR_CHECK_TIMEOUT <= MAX_TIMEOUTS)%nat ->
  exists s' s'',
    InitializeTimeouts s = Ok tt s' /\
    mux_inv s' /\
    all_timeouts_initialized s' = true /\ alarm_enabled s' = false /\
    active_timeouts s' = [] /\ host s' = host s /\
    (forall id, (id < MAX_TIMEOUTS)%nat ->
       all_timeouts s' !! id
       = Some {| index := id; active := false; indicator := false;
                 timeout_handler := None; start_time := 0; fin_time := 0 |}) /\
    RegisterTimeout USER_TIMEOUT handler s' = Ok USER_TIMEOUT s''.
Proof.
  intros Huser Hgp.
  destruct (InitializeTimeouts_inv s) as (s' & Hs' & Hinv' & Hq & Ht).
  assert (Hslot : forall id, (id < MAX_TIMEOUTS)%nat ->
            all_timeouts s' !! id = Some (blank_timeout id)).
  { intros id Hid. rewrite Ht, list_lookup_fmap.
    by rewrite (lookup_seq_lt 0 MAX_TIMEOUTS id Hid). }
  exists s'. eexists. split; [done|].
  injection Hs' as <-. split_and!; try done.
  unfold RegisterTimeout.
  destruct (Nat.leb_spec USER_TIMEOUT USER_TIMEOUT); [|lia].
  destruct (Nat.ltb_spec USER_TIMEOUT GP_PARALLEL_RETRIEVE_CURSOR_CHECK_TIMEOUT);
    [|lia].
  simpl. unfold bind at 1. unfold bind at 1.
  rewrite (RegisterTimeout_scan_finds
             (GP_PARALLEL_RETRIEVE_CURSOR_CHECK_TIMEOUT - USER_TIMEOUT)
             USER_TIMEOUT USER_TIMEOUT (blank_timeout USER_TIMEOUT));
    [|lia|apply Hslot; lia|done|intros j Hj; lia].
  destruct (Nat.leb_spec GP_PARALLEL_RETRIEVE_CURSOR_CHECK_TIMEOUT USER_TIMEOUT);
    [lia|].
  simpl. erewrite (bind_of_Ok (update_slot _ _));
    [reflexivity|apply update_slot_Ok, Hslot; lia].
Qed.

End Multiplexer.

(** ** A small backend

    An instance on which the statements above are run: two predefined
    reasons (ids 0 and 1), two user-defined ids (2 and 3), the id of the
    parallel-retrieve-cursor check, five slots in all.  The clock stands at
    20 and [setitimer] succeeds.  A handler either only raises a flag of its
    caller, or arms another reason from inside the signal handler. *)

Inductive demo_handler :=
| Handler_flag
| Handler_rearm (id : TimeoutId) (fin : TimestampTz).

Definition demo_USER_TIMEOUT : TimeoutId := 2%nat.
Definition demo_GP_PARALLEL_RETRIEVE_CURSOR_CHECK_TIMEOUT : TimeoutId := 4%nat.
Definition demo_MAX_TIMEOUTS : nat := 5%nat.

Definition demo_clock (n : nat) : TimestampTz := 20.
Definition demo_setitimer_rc (n : nat) : Z := 0.
Definition demo_plus_ms (now : TimestampTz) (ms : Z) : TimestampTz :=
  now + ms * 1000.
Definition demo_difference (start stop : TimestampTz) : Z * Z :=
  let d := stop - start in
  if d <=? 0 then (0, 0) else (d / 1000000, d mod 1000000).

Definition demo_enable_timeout_at :=
  enable_timeout_at demo_MAX_TIMEOUTS demo_handler demo_clock
    demo_setitimer_rc demo_difference.

Definition demo_RegisterTimeout :=
  RegisterTimeout demo_USER_TIMEOUT
    demo_GP_PARALLEL_RETRIEVE_CURSOR_CHECK_TIMEOUT demo_handler.

Definition demo_run_op :=
  run_op demo_MAX_TIMEOUTS demo_handler demo_clock demo_setitimer_rc
    demo_plus_ms demo_difference.

(** Handlers that leave the multiplexer alone. *)
Definition flag_handlers (h : demo_handler) : M (mux_state demo_handler) unit :=
  ret tt.

(** Handlers of which some call [enable_timeout_at]. *)
Definition rearming_handlers (h : demo_handler)
  : M (mux_state demo_handler) unit :=
  match h with
  | Handler_flag => ret tt
  | Handler_rearm id fin => demo_enable_timeout_at id fin
  end.

Definition demo_handle_sig_alarm
    (body : demo_handler -> M (mux_state demo_handler) unit) :=
  handle_sig_alarm demo_handler demo_clock demo_setitimer_rc demo_difference
    body true (ret tt).

(** The zero-initialised statics of a fresh process. *)
Definition boot : mux_state demo_handler :=
  {| all_timeouts :=
       replicate 5 {| index := 0%nat; active := false; indicator := false;
                      timeout_handler := None;
                      start_time := 0; fin_time := 0 |};
     all_timeouts_initialized := false;
     active_timeouts := [];
     alarm_enabled := false;
     host := {| clock_reads := 0; itimer_calls := 0; itimer_value := (0, 0);
                ImmediateInterruptOK := false; InterruptHoldoffCount := 0;
                latch_set := false |};
     handler_log := [] |}.

Definition state_of {A} (r : result (mux_state demo_handler) A)
  : mux_state demo_handler :=
  match final_state r with Some s => s | None => boot end.

(** After start-up: both predefined reasons and both user ids are
    registered; the handler of reason 0 arms reason 1 at time 5. *)
Definition startup : M (mux_state demo_handler) unit :=
  InitializeTimeouts demo_MAX_TIMEOUTS demo_handler ;;
  demo_RegisterTimeout 0%nat (Some (Handler_rearm 1%nat 5)) ;;
  demo_RegisterTimeout 1%nat (Some Handler_flag) ;;
  demo_RegisterTimeout demo_USER_TIMEOUT (Some Handler_flag) ;;
  demo_RegisterTimeout demo_USER_TIMEOUT (Some Handler_flag) ;;
  ret tt.

Definition started : mux_state demo_handler :=
  Eval vm_compute in state_of (startup boot).

(** Reason 0 armed at time 10. *)
Definition armed : mux_state demo_handler :=
  Eval vm_compute in state_of (demo_enable_timeout_at 0%nat 10 started).

(** Reason 1 armed as well, at time 10 too. *)
Definition armed_twice : mux_state demo_handler :=
  Eval vm_compute in
    state_of (demo_run_op (Op_enable_timeout_at 1%nat 10) armed).

(** After one pass of the signal handler over [armed_twice], with handlers
    that only raise a flag. *)
Definition after_pass : mux_state demo_handler :=
  Eval vm_compute in
    state_of (demo_handle_sig_alarm flag_handlers 5 armed_twice).

Lemma startup_Ok : startup boot = Ok tt started.
Proof. reflexivity. Qed.

Lemma armed_Ok : demo_enable_timeout_at 0%nat 10 started = Ok tt armed.
Proof. reflexivity. Qed.

Lemma flag_handlers_quiet h : quiet demo_handler (flag_handlers h).
Proof. intros s s' [= <-]. by split. Qed.

Lemma flag_handlers_keep_times id h : keeps_times demo_handler id (flag_handlers h).
Proof. by intros s s' [= <-]. Qed.

Lemma armed_inv : mux_inv demo_MAX_TIMEOUTS demo_handler armed.
Proof. apply mux_inv_check_sound. vm_compute. reflexivity. Defined.

Lemma armed_twice_inv : mux_inv demo_MAX_TIMEOUTS demo_handler armed_twice.
Proof. apply mux_inv_check_sound. vm_compute. reflexivity. Defined.

(** C1, the claim as the spec has it, fails: with both user ids taken the
    error raised by [RegisterTimeout] is not at a recoverable level. *)
Lemma RegisterTimeout_exhausted_is_not_recoverable :
  user_range_exhausted demo_USER_TIMEOUT
    demo_GP_PARALLEL_RETRIEVE_CURSOR_CHECK_TIMEOUT demo_handler started /\
  ~ (exists lvl s',
       demo_RegisterTimeout demo_USER_TIMEOUT (Some Handler_flag) started
       = Raise lvl ERRCODE_CONFIGURATION_LIMIT_EXCEEDED s' /\
       recoverable lvl = true).
Proof.
  split.
  - intros id Hid. unfold demo_USER_TIMEOUT,
      demo_GP_PARALLEL_RETRIEVE_CURSOR_CHECK_TIMEOUT in Hid.
    assert (id = 2 \/ id = 3)%nat as [-> | ->] by lia;
      eexists _, _; split; reflexivity.
  - intros (lvl & s' & Hraise & Hrec). vm_compute in Hraise.
    injection Hraise as <- _. discriminate.
Qed.

Lemma RegisterTimeout_user_range_exhausted_witness :
  demo_RegisterTimeout demo_USER_TIMEOUT (Some Handler_flag) started
  = Raise FATAL ERRCODE_CONFIGURATION_LIMIT_EXCEEDED started /\
  recoverable FATAL = false.
Proof.
  apply (RegisterTimeout_user_range_exhausted demo_USER_TIMEOUT
           demo_GP_PARALLEL_RETRIEVE_CURSOR_CHECK_TIMEOUT demo_handler
           (Some Handler_flag) started).
  - unfold demo_USER_TIMEOUT, demo_GP_PARALLEL_RETRIEVE_CURSOR_CHECK_TIMEOUT.
    lia.
  - intros id Hid. unfold demo_USER_TIMEOUT,
      demo_GP_PARALLEL_RETRIEVE_CURSOR_CHECK_TIMEOUT in Hid.
    assert (id = 2 \/ id = 3)%nat as [-> | ->] by lia;
      eexists _, _; split; reflexivity.
Defined.

Lemma mainline_ops_keep_queue_sorted_witness :
  queue_sorted demo_handler armed_twice /\
  (forall id tp, all_timeouts demo_handler armed_twice !! id = Some tp ->
     (active demo_handler tp = true
      <-> occurrences id (active_timeouts demo_handler armed_twice) = 1%nat)).
Proof.
  apply (mainline_ops_keep_queue_sorted demo_MAX_TIMEOUTS demo_handler
           demo_clock demo_setitimer_rc demo_plus_ms demo_difference
           (Op_enable_timeout_at 1%nat 10) armed armed_twice).
  - apply mux_inv_check_sound. vm_compute. reflexivity.
  - constructor; [unfold demo_MAX_TIMEOUTS; lia | constructor].
  - vm_compute. reflexivity.
Defined.

Lemma enable_reschedules_active_reason_witness :
  (exists s', demo_enable_timeout_at 0%nat 6000 armed_twice = Ok tt s' /\
              rescheduled demo_handler 0%nat 20 6000 armed_twice s') /\
  (exists s', enable_timeout_after demo_MAX_TIMEOUTS demo_handler demo_clock
                demo_setitimer_rc demo_plus_ms demo_difference 0%nat 7
                armed_twice = Ok tt s' /\
              rescheduled demo_handler 0%nat 20 7020 armed_twice s').
Proof.
  refine (enable_reschedules_active_reason demo_MAX_TIMEOUTS demo_handler
            demo_clock demo_setitimer_rc demo_plus_ms demo_difference
            0%nat 6000 7
            {| index := 0%nat; active := true; indicator := false;
               timeout_handler := Some (Handler_rearm 1%nat 5);
               start_time := 20; fin_time := 10 |}
            armed_twice _ _ _ _).
  - apply mux_inv_check_sound. vm_compute. reflexivity.
  - reflexivity.
  - reflexivity.
  - reflexivity.
Defined.

Lemma get_timeout_indicator_reports_once_witness :
  exists s',
    get_timeout_indicator demo_handler 0%nat true after_pass = Ok true s' /\
    get_timeout_indicator demo_handler 0%nat true s' = Ok false s'.
Proof.
  destruct (get_timeout_indicator_reports_once demo_handler 0%nat
              {| index := 0%nat; active := false; indicator := true;
                 timeout_handler := Some (Handler_rearm 1%nat 5);
                 start_time := 20; fin_time := 10 |}
              after_pass)
    as (Hset & _ & Hnext); [reflexivity|].
  eexists. split; [apply Hset; reflexivity|].
  apply (Hnext true). apply Hset. reflexivity.
Defined.


(** C7, the claim as the spec has it, fails: the handler of reason 0, due
    at time 10, arms reason 1 at time 5; the same pass then fires reason 1,
    after reason 0 although its [fin_time] is smaller. *)
Lemma rearming_handler_fires_out_of_key_order :
  mux_inv demo_MAX_TIMEOUTS demo_handler armed /\
  exists s',
    demo_handle_sig_alarm rearming_handlers 5 armed = Ok (Some tt) s' /\
    handler_log demo_handler s'
    = handler_log demo_handler armed ++ [(10, 0%nat); (5, 1%nat)] /\
    ~ StronglySorted key_le [(10, 0%nat); (5, 1%nat)].
Proof.
  split; [exact armed_inv|].
  eexists. split; [vm_compute; reflexivity|]. split; [reflexivity|].
  intros Hs. apply StronglySorted_cons in Hs as [Hall _].
  apply Forall_cons in Hall as [Hle _]. unfold key_le in Hle. simpl in Hle. lia.
Qed.

(** Reasons 0 and 1 armed at time 10 and reason 2 at time 6000, and a
    clock that moves on by one with every reading, from 20: a pass finds
    the first two due. *)
Definition armed_thrice : mux_state demo_handler :=
  Eval vm_compute in
    state_of (demo_run_op (Op_enable_timeout_at 2%nat 6000) armed_twice).

Definition ticking_clock (n : nat) : TimestampTz := 20 + Z.of_nat n.

Definition ticking_handle_sig_alarm :=
  handle_sig_alarm demo_handler ticking_clock demo_setitimer_rc
    demo_difference flag_handlers true (ret tt).

Definition two_fired : mux_state demo_handler :=
  Eval vm_compute in state_of (ticking_handle_sig_alarm 5 armed_thrice).

Lemma flag_handlers_steady h : steady demo_handler (flag_handlers h).
Proof. intros s s' [= <-]. done. Defined.

Lemma ticking_clock_monotone : clock_monotone ticking_clock.
Proof. intros a b Hab. unfold ticking_clock. lia. Defined.

Lemma expiry_pass_fires_in_key_order_witness :
  ((length (active_timeouts demo_handler armed_thrice) <= 5)%nat ->
   ticking_handle_sig_alarm 5 armed_thrice <> Ok None two_fired) /\
  exists n j,
    let K := cell_key demo_handler (all_timeouts demo_handler armed_thrice) in
    let fired := K <$> take n (active_timeouts demo_handler armed_thrice) in
    let first := ticking_clock (clock_reads (host demo_handler armed_thrice)) in
    let now := ticking_clock j in
    (clock_reads (host demo_handler armed_thrice) <= j)%nat /\
    handler_log demo_handler two_fired
      = handler_log demo_handler armed_thrice ++ fired /\
    active_timeouts demo_handler two_fired
      = drop n (active_timeouts demo_handler armed_thrice) /\
    StronglySorted key_le fired /\
    NoDup fired.*2 /\
    (forall k, k ∈ fired -> k.1 <= now) /\
    (forall p, p ∈ active_timeouts demo_handler two_fired ->
       now < (cell_key demo_handler (all_timeouts demo_handler two_fired) p).1) /\
    (forall p, p ∈ active_timeouts demo_handler armed_thrice ->
       (K p).1 <= first -> K p ∈ fired) /\
    (exists i1 i2,
       fired !! i1 = Some (10, 0%nat) /\ fired !! i2 = Some (10, 1%nat) /\
       (i1 < i2)%nat).
Proof.
  destruct (expiry_pass_fires_in_key_order demo_MAX_TIMEOUTS demo_handler
              ticking_clock demo_setitimer_rc demo_difference flag_handlers
              true (ret tt) 5%nat armed_thrice two_fired
              flag_handlers_quiet flag_handlers_steady ticking_clock_monotone
              ltac:(apply mux_inv_check_sound; vm_compute; reflexivity)
              ltac:(vm_compute; reflexivity))
    as [Hfuel (n & j & H)].
  split; [exact Hfuel|]. exists n, j.
  destruct H as (Hj & Hlog & Hq & Hsorted & Hnodup & _ & Hdue & Hret).
  destruct (Hret eq_refl ltac:(vm_compute; reflexivity))
    as (Hleft & Hall & Hpair).
  split; [exact Hj|]. split; [exact Hlog|]. split; [exact Hq|].
  split; [exact Hsorted|]. split; [exact Hnodup|]. split; [exact Hdue|].
  split; [exact Hleft|]. split; [exact Hall|].
  apply (Hpair 0%nat 1%nat 10).
  - vm_compute. left.
  - vm_compute. right. left.
  - reflexivity.
  - reflexivity.
  - vm_compute. discriminate.
  - vm_compute. lia.
Defined.

(** *** The further properties on the small backend *)

(** Right after [InitializeTimeouts]: no reason is registered. *)
Definition initialized : mux_state demo_handler :=
  Eval vm_compute in
    state_of (InitializeTimeouts demo_MAX_TIMEOUTS demo_handler boot).

(** [armed_twice] at a moment when the alarm is disabled. *)
Definition armed_twice_alarm_off : mux_state demo_handler :=
  set_alarm_enabled demo_handler false armed_twice.

Definition slot_of (s : mux_state demo_handler) (id : TimeoutId)
  : timeout_params demo_handler :=
  match all_timeouts demo_handler s !! id with
  | Some tp => tp
  | None => blank_timeout demo_handler id
  end.

Lemma started_inv : mux_inv demo_MAX_TIMEOUTS demo_handler started.
Proof. apply mux_inv_check_sound. vm_compute. reflexivity. Defined.

Lemma demo_setitimer_succeeds n : demo_setitimer_rc n = 0.
Proof. reflexivity. Defined.

Lemma reschedule_timeouts_arms_nearest_witness :
  exists s',
    reschedule_timeouts demo_handler demo_clock demo_setitimer_rc
      demo_difference armed = Ok tt s' /\
    alarm_enabled demo_handler s' = true /\
    itimer_value (host demo_handler s') = (0, 1).
Proof.
  destruct (reschedule_timeouts_arms_nearest demo_handler demo_clock
              demo_setitimer_rc demo_difference armed) as (_ & _ & H).
  destruct (H 0%nat [] (slot_of armed 0) eq_refl eq_refl eq_refl) as [Hok _].
  destruct (Hok eq_refl) as (s' & Hs' & _ & Ha & _ & Hv & _).
  exists s'. split; [exact Hs'|]. split; [exact Ha|]. exact Hv.
Defined.

Lemma disable_timeout_cancels_witness :
  exists s',
    disable_timeout demo_handler demo_clock demo_setitimer_rc demo_difference
      0%nat false armed_twice = Ok tt s' /\
    active_timeouts demo_handler s' = [1%nat] /\
    alarm_enabled demo_handler s' = true /\
    mux_inv demo_MAX_TIMEOUTS demo_handler s'.
Proof.
  destruct (disable_timeout_cancels demo_MAX_TIMEOUTS demo_handler demo_clock
              demo_setitimer_rc demo_difference 0%nat false
              (slot_of armed_twice 0) armed_twice armed_twice_inv eq_refl
              eq_refl)
    as (s' & Hs' & Hq & _ & _ & _ & _ & Ha & Hinv).
  exists s'. split; [exact Hs'|]. split; [exact Hq|]. split; [|exact Hinv].
  rewrite Ha, Hq. reflexivity.
Defined.

Lemma enable_then_disable_restores_queue_witness :
  exists s1 s2,
    demo_enable_timeout_at 1%nat 30 armed = Ok tt s1 /\
    disable_timeout demo_handler demo_clock demo_setitimer_rc demo_difference
      1%nat true s1 = Ok tt s2 /\
    active_timeouts demo_handler s2 = active_timeouts demo_handler armed /\
    all_timeouts demo_handler s2 !! 1%nat
    = Some {| index := 1%nat; active := false; indicator := false;
              timeout_handler := Some Handler_flag;
              start_time := 20; fin_time := 30 |}.
Proof.
  destruct (enable_then_disable_restores_queue demo_MAX_TIMEOUTS demo_handler
              demo_clock demo_setitimer_rc demo_difference 1%nat 30 true
              (slot_of armed 1) armed armed_inv eq_refl eq_refl
              demo_setitimer_succeeds)
    as (s1 & s2 & H1 & H2 & Hq & Hslot & _).
  exists s1, s2. split; [exact H1|]. split; [exact H2|]. split; [exact Hq|].
  exact Hslot.
Defined.

Lemma disable_timeouts_like_repeated_disable_timeout_witness :
  exists s1 s2,
    disable_timeouts demo_handler demo_clock demo_setitimer_rc demo_difference
      [{| dtp_id := 0%nat; dtp_keep_indicator := false |};
       {| dtp_id := 1%nat; dtp_keep_indicator := true |}] armed_twice
    = Ok tt s1 /\
    disable_timeout_each demo_handler demo_clock demo_setitimer_rc
      demo_difference
      [{| dtp_id := 0%nat; dtp_keep_indicator := false |};
       {| dtp_id := 1%nat; dtp_keep_indicator := true |}] armed_twice
    = Ok tt s2 /\
    all_timeouts demo_handler s1 = all_timeouts demo_handler s2 /\
    active_timeouts demo_handler s1 = active_timeouts demo_handler s2.
Proof.
  destruct (disable_timeouts_like_repeated_disable_timeout demo_MAX_TIMEOUTS
              demo_handler demo_clock demo_setitimer_rc demo_difference
              [{| dtp_id := 0%nat; dtp_keep_indicator := false |};
               {| dtp_id := 1%nat; dtp_keep_indicator := true |}]
              armed_twice armed_twice_inv)
    as (s1 & s2 & H1 & H2 & Ht & Hq & _).
  - repeat constructor; unfold demo_MAX_TIMEOUTS; lia.
  - exact demo_setitimer_succeeds.
  - exists s1, s2. split; [exact H1|]. split; [exact H2|]. split; [exact Ht|].
    exact Hq.
Defined.

Lemma disable_all_timeouts_clears_witness :
  exists s',
    disable_all_timeouts demo_handler demo_setitimer_rc true after_pass
    = Ok tt s' /\
    active_timeouts demo_handler s' = [] /\
    all_timeouts demo_handler s' !! 0%nat
    = Some {| index := 0%nat; active := false; indicator := true;
              timeout_handler := Some (Handler_rearm 1%nat 5);
              start_time := 20; fin_time := 10 |}.
Proof.
  destruct (disable_all_timeouts_clears demo_MAX_TIMEOUTS demo_handler
              demo_setitimer_rc true after_pass) as [H _].
  destruct (H (or_intror eq_refl)) as (s' & Hs' & Hq & _ & Ht & _).
  exists s'. split; [exact Hs'|]. split; [exact Hq|]. rewrite Ht. reflexivity.
Defined.

Lemma enable_timeouts_stops_at_unrecognized_type_witness :
  exists s',
    enable_timeouts demo_MAX_TIMEOUTS demo_handler demo_clock
      demo_setitimer_rc demo_plus_ms demo_difference
      ([{| etp_id := 0%nat; etp_type := TMPARAM_AT; etp_delay_ms := 0;
           etp_fin_time := 10 |}]
       ++ {| etp_id := 1%nat; etp_type := TMPARAM_unrecognized 7;
             etp_delay_ms := 0; etp_fin_time := 10 |}
       :: [{| etp_id := 2%nat; etp_type := TMPARAM_AFTER; etp_delay_ms := 5;
              etp_fin_time := 0 |}]) started
    = Raise ERROR ERRCODE_INTERNAL_ERROR s' /\
    active_timeouts demo_handler s' = [0%nat] /\
    alarm_enabled demo_handler s' = false.
Proof.
  destruct (enable_timeouts_stops_at_unrecognized_type demo_MAX_TIMEOUTS
              demo_handler demo_clock demo_setitimer_rc demo_plus_ms
              demo_difference
              [{| etp_id := 0%nat; etp_type := TMPARAM_AT; etp_delay_ms := 0;
                  etp_fin_time := 10 |}]
              {| etp_id := 1%nat; etp_type := TMPARAM_unrecognized 7;
                 etp_delay_ms := 0; etp_fin_time := 10 |}
              7
              [{| etp_id := 2%nat; etp_type := TMPARAM_AFTER; etp_delay_ms := 5;
                  etp_fin_time := 0 |}]
              started started_inv)
    as (s' & Hs' & _ & Ha & _).
  - repeat constructor; unfold demo_MAX_TIMEOUTS; lia.
  - repeat constructor.
  - reflexivity.
  - exists s'. split; [exact Hs'|]. split; [|exact Ha].
    vm_compute in Hs'. injection Hs' as <-. reflexivity.
Defined.

Lemma RegisterTimeout_allocates_lowest_free_id_witness :
  demo_RegisterTimeout 3%nat (Some Handler_flag) initialized
  = Ok 2%nat
      (set_all_timeouts demo_handler
         (<[2%nat := set_tp_handler demo_handler (Some Handler_flag)
                       (slot_of initialized 2)]>
            (all_timeouts demo_handler initialized)) initialized).
Proof.
  apply (proj1 (RegisterTimeout_allocates_lowest_free_id demo_USER_TIMEOUT
                  demo_GP_PARALLEL_RETRIEVE_CURSOR_CHECK_TIMEOUT demo_handler
                  3%nat (Some Handler_flag) 2%nat (slot_of initialized 2)
                  initialized eq_refl)).
  - unfold demo_USER_TIMEOUT, demo_GP_PARALLEL_RETRIEVE_CURSOR_CHECK_TIMEOUT. lia.
  - unfold demo_USER_TIMEOUT, demo_GP_PARALLEL_RETRIEVE_CURSOR_CHECK_TIMEOUT. lia.
  - reflexivity.
  - unfold demo_USER_TIMEOUT. intros j Hj. lia.
Defined.

Definition demo_run_calls :=
  run_calls demo_USER_TIMEOUT demo_GP_PARALLEL_RETRIEVE_CURSOR_CHECK_TIMEOUT
    demo_MAX_TIMEOUTS demo_handler demo_clock demo_setitimer_rc demo_plus_ms
    demo_difference flag_handlers true (ret tt).

Lemma flag_handlers_keep_handler id h :
  keeps_handler demo_handler id (flag_handlers h).
Proof. by intros s s' h' [= <-]. Defined.

(** The first user id is handed out; a predefined reason is registered,
    armed and fired and all timeouts are disabled; the next registration
    in the user range gets the second user id. *)
Lemma RegisterTimeout_user_ids_distinct_witness :
  exists s1 s2 s3,
    demo_RegisterTimeout 2%nat (Some Handler_flag) initialized = Ok 2%nat s1 /\
    demo_run_calls
      [Call_RegisterTimeout demo_handler 0%nat (Some Handler_flag);
       Call_enable_timeout_at demo_handler 0%nat 10;
       Call_SIGALRM demo_handler 5;
       Call_disable_all_timeouts demo_handler false] s1 = Some s2 /\
    demo_RegisterTimeout 3%nat (Some Handler_flag) s2 = Ok 3%nat s3 /\
    2%nat <> 3%nat.
Proof.
  eexists _, _, _.
  split; [reflexivity|]. split; [vm_compute; reflexivity|].
  split; [vm_compute; reflexivity|].
  eapply (RegisterTimeout_user_ids_distinct demo_USER_TIMEOUT
            demo_GP_PARALLEL_RETRIEVE_CURSOR_CHECK_TIMEOUT demo_MAX_TIMEOUTS
            demo_handler demo_clock demo_setitimer_rc demo_plus_ms
            demo_difference flag_handlers true (ret tt)
            2%nat 3%nat Handler_flag (Some Handler_flag)
            [Call_RegisterTimeout demo_handler 0%nat (Some Handler_flag);
             Call_enable_timeout_at demo_handler 0%nat 10;
             Call_SIGALRM demo_handler 5;
             Call_disable_all_timeouts demo_handler false]
            initialized).
  - intros id h _. apply flag_handlers_keep_handler.
  - unfold demo_USER_TIMEOUT, demo_GP_PARALLEL_RETRIEVE_CURSOR_CHECK_TIMEOUT. lia.
  - unfold demo_USER_TIMEOUT, demo_GP_PARALLEL_RETRIEVE_CURSOR_CHECK_TIMEOUT. lia.
  - reflexivity.
  - vm_compute. reflexivity.
  - vm_compute. reflexivity.
Defined.

Lemma handle_sig_alarm_while_disabled_witness :
  exists s',
    demo_handle_sig_alarm flag_handlers 5 armed_twice_alarm_off
    = Ok (Some tt) s' /\
    active_timeouts demo_handler s' = [0%nat; 1%nat] /\
    handler_log demo_handler s' = [] /\
    latch_set (host demo_handler s') = true.
Proof.
  destruct (handle_sig_alarm_while_disabled demo_handler demo_clock
              demo_setitimer_rc demo_difference flag_handlers true (ret tt)
              5%nat armed_twice_alarm_off eq_refl) as [_ H].
  eexists. split; [exact (H eq_refl)|]. split; [reflexivity|].
  split; reflexivity.
Defined.

Lemma mainline_calls_stay_in_bounds_witness :
  exists s',
    run_call demo_USER_TIMEOUT demo_GP_PARALLEL_RETRIEVE_CURSOR_CHECK_TIMEOUT
      demo_MAX_TIMEOUTS demo_handler demo_clock demo_setitimer_rc
      demo_plus_ms demo_difference flag_handlers true (ret tt)
      (Call_enable_timeout_after demo_handler 4%nat 100) armed_twice
    = Some s' /\
    (length (active_timeouts demo_handler s') <= demo_MAX_TIMEOUTS)%nat.
Proof.
  apply (mainline_calls_stay_in_bounds demo_USER_TIMEOUT
           demo_GP_PARALLEL_RETRIEVE_CURSOR_CHECK_TIMEOUT demo_MAX_TIMEOUTS
           demo_handler demo_clock demo_setitimer_rc demo_plus_ms
           demo_difference flag_handlers true (ret tt)
           (Call_enable_timeout_after demo_handler 4%nat 100) armed_twice
           armed_twice_inv).
  - repeat constructor; unfold demo_MAX_TIMEOUTS; lia.
  - unfold demo_GP_PARALLEL_RETRIEVE_CURSOR_CHECK_TIMEOUT, demo_MAX_TIMEOUTS. lia.
  - reflexivity.
Defined.

(** Handlers that arm reasons through [enable_timeout_at] keep the
    invariant, whatever reason they name. *)
Lemma rearming_handlers_keep_inv h :
  keeps_inv demo_MAX_TIMEOUTS demo_handler (rearming_handlers h).
Proof.
  destruct h as [|id fin]; [by intros s s' Hinv [= <-]|].
  destruct (decide (id < demo_MAX_TIMEOUTS)%nat) as [Hid|Hid].
  - apply keeps_inv_wp. intros s Hinv.
    apply (wp_run_op demo_MAX_TIMEOUTS demo_handler demo_clock
             demo_setitimer_rc demo_plus_ms demo_difference
             (Op_enable_timeout_at id fin) s Hinv).
    constructor; [exact Hid|constructor].
  - intros s s' Hinv.
    assert (Hnone : all_timeouts demo_handler s !! id = None).
    { apply lookup_ge_None. rewrite (inv_length _ _ _ Hinv). lia. }
    simpl. unfold demo_enable_timeout_at, enable_timeout_at, enable_timeout,
      bind, disable_alarm, modify, GetCurrentTimestamp, slot. simpl.
    by rewrite Hnone.
Defined.

Lemma every_call_keeps_invariant_witness :
  exists s',
    run_call demo_USER_TIMEOUT demo_GP_PARALLEL_RETRIEVE_CURSOR_CHECK_TIMEOUT
      demo_MAX_TIMEOUTS demo_handler demo_clock demo_setitimer_rc
      demo_plus_ms demo_difference rearming_handlers true (ret tt)
      (Call_SIGALRM demo_handler 5) armed = Some s' /\
    mux_inv demo_MAX_TIMEOUTS demo_handler s'.
Proof.
  eexists. split; [vm_compute; reflexivity|].
  apply (every_call_keeps_invariant demo_USER_TIMEOUT
           demo_GP_PARALLEL_RETRIEVE_CURSOR_CHECK_TIMEOUT demo_MAX_TIMEOUTS
           demo_handler demo_clock demo_setitimer_rc demo_plus_ms
           demo_difference rearming_handlers true (ret tt)
           rearming_handlers_keep_inv
           (Call_SIGALRM demo_handler 5) armed _ armed_inv).
  - constructor.
  - unfold demo_GP_PARALLEL_RETRIEVE_CURSOR_CHECK_TIMEOUT, demo_MAX_TIMEOUTS. lia.
  - vm_compute. reflexivity.
Defined.

Lemma expiry_pass_marks_fired_reasons_witness :
  exists n,
    active_timeouts demo_handler after_pass
    = drop n (active_timeouts demo_handler armed_twice) /\
    (forall p tp,
       p ∈ take n (active_timeouts demo_handler armed_twice) ->
       all_timeouts demo_handler armed_twice !! p = Some tp ->
       all_timeouts demo_handler after_pass !! p
       = Some {| index := index demo_handler tp; active := false;
                 indicator := true;
                 timeout_handler := timeout_handler demo_handler tp;
                 start_time := start_time demo_handler tp;
                 fin_time := fin_time demo_handler tp |}) /\
    (forall p, p ∉ take n (active_timeouts demo_handler armed_twice) ->
       all_timeouts demo_handler after_pass !! p
       = all_timeouts demo_handler armed_twice !! p).
Proof.
  apply (expiry_pass_marks_fired_reasons demo_MAX_TIMEOUTS demo_handler
           demo_clock demo_setitimer_rc demo_difference flag_handlers
           true (ret tt) 5%nat armed_twice after_pass).
  - exact flag_handlers_quiet.
  - exact armed_twice_inv.
  - vm_compute. reflexivity.
Defined.

Lemma InitializeTimeouts_starts_afresh_witness :
  exists s' s'',
    InitializeTimeouts demo_MAX_TIMEOUTS demo_handler armed_twice = Ok tt s' /\
    active_timeouts demo_handler s' = [] /\
    all_timeouts demo_handler s' !! 0%nat
    = Some {| index := 0%nat; active := false; indicator := false;
              timeout_handler := None; start_time := 0; fin_time := 0 |} /\
    demo_RegisterTimeout demo_USER_TIMEOUT (Some Handler_flag) s'
    = Ok demo_USER_TIMEOUT s''.
Proof.
  destruct (InitializeTimeouts_starts_afresh demo_USER_TIMEOUT
              demo_GP_PARALLEL_RETRIEVE_CURSOR_CHECK_TIMEOUT demo_MAX_TIMEOUTS
              demo_handler (Some Handler_flag) armed_twice)
    as (s' & s'' & Hs' & _ & _ & _ & Hq & _ & Hslot & Hreg).
  - unfold demo_USER_TIMEOUT, demo_GP_PARALLEL_RETRIEVE_CURSOR_CHECK_TIMEOUT. lia.
  - unfold demo_GP_PARALLEL_RETRIEVE_CURSOR_CHECK_TIMEOUT, demo_MAX_TIMEOUTS. lia.
  - exists s', s''. split; [exact Hs'|]. split; [exact Hq|].
    split; [|exact Hreg]. apply Hslot. unfold demo_MAX_TIMEOUTS. lia.
Defined.

End Timeout.

(** * Part B: the portal registry (portalmem.c) *)

Module Portal.

(** [SubTransactionId] is [uint32]; it is only compared.  Resource owners,
    cached plans, memory contexts, tuple stores, statement nodes and the
    cleanup hook are pointers into subsystems outside this file: they are
    kept as the address they hold, [None] for NULL. *)
Abbreviation SubTransactionId := nat (only parsing).

Inductive PortalStatus :=
| PORTAL_NEW
| PORTAL_DEFINED
| PORTAL_READY
| PORTAL_ACTIVE
| PORTAL_DONE
| PORTAL_FAILED.

#[global] Instance PortalStatus_eq_dec : EqDecision PortalStatus.
Proof. solve_decision. Defined.

Inductive ResourceReleasePhase :=
| RESOURCE_RELEASE_BEFORE_LOCKS
| RESOURCE_RELEASE_LOCKS
| RESOURCE_RELEASE_AFTER_LOCKS.

(** The part of [QueryDesc] that this file writes:
    [queryDesc->estate->cancelUnfinished]. *)
Record QueryDesc := { cancelUnfinished : bool }.

(** [struct PortalData] (utils/portal.h), the fields that the functions
    below read or write. *)
Record PortalData := {
  name : string;
  status : PortalStatus;
  cursorOptions : Z;
  portalPinned : bool;
  visible : bool;
  createSubid : SubTransactionId;
  activeSubid : SubTransactionId;
  stmts : list nat;
  cplan : option nat;
  heap : nat;
  holdContext : option nat;
  holdStore : option nat;
  resowner : option nat;
  cleanup : option nat;
  is_extended_query : bool;
  queryDesc : option QueryDesc
}.

Definition set_name (v : string) (p : PortalData) : PortalData :=
  {| name := v; status := status p; cursorOptions := cursorOptions p;
     portalPinned := portalPinned p; visible := visible p;
     createSubid := createSubid p; activeSubid := activeSubid p;
     stmts := stmts p; cplan := cplan p; heap := heap p;
     holdContext := holdContext p; holdStore := holdStore p;
     resowner := resowner p; cleanup := cleanup p;
     is_extended_query := is_extended_query p; queryDesc := queryDesc p |}.
Definition set_status (v : PortalStatus) (p : PortalData) : PortalData :=
  {| name := name p; status := v; cursorOptions := cursorOptions p;
     portalPinned := portalPinned p; visible := visible p; createSubid :=
     createSubid p; activeSubid := activeSubid p; stmts := stmts p; cplan
     := cplan p; heap := heap p; holdContext := holdContext p; holdStore :=
     holdStore p; resowner := resowner p; cleanup := cleanup p;
     is_extended_query := is_extended_query p; queryDesc := queryDesc p |}.
Definition set_portalPinned (v : bool) (p : PortalData) : PortalData :=
  {| name := name p; status := status p; cursorOptions := cursorOptions p;
     portalPinned := v; visible := visible p; createSubid := createSubid p;
     activeSubid := activeSubid p; stmts := stmts p; cplan := cplan p; heap
     := heap p; holdContext := holdContext p; holdStore := holdStore p;
     resowner := resowner p; cleanup := cleanup p; is_extended_query :=
     is_extended_query p; queryDesc := queryDesc p |}.
Definition set_createSubid (v : SubTransactionId) (p : PortalData) : PortalData :=
  {| name := name p; status := status p; cursorOptions := cursorOptions p;
     portalPinned := portalPinned p; visible := visible p; createSubid :=
     v; activeSubid := activeSubid p; stmts := stmts p; cplan := cplan p;
     heap := heap p; holdContext := holdContext p; holdStore := holdStore
     p; resowner := resowner p; cleanup := cleanup p; is_extended_query :=
     is_extended_query p; queryDesc := queryDesc p |}.
Definition set_activeSubid (v : SubTransactionId) (p : PortalData) : PortalData :=
  {| name := name p; status := status p; cursorOptions := cursorOptions p;
     portalPinned := portalPinned p; visible := visible p; createSubid :=
     createSubid p; activeSubid := v; stmts := stmts p; cplan := cplan p;
     heap := heap p; holdContext := holdContext p; holdStore := holdStore
     p; resowner := resowner p; cleanup := cleanup p; is_extended_query :=
     is_extended_query p; queryDesc := queryDesc p |}.
Definition set_stmts (v : list nat) (p : PortalData) : PortalData :=
  {| name := name p; status := status p; cursorOptions := cursorOptions p;
     portalPinned := portalPinned p; visible := visible p; createSubid :=
     createSubid p; activeSubid := activeSubid p; stmts := v; cplan :=
     cplan p; heap := heap p; holdContext := holdContext p; holdStore :=
     holdStore p; resowner := resowner p; cleanup := cleanup p;
     is_extended_query := is_extended_query p; queryDesc := queryDesc p |}.
Definition set_cplan (v : option nat) (p : PortalData) : PortalData :=
  {| name := name p; status := status p; cursorOptions := cursorOptions p;
     portalPinned := portalPinned p; visible := visible p; createSubid :=
     createSubid p; activeSubid := activeSubid p; stmts := stmts p; cplan
     := v; heap := heap p; holdContext := holdContext p; holdStore :=
     holdStore p; resowner := resowner p; cleanup := cleanup p;
     is_extended_query := is_extended_query p; queryDesc := queryDesc p |}.
Definition set_holdContext (v : option nat) (p : PortalData) : PortalData :=
  {| name := name p; status := status p; cursorOptions := cursorOptions p;
     portalPinned := portalPinned p; visible := visible p; createSubid :=
     createSubid p; activeSubid := activeSubid p; stmts := stmts p; cplan
     := cplan p; heap := heap p; holdContext := v; holdStore := holdStore
     p; resowner := resowner p; cleanup := cleanup p; is_extended_query :=
     is_extended_query p; queryDesc := queryDesc p |}.
Definition set_holdStore (v : option nat) (p : PortalData) : PortalData :=
  {| name := name p; status := status p; cursorOptions := cursorOptions p;
     portalPinned := portalPinned p; visible := visible p; createSubid :=
     createSubid p; activeSubid := activeSubid p; stmts := stmts p; cplan
     := cplan p; heap := heap p; holdContext := holdContext p; holdStore :=
     v; resowner := resowner p; cleanup := cleanup p; is_extended_query :=
     is_extended_query p; queryDesc := queryDesc p |}.
Definition set_resowner (v : option nat) (p : PortalData) : PortalData :=
  {| name := name p; status := status p; cursorOptions := cursorOptions p;
     portalPinned := portalPinned p; visible := visible p; createSubid :=
     createSubid p; activeSubid := activeSubid p; stmts := stmts p; cplan
     := cplan p; heap := heap p; holdContext := holdContext p; holdStore :=
     holdStore p; resowner := v; cleanup := cleanup p; is_extended_query :=
     is_extended_query p; queryDesc := queryDesc p |}.
Definition set_cleanup (v : option nat) (p : PortalData) : PortalData :=
  {| name := name p; status := status p; cursorOptions := cursorOptions p;
     portalPinned := portalPinned p; visible := visible p; createSubid :=
     createSubid p; activeSubid := activeSubid p; stmts := stmts p; cplan
     := cplan p; heap := heap p; holdContext := holdContext p; holdStore :=
     holdStore p; resowner := resowner p; cleanup := v; is_extended_query
     := is_extended_query p; queryDesc := queryDesc p |}.
Definition set_queryDesc (v : option QueryDesc) (p : PortalData) : PortalData :=
  {| name := name p; status := status p; cursorOptions := cursorOptions p;
     portalPinned := portalPinned p; visible := visible p; createSubid :=
     createSubid p; activeSubid := activeSubid p; stmts := stmts p; cplan
     := cplan p; heap := heap p; holdContext := holdContext p; holdStore :=
     holdStore p; resowner := resowner p; cleanup := cleanup p;
     is_extended_query := is_extended_query p; queryDesc := v |}.

(** Calls made into the other subsystems, in the order they were made. *)
Inductive event :=
| Ev_cleanup (hook : nat) (portal : string)
| Ev_PersistHoldablePortal (portal : string)
| Ev_ResUnLockPortal (portal : string)
| Ev_ReleaseCachedPlan (plan : nat) (useResOwner : bool)
| Ev_ResourceOwnerRelease (owner : nat) (phase : ResourceReleasePhase)
    (isCommit isTopLevel : bool)
| Ev_ResourceOwnerDelete (owner : nat)
| Ev_ResourceOwnerNewParent (owner newparent : nat)
| Ev_AllocSetContextCreate (context : nat)
| Ev_tuplestore_begin_heap (store : nat) (randomAccess interXact : bool)
| Ev_tuplestore_end (store : nat) (context : option nat)
| Ev_MemoryContextDelete (context : nat)
| Ev_MemoryContextDeleteChildren (context : nat)
| Ev_pfree (portal : string)
| Ev_WARNING_no_such_portal (portal : string)
| Ev_WARNING_skipping_cleanup (portal : string).

(** The state of the module.  A portal struct is reachable only through
    its hash entry, whose key is the portal's name as the table stores it,
    so [PortalHashTable] maps that key to the struct itself and a [Portal]
    argument is the key of its entry; [PortalDrop] unlinks the entry first
    and then works on the struct it still holds.  [next_address] numbers the memory
    contexts and tuple stores allocated on the module's behalf, and
    [CurrentSubTransactionId] is what [GetCurrentSubTransactionId()]
    returns. *)
Record registry := {
  PortalHashTable : gmap string PortalData;
  trace : list event;
  next_address : nat;
  CurrentSubTransactionId : SubTransactionId
}.

Definition set_PortalHashTable (t : gmap string PortalData) (s : registry) :=
  {| PortalHashTable := t; trace := trace s;
     next_address := next_address s;
     CurrentSubTransactionId := CurrentSubTransactionId s |}.
Definition set_trace (t : list event) (s : registry) :=
  {| PortalHashTable := PortalHashTable s; trace := t;
     next_address := next_address s;
     CurrentSubTransactionId := CurrentSubTransactionId s |}.
Definition set_next_address (a : nat) (s : registry) :=
  {| PortalHashTable := PortalHashTable s; trace := trace s;
     next_address := a;
     CurrentSubTransactionId := CurrentSubTransactionId s |}.

Abbreviation R := (M registry).

(** MAX_PORTALNAME_LEN is NAMEDATALEN, 64 in pg_config_manual.h: the hash
    table is created with string keys of this size, and dynahash hashes,
    compares and stores the first MAX_PORTALNAME_LEN - 1 bytes of a key.  [hash_key name] is the
    key under which the table keeps a portal created as [name], and the
    name the portal has from then on: [portal->name] points to the stored
    key. *)
Definition MAX_PORTALNAME_LEN : nat := 64.

Definition hash_key (name : string) : string :=
  String.substring 0 (MAX_PORTALNAME_LEN - 1) name.

Arguments hash_key : simpl never.

Lemma substring_length_le m (s : string) :
  (String.length (String.substring 0 m s) <= m)%nat.
Proof.
  revert s. induction m as [|m IH]; intros [|c s]; simpl; try lia.
  specialize (IH s). lia.
Qed.

Lemma substring_short m (s : string) :
  (String.length s <= m)%nat -> String.substring 0 m s = s.
Proof.
  revert s. induction m as [|m IH]; intros [|c s]; simpl; try done; try lia.
  intros Hlen. f_equal. apply IH. lia.
Qed.

Lemma hash_key_length name :
  (String.length (hash_key name) <= MAX_PORTALNAME_LEN - 1)%nat.
Proof. apply substring_length_le. Qed.

Lemma hash_key_short name :
  (String.length name <= MAX_PORTALNAME_LEN - 1)%nat -> hash_key name = name.
Proof. apply substring_short. Qed.

Lemma hash_key_idemp name : hash_key (hash_key name) = hash_key name.
Proof. apply hash_key_short, hash_key_length. Qed.

(** [*portal] as an rvalue; a portal that is not in the table has been
    freed. *)
Definition deref (portal : string) : R PortalData := fun s =>
  match PortalHashTable s !! portal with
  | Some p => Ok p s
  | None => Undefined
  end.

(** [portal->field = v] *)
Definition store (portal : string) (f : PortalData -> PortalData) : R unit :=
  fun s =>
    match PortalHashTable s !! portal with
    | Some p => Ok tt (set_PortalHashTable (<[portal := f p]> (PortalHashTable s)) s)
    | None => Undefined
    end.

Definition emit (e : event) : R unit :=
  modify (fun s => set_trace (trace s ++ [e]) s).

Definition allocate : R nat := fun s =>
  Ok (next_address s) (set_next_address (S (next_address s)) s).

(** ** Statement lists *)

(** A statement node, as far as [PortalListGetPrimaryStmt] looks at it: the
    node tag, and the canSetTag flag of the two tags that have one. *)
Inductive Node :=
| PlannedStmt (canSetTag : bool)
| Query (canSetTag : bool)
| OtherNode.

(** [stmts] is the list of node pointers and [node_at] what they point to;
    the result is the pointer returned, [None] for NULL. *)
Fixpoint PortalListGetPrimaryStmt_from (node_at : nat -> Node)
    (list_length : nat) (cells : list nat) : option nat :=
  match cells with
  | [] => None
  | stmt :: rest =>
      match node_at stmt with
      | PlannedStmt canSetTag =>
          if canSetTag then Some stmt
          else PortalListGetPrimaryStmt_from node_at list_length rest
      | Query canSetTag =>
          if canSetTag then Some stmt
          else PortalListGetPrimaryStmt_from node_at list_length rest
      | OtherNode =>
          if (list_length =? 1)%nat then Some stmt
          else PortalListGetPrimaryStmt_from node_at list_length rest
      end
  end.

Definition PortalListGetPrimaryStmt (node_at : nat -> Node)
    (stmts : list nat) : option nat :=
  PortalListGetPrimaryStmt_from node_at (length stmts) stmts.

(** ** The module as a whole

    What the module holds besides the table: the two static pointers, the
    fields of a portal struct that only its creation and
    [PortalDefineQuery] write, the counter of [CreateNewPortal], and the
    calls and notices that [CreatePortal] makes. *)
Record PortalDetails := {
  strategy : nat;
  atStart : bool;
  atEnd : bool;
  creation_time : Z;
  portalId : Z;
  queueId : Z;
  prepStmtName : option string;
  sourceText : option string;
  sourceTag : nat;
  commandTag : option string
}.

Inductive manager_event :=
| Mv_WARNING_closing_existing_cursor (name : string)
| Mv_ResourceOwnerCreate (owner : nat)
| Mv_ResCreatePortalId (name : string)
| Mv_gpmon_init.

(** [PortalHashTable_created] is [PortalHashTable != NULL]; while it is
    false, [portals] holds no table to look at.  [details] is keyed like
    the table: the entry under a key belongs to the portal that the table
    holds under that key. *)
Record manager := {
  portals : registry;
  PortalHashTable_created : bool;
  PortalMemory : option nat;
  details : gmap string PortalDetails;
  unnamed_portal_count : Z;
  manager_log : list manager_event
}.

Definition set_portals (v : registry) (st : manager) : manager :=
  {| portals := v; PortalHashTable_created := PortalHashTable_created st;
     PortalMemory := PortalMemory st; details := details st;
     unnamed_portal_count := unnamed_portal_count st;
     manager_log := manager_log st |}.
Definition set_PortalHashTable_created (v : bool) (st : manager) : manager :=
  {| portals := portals st; PortalHashTable_created := v;
     PortalMemory := PortalMemory st; details := details st;
     unnamed_portal_count := unnamed_portal_count st;
     manager_log := manager_log st |}.
Definition set_PortalMemory (v : option nat) (st : manager) : manager :=
  {| portals := portals st;
     PortalHashTable_created := PortalHashTable_created st;
     PortalMemory := v; details := details st;
     unnamed_portal_count := unnamed_portal_count st;
     manager_log := manager_log st |}.
Definition set_details (v : gmap string PortalDetails) (st : manager)
  : manager :=
  {| portals := portals st;
     PortalHashTable_created := PortalHashTable_created st;
     PortalMemory := PortalMemory st; details := v;
     unnamed_portal_count := unnamed_portal_count st;
     manager_log := manager_log st |}.
Definition set_unnamed_portal_count (v : Z) (st : manager) : manager :=
  {| portals := portals st;
     PortalHashTable_created := PortalHashTable_created st;
     PortalMemory := PortalMemory st; details := details st;
     unnamed_portal_count := v; manager_log := manager_log st |}.
Definition set_manager_log (v : list manager_event) (st : manager)
  : manager :=
  {| portals := portals st;
     PortalHashTable_created := PortalHashTable_created st;
     PortalMemory := PortalMemory st; details := details st;
     unnamed_portal_count := unnamed_portal_count st; manager_log := v |}.

Abbreviation G := (M manager).

(** A routine of the registry, run on the table of the module.  The table
    must be there: the routines reach it through [PortalHashTable]. *)
Definition on_table {A} (m : R A) : G A := fun st =>
  if PortalHashTable_created st then
    match m (portals st) with
    | Ok a s => Ok a (set_portals s st)
    | Raise lvl code s => Raise lvl code (set_portals s st)
    | Undefined => Undefined
    end
  else Undefined.

(** Calls that do not go through the table. *)
Definition outside {A} (m : R A) : G A := fun st =>
  match m (portals st) with
  | Ok a s => Ok a (set_portals s st)
  | Raise lvl code s => Raise lvl code (set_portals s st)
  | Undefined => Undefined
  end.

Definition note (e : manager_event) : G unit :=
  modify (fun st => set_manager_log (manager_log st ++ [e]) st).

(** [sprintf(portalname, "<unnamed portal %u>", count)] *)
Definition unnamed_portal_name (count : Z) : string :=
  "<unnamed portal " +:+ pretty (Z.to_N count) +:+ ">".

Lemma PortalListGetPrimaryStmt_from_spec node_at list_length cells :
  let marked := fun stmt =>
    match node_at stmt with
    | PlannedStmt canSetTag => canSetTag
    | Query canSetTag => canSetTag
    | OtherNode => (list_length =? 1)%nat
    end in
  match PortalListGetPrimaryStmt_from node_at list_length cells with
  | Some stmt =>
      exists before after,
        cells = before ++ stmt :: after /\ marked stmt = true /\
        forall x, x ∈ before -> marked x = false
  | None => forall x, x ∈ cells -> marked x = false
  end.
Proof.
  intros marked. induction cells as [|stmt rest IH]; simpl.
  { by intros x ?%elem_of_nil. }
  assert (Hstep :
    marked stmt = false ->
    match PortalListGetPrimaryStmt_from node_at list_length rest with
    | Some stmt0 =>
        exists before after,
          stmt :: rest = before ++ stmt0 :: after /\ marked stmt0 = true /\
          forall x, x ∈ before -> marked x = false
    | None => forall x, x ∈ stmt :: rest -> marked x = false
    end).
  { intros Hm.
    destruct (PortalListGetPrimaryStmt_from node_at list_length rest)
      as [stmt0|].
    - destruct IH as (before & after & -> & Hm0 & Hbefore).
      exists (stmt :: before), after. split_and!; [done|done|].
      intros x [->|Hx]%elem_of_cons; auto.
    - intros x [->|Hx]%elem_of_cons; auto. }
  assert (Hhere :
    marked stmt = true ->
    exists before after,
      stmt :: rest = before ++ stmt :: after /\ marked stmt = true /\
      forall x, x ∈ before -> marked x = false).
  { intros Hm. exists [], rest. split_and!; [done|done|].
    by intros x ?%elem_of_nil. }
  destruct (node_at stmt) as [c|c|] eqn:Hn.
  - destruct c; [apply Hhere|apply Hstep]; unfold marked; by rewrite Hn.
  - destruct c; [apply Hhere|apply Hstep]; unfold marked; by rewrite Hn.
  - destruct (list_length =? 1)%nat eqn:Hl; [apply Hhere|apply Hstep];
      unfold marked; by rewrite Hn.
Qed.

(** X14: [PortalListGetPrimaryStmt] returns the first statement of the
    list that counts as marked canSetTag: a PlannedStmt or a Query whose
    flag is set, or a statement of any other kind if the list has exactly
    one element.  It returns NULL exactly if the list has no such statement,
    as for the empty list and for a list of two or more utility
    statements. *)
Theorem PortalListGetPrimaryStmt_first_canSetTag node_at stmts :
  let marked := fun stmt =>
    match node_at stmt with
    | PlannedStmt canSetTag => canSetTag
    | Query canSetTag => canSetTag
    | OtherNode => (length stmts =? 1)%nat
    end in
  match PortalListGetPrimaryStmt node_at stmts with
  | Some stmt =>
      exists before after,
        stmts = before ++ stmt :: after /\ marked stmt = true /\
        forall x, x ∈ before -> marked x = false
  | None => forall x, x ∈ stmts -> marked x = false
  end.
Proof. apply PortalListGetPrimaryStmt_from_spec. Qed.

Section Registry.

(** Constants of c.h and nodes/parsenodes.h, and the routines of the
    subsystems whose outcome the module depends on: what a call through a
    cleanup hook does, what [PersistHoldablePortal] does, whether the
    resource scheduler holds a lock for the portal, and the order in which
    dynahash hands out the entries of a table. *)
Variable InvalidSubTransactionId : SubTransactionId.
Variable CURSOR_OPT_HOLD : Z.
Variable CURSOR_OPT_SCROLL : Z.
Variable cleanup_body : nat -> string -> R unit.
Variable PersistHoldablePortal_body : string -> R unit.
Variable IsResQueueLockedForPortal : PortalData -> bool.
Variable hash_seq_order : gmap string PortalData -> list string.

Definition PortalHashTableDelete (portal : string) : R unit :=
  let! s := get in
  match PortalHashTable s !! portal with
  | Some _ => modify (fun s => set_PortalHashTable (delete portal (PortalHashTable s)) s)
  | None => emit (Ev_WARNING_no_such_portal portal)
  end.

(** [PortalHashTableLookup]: [hash_search] finds the entry whose key is
    the key of [name]. *)
Definition GetPortalByName (name : string) : R (option PortalData) :=
  let! s := get in ret (PortalHashTable s !! hash_key name).

Definition PortalReleaseCachedPlan (portal : string) : R unit :=
  let! p := deref portal in
  match cplan p with
  | Some plan =>
      emit (Ev_ReleaseCachedPlan plan false) ;;
      store portal (set_cplan None) ;;
      store portal (set_stmts [])
  | None => ret tt
  end.

(** [PortalReleaseCachedPlan] as [PortalDrop] calls it: on the struct that
    the caller holds after its hash entry is gone. *)
Definition PortalReleaseCachedPlan_struct (p : PortalData) : R PortalData :=
  match cplan p with
  | Some plan =>
      emit (Ev_ReleaseCachedPlan plan false) ;;
      ret (set_stmts [] (set_cplan None p))
  | None => ret p
  end.

Definition PortalCreateHoldStore (portal : string) : R unit :=
  let! context := allocate in
  emit (Ev_AllocSetContextCreate context) ;;
  store portal (set_holdContext (Some context)) ;;
  let! p := deref portal in
  let! tuplestore := allocate in
  emit (Ev_tuplestore_begin_heap tuplestore
          (negb (Z.land (cursorOptions p) CURSOR_OPT_SCROLL =? 0)) true) ;;
  store portal (set_holdStore (Some tuplestore)).

Definition PinPortal (portal : string) : R unit :=
  let! p := deref portal in
  if portalPinned p then ereport ERROR ERRCODE_INTERNAL_ERROR
  else store portal (set_portalPinned true).

Definition UnpinPortal (portal : string) : R unit :=
  let! p := deref portal in
  if portalPinned p then store portal (set_portalPinned false)
  else ereport ERROR ERRCODE_INTERNAL_ERROR.

Definition MarkPortalActive (portal : string) : R unit :=
  let! p := deref portal in
  if bool_decide (status p = PORTAL_READY) then
    store portal (set_status PORTAL_ACTIVE) ;;
    let! s := get in
    store portal (set_activeSubid (CurrentSubTransactionId s))
  else ereport ERROR ERRCODE_OBJECT_NOT_IN_PREREQUISITE_STATE.

(** The block that [MarkPortalDone], [MarkPortalFailed], [PortalDrop],
    [AtAbort_Portals] and [AtSubAbort_Portals] all contain: if
    [portal->cleanup] is a valid pointer, call through it with the portal
    and then set [portal->cleanup = NULL]. *)
Definition run_cleanup_hook (portal : string) : R unit :=
  let! p := deref portal in
  match cleanup p with
  | Some hook =>
      emit (Ev_cleanup hook portal) ;;
      cleanup_body hook portal ;;
      store portal (set_cleanup None)
  | None => ret tt
  end.

Definition MarkPortalDone (portal : string) : R unit :=
  store portal (set_status PORTAL_DONE) ;;
  run_cleanup_hook portal.

Definition MarkPortalFailed (portal : string) : R unit :=
  store portal (set_status PORTAL_FAILED) ;;
  run_cleanup_hook portal.

(** The second half of [PortalDrop], from the release of the resource
    queue lock on: the hash entry is unlinked by then, and the code works
    on the struct [p] it still holds. *)
Definition PortalDrop_release (portal : string) (p : PortalData)
    (isTopCommit : bool) : R unit :=
  (when (IsResQueueLockedForPortal p) then emit (Ev_ResUnLockPortal portal)) ;;
  let! p := PortalReleaseCachedPlan_struct p in
  match resowner p with
  | Some owner =>
      when (negb isTopCommit || bool_decide (status p = PORTAL_FAILED)) then
        (let isCommit := negb (bool_decide (status p = PORTAL_FAILED)) in
         emit (Ev_ResourceOwnerRelease owner RESOURCE_RELEASE_BEFORE_LOCKS
                 isCommit false) ;;
         emit (Ev_ResourceOwnerRelease owner RESOURCE_RELEASE_LOCKS
                 isCommit false) ;;
         emit (Ev_ResourceOwnerRelease owner RESOURCE_RELEASE_AFTER_LOCKS
                 isCommit false) ;;
         emit (Ev_ResourceOwnerDelete owner))
  | None => ret tt
  end ;;
  let p := set_resowner None p in
  match holdStore p with
  | Some tuplestore => emit (Ev_tuplestore_end tuplestore (holdContext p))
  | None => ret tt
  end ;;
  let p := set_holdStore None p in
  match holdContext p with
  | Some context => emit (Ev_MemoryContextDelete context)
  | None => ret tt
  end ;;
  emit (Ev_MemoryContextDelete (heap p)) ;;
  emit (Ev_pfree portal).

Definition PortalDrop (portal : string) (isTopCommit : bool) : R unit :=
  let! p := deref portal in
  if portalPinned p || bool_decide (status p = PORTAL_ACTIVE)
  then ereport ERROR ERRCODE_INVALID_CURSOR_STATE
  else
    run_cleanup_hook portal ;;
    (* from here on: the struct as the hook left it *)
    let! p := deref portal in
    PortalHashTableDelete portal ;;
    PortalDrop_release portal p isTopCommit.

(** *** Scans of the hash table

    [hash_seq_search] hands out the entries of the table in an order of
    its own.  A scan is modelled by the keys of the table when it was
    started, in the order [hash_seq_order]; an entry that is gone when its
    turn comes is not handed out. *)
Definition hash_seq_init : R (list string) :=
  let! s := get in ret (hash_seq_order (PortalHashTable s)).

Fixpoint hash_seq_for_each (body : string -> R unit) (scan : list string)
  : R unit :=
  match scan with
  | [] => ret tt
  | portal :: rest =>
      let! s := get in
      match PortalHashTable s !! portal with
      | Some _ => body portal
      | None => ret tt
      end ;;
      hash_seq_for_each body rest
  end.

(** Is it a holdable portal created in the current xact? *)
Definition holdable_in_current_xact (p : PortalData) : bool :=
  negb (Z.land (cursorOptions p) CURSOR_OPT_HOLD =? 0)
  && negb (createSubid p =? InvalidSubTransactionId)%nat
  && bool_decide (status p = PORTAL_READY).

(** The body of the loop of [PreCommit_Portals] for one entry.  The result
    says whether the portal was frozen or dropped, after which the C loop
    sets [result = true] and restarts the scan. *)
Definition PreCommit_Portals_visit (isPrepare : bool) (portal : string)
  : R bool :=
  let! p := deref portal in
  if portalPinned p then ereport ERROR ERRCODE_INTERNAL_ERROR
  else if bool_decide (status p = PORTAL_ACTIVE) then
    store portal (set_resowner None) ;; ret false
  else if holdable_in_current_xact p then
    if isPrepare then ereport ERROR ERRCODE_FEATURE_NOT_SUPPORTED
    else
      PortalCreateHoldStore portal ;;
      emit (Ev_PersistHoldablePortal portal) ;;
      PersistHoldablePortal_body portal ;;
      PortalReleaseCachedPlan portal ;;
      store portal (set_resowner None) ;;
      store portal (set_createSubid InvalidSubTransactionId) ;;
      store portal (set_activeSubid InvalidSubTransactionId) ;;
      ret true
  else if (createSubid p =? InvalidSubTransactionId)%nat then ret false
  else PortalDrop portal true ;; ret true.

(** One scan, up to the first portal frozen or dropped. *)
Fixpoint PreCommit_Portals_scan (isPrepare : bool) (scan : list string)
  : R bool :=
  match scan with
  | [] => ret false
  | portal :: rest =>
      let! s := get in
      match PortalHashTable s !! portal with
      | Some _ =>
          let! changed := PreCommit_Portals_visit isPrepare portal in
          if changed then ret true else PreCommit_Portals_scan isPrepare rest
      | None => PreCommit_Portals_scan isPrepare rest
      end
  end.

(** The loop of [PreCommit_Portals]: scans are restarted until one finds
    nothing to do.  Every restart takes one unit of fuel; [None] is
    returned when the fuel did not suffice. *)
Fixpoint PreCommit_Portals_loop (fuel : nat) (isPrepare : bool)
    (result : bool) : R (option bool) :=
  let! scan := hash_seq_init in
  let! changed := PreCommit_Portals_scan isPrepare scan in
  if changed then
    match fuel with
    | O => ret None
    | S fuel' => PreCommit_Portals_loop fuel' isPrepare true
    end
  else ret (Some result).

Definition PreCommit_Portals (fuel : nat) (isPrepare : bool)
  : R (option bool) :=
  PreCommit_Portals_loop fuel isPrepare false.

Definition AtAbort_Portals_visit (portal : string) : R unit :=
  let! p := deref portal in
  (when (bool_decide (status p = PORTAL_ACTIVE)) then MarkPortalFailed portal) ;;
  let! p := deref portal in
  (when (is_extended_query p) then
     match queryDesc p with
     | Some _ => store portal (set_queryDesc (Some {| cancelUnfinished := true |}))
     | None => ret tt
     end) ;;
  let! p := deref portal in
  if (createSubid p =? InvalidSubTransactionId)%nat then ret tt
  else
    run_cleanup_hook portal ;;
    PortalReleaseCachedPlan portal ;;
    store portal (set_resowner None) ;;
    let! p := deref portal in
    emit (Ev_MemoryContextDeleteChildren (heap p)).

Definition AtAbort_Portals : R unit :=
  let! scan := hash_seq_init in
  hash_seq_for_each AtAbort_Portals_visit scan.

(** The tail that [AtCleanup_Portals] and [AtSubCleanup_Portals] share:
    unpin, skip a cleanup hook that has not run, drop. *)
Definition cleanup_and_drop (portal : string) : R unit :=
  let! p := deref portal in
  (when (portalPinned p) then store portal (set_portalPinned false)) ;;
  let! p := deref portal in
  match cleanup p with
  | Some _ =>
      emit (Ev_WARNING_skipping_cleanup portal) ;;
      store portal (set_cleanup None)
  | None => ret tt
  end ;;
  PortalDrop portal false.

Definition AtCleanup_Portals_visit (portal : string) : R unit :=
  let! p := deref portal in
  if (createSubid p =? InvalidSubTransactionId)%nat then ret tt
  else cleanup_and_drop portal.

Definition AtCleanup_Portals : R unit :=
  let! scan := hash_seq_init in
  hash_seq_for_each AtCleanup_Portals_visit scan.

Definition AtSubCommit_Portals_visit (mySubid parentSubid : SubTransactionId)
    (parentXactOwner : nat) (portal : string) : R unit :=
  let! p := deref portal in
  (when (createSubid p =? mySubid)%nat then
     (store portal (set_createSubid parentSubid) ;;
      match resowner p with
      | Some owner => emit (Ev_ResourceOwnerNewParent owner parentXactOwner)
      | None => ret tt
      end)) ;;
  let! p := deref portal in
  when (activeSubid p =? mySubid)%nat then
    store portal (set_activeSubid parentSubid).

Definition AtSubCommit_Portals (mySubid parentSubid : SubTransactionId)
    (parentXactOwner : nat) : R unit :=
  let! scan := hash_seq_init in
  hash_seq_for_each
    (AtSubCommit_Portals_visit mySubid parentSubid parentXactOwner) scan.

Definition AtSubAbort_Portals_visit (mySubid parentSubid : SubTransactionId)
    (myXactOwner parentXactOwner : nat) (portal : string) : R unit :=
  let! p := deref portal in
  if negb (createSubid p =? mySubid)%nat then
    when (activeSubid p =? mySubid)%nat then
      (store portal (set_activeSubid parentSubid) ;;
       (when (bool_decide (status p = PORTAL_ACTIVE)) then
          MarkPortalFailed portal) ;;
       let! p := deref portal in
       if bool_decide (status p = PORTAL_FAILED) then
         match resowner p with
         | Some owner =>
             emit (Ev_ResourceOwnerNewParent owner myXactOwner) ;;
             store portal (set_resowner None)
         | None => ret tt
         end
       else ret tt)
  else
    (when (bool_decide (status p = PORTAL_ACTIVE)) then
       MarkPortalFailed portal) ;;
    run_cleanup_hook portal ;;
    PortalReleaseCachedPlan portal ;;
    store portal (set_resowner None) ;;
    let! p := deref portal in
    emit (Ev_MemoryContextDeleteChildren (heap p)).

Definition AtSubAbort_Portals (mySubid parentSubid : SubTransactionId)
    (myXactOwner parentXactOwner : nat) : R unit :=
  let! scan := hash_seq_init in
  hash_seq_for_each
    (AtSubAbort_Portals_visit mySubid parentSubid myXactOwner parentXactOwner)
    scan.

Definition AtSubCleanup_Portals_visit (mySubid : SubTransactionId)
    (portal : string) : R unit :=
  let! p := deref portal in
  if negb (createSubid p =? mySubid)%nat then ret tt
  else cleanup_and_drop portal.

Definition AtSubCleanup_Portals (mySubid : SubTransactionId) : R unit :=
  let! scan := hash_seq_init in
  hash_seq_for_each (AtSubCleanup_Portals_visit mySubid) scan.

(** One scan of [PortalHashTableDeleteAll], up to the first portal
    dropped; the result says whether one was, after which the C loop
    restarts the scan. *)
Fixpoint PortalHashTableDeleteAll_scan (scan : list string) : R bool :=
  match scan with
  | [] => ret false
  | portal :: rest =>
      let! s := get in
      match PortalHashTable s !! portal with
      | Some p =>
          if bool_decide (status p = PORTAL_ACTIVE)
          then PortalHashTableDeleteAll_scan rest
          else PortalDrop portal false ;; ret true
      | None => PortalHashTableDeleteAll_scan rest
      end
  end.

(** The loop of [PortalHashTableDeleteAll]; every restart takes one unit
    of fuel, and [None] is returned when the fuel did not suffice. *)
Fixpoint PortalHashTableDeleteAll_loop (fuel : nat) : R (option unit) :=
  let! scan := hash_seq_init in
  let! restart := PortalHashTableDeleteAll_scan scan in
  if restart then
    match fuel with
    | O => ret None
    | S fuel' => PortalHashTableDeleteAll_loop fuel'
    end
  else ret (Some tt).

Fixpoint ThereAreNoReadyPortals_scan (scan : list string) : R bool :=
  match scan with
  | [] => ret true
  | portal :: rest =>
      let! s := get in
      match PortalHashTable s !! portal with
      | Some p =>
          if bool_decide (status p = PORTAL_READY) then ret false
          else ThereAreNoReadyPortals_scan rest
      | None => ThereAreNoReadyPortals_scan rest
      end
  end.

Definition ThereAreNoReadyPortals : R bool :=
  let! scan := hash_seq_init in
  ThereAreNoReadyPortals_scan scan.

(** The operations that claim P3 ranges over. *)
Inductive registry_op :=
| Op_MarkPortalDone (portal : string)
| Op_MarkPortalFailed (portal : string)
| Op_PortalDrop (portal : string) (isTopCommit : bool)
| Op_PreCommit_Portals (fuel : nat) (isPrepare : bool)
| Op_AtAbort_Portals
| Op_AtCleanup_Portals
| Op_AtSubCommit_Portals (mySubid parentSubid : SubTransactionId)
    (parentXactOwner : nat)
| Op_AtSubAbort_Portals (mySubid parentSubid : SubTransactionId)
    (myXactOwner parentXactOwner : nat)
| Op_AtSubCleanup_Portals (mySubid : SubTransactionId).

(** The state an operation leaves behind, if it leaves one. *)
Definition run_registry_op (op : registry_op) (s : registry)
  : option registry :=
  match op with
  | Op_MarkPortalDone n => final_state (MarkPortalDone n s)
  | Op_MarkPortalFailed n => final_state (MarkPortalFailed n s)
  | Op_PortalDrop n tc => final_state (PortalDrop n tc s)
  | Op_PreCommit_Portals fuel b => final_state (PreCommit_Portals fuel b s)
  | Op_AtAbort_Portals => final_state (AtAbort_Portals s)
  | Op_AtCleanup_Portals => final_state (AtCleanup_Portals s)
  | Op_AtSubCommit_Portals a b c => final_state (AtSubCommit_Portals a b c s)
  | Op_AtSubAbort_Portals a b c d => final_state (AtSubAbort_Portals a b c d s)
  | Op_AtSubCleanup_Portals a => final_state (AtSubCleanup_Portals a s)
  end.

(** A sequence of operations, each one started in the state that the one
    before it left, whether that one returned or ended in an error. *)
Fixpoint run_registry_ops (ops : list registry_op) (s : registry)
  : option registry :=
  match ops with
  | [] => Some s
  | op :: ops =>
      match run_registry_op op s with
      | Some s1 => run_registry_ops ops s1
      | None => None
      end
  end.

(** ** Specification vocabulary *)

(** An outside routine called for [portal] is benign if it returns
    normally and leaves the registry as it found it, except that it may
    have changed the [queryDesc] field of that portal (the executor state it
    shut down): it raises no error, makes none of the calls that the trace
    records, and does not call back into the registry. *)
Definition benign (portal : string) (m : R unit) : Prop :=
  forall s, exists q,
    m s = Ok tt (set_PortalHashTable
                   (alter (set_queryDesc q) portal (PortalHashTable s)) s).

Definition is_cleanup_of (portal : string) (e : event) : bool :=
  match e with
  | Ev_cleanup _ n => bool_decide (n = portal)
  | _ => false
  end.

(** Number of calls made so far through the cleanup hook of [portal]. *)
Definition cleanup_calls (portal : string) (t : list event) : nat :=
  length (filter (fun e => is_cleanup_of portal e = true) t).

(** I-P3: no hook was called twice, and a hook still in place was never
    called. *)
Definition cleanup_once (s : registry) : Prop :=
  forall portal,
    (cleanup_calls portal (trace s) <= 1)%nat /\
    (forall p, PortalHashTable s !! portal = Some p -> is_Some (cleanup p) ->
       cleanup_calls portal (trace s) = 0%nat).

Definition is_resowner_event (e : event) : bool :=
  match e with
  | Ev_ResourceOwnerRelease _ _ _ _ => true
  | Ev_ResourceOwnerDelete _ => true
  | _ => false
  end.

(** What [PortalDrop] asks of the portal's resource owner. *)
Definition expected_release (p : PortalData) (isTopCommit : bool)
  : list event :=
  match resowner p with
  | Some owner =>
      if negb isTopCommit || bool_decide (status p = PORTAL_FAILED) then
        let isCommit := negb (bool_decide (status p = PORTAL_FAILED)) in
        [Ev_ResourceOwnerRelease owner RESOURCE_RELEASE_BEFORE_LOCKS isCommit false;
         Ev_ResourceOwnerRelease owner RESOURCE_RELEASE_LOCKS isCommit false;
         Ev_ResourceOwnerRelease owner RESOURCE_RELEASE_AFTER_LOCKS isCommit false;
         Ev_ResourceOwnerDelete owner]
      else []
  | None => []
  end.

(** ** Dropping a portal *)

Lemma deref_Ok portal p s :
  PortalHashTable s !! portal = Some p -> deref portal s = Ok p s.
Proof. unfold deref. by intros ->. Qed.

Lemma store_Ok portal f p s :
  PortalHashTable s !! portal = Some p ->
  store portal f s
  = Ok tt (set_PortalHashTable (<[portal := f p]> (PortalHashTable s)) s).
Proof. unfold store. by intros ->. Qed.

(** C5: [PortalDrop] of a portal that is pinned or ACTIVE raises
    ERRCODE_INVALID_CURSOR_STATE at level ERROR and changes nothing: the
    state in which the error is raised is the state before the call, so the
    portal is still in the table with all its fields, and no outside
    routine was called. *)
Theorem PortalDrop_pinned_or_active portal isTopCommit p s :
  PortalHashTable s !! portal = Some p ->
  portalPinned p = true \/ status p = PORTAL_ACTIVE ->
  PortalDrop portal isTopCommit s = Raise ERROR ERRCODE_INVALID_CURSOR_STATE s.
Proof.
  intros Hp Hcond. unfold PortalDrop.
  rewrite (bind_of_Ok _ _ _ _ _ (deref_Ok _ _ _ Hp)).
  destruct Hcond as [-> | ->]; [done|].
  rewrite bool_decide_eq_true_2 by done. by rewrite orb_true_r.
Qed.

(** The calls [PortalDrop] makes for the struct [p] once the hash entry is
    unlinked. *)
Definition PortalDrop_tail_events (portal : string) (p : PortalData)
    (isTopCommit : bool) : list event :=
  (if IsResQueueLockedForPortal p then [Ev_ResUnLockPortal portal] else [])
  ++ match cplan p with
     | Some plan => [Ev_ReleaseCachedPlan plan false]
     | None => []
     end
  ++ expected_release p isTopCommit
  ++ match holdStore p with
     | Some tuplestore => [Ev_tuplestore_end tuplestore (holdContext p)]
     | None => []
     end
  ++ match holdContext p with
     | Some context => [Ev_MemoryContextDelete context]
     | None => []
     end
  ++ [Ev_MemoryContextDelete (heap p); Ev_pfree portal].

Definition cleanup_event (portal : string) (p : PortalData) : list event :=
  match cleanup p with
  | Some hook => [Ev_cleanup hook portal]
  | None => []
  end.

(** The state after a successful [PortalDrop]. *)
Definition dropped (portal : string) (new : list event) (s : registry)
  : registry :=
  set_PortalHashTable (delete portal (PortalHashTable s))
    (set_trace (trace s ++ new) s).

Lemma PortalHashTableDelete_Ok portal p s :
  PortalHashTable s !! portal = Some p ->
  PortalHashTableDelete portal s
  = Ok tt (set_PortalHashTable (delete portal (PortalHashTable s)) s).
Proof. intros Hp. unfold PortalHashTableDelete, bind, get. by rewrite Hp. Qed.

(** A computation that only makes the calls [evs]. *)
Definition emits (m : R unit) (evs : list event) : Prop :=
  forall s, m s = Ok tt (set_trace (trace s ++ evs) s).

Lemma emits_emit e : emits (emit e) [e].
Proof. by intros s. Qed.

Lemma emits_ret : emits (ret tt) [].
Proof. intros s. unfold ret. f_equal. destruct s. simpl. by rewrite app_nil_r. Qed.

Lemma emits_bind m1 m2 e1 e2 :
  emits m1 e1 -> emits m2 e2 -> emits (m1 ;; m2) (e1 ++ e2).
Proof.
  intros H1 H2 s. rewrite (bind_of_Ok _ _ _ _ _ (H1 s)), H2.
  simpl. unfold set_trace. simpl. by rewrite app_assoc.
Qed.

Lemma emits_release p isTopCommit :
  emits
    (match resowner p with
     | Some owner =>
         when (negb isTopCommit || bool_decide (status p = PORTAL_FAILED)) then
           (let isCommit := negb (bool_decide (status p = PORTAL_FAILED)) in
            emit (Ev_ResourceOwnerRelease owner RESOURCE_RELEASE_BEFORE_LOCKS
                    isCommit false) ;;
            emit (Ev_ResourceOwnerRelease owner RESOURCE_RELEASE_LOCKS
                    isCommit false) ;;
            emit (Ev_ResourceOwnerRelease owner RESOURCE_RELEASE_AFTER_LOCKS
                    isCommit false) ;;
            emit (Ev_ResourceOwnerDelete owner))
     | None => ret tt
     end)
    (expected_release p isTopCommit).
Proof.
  unfold expected_release. destruct (resowner p) as [owner|]; [|apply emits_ret].
  destruct (negb isTopCommit || bool_decide (status p = PORTAL_FAILED));
    [|apply emits_ret].
  cbv zeta.
  repeat first [apply (emits_bind _ _ [_]) | apply emits_emit].
Qed.

Lemma PortalDrop_release_emits portal p isTopCommit :
  emits (PortalDrop_release portal p isTopCommit)
    (PortalDrop_tail_events portal p isTopCommit).
Proof.
  unfold PortalDrop_release, PortalDrop_tail_events.
  apply emits_bind.
  { destruct (IsResQueueLockedForPortal p); [apply emits_emit | apply emits_ret]. }
  assert (Hrest : forall p',
            resowner p' = resowner p -> status p' = status p ->
            holdStore p' = holdStore p -> holdContext p' = holdContext p ->
            heap p' = heap p ->
            emits
              (match resowner p' with
               | Some owner =>
                   when (negb isTopCommit
                         || bool_decide (status p' = PORTAL_FAILED)) then
                     (let isCommit :=
                        negb (bool_decide (status p' = PORTAL_FAILED)) in
                      emit (Ev_ResourceOwnerRelease owner
                              RESOURCE_RELEASE_BEFORE_LOCKS isCommit false) ;;
                      emit (Ev_ResourceOwnerRelease owner
                              RESOURCE_RELEASE_LOCKS isCommit false) ;;
                      emit (Ev_ResourceOwnerRelease owner
                              RESOURCE_RELEASE_AFTER_LOCKS isCommit false) ;;
                      emit (Ev_ResourceOwnerDelete owner))
               | None => ret tt
               end ;;
               let p1 := set_resowner None p' in
               match holdStore p1 with
               | Some tuplestore =>
                   emit (Ev_tuplestore_end tuplestore (holdContext p1))
               | None => ret tt
               end ;;
               let p2 := set_holdStore None p1 in
               match holdContext p2 with
               | Some context => emit (Ev_MemoryContextDelete context)
               | None => ret tt
               end ;;
               emit (Ev_MemoryContextDelete (heap p2)) ;;
               emit (Ev_pfree portal))
              (expected_release p isTopCommit
               ++ match holdStore p with
                  | Some tuplestore =>
                      [Ev_tuplestore_end tuplestore (holdContext p)]
                  | None => []
                  end
               ++ match holdContext p with
                  | Some context => [Ev_MemoryContextDelete context]
                  | None => []
                  end
               ++ [Ev_MemoryContextDelete (heap p); Ev_pfree portal])).
  { intros p' Hr Hst Hhs Hhc Hheap. apply emits_bind.
    { replace (expected_release p isTopCommit)
        with (expected_release p' isTopCommit)
        by (unfold expected_release; by rewrite Hr, Hst).
      apply emits_release. }
    cbv zeta. simpl. rewrite Hhs, Hhc, Hheap. apply emits_bind.
    { destruct (holdStore p); [apply emits_emit | apply emits_ret]. }
    apply emits_bind.
    { destruct (holdContext p); [apply emits_emit | apply emits_ret]. }
    apply (emits_bind _ _ [_]); apply emits_emit. }
  unfold PortalReleaseCachedPlan_struct.
  destruct (cplan p) as [plan|].
  - intros s. erewrite (bind_of_Ok (_ ;; _)); [|reflexivity].
    rewrite Hrest by done. simpl. unfold set_trace. simpl.
    by rewrite <- app_assoc.
  - intros s. erewrite (bind_of_Ok (ret _)); [|reflexivity].
    by rewrite Hrest.
Qed.

Lemma filter_resowner_tail portal p isTopCommit :
  filter (fun e => is_resowner_event e = true)
    (PortalDrop_tail_events portal p isTopCommit)
  = expected_release p isTopCommit.
Proof.
  unfold PortalDrop_tail_events, expected_release.
  destruct (IsResQueueLockedForPortal p), (cplan p),
    (resowner p), isTopCommit, (bool_decide (status p = PORTAL_FAILED)),
    (holdStore p), (holdContext p); reflexivity.
Qed.

(** The block of the cleanup hook, whatever the hook does: the call is
    made in the state [called]; if the hook returns, with the portal still
    in the table, the field is reset in the struct as the hook left it; if
    the hook leaves by [ereport], so does the block, and the field stays
    set. *)
Lemma run_cleanup_hook_returns portal p hook s s1 p1 :
  PortalHashTable s !! portal = Some p -> cleanup p = Some hook ->
  cleanup_body hook portal (set_trace (trace s ++ [Ev_cleanup hook portal]) s)
  = Ok tt s1 ->
  PortalHashTable s1 !! portal = Some p1 ->
  run_cleanup_hook portal s
  = Ok tt (set_PortalHashTable
             (<[portal := set_cleanup None p1]> (PortalHashTable s1)) s1).
Proof.
  intros Hp Hc Hhook Hp1. unfold run_cleanup_hook.
  rewrite (bind_of_Ok _ _ _ _ _ (deref_Ok _ _ _ Hp)), Hc.
  erewrite (bind_of_Ok (emit _)); [|reflexivity].
  rewrite (bind_of_Ok _ _ _ _ _ Hhook). by apply store_Ok.
Qed.

Lemma run_cleanup_hook_raises portal p hook s lvl code s1 :
  PortalHashTable s !! portal = Some p -> cleanup p = Some hook ->
  cleanup_body hook portal (set_trace (trace s ++ [Ev_cleanup hook portal]) s)
  = Raise lvl code s1 ->
  run_cleanup_hook portal s = Raise lvl code s1.
Proof.
  intros Hp Hc Hhook. unfold run_cleanup_hook.
  rewrite (bind_of_Ok _ _ _ _ _ (deref_Ok _ _ _ Hp)), Hc.
  erewrite (bind_of_Ok (emit _)); [|reflexivity].
  by rewrite (bind_of_Raise _ _ _ _ _ _ Hhook).
Qed.

Lemma run_cleanup_hook_unset portal p s :
  PortalHashTable s !! portal = Some p -> cleanup p = None ->
  run_cleanup_hook portal s = Ok tt s.
Proof.
  intros Hp Hc. unfold run_cleanup_hook.
  by rewrite (bind_of_Ok _ _ _ _ _ (deref_Ok _ _ _ Hp)), Hc.
Qed.

(** [PortalDrop] past its first test, for any hook: once the block of the
    cleanup hook has returned, leaving the state [s1] and the struct [p1],
    the entry is unlinked and the rest works on [p1]. *)
Lemma PortalDrop_after_hook portal isTopCommit p s s1 p1 :
  PortalHashTable s !! portal = Some p ->
  portalPinned p = false -> status p <> PORTAL_ACTIVE ->
  run_cleanup_hook portal s = Ok tt s1 ->
  PortalHashTable s1 !! portal = Some p1 ->
  PortalDrop portal isTopCommit s
  = Ok tt (dropped portal (PortalDrop_tail_events portal p1 isTopCommit) s1).
Proof.
  intros Hp Hpin Hact Hhook Hp1. unfold PortalDrop.
  rewrite (bind_of_Ok _ _ _ _ _ (deref_Ok _ _ _ Hp)), Hpin.
  rewrite bool_decide_eq_false_2 by done. simpl.
  rewrite (bind_of_Ok _ _ _ _ _ Hhook).
  rewrite (bind_of_Ok _ _ _ _ _ (deref_Ok _ _ _ Hp1)).
  rewrite (bind_of_Ok _ _ _ _ _ (PortalHashTableDelete_Ok _ _ _ Hp1)).
  by rewrite PortalDrop_release_emits.
Qed.

Lemma PortalDrop_hook_raises portal isTopCommit p s lvl code s1 :
  PortalHashTable s !! portal = Some p ->
  portalPinned p = false -> status p <> PORTAL_ACTIVE ->
  run_cleanup_hook portal s = Raise lvl code s1 ->
  PortalDrop portal isTopCommit s = Raise lvl code s1.
Proof.
  intros Hp Hpin Hact Hhook. unfold PortalDrop.
  rewrite (bind_of_Ok _ _ _ _ _ (deref_Ok _ _ _ Hp)), Hpin.
  rewrite bool_decide_eq_false_2 by done. simpl.
  by rewrite (bind_of_Raise _ _ _ _ _ _ Hhook).
Qed.

(** The three ways [PortalDrop] can go for a portal that is neither pinned
    nor ACTIVE, with the calls it makes after the hook. *)
Lemma PortalDrop_cases portal isTopCommit p s :
  PortalHashTable s !! portal = Some p ->
  portalPinned p = false -> status p <> PORTAL_ACTIVE ->
  (cleanup p = None ->
   PortalDrop portal isTopCommit s
   = Ok tt (dropped portal (PortalDrop_tail_events portal p isTopCommit) s)) /\
  (forall hook, cleanup p = Some hook ->
     let called := set_trace (trace s ++ [Ev_cleanup hook portal]) s in
     (forall s1 p1,
        cleanup_body hook portal called = Ok tt s1 ->
        PortalHashTable s1 !! portal = Some p1 ->
        PortalDrop portal isTopCommit s
        = Ok tt (dropped portal
                   (PortalDrop_tail_events portal (set_cleanup None p1)
                      isTopCommit) s1)) /\
     (forall lvl code s1,
        cleanup_body hook portal called = Raise lvl code s1 ->
        PortalDrop portal isTopCommit s = Raise lvl code s1)).
Proof.
  intros Hp Hpin Hact. split; [|intros hook Hc called; split].
  - intros Hc.
    apply (PortalDrop_after_hook portal isTopCommit p s s p); [done..| |done].
    by apply (run_cleanup_hook_unset portal p).
  - intros s1 p1 Hhook Hp1.
    erewrite (PortalDrop_after_hook portal isTopCommit p s);
      [|done..|by eapply run_cleanup_hook_returns|apply lookup_insert_eq].
    unfold dropped. simpl. by rewrite delete_insert_eq.
  - intros lvl code s1 Hhook.
    apply (PortalDrop_hook_raises portal isTopCommit p); [done..|].
    by eapply run_cleanup_hook_raises.
Qed.

(** Whatever the hook does, a [PortalDrop] that returns has unlinked the
    entry. *)
Lemma PortalDrop_Ok_unlinked portal isTopCommit s s' :
  PortalDrop portal isTopCommit s = Ok tt s' ->
  PortalHashTable s' !! portal = None.
Proof.
  unfold PortalDrop.
  destruct (PortalHashTable s !! portal) as [p|] eqn:Hp;
    [|by unfold deref, bind; rewrite Hp].
  rewrite (bind_of_Ok _ _ _ _ _ (deref_Ok _ _ _ Hp)).
  destruct (portalPinned p || bool_decide (status p = PORTAL_ACTIVE));
    [done|].
  destruct (run_cleanup_hook portal s) as [[] s1|lvl code s1|] eqn:Hhook;
    [|by rewrite (bind_of_Raise _ _ _ _ _ _ Hhook)
     |by unfold bind; rewrite Hhook].
  rewrite (bind_of_Ok _ _ _ _ _ Hhook).
  destruct (PortalHashTable s1 !! portal) as [p1|] eqn:Hp1;
    [|by unfold deref, bind; rewrite Hp1].
  rewrite (bind_of_Ok _ _ _ _ _ (deref_Ok _ _ _ Hp1)).
  rewrite (bind_of_Ok _ _ _ _ _ (PortalHashTableDelete_Ok _ _ _ Hp1)).
  rewrite PortalDrop_release_emits. intros [= <-]. simpl.
  apply lookup_delete_eq.
Qed.

(** C6: what [PortalDrop] asks of the portal's resource owner, for a portal
    that is neither pinned nor ACTIVE and whatever the cleanup hook does.
    With no hook in place, or once the hook has returned (leaving the
    portal in the table): if the portal has a resource owner and this is
    not a top-level commit or the portal is FAILED, release in the phases
    BEFORE_LOCKS, LOCKS, AFTER_LOCKS, each with
    [isCommit = (status != PORTAL_FAILED)], and then delete; in every other
    case nothing.  Status and resource owner are read after the hook has
    run, in the struct as the hook left it.  If the hook leaves by
    [ereport], so does [PortalDrop], in the state the hook left: nothing is
    asked of the resource owner. *)
Theorem PortalDrop_releases_resowner portal isTopCommit p s :
  let release := fun q : PortalData =>
    match resowner q with
    | Some owner =>
        if negb isTopCommit || bool_decide (status q = PORTAL_FAILED) then
          let isCommit := negb (bool_decide (status q = PORTAL_FAILED)) in
          [Ev_ResourceOwnerRelease owner RESOURCE_RELEASE_BEFORE_LOCKS
             isCommit false;
           Ev_ResourceOwnerRelease owner RESOURCE_RELEASE_LOCKS
             isCommit false;
           Ev_ResourceOwnerRelease owner RESOURCE_RELEASE_AFTER_LOCKS
             isCommit false;
           Ev_ResourceOwnerDelete owner]
        else []
    | None => []
    end in
  PortalHashTable s !! portal = Some p ->
  portalPinned p = false -> status p <> PORTAL_ACTIVE ->
  (cleanup p = None ->
   exists new,
     PortalDrop portal isTopCommit s = Ok tt (dropped portal new s) /\
     filter (fun e => is_resowner_event e = true) new = release p) /\
  (forall hook, cleanup p = Some hook ->
     let called := set_trace (trace s ++ [Ev_cleanup hook portal]) s in
     (forall s1 p1,
        cleanup_body hook portal called = Ok tt s1 ->
        PortalHashTable s1 !! portal = Some p1 ->
        exists new,
          PortalDrop portal isTopCommit s = Ok tt (dropped portal new s1) /\
          filter (fun e => is_resowner_event e = true) new = release p1) /\
     (forall lvl code s1,
        cleanup_body hook portal called = Raise lvl code s1 ->
        PortalDrop portal isTopCommit s = Raise lvl code s1)).
Proof.
  intros release Hp Hpin Hact.
  destruct (PortalDrop_cases portal isTopCommit p s Hp Hpin Hact)
    as [Hnone Hhook].
  split; [|intros hook Hc called; split].
  - intros Hc. eexists. split; [by apply Hnone|].
    apply filter_resowner_tail.
  - intros s1 p1 Hbody Hp1. eexists.
    split; [by apply (proj1 (Hhook hook Hc))|].
    apply (filter_resowner_tail portal (set_cleanup None p1)).
  - apply (proj2 (Hhook hook Hc)).
Qed.

(** From here on every cleanup hook is taken to be benign. *)
Section Benign.

Hypothesis cleanup_benign : forall hook portal, benign portal (cleanup_body hook portal).

Lemma run_cleanup_hook_Ok portal p s :
  PortalHashTable s !! portal = Some p ->
  exists q,
    run_cleanup_hook portal s
    = Ok tt
        (match cleanup p with
         | Some hook =>
             set_PortalHashTable
               (<[portal := set_cleanup None (set_queryDesc q p)]>
                  (PortalHashTable s))
               (set_trace (trace s ++ [Ev_cleanup hook portal]) s)
         | None => s
         end).
Proof using cleanup_benign.
  intros Hp. unfold run_cleanup_hook.
  rewrite (bind_of_Ok _ _ _ _ _ (deref_Ok _ _ _ Hp)).
  destruct (cleanup p) as [hook|]; [|by exists None].
  erewrite (bind_of_Ok (emit _)); [|reflexivity].
  destruct (cleanup_benign hook portal
              (set_trace (trace s ++ [Ev_cleanup hook portal]) s)) as [q Hq].
  exists q. rewrite (bind_of_Ok _ _ _ _ _ Hq).
  erewrite store_Ok; cycle 1.
  { simpl. rewrite lookup_alter_eq, Hp. reflexivity. }
  simpl. unfold set_PortalHashTable. simpl. do 2 f_equal.
  apply map_eq. intros k. destruct (decide (k = portal)) as [->|Hne].
  - by rewrite !lookup_insert_eq.
  - by rewrite !lookup_insert_ne, lookup_alter_ne.
Qed.

Lemma PortalDrop_Ok portal isTopCommit p s :
  PortalHashTable s !! portal = Some p ->
  portalPinned p = false -> status p <> PORTAL_ACTIVE ->
  exists q,
    PortalDrop portal isTopCommit s
    = Ok tt (dropped portal
               (cleanup_event portal p
                ++ PortalDrop_tail_events portal
                     (set_cleanup None (set_queryDesc q p)) isTopCommit)
               s).
Proof using cleanup_benign.
  intros Hp Hpin Hact. unfold PortalDrop.
  rewrite (bind_of_Ok _ _ _ _ _ (deref_Ok _ _ _ Hp)), Hpin.
  rewrite bool_decide_eq_false_2 by done. simpl.
  destruct (run_cleanup_hook_Ok portal p s Hp) as [q Hq].
  rewrite (bind_of_Ok _ _ _ _ _ Hq).
  exists (match cleanup p with Some _ => q | None => queryDesc p end).
  unfold cleanup_event, dropped.
  destruct (cleanup p) as [hook|] eqn:Hcleanup.
  - erewrite (bind_of_Ok (deref _)); cycle 1.
    { apply deref_Ok. simpl. apply lookup_insert_eq. }
    erewrite (bind_of_Ok (PortalHashTableDelete _)); cycle 1.
    { eapply PortalHashTableDelete_Ok. simpl. apply lookup_insert_eq. }
    rewrite PortalDrop_release_emits. simpl. rewrite delete_insert_eq.
    unfold set_PortalHashTable, set_trace. simpl. by rewrite <- app_assoc.
  - assert (set_cleanup None (set_queryDesc (queryDesc p) p) = p) as ->.
    { destruct p. simpl in *. by subst. }
    rewrite (bind_of_Ok _ _ _ _ _ (deref_Ok _ _ _ Hp)).
    rewrite (bind_of_Ok _ _ _ _ _ (PortalHashTableDelete_Ok _ _ _ Hp)).
    by rewrite PortalDrop_release_emits.
Qed.

(** ** Cleanup hooks run at most once *)

Definition keeps_once {A} (m : R A) : Prop :=
  forall s s', cleanup_once s -> final_state (m s) = Some s' -> cleanup_once s'.

Lemma once_bind {A B} (m : R A) (k : A -> R B) :
  keeps_once m -> (forall a, keeps_once (k a)) -> keeps_once (bind m k).
Proof.
  intros Hm Hk s s' Hs
    [(a & s1 & Hms & Hks)|(lvl & code & Hms)]%bind_final_state.
  - eapply Hk; [|done]. eapply Hm; [done|]. by rewrite Hms.
  - eapply Hm; [done|]. by rewrite Hms.
Qed.

Lemma once_ret {A} (a : A) : keeps_once (ret a).
Proof. by intros s s' Hs [= <-]. Qed.

Lemma once_get : keeps_once get.
Proof. by intros s s' Hs [= <-]. Qed.

Lemma once_ereport {A} lvl code : keeps_once (@ereport _ A lvl code).
Proof. by intros s s' Hs [= <-]. Qed.

Lemma once_deref portal : keeps_once (deref portal).
Proof. intros s s' Hs. unfold deref. by destruct (_ !! _); intros [= <-]. Qed.

Lemma once_allocate : keeps_once allocate.
Proof. by intros s s' Hs [= <-]. Qed.

Lemma cleanup_calls_snoc portal t e :
  cleanup_calls portal (t ++ [e])
  = (cleanup_calls portal t + if is_cleanup_of portal e then 1 else 0)%nat.
Proof.
  unfold cleanup_calls. rewrite filter_app, length_app. f_equal.
  rewrite filter_cons, filter_nil. destruct (is_cleanup_of portal e); by case_decide.
Qed.

Lemma once_emit e :
  (forall portal, is_cleanup_of portal e = false) -> keeps_once (emit e).
Proof.
  intros He s s' Hs [= <-] portal. simpl.
  rewrite cleanup_calls_snoc, He, Nat.add_0_r. apply Hs.
Qed.

Lemma once_store portal f :
  (forall p, cleanup (f p) = cleanup p \/ cleanup (f p) = None) ->
  keeps_once (store portal f).
Proof.
  intros Hf s s' Hs. unfold store.
  destruct (PortalHashTable s !! portal) as [p|] eqn:Hp; [|done].
  intros [= <-] n. simpl. split; [apply Hs|].
  intros p' [(<- & <-)|[_ Hp']]%lookup_insert_Some Hsome.
  - destruct (Hf p) as [Heq|Heq]; rewrite Heq in Hsome.
    + by eapply Hs.
    + by destruct Hsome.
  - by eapply Hs.
Qed.

Lemma once_PortalHashTableDelete portal :
  keeps_once (PortalHashTableDelete portal).
Proof.
  unfold PortalHashTableDelete. apply once_bind; [apply once_get|].
  intros s0. destruct (_ !! _) as [x|]; [clear x|by apply once_emit].
  intros s s' Hs [= <-] n. simpl. split; [apply Hs|].
  intros p [_ Hp]%lookup_delete_Some. by eapply Hs.
Qed.

Lemma once_benign portal m : benign portal m -> keeps_once m.
Proof.
  intros Hm s s' Hs. destruct (Hm s) as [q ->]. intros [= <-] n. simpl.
  split; [apply Hs|].
  intros p [(<- & p0 & Hp0 & ->)|[_ Hp]]%lookup_alter_Some Hsome.
  - by eapply Hs.
  - by eapply Hs.
Qed.

Lemma once_run_cleanup_hook portal : keeps_once (run_cleanup_hook portal).
Proof using cleanup_benign.
  intros s s' Hs. unfold run_cleanup_hook.
  destruct (PortalHashTable s !! portal) as [p|] eqn:Hp;
    [|unfold bind, deref; by rewrite Hp].
  rewrite (bind_of_Ok _ _ _ _ _ (deref_Ok _ _ _ Hp)).
  destruct (cleanup p) as [hook|] eqn:Hhook; [|by intros [= <-]].
  erewrite (bind_of_Ok (emit _)); [|reflexivity].
  destruct (cleanup_benign hook portal
              (set_trace (trace s ++ [Ev_cleanup hook portal]) s)) as [q Hq].
  rewrite (bind_of_Ok _ _ _ _ _ Hq).
  erewrite store_Ok; cycle 1.
  { simpl. rewrite lookup_alter_eq, Hp. reflexivity. }
  intros [= <-] n. simpl. rewrite cleanup_calls_snoc. simpl.
  destruct (Hs n) as [Hle Hzero]. case_bool_decide as Hn.
  - subst n. rewrite (Hzero p Hp) by (by rewrite Hhook). split; [lia|].
    intros p'. rewrite lookup_insert_eq. intros [= <-]. simpl.
    by intros [? ?].
  - rewrite Nat.add_0_r. split; [done|].
    intros p'. rewrite lookup_insert_ne, lookup_alter_ne by done. apply Hzero.
Qed.

(** Composite computations are taken apart by their syntax. *)
Ltac once_step :=
  first
    [ apply once_ret | apply once_get | apply once_ereport
    | apply once_deref | apply once_allocate
    | apply once_run_cleanup_hook | apply once_PortalHashTableDelete
    | apply once_emit; intros; reflexivity
    | apply once_store; intros; auto
    | apply once_bind; [|intros ?]
    | match goal with
      | |- keeps_once (if ?b then _ else _) => destruct b
      | |- keeps_once (match ?x with _ => _ end) => destruct x
      end ].

Lemma once_PortalReleaseCachedPlan portal :
  keeps_once (PortalReleaseCachedPlan portal).
Proof.
  unfold PortalReleaseCachedPlan. repeat once_step.
Qed.

Lemma once_MarkPortalFailed portal : keeps_once (MarkPortalFailed portal).
Proof using cleanup_benign. unfold MarkPortalFailed. repeat once_step. Qed.

Lemma once_MarkPortalDone portal : keeps_once (MarkPortalDone portal).
Proof using cleanup_benign. unfold MarkPortalDone. repeat once_step. Qed.

Lemma once_emits m evs :
  emits m evs -> (forall portal, cleanup_calls portal evs = 0%nat) ->
  keeps_once m.
Proof.
  intros Hm Hevs s s' Hs. rewrite Hm. intros [= <-] n. simpl.
  unfold cleanup_calls in *. rewrite filter_app, length_app, Hevs, Nat.add_0_r.
  apply Hs.
Qed.

Lemma once_PortalDrop_release portal p isTopCommit :
  keeps_once (PortalDrop_release portal p isTopCommit).
Proof.
  eapply once_emits; [apply PortalDrop_release_emits|].
  intros n. unfold cleanup_calls, PortalDrop_tail_events, expected_release.
  rewrite !filter_app, !length_app.
  destruct (IsResQueueLockedForPortal p), (cplan p), (holdStore p),
    (holdContext p); simpl;
    destruct (resowner p);
    try destruct (negb isTopCommit || bool_decide (status p = PORTAL_FAILED));
    reflexivity.
Qed.

Lemma once_PortalDrop portal isTopCommit :
  keeps_once (PortalDrop portal isTopCommit).
Proof using cleanup_benign.
  unfold PortalDrop. repeat first [apply once_PortalDrop_release | once_step].
Qed.

Lemma once_cleanup_and_drop portal : keeps_once (cleanup_and_drop portal).
Proof using cleanup_benign.
  unfold cleanup_and_drop. repeat first [apply once_PortalDrop | once_step].
Qed.

Lemma once_hash_seq_init : keeps_once hash_seq_init.
Proof. unfold hash_seq_init. repeat once_step. Qed.

Lemma once_hash_seq_for_each body scan :
  (forall portal, keeps_once (body portal)) ->
  keeps_once (hash_seq_for_each body scan).
Proof.
  intros Hbody. induction scan as [|n scan IH]; simpl; [apply once_ret|].
  repeat first [apply Hbody | apply IH | once_step].
Qed.

(** From here on [PersistHoldablePortal] is taken to be benign too. *)
Section Persist.

Hypothesis persist_benign :
  forall portal, benign portal (PersistHoldablePortal_body portal).

Lemma once_PreCommit_Portals_visit isPrepare portal :
  keeps_once (PreCommit_Portals_visit isPrepare portal).
Proof using cleanup_benign persist_benign.
  unfold PreCommit_Portals_visit, PortalCreateHoldStore.
  repeat first [ apply once_PortalDrop | apply once_PortalReleaseCachedPlan
               | eapply once_benign; apply persist_benign | once_step ].
Qed.

Lemma once_PreCommit_Portals_scan isPrepare scan :
  keeps_once (PreCommit_Portals_scan isPrepare scan).
Proof using cleanup_benign persist_benign.
  induction scan as [|n scan IH]; simpl; [apply once_ret|].
  repeat first [apply once_PreCommit_Portals_visit | apply IH | once_step].
Qed.

Lemma once_PreCommit_Portals_loop fuel isPrepare result :
  keeps_once (PreCommit_Portals_loop fuel isPrepare result).
Proof using cleanup_benign persist_benign.
  revert result. induction fuel as [|fuel IH]; intros result; simpl;
    repeat first [ apply once_hash_seq_init | apply once_PreCommit_Portals_scan
                 | apply IH | once_step ].
Qed.

Lemma once_run_registry_op op s s' :
  cleanup_once s -> run_registry_op op s = Some s' -> cleanup_once s'.
Proof using cleanup_benign persist_benign.
  destruct op; simpl; intros Hs.
  - by apply once_MarkPortalDone.
  - by apply once_MarkPortalFailed.
  - by apply once_PortalDrop.
  - by apply once_PreCommit_Portals_loop.
  - revert s s' Hs. change (keeps_once AtAbort_Portals).
    unfold AtAbort_Portals. apply once_bind; [apply once_hash_seq_init|].
    intros scan. apply once_hash_seq_for_each. intros n.
    unfold AtAbort_Portals_visit.
    repeat first [ apply once_MarkPortalFailed
                 | apply once_PortalReleaseCachedPlan | once_step ].
  - revert s s' Hs. change (keeps_once AtCleanup_Portals).
    unfold AtCleanup_Portals. apply once_bind; [apply once_hash_seq_init|].
    intros scan. apply once_hash_seq_for_each. intros n.
    unfold AtCleanup_Portals_visit.
    repeat first [ apply once_cleanup_and_drop | once_step ].
  - revert s s' Hs.
    change (keeps_once
              (AtSubCommit_Portals mySubid parentSubid parentXactOwner)).
    unfold AtSubCommit_Portals. apply once_bind; [apply once_hash_seq_init|].
    intros scan. apply once_hash_seq_for_each. intros n.
    unfold AtSubCommit_Portals_visit. repeat once_step.
  - revert s s' Hs.
    change (keeps_once
              (AtSubAbort_Portals mySubid parentSubid myXactOwner
                 parentXactOwner)).
    unfold AtSubAbort_Portals. apply once_bind; [apply once_hash_seq_init|].
    intros scan. apply once_hash_seq_for_each. intros n.
    unfold AtSubAbort_Portals_visit.
    repeat first [ apply once_MarkPortalFailed
                 | apply once_PortalReleaseCachedPlan | once_step ].
  - revert s s' Hs. change (keeps_once (AtSubCleanup_Portals mySubid)).
    unfold AtSubCleanup_Portals. apply once_bind; [apply once_hash_seq_init|].
    intros scan. apply once_hash_seq_for_each. intros n.
    unfold AtSubCleanup_Portals_visit.
    repeat first [ apply once_cleanup_and_drop | once_step ].
Qed.


(** ** Pre-commit of a holdable portal *)

(** A portal that a scan of [PreCommit_Portals] freezes or drops when it
    comes to it; their number bounds the number of restarts. *)
Definition changeable (p : PortalData) : bool :=
  negb (bool_decide (status p = PORTAL_ACTIVE))
  && negb (createSubid p =? InvalidSubTransactionId)%nat.

Definition restarts_left (t : gmap string PortalData) : nat :=
  size (filter (fun kv : string * PortalData => changeable kv.2 = true) t).

Definition no_portal_pinned (t : gmap string PortalData) : Prop :=
  forall n p, t !! n = Some p -> portalPinned p = false.

Lemma restarts_left_le_size t : (restarts_left t <= size t)%nat.
Proof. unfold restarts_left. apply map_subseteq_size, map_filter_subseteq. Qed.

Lemma restarts_left_insert_same n p p' t :
  t !! n = Some p -> changeable p' = changeable p ->
  restarts_left (<[n := p']> t) = restarts_left t.
Proof.
  intros Hp Hc. unfold restarts_left.
  destruct (changeable p) eqn:Hcp.
  - rewrite map_filter_insert_True by done.
    apply map_size_insert_Some. exists p. by apply map_lookup_filter_Some.
  - rewrite map_filter_insert_not'; [done|simpl; congruence|].
    intros y Hy. simpl. congruence.
Qed.

Lemma restarts_left_delete_lt n p t :
  t !! n = Some p -> changeable p = true ->
  (restarts_left (delete n t) < restarts_left t)%nat.
Proof.
  intros Hp Hc. unfold restarts_left. rewrite map_filter_delete.
  assert (Hin : filter (fun kv : string * PortalData => changeable kv.2 = true)
                  t !! n = Some p) by (by apply map_lookup_filter_Some).
  rewrite map_size_delete_Some by eauto.
  assert (size (filter (fun kv : string * PortalData => changeable kv.2 = true) t)
          <> 0%nat) by (eapply map_size_ne_0_lookup_2; eauto).
  lia.
Qed.

Lemma restarts_left_insert_lt n p p' t :
  t !! n = Some p -> changeable p = true -> changeable p' = false ->
  (restarts_left (<[n := p']> t) < restarts_left t)%nat.
Proof.
  intros Hp Hc Hc'. unfold restarts_left at 1.
  rewrite map_filter_insert_False by (simpl; congruence).
  by eapply restarts_left_delete_lt.
Qed.

Lemma no_portal_pinned_insert n p t :
  no_portal_pinned t -> portalPinned p = false ->
  no_portal_pinned (<[n := p]> t).
Proof.
  intros Ht Hp m q [(<- & <-)|[_ Hq]]%lookup_insert_Some; [done|by eapply Ht].
Qed.

Lemma no_portal_pinned_delete n t :
  no_portal_pinned t -> no_portal_pinned (delete n t).
Proof. intros Ht m q [_ Hq]%lookup_delete_Some. by eapply Ht. Qed.

Lemma PortalCreateHoldStore_Ok portal p s :
  PortalHashTable s !! portal = Some p ->
  PortalCreateHoldStore portal s
  = Ok tt
      {| PortalHashTable :=
           <[portal := set_holdStore (Some (S (next_address s)))
                         (set_holdContext (Some (next_address s)) p)]>
             (PortalHashTable s);
         trace :=
           trace s
           ++ [Ev_AllocSetContextCreate (next_address s);
               Ev_tuplestore_begin_heap (S (next_address s))
                 (negb (Z.land (cursorOptions p) CURSOR_OPT_SCROLL =? 0)) true];
         next_address := S (S (next_address s));
         CurrentSubTransactionId := CurrentSubTransactionId s |}.
Proof.
  intros Hp. unfold PortalCreateHoldStore.
  erewrite (bind_of_Ok allocate); [|reflexivity].
  erewrite (bind_of_Ok (emit _)); [|reflexivity].
  erewrite (bind_of_Ok (store _ _)); [|by apply store_Ok].
  erewrite (bind_of_Ok (deref _)); [|apply deref_Ok; simpl; apply lookup_insert_eq].
  erewrite (bind_of_Ok allocate); [|reflexivity].
  erewrite (bind_of_Ok (emit _)); [|reflexivity].
  erewrite store_Ok; [|simpl; apply lookup_insert_eq].
  simpl. unfold set_PortalHashTable. simpl.
  by rewrite insert_insert_eq, <- app_assoc.
Qed.

Lemma PortalReleaseCachedPlan_Ok portal p s :
  PortalHashTable s !! portal = Some p ->
  PortalReleaseCachedPlan portal s
  = Ok tt
      match cplan p with
      | Some plan =>
          set_PortalHashTable
            (<[portal := set_stmts [] (set_cplan None p)]> (PortalHashTable s))
            (set_trace (trace s ++ [Ev_ReleaseCachedPlan plan false]) s)
      | None => s
      end.
Proof.
  intros Hp. unfold PortalReleaseCachedPlan.
  rewrite (bind_of_Ok _ _ _ _ _ (deref_Ok _ _ _ Hp)).
  destruct (cplan p) as [plan|]; [|done].
  erewrite (bind_of_Ok (emit _)); [|reflexivity].
  erewrite (bind_of_Ok (store _ _)); [|by apply store_Ok].
  erewrite store_Ok; [|simpl; apply lookup_insert_eq].
  simpl. unfold set_PortalHashTable. simpl. by rewrite insert_insert_eq.
Qed.

(** What the commit of a holdable portal [p] leaves in its struct [p'], and
    the calls made for it. *)
Definition materialized (p p' : PortalData) (context tuplestore : nat)
  : Prop :=
  holdContext p' = Some context /\ holdStore p' = Some tuplestore /\
  cplan p' = None /\
  stmts p' = match cplan p with Some _ => [] | None => stmts p end /\
  resowner p' = None /\
  createSubid p' = InvalidSubTransactionId /\
  activeSubid p' = InvalidSubTransactionId /\
  status p' = status p /\ portalPinned p' = portalPinned p /\
  cursorOptions p' = cursorOptions p /\ cleanup p' = cleanup p.

Definition materialize_calls (portal : string) (p : PortalData)
    (context tuplestore : nat) : list event :=
  [Ev_AllocSetContextCreate context;
   Ev_tuplestore_begin_heap tuplestore
     (negb (Z.land (cursorOptions p) CURSOR_OPT_SCROLL =? 0)) true;
   Ev_PersistHoldablePortal portal]
  ++ match cplan p with
     | Some plan => [Ev_ReleaseCachedPlan plan false]
     | None => []
     end.

Lemma holdable_in_current_xact_spec p :
  holdable_in_current_xact p = true ->
  status p = PORTAL_READY /\ createSubid p <> InvalidSubTransactionId.
Proof.
  unfold holdable_in_current_xact.
  intros [[_ Hc%negb_true_iff]%andb_true_iff Hs%bool_decide_eq_true]%andb_true_iff.
  split; [done|]. by apply Nat.eqb_neq.
Qed.

Lemma PreCommit_Portals_visit_holdable portal p s :
  PortalHashTable s !! portal = Some p -> portalPinned p = false ->
  holdable_in_current_xact p = true ->
  exists p',
    PreCommit_Portals_visit false portal s
    = Ok true
        {| PortalHashTable := <[portal := p']> (PortalHashTable s);
           trace := trace s ++ materialize_calls portal p (next_address s)
                                 (S (next_address s));
           next_address := S (S (next_address s));
           CurrentSubTransactionId := CurrentSubTransactionId s |} /\
    materialized p p' (next_address s) (S (next_address s)).
Proof using persist_benign.
  intros Hp Hpin Hhold.
  destruct (holdable_in_current_xact_spec p Hhold) as [Hready Hsub].
  unfold PreCommit_Portals_visit.
  rewrite (bind_of_Ok _ _ _ _ _ (deref_Ok _ _ _ Hp)), Hpin, Hhold.
  rewrite bool_decide_eq_false_2 by (rewrite Hready; discriminate).
  rewrite (bind_of_Ok _ _ _ _ _ (PortalCreateHoldStore_Ok _ _ _ Hp)).
  erewrite (bind_of_Ok (emit _)); [|reflexivity].
  match goal with |- context [bind (PersistHoldablePortal_body _) _ ?s1] =>
    destruct (persist_benign portal s1) as [q Hq] end.
  rewrite (bind_of_Ok _ _ _ _ _ Hq). clear Hq.
  erewrite (bind_of_Ok (PortalReleaseCachedPlan _)); cycle 1.
  { apply PortalReleaseCachedPlan_Ok. simpl.
    rewrite lookup_alter_eq, lookup_insert_eq. reflexivity. }
  unfold materialize_calls. simpl cplan.
  destruct (cplan p) as [plan|] eqn:Hplan.
  - erewrite (bind_of_Ok (store _ _));
      [|apply store_Ok; simpl; apply lookup_insert_eq].
    erewrite (bind_of_Ok (store _ _));
      [|apply store_Ok; simpl; apply lookup_insert_eq].
    erewrite (bind_of_Ok (store _ _));
      [|apply store_Ok; simpl; apply lookup_insert_eq].
    eexists. split.
    + unfold ret. f_equal. unfold set_PortalHashTable, set_trace. simpl.
      rewrite !insert_insert_eq, <- !app_assoc. simpl.
      f_equal. rewrite insert_alter_eq, insert_insert_eq. reflexivity.
    + unfold materialized. simpl. rewrite Hplan. by repeat split.
  - erewrite (bind_of_Ok (store _ _)); cycle 1.
    { apply store_Ok. simpl. rewrite lookup_alter_eq, lookup_insert_eq.
      reflexivity. }
    erewrite (bind_of_Ok (store _ _));
      [|apply store_Ok; simpl; apply lookup_insert_eq].
    erewrite (bind_of_Ok (store _ _));
      [|apply store_Ok; simpl; apply lookup_insert_eq].
    eexists. split.
    + unfold ret. f_equal. unfold set_PortalHashTable, set_trace. simpl.
      rewrite !insert_insert_eq, <- !app_assoc. simpl.
      f_equal. rewrite insert_alter_eq, insert_insert_eq. reflexivity.
    + unfold materialized. simpl. rewrite Hplan. by repeat split.
Qed.

(** A scan comes to every entry that stays in the table. *)
Hypothesis hash_seq_complete :
  forall t n p, t !! n = Some p -> n ∈ hash_seq_order t.

Section Holdable.

(** A portal [P], found as [p0] when [PreCommit_Portals] starts: a holdable
    portal created in the current transaction. *)
Variable P : string.
Variable p0 : PortalData.
Hypothesis p0_holdable : holdable_in_current_xact p0 = true.

(** [P] is as it was found; [t0] are the calls made before the start. *)
Definition pending (t0 : list event) (s : registry) : Prop :=
  PortalHashTable s !! P = Some p0 /\ exists new, trace s = t0 ++ new.

(** [P] is in the table in its materialized form, and the calls that this
    takes were made after the start. *)
Definition frozen (t0 : list event) (s : registry) : Prop :=
  exists p context tuplestore before after,
    PortalHashTable s !! P = Some p /\
    materialized p0 p context tuplestore /\
    trace s
    = t0 ++ before ++ materialize_calls P p0 context tuplestore ++ after.

Lemma pending_frozen_keep t0 s s' :
  PortalHashTable s' !! P = PortalHashTable s !! P ->
  (exists new, trace s' = trace s ++ new) ->
  (pending t0 s -> pending t0 s') /\ (frozen t0 s -> frozen t0 s').
Proof.
  intros Htab [new Hnew]. split.
  - intros [Hp [old Hold]]. split; [congruence|].
    exists (old ++ new). by rewrite Hnew, Hold, <- app_assoc.
  - intros (p & c & ts & before & after & Hp & Hm & Htr).
    exists p, c, ts, before, (after ++ new). split_and!; [congruence|done|].
    rewrite Hnew, Htr. by rewrite <- !app_assoc.
Qed.

Lemma pending_at t0 s p :
  pending t0 s -> PortalHashTable s !! P = Some p -> p = p0.
Proof. intros [Hp _] Hp'. congruence. Qed.

Lemma frozen_at t0 s p :
  frozen t0 s -> PortalHashTable s !! P = Some p ->
  createSubid p = InvalidSubTransactionId /\ status p = PORTAL_READY.
Proof using p0_holdable.
  intros (p' & c & ts & before & after & Hp & Hm & _) Hp'.
  assert (p' = p) as -> by congruence.
  destruct Hm as (_ & _ & _ & _ & _ & Hc & _ & Hs & _).
  split; [done|]. rewrite Hs.
  by destruct (holdable_in_current_xact_spec p0 p0_holdable).
Qed.

(** What one visit of the loop does, as far as [P] and the number of
    restarts are concerned. *)
Definition visit_post (isPrepare : bool) (t0 : list event) (n : string)
    (b : bool) (s s' : registry) : Prop :=
  no_portal_pinned (PortalHashTable s') /\
  (restarts_left (PortalHashTable s') + (if b then 1 else 0)
   <= restarts_left (PortalHashTable s))%nat /\
  (pending t0 s' \/ frozen t0 s') /\
  (frozen t0 s -> frozen t0 s') /\
  (isPrepare = true \/ b = false -> pending t0 s -> pending t0 s') /\
  (pending t0 s -> n = P -> b = true).

Lemma PreCommit_Portals_visit_spec isPrepare t0 n p s :
  no_portal_pinned (PortalHashTable s) ->
  PortalHashTable s !! n = Some p ->
  pending t0 s \/ frozen t0 s ->
  (isPrepare = true /\
   PreCommit_Portals_visit isPrepare n s
   = Raise ERROR ERRCODE_FEATURE_NOT_SUPPORTED s) \/
  (exists b s',
     PreCommit_Portals_visit isPrepare n s = Ok b s' /\
     visit_post isPrepare t0 n b s s').
Proof using cleanup_benign persist_benign p0_holdable.
  intros Hpin Hp HP.
  assert (Hnp : portalPinned p = false) by (by eapply Hpin).
  assert (Hpend : pending t0 s -> n = P -> p = p0).
  { intros H ->. by eapply pending_at. }
  assert (Hfroz : frozen t0 s -> n = P ->
            createSubid p = InvalidSubTransactionId /\ status p = PORTAL_READY).
  { intros H ->. by eapply frozen_at. }
  destruct (holdable_in_current_xact_spec p0 p0_holdable) as [Hready0 Hsub0].
  destruct (decide (status p = PORTAL_ACTIVE)) as [Hact|Hact].
  { (* an active portal: only its resowner is forgotten *)
    right. exists false. eexists. split.
    { unfold PreCommit_Portals_visit.
      rewrite (bind_of_Ok _ _ _ _ _ (deref_Ok _ _ _ Hp)), Hnp.
      rewrite bool_decide_eq_true_2 by done.
      erewrite (bind_of_Ok (store _ _)); [|by apply store_Ok]. reflexivity. }
    assert (Hne : n <> P).
    { intros Heq. destruct HP as [H|H].
      - rewrite (Hpend H Heq) in Hact. congruence.
      - destruct (Hfroz H Heq). congruence. }
    destruct (pending_frozen_keep t0 s
                (set_PortalHashTable
                   (<[n:=set_resowner None p]> (PortalHashTable s)) s))
      as [Hkp Hkf].
    { simpl. by rewrite lookup_insert_ne. }
    { exists []. simpl. by rewrite app_nil_r. }
    unfold visit_post. simpl. split_and!; [| | |done|auto|done].
    - by apply no_portal_pinned_insert.
    - by erewrite restarts_left_insert_same, Nat.add_0_r.
    - destruct HP; auto. }
  destruct (holdable_in_current_xact p) eqn:Hhold.
  { destruct isPrepare.
    { left. split; [done|]. unfold PreCommit_Portals_visit.
      rewrite (bind_of_Ok _ _ _ _ _ (deref_Ok _ _ _ Hp)), Hnp, Hhold.
      by rewrite bool_decide_eq_false_2. }
    (* a holdable portal is materialized *)
    destruct (PreCommit_Portals_visit_holdable n p s Hp Hnp Hhold)
      as (p' & Hvisit & Hm).
    right. exists true. eexists. split; [exact Hvisit|].
    destruct (holdable_in_current_xact_spec p Hhold) as [Hready Hsub].
    assert (Hfne : frozen t0 s -> n <> P).
    { intros H Heq. destruct (Hfroz H Heq). congruence. }
    unfold visit_post. simpl. split_and!; [| | | |by intros [?|?]|done].
    - apply no_portal_pinned_insert; [done|].
      destruct Hm as (_ & _ & _ & _ & _ & _ & _ & _ & -> & _). done.
    - rewrite Nat.add_1_r. apply Nat.le_succ_l.
      eapply restarts_left_insert_lt; [done| |].
      + unfold changeable. rewrite bool_decide_eq_false_2 by done.
        simpl. by apply negb_true_iff, Nat.eqb_neq.
      + unfold changeable.
        destruct Hm as (_ & _ & _ & _ & _ & -> & _).
        by rewrite Nat.eqb_refl, andb_false_r.
    - destruct (decide (n = P)) as [Heq|Hne].
      + destruct HP as [H|H]; [|by destruct (Hfne H)].
        right. rewrite (Hpend H Heq) in *. subst n.
        destruct H as [_ [old Hold]].
        exists p', (next_address s), (S (next_address s)), old, [].
        simpl. rewrite lookup_insert_eq. split_and!; [done|done|].
        by rewrite Hold, app_nil_r, <- app_assoc.
      + match goal with |- pending _ ?s1 \/ _ =>
          destruct (pending_frozen_keep t0 s s1) as [Hkp Hkf] end.
        { simpl. by rewrite lookup_insert_ne. }
        { simpl. eauto. }
        destruct HP; auto.
    - intros H.
      match goal with |- frozen _ ?s1 =>
        destruct (pending_frozen_keep t0 s s1) as [Hkp Hkf] end.
      { simpl. rewrite lookup_insert_ne; [done|]. by apply Hfne. }
      { simpl. eauto. }
      auto. }
  destruct (createSubid p =? InvalidSubTransactionId)%nat eqn:Hsub.
  { (* held over from an earlier transaction: left alone *)
    right. exists false, s. split.
    { unfold PreCommit_Portals_visit.
      rewrite (bind_of_Ok _ _ _ _ _ (deref_Ok _ _ _ Hp)), Hnp, Hhold, Hsub.
      by rewrite bool_decide_eq_false_2. }
    unfold visit_post. split_and!; [done|lia|done|done|done|].
    intros H Heq. rewrite (Hpend H Heq) in Hhold. congruence. }
  (* any other portal is dropped *)
  destruct (PortalDrop_Ok n true p s Hp Hnp Hact) as [q Hdrop].
  right. exists true. eexists. split.
  { unfold PreCommit_Portals_visit.
    rewrite (bind_of_Ok _ _ _ _ _ (deref_Ok _ _ _ Hp)), Hnp, Hhold, Hsub.
    rewrite bool_decide_eq_false_2 by done.
    rewrite (bind_of_Ok _ _ _ _ _ Hdrop). reflexivity. }
  assert (Hne : n <> P).
  { intros Heq. destruct HP as [H|H].
    - rewrite (Hpend H Heq) in Hhold. congruence.
    - destruct (Hfroz H Heq) as [Hc _]. rewrite Hc, Nat.eqb_refl in Hsub.
      discriminate. }
  match goal with |- visit_post _ _ _ _ _ ?s1 =>
    destruct (pending_frozen_keep t0 s s1) as [Hkp Hkf] end.
  { simpl. by rewrite lookup_delete_ne. }
  { simpl. eauto. }
  unfold visit_post. simpl. split_and!; [| | |done|auto|done].
  - by apply no_portal_pinned_delete.
  - rewrite Nat.add_1_r. apply Nat.le_succ_l.
    eapply restarts_left_delete_lt; [done|].
    unfold changeable. rewrite bool_decide_eq_false_2 by done.
    simpl. by rewrite Hsub.
  - destruct HP; auto.
Qed.

Lemma PreCommit_Portals_scan_spec isPrepare t0 scan s :
  no_portal_pinned (PortalHashTable s) ->
  pending t0 s \/ frozen t0 s ->
  (isPrepare = true /\
   exists s', PreCommit_Portals_scan isPrepare scan s
              = Raise ERROR ERRCODE_FEATURE_NOT_SUPPORTED s') \/
  (exists b s',
     PreCommit_Portals_scan isPrepare scan s = Ok b s' /\
     no_portal_pinned (PortalHashTable s') /\
     (restarts_left (PortalHashTable s') + (if b then 1 else 0)
      <= restarts_left (PortalHashTable s))%nat /\
     (pending t0 s' \/ frozen t0 s') /\
     (frozen t0 s -> frozen t0 s') /\
     (isPrepare = true -> pending t0 s -> pending t0 s') /\
     (pending t0 s -> P ∈ scan -> b = true)).
Proof using cleanup_benign persist_benign p0_holdable.
  revert s. induction scan as [|n scan IH]; intros s Hpin HP.
  { right. exists false, s. simpl. split_and!; try done; [lia|].
    by intros _ ?%elem_of_nil. }
  simpl. rewrite (bind_of_Ok _ _ s s s (eq_refl : get s = Ok s s)).
  destruct (PortalHashTable s !! n) as [p|] eqn:Hp.
  - destruct (PreCommit_Portals_visit_spec isPrepare t0 n p s Hpin Hp HP)
      as [[-> Hraise]|(b & s1 & Hvisit & Hpin1 & Hle1 & HP1 & Hf1 & Hp1 & Hb1)].
    { left. split; [done|]. exists s. by rewrite (bind_of_Raise _ _ _ _ _ _ Hraise). }
    rewrite (bind_of_Ok _ _ _ _ _ Hvisit). destruct b.
    { right. exists true, s1. split_and!; auto. }
    destruct (IH s1 Hpin1 HP1)
      as [[-> [s2 Hraise]]|(b & s2 & Hscan & Hpin2 & Hle2 & HP2 & Hf2 & Hp2 & Hb2)].
    { left. eauto. }
    right. exists b, s2. split_and!; auto; [lia|].
    intros H [->|Hin]%elem_of_cons; [by discriminate (Hb1 H eq_refl)|].
    auto.
  - destruct (IH s Hpin HP)
      as [[-> [s2 Hraise]]|(b & s2 & Hscan & Hpin2 & Hle2 & HP2 & Hf2 & Hp2 & Hb2)].
    { left. eauto. }
    right. exists b, s2. split_and!; auto.
    intros H [->|Hin]%elem_of_cons; [|auto].
    destruct H as [H _]. congruence.
Qed.

Lemma PreCommit_Portals_loop_eq fuel isPrepare result :
  PreCommit_Portals_loop fuel isPrepare result
  = (let! scan := hash_seq_init in
     let! changed := PreCommit_Portals_scan isPrepare scan in
     if changed then
       match fuel with
       | O => ret None
       | S fuel' => PreCommit_Portals_loop fuel' isPrepare true
       end
     else ret (Some result)).
Proof. by destruct fuel. Qed.

Lemma pending_in_scan t0 s :
  pending t0 s -> P ∈ hash_seq_order (PortalHashTable s).
Proof using hash_seq_complete.
  intros [Hp _]. by eapply hash_seq_complete.
Qed.

(** Commit: the loop ends, with [P] materialized, and reports a change if
    [P] was still to be materialized or one was reported before. *)
Lemma PreCommit_Portals_loop_commit t0 fuel result s :
  (restarts_left (PortalHashTable s) <= fuel)%nat ->
  no_portal_pinned (PortalHashTable s) ->
  pending t0 s \/ frozen t0 s ->
  exists r s',
    PreCommit_Portals_loop fuel false result s = Ok (Some r) s' /\
    frozen t0 s' /\
    (result = true \/ pending t0 s -> r = true).
Proof using cleanup_benign persist_benign p0_holdable hash_seq_complete.
  revert result s. induction fuel as [|fuel IH]; intros result s Hfuel Hpin HP;
    rewrite PreCommit_Portals_loop_eq;
    (erewrite (bind_of_Ok hash_seq_init); [|reflexivity]);
    (destruct (PreCommit_Portals_scan_spec false t0
                 (hash_seq_order (PortalHashTable s)) s Hpin HP)
      as [[? _]|(b & s1 & Hscan & Hpin1 & Hle1 & HP1 & Hf1 & _ & Hb1)];
      [done|]);
    rewrite (bind_of_Ok _ _ _ _ _ Hscan);
    (destruct b;
     [|exists result, s1; split; [done|];
       assert (Hnp : ~ pending t0 s)
         by (intros H; discriminate (Hb1 H (pending_in_scan _ _ H)));
       split; [destruct HP; [done|auto] | intros [?|?]; [done|by destruct Hnp]]]).
  - lia.
  - destruct (IH true s1 ltac:(lia) Hpin1 HP1) as (r & s2 & Hloop & Hf2 & Hr).
    exists r, s2. split_and!; [done|done|]. intros _. by apply Hr; left.
Qed.

(** PREPARE: the loop ends in the error. *)
Lemma PreCommit_Portals_loop_prepare t0 fuel result s :
  (restarts_left (PortalHashTable s) <= fuel)%nat ->
  no_portal_pinned (PortalHashTable s) ->
  pending t0 s ->
  exists s',
    PreCommit_Portals_loop fuel true result s
    = Raise ERROR ERRCODE_FEATURE_NOT_SUPPORTED s'.
Proof using cleanup_benign persist_benign p0_holdable hash_seq_complete.
  revert result s. induction fuel as [|fuel IH]; intros result s Hfuel Hpin HP;
    rewrite PreCommit_Portals_loop_eq;
    (erewrite (bind_of_Ok hash_seq_init); [|reflexivity]);
    (destruct (PreCommit_Portals_scan_spec true t0
                 (hash_seq_order (PortalHashTable s)) s Hpin (or_introl HP))
      as [[_ [s1 Hraise]]|(b & s1 & Hscan & Hpin1 & Hle1 & _ & _ & Hp1 & Hb1)];
      [exists s1; by rewrite (bind_of_Raise _ _ _ _ _ _ Hraise)|]);
    rewrite (bind_of_Ok _ _ _ _ _ Hscan);
    rewrite (Hb1 HP (pending_in_scan _ _ HP)) in *.
  - lia.
  - apply IH; [lia|done|auto].
Qed.

End Holdable.


(** The assumptions on the outside routines stay out of the proofs that do
    not need them. *)
Ltac tidy :=
  try clear cleanup_benign; try clear persist_benign;
  try clear hash_seq_complete; try clear hash_seq_order;
  try clear PersistHoldablePortal_body; try clear cleanup_body;
  try clear IsResQueueLockedForPortal; try clear CURSOR_OPT_SCROLL;
  try clear CURSOR_OPT_HOLD; try clear InvalidSubTransactionId.

(** ** Dropping a portal whose hook is gone *)

Lemma run_cleanup_hook_None portal p s :
  PortalHashTable s !! portal = Some p -> cleanup p = None ->
  run_cleanup_hook portal s = Ok tt s.
Proof using Type.
  intros Hp Hc. unfold run_cleanup_hook.
  rewrite (bind_of_Ok _ _ _ _ _ (deref_Ok _ _ _ Hp)). by rewrite Hc.
Qed.

Lemma PortalDrop_plain portal isTopCommit p s :
  PortalHashTable s !! portal = Some p ->
  portalPinned p = false -> status p <> PORTAL_ACTIVE -> cleanup p = None ->
  PortalDrop portal isTopCommit s
  = Ok tt (dropped portal (PortalDrop_tail_events portal p isTopCommit) s).
Proof using Type.
  intros Hp Hpin Hact Hc. unfold PortalDrop.
  rewrite (bind_of_Ok _ _ _ _ _ (deref_Ok _ _ _ Hp)), Hpin.
  rewrite bool_decide_eq_false_2 by done. simpl.
  rewrite (bind_of_Ok _ _ _ _ _ (run_cleanup_hook_None _ _ _ Hp Hc)).
  rewrite (bind_of_Ok _ _ _ _ _ (deref_Ok _ _ _ Hp)).
  rewrite (bind_of_Ok _ _ _ _ _ (PortalHashTableDelete_Ok _ _ _ Hp)).
  by rewrite PortalDrop_release_emits.
Qed.

(** The calls of [cleanup_and_drop] for the struct [p]. *)
Definition cleanup_and_drop_events (portal : string) (p : PortalData)
  : list event :=
  match cleanup p with
  | Some _ => [Ev_WARNING_skipping_cleanup portal]
  | None => []
  end
  ++ PortalDrop_tail_events portal
       (set_cleanup None (set_portalPinned false p)) false.

Lemma set_portalPinned_id p :
  portalPinned p = false -> set_portalPinned false p = p.
Proof. destruct p. simpl. by intros ->. Qed.

Lemma set_cleanup_id p : cleanup p = None -> set_cleanup None p = p.
Proof. destruct p. simpl. by intros ->. Qed.

Lemma cleanup_and_drop_Ok portal p s :
  PortalHashTable s !! portal = Some p -> status p <> PORTAL_ACTIVE ->
  cleanup_and_drop portal s
  = Ok tt (dropped portal (cleanup_and_drop_events portal p) s).
Proof using Type.
  intros Hp Hact. unfold cleanup_and_drop.
  rewrite (bind_of_Ok _ _ _ _ _ (deref_Ok _ _ _ Hp)).
  (* the forced unpin *)
  assert (Hunpin :
    (when (portalPinned p) then store portal (set_portalPinned false)) s
    = Ok tt (set_PortalHashTable
               (<[portal := set_portalPinned false p]> (PortalHashTable s)) s)).
  { destruct (portalPinned p) eqn:Hpin; [by apply store_Ok|].
    rewrite set_portalPinned_id, insert_id by done. by destruct s. }
  rewrite (bind_of_Ok _ _ _ _ _ Hunpin). clear Hunpin.
  erewrite (bind_of_Ok (deref _));
    [|apply deref_Ok; simpl; apply lookup_insert_eq].
  unfold cleanup_and_drop_events. simpl cleanup.
  destruct (cleanup p) as [hook|] eqn:Hc.
  - erewrite (bind_of_Ok (_ ;; _)); cycle 1.
    { erewrite (bind_of_Ok (emit _)); [|reflexivity].
      apply store_Ok. simpl. apply lookup_insert_eq. }
    erewrite PortalDrop_plain;
      [|simpl; apply lookup_insert_eq|done|done|done].
    unfold dropped, set_PortalHashTable, set_trace. simpl.
    by rewrite insert_insert_eq, delete_insert_eq, <- app_assoc.
  - erewrite (bind_of_Ok (ret _)); [|reflexivity].
    erewrite PortalDrop_plain;
      [|simpl; apply lookup_insert_eq|done|done|done].
    rewrite (set_cleanup_id (set_portalPinned false p)) by done.
    unfold dropped, set_PortalHashTable, set_trace. simpl.
    by rewrite delete_insert_eq.
Qed.

(** ** Scans that visit each portal on its own

    The loops of the transaction-end routines other than
    [PreCommit_Portals] have one shape: every entry is visited, and a visit
    changes the visited entry only.  [pre] is what a visit needs of the
    struct it finds, [Q] links that struct to what the visit leaves in its
    place, [E] holds of every call made and [V] of the calls of one
    visit. *)
Section Scan.

Variable body : string -> R unit.
Variable pre : PortalData -> Prop.
Variable Q : PortalData -> option PortalData -> Prop.
Variable E : event -> Prop.
Variable V : string -> PortalData -> list event -> Prop.

Hypothesis body_visits : forall n p s,
  PortalHashTable s !! n = Some p -> pre p ->
  exists s' new,
    body n s = Ok tt s' /\
    (forall k, k <> n -> PortalHashTable s' !! k = PortalHashTable s !! k) /\
    Q p (PortalHashTable s' !! n) /\
    trace s' = trace s ++ new /\ Forall E new /\ V n p new /\
    next_address s' = next_address s /\
    CurrentSubTransactionId s' = CurrentSubTransactionId s.
Hypothesis Q_pre : forall p p', pre p -> Q p (Some p') -> pre p'.
Hypothesis Q_trans : forall p p' r,
  pre p -> Q p (Some p') -> Q p' r -> Q p r.
Hypothesis V_mono : forall n p before evs after,
  V n p evs -> V n p (before ++ evs ++ after).

Lemma hash_seq_for_each_visits l s :
  map_Forall (fun _ p => pre p) (PortalHashTable s) ->
  exists s' new,
    hash_seq_for_each body l s = Ok tt s' /\
    (forall k, PortalHashTable s !! k = None ->
       PortalHashTable s' !! k = None) /\
    (forall k p, PortalHashTable s !! k = Some p -> k ∉ l ->
       PortalHashTable s' !! k = Some p) /\
    (forall k p, PortalHashTable s !! k = Some p -> k ∈ l ->
       Q p (PortalHashTable s' !! k) /\ V k p new) /\
    trace s' = trace s ++ new /\ Forall E new /\
    next_address s' = next_address s /\
    CurrentSubTransactionId s' = CurrentSubTransactionId s.
Proof using body_visits Q_pre Q_trans V_mono.
  revert s. induction l as [|n l IH]; intros s Hpre.
  { exists s, []. simpl. split_and!; try done.
    - by intros k p _ ?%elem_of_nil.
    - by rewrite app_nil_r. }
  simpl. rewrite (bind_of_Ok _ _ s s s (eq_refl : get s = Ok s s)).
  destruct (PortalHashTable s !! n) as [p|] eqn:Hp.
  - destruct (body_visits n p s Hp (Hpre n p Hp))
      as (s1 & new1 & Hbody & Hframe & HQ & Htr1 & HE1 & HV1 & Ha1 & Hc1).
    rewrite (bind_of_Ok _ _ _ _ _ Hbody).
    assert (Hpre1 : map_Forall (fun _ p => pre p) (PortalHashTable s1)).
    { intros k q Hq. destruct (decide (k = n)) as [->|Hne].
      - rewrite Hq in HQ. eapply Q_pre; [|exact HQ]. by eapply Hpre.
      - rewrite Hframe in Hq by done. by eapply Hpre. }
    destruct (IH s1 Hpre1)
      as (s' & new & Hscan & Hnone & Hout & Hin & Htr & HE & Ha & Hc).
    exists s', (new1 ++ new). split_and!.
    + done.
    + intros k Hk. apply Hnone. destruct (decide (k = n)) as [->|Hne];
        [congruence|by rewrite Hframe].
    + intros k q Hq [Hne Hnin]%not_elem_of_cons.
      apply Hout; [by rewrite Hframe|done].
    + intros k q Hq Hel. destruct (decide (k = n)) as [->|Hne].
      * assert (q = p) as -> by congruence. split;
          [|rewrite <- (app_nil_l (new1 ++ new)); by apply V_mono].
        destruct (PortalHashTable s1 !! n) as [p'|] eqn:Hp1.
        -- destruct (decide (n ∈ l)) as [Hnl|Hnl].
           ++ eapply Q_trans; [by eapply Hpre|exact HQ|].
              by apply (Hin n p' Hp1 Hnl).
           ++ by rewrite (Hout n p' Hp1 Hnl).
        -- by rewrite (Hnone n Hp1).
      * apply elem_of_cons in Hel as [?|Hel]; [done|].
        destruct (Hin k q) as [HQk HVk]; [by rewrite Hframe|done|].
        split; [done|].
        rewrite <- (app_nil_r (new1 ++ new)), <- app_assoc. by apply V_mono.
    + by rewrite Htr, Htr1, app_assoc.
    + by apply Forall_app.
    + congruence.
    + congruence.
  - erewrite (bind_of_Ok (ret _)); [|reflexivity].
    destruct (IH s Hpre)
      as (s' & new & Hscan & Hnone & Hout & Hin & Htr & HE & Ha & Hc).
    exists s', new. split_and!; try done.
    + intros k q Hq [Hne Hnin]%not_elem_of_cons. by apply Hout.
    + intros k q Hq [->|Hel]%elem_of_cons; [congruence|by apply Hin].
Qed.

End Scan.

(** ** Cleanup after an abort *)

Definition is_hook_call (e : event) : bool :=
  match e with
  | Ev_cleanup _ _ => true
  | Ev_PersistHoldablePortal _ => true
  | _ => false
  end.

Lemma PortalDrop_tail_events_no_hook portal p isTopCommit :
  Forall (fun e => is_hook_call e = false)
    (PortalDrop_tail_events portal p isTopCommit).
Proof using Type.
  unfold PortalDrop_tail_events, expected_release.
  destruct (IsResQueueLockedForPortal p), (cplan p), (holdStore p),
    (holdContext p); simpl;
    destruct (resowner p);
    try destruct (negb isTopCommit || bool_decide (status p = PORTAL_FAILED));
    simpl; by repeat constructor.
Qed.

Lemma cleanup_and_drop_events_no_hook portal p :
  Forall (fun e => is_hook_call e = false) (cleanup_and_drop_events portal p).
Proof using Type.
  unfold cleanup_and_drop_events. apply Forall_app. split.
  - destruct (cleanup p); by repeat constructor.
  - apply PortalDrop_tail_events_no_hook.
Qed.

(** What [cleanup_and_drop] owes for the struct [p] it drops. *)
Definition drop_calls (portal : string) (p : PortalData) (evs : list event)
  : Prop :=
  Ev_pfree portal ∈ evs /\
  Ev_MemoryContextDelete (heap p) ∈ evs /\
  (is_Some (cleanup p) -> Ev_WARNING_skipping_cleanup portal ∈ evs).

Lemma cleanup_and_drop_calls portal p :
  drop_calls portal p (cleanup_and_drop_events portal p).
Proof using Type.
  unfold drop_calls, cleanup_and_drop_events, PortalDrop_tail_events.
  tidy. split_and!.
  - rewrite !elem_of_app. do 6 right. set_solver.
  - rewrite !elem_of_app. do 6 right. simpl. set_solver.
  - intros [hook ->]. set_solver.
Qed.

(** The scans of [AtCleanup_Portals] and [AtSubCleanup_Portals]: a visit
    drops the portals that are [doomed] and leaves the others alone. *)
Section CleanupScan.

Variable doomed : PortalData -> bool.
Variable visit : string -> R unit.
Hypothesis visit_Ok : forall n p s,
  PortalHashTable s !! n = Some p ->
  (doomed p = true -> status p <> PORTAL_ACTIVE) ->
  visit n s
  = Ok tt (if doomed p then dropped n (cleanup_and_drop_events n p) s else s).

Lemma cleanup_scan l s :
  map_Forall (fun _ p => doomed p = true -> status p <> PORTAL_ACTIVE)
    (PortalHashTable s) ->
  exists s' new,
    hash_seq_for_each visit l s = Ok tt s' /\
    (forall k, PortalHashTable s !! k = None ->
       PortalHashTable s' !! k = None) /\
    (forall k p, PortalHashTable s !! k = Some p -> k ∉ l ->
       PortalHashTable s' !! k = Some p) /\
    (forall k p, PortalHashTable s !! k = Some p -> k ∈ l ->
       PortalHashTable s' !! k = (if doomed p then None else Some p) /\
       (doomed p = true -> drop_calls k p new)) /\
    trace s' = trace s ++ new /\
    Forall (fun e => is_hook_call e = false) new /\
    next_address s' = next_address s /\
    CurrentSubTransactionId s' = CurrentSubTransactionId s.
Proof using visit_Ok.
  apply (hash_seq_for_each_visits visit
           (fun p => doomed p = true -> status p <> PORTAL_ACTIVE)
           (fun p r => r = if doomed p then None else Some p)
           (fun e => is_hook_call e = false)
           (fun k p evs => doomed p = true -> drop_calls k p evs)).
  - intros n p s0 Hp Hact.
    rewrite (visit_Ok n p s0 Hp Hact).
    destruct (doomed p) eqn:Hc.
    + eexists _, _. split; [reflexivity|]. simpl. split_and!; try done.
      * intros k Hne. by rewrite lookup_delete_ne.
      * by rewrite lookup_delete_eq.
      * apply cleanup_and_drop_events_no_hook.
      * intros _. apply cleanup_and_drop_calls.
    + exists s0, []. split_and!; try done. by rewrite app_nil_r.
  - intros p p' Hact. destruct (doomed p) eqn:Hc;
      intros [= ->]; by rewrite Hc.
  - intros p p' r _. destruct (doomed p) eqn:Hc;
      intros [= ->]. by rewrite Hc.
  - intros n p before evs after Hd Hc. destruct (Hd Hc) as (H1 & H2 & H3).
    unfold drop_calls. rewrite !elem_of_app. tidy. naive_solver.
Qed.

Lemma cleanup_scan_table s s' new :
  (forall k, PortalHashTable s !! k = None ->
     PortalHashTable s' !! k = None) ->
  (forall k p, PortalHashTable s !! k = Some p ->
     k ∈ hash_seq_order (PortalHashTable s) ->
     PortalHashTable s' !! k = (if doomed p then None else Some p) /\
     (doomed p = true -> drop_calls k p new)) ->
  PortalHashTable s'
  = filter (fun kv : string * PortalData => doomed kv.2 = false)
      (PortalHashTable s).
Proof using hash_seq_complete.
  intros Hnone Hin. apply map_eq. intros k.
  destruct (PortalHashTable s !! k) as [p|] eqn:Hp.
  - destruct (Hin k p Hp (hash_seq_complete _ _ _ Hp)) as [-> _].
    destruct (doomed p) eqn:Hc; symmetry.
    + apply map_lookup_filter_None. right. intros q Hq. simpl.
      assert (q = p) as -> by congruence. by rewrite Hc.
    + by apply map_lookup_filter_Some.
  - rewrite (Hnone k Hp). symmetry. apply map_lookup_filter_None. by left.
Qed.

End CleanupScan.

Lemma AtCleanup_Portals_visit_Ok n p s :
  PortalHashTable s !! n = Some p ->
  (negb (createSubid p =? InvalidSubTransactionId)%nat = true ->
   status p <> PORTAL_ACTIVE) ->
  AtCleanup_Portals_visit n s
  = Ok tt (if negb (createSubid p =? InvalidSubTransactionId)%nat
           then dropped n (cleanup_and_drop_events n p) s else s).
Proof using Type.
  intros Hp Hact. unfold AtCleanup_Portals_visit.
  rewrite (bind_of_Ok _ _ _ _ _ (deref_Ok _ _ _ Hp)).
  destruct (createSubid p =? _)%nat; simpl; [done|].
  by apply cleanup_and_drop_Ok; auto.
Qed.

Lemma AtSubCleanup_Portals_visit_Ok mySubid n p s :
  PortalHashTable s !! n = Some p ->
  ((createSubid p =? mySubid)%nat = true -> status p <> PORTAL_ACTIVE) ->
  AtSubCleanup_Portals_visit mySubid n s
  = Ok tt (if (createSubid p =? mySubid)%nat
           then dropped n (cleanup_and_drop_events n p) s else s).
Proof using Type.
  intros Hp Hact. unfold AtSubCleanup_Portals_visit.
  rewrite (bind_of_Ok _ _ _ _ _ (deref_Ok _ _ _ Hp)).
  destruct (createSubid p =? _)%nat; simpl; [|done].
  by apply cleanup_and_drop_Ok; auto.
Qed.

Lemma PortalDrop_refuses portal isTopCommit p s :
  PortalHashTable s !! portal = Some p ->
  portalPinned p = true \/ status p = PORTAL_ACTIVE ->
  PortalDrop portal isTopCommit s = Raise ERROR ERRCODE_INVALID_CURSOR_STATE s.
Proof using Type.
  intros Hp Hcond. unfold PortalDrop.
  rewrite (bind_of_Ok _ _ _ _ _ (deref_Ok _ _ _ Hp)).
  destruct Hcond as [-> | ->]; [done|].
  rewrite bool_decide_eq_true_2 by done. by rewrite orb_true_r.
Qed.

Lemma cleanup_and_drop_active portal p s :
  PortalHashTable s !! portal = Some p -> status p = PORTAL_ACTIVE ->
  exists s', cleanup_and_drop portal s
             = Raise ERROR ERRCODE_INVALID_CURSOR_STATE s'.
Proof using Type.
  intros Hp Hact. unfold cleanup_and_drop.
  rewrite (bind_of_Ok _ _ _ _ _ (deref_Ok _ _ _ Hp)).
  assert (Hunpin :
    (when (portalPinned p) then store portal (set_portalPinned false)) s
    = Ok tt (set_PortalHashTable
               (<[portal := set_portalPinned false p]> (PortalHashTable s)) s)).
  { destruct (portalPinned p) eqn:Hpin; [by apply store_Ok|].
    rewrite set_portalPinned_id, insert_id by done. by destruct s. }
  rewrite (bind_of_Ok _ _ _ _ _ Hunpin). clear Hunpin.
  erewrite (bind_of_Ok (deref _));
    [|apply deref_Ok; simpl; apply lookup_insert_eq].
  simpl cleanup. destruct (cleanup p) as [hook|] eqn:Hc.
  - erewrite (bind_of_Ok (_ ;; _)); cycle 1.
    { erewrite (bind_of_Ok (emit _)); [|reflexivity].
      apply store_Ok. simpl. apply lookup_insert_eq. }
    eexists. eapply PortalDrop_refuses;
      [simpl; apply lookup_insert_eq|by right].
  - erewrite (bind_of_Ok (ret _)); [|reflexivity].
    eexists. eapply PortalDrop_refuses;
      [simpl; apply lookup_insert_eq|by right].
Qed.

Lemma cleanup_scan_raises (visit : string -> R unit)
    (doomed : PortalData -> bool) l s n p :
  (forall k q s0, PortalHashTable s0 !! k = Some q ->
     visit k s0
     = if doomed q then cleanup_and_drop k s0 else Ok tt s0) ->
  PortalHashTable s !! n = Some p -> doomed p = true ->
  status p = PORTAL_ACTIVE -> n ∈ l ->
  exists s', hash_seq_for_each visit l s
             = Raise ERROR ERRCODE_INVALID_CURSOR_STATE s'.
Proof using Type.
  intros Hvisit. revert s.
  induction l as [|k l IH]; intros s Hp Hd Hact Hel;
    [by apply elem_of_nil in Hel|].
  simpl. rewrite (bind_of_Ok _ _ s s s (eq_refl : get s = Ok s s)).
  destruct (PortalHashTable s !! k) as [q|] eqn:Hq.
  - pose proof (Hvisit k q s Hq) as Hv.
    destruct (doomed q) eqn:Hdq.
    + destruct (decide (status q = PORTAL_ACTIVE)) as [Haq|Haq].
      * destruct (cleanup_and_drop_active k q s Hq Haq) as [s' Hs'].
        rewrite Hs' in Hv.
        exists s'. by rewrite (bind_of_Raise _ _ _ _ _ _ Hv).
      * rewrite (cleanup_and_drop_Ok k q s Hq Haq) in Hv.
        rewrite (bind_of_Ok _ _ _ _ _ Hv).
        assert (Hne : n <> k) by (intros ->; congruence).
        apply IH; [simpl; by rewrite lookup_delete_ne|done|done|].
        apply elem_of_cons in Hel as [?|?]; done.
    + rewrite (bind_of_Ok _ _ _ _ _ Hv).
      assert (Hne : n <> k) by (intros ->; congruence).
      apply IH; [done..|]. apply elem_of_cons in Hel as [?|?]; done.
  - erewrite (bind_of_Ok (ret _)); [|reflexivity].
    assert (Hne : n <> k) by (intros ->; congruence).
    apply IH; [done..|]. apply elem_of_cons in Hel as [?|?]; done.
Qed.

(** X15: [AtCleanup_Portals], run when no portal of the failed transaction
    is ACTIVE any more, returns and leaves exactly the portals held over
    from earlier transactions (createSubid invalid), each one as it was.
    Every other portal is dropped, pinned or not, and its struct and heap
    context are freed.  No cleanup hook is called, whatever the hooks would
    do: a hook that is still in place is skipped with a WARNING.  If a
    portal of the transaction is still ACTIVE, the call ends in ERROR with
    ERRCODE_INVALID_CURSOR_STATE, raised by [PortalDrop]. *)
Theorem AtCleanup_Portals_drops_this_transaction s :
  ((forall n p, PortalHashTable s !! n = Some p ->
      createSubid p <> InvalidSubTransactionId -> status p <> PORTAL_ACTIVE) ->
   exists s' new,
     AtCleanup_Portals s = Ok tt s' /\
     PortalHashTable s'
     = filter (fun kv : string * PortalData =>
                 createSubid kv.2 = InvalidSubTransactionId)
         (PortalHashTable s) /\
     trace s' = trace s ++ new /\
     (forall hook n, Ev_cleanup hook n ∉ new) /\
     (forall n p, PortalHashTable s !! n = Some p ->
        createSubid p <> InvalidSubTransactionId ->
        Ev_pfree n ∈ new /\ Ev_MemoryContextDelete (heap p) ∈ new /\
        (is_Some (cleanup p) -> Ev_WARNING_skipping_cleanup n ∈ new))) /\
  (forall n p, PortalHashTable s !! n = Some p ->
     createSubid p <> InvalidSubTransactionId -> status p = PORTAL_ACTIVE ->
     exists s', AtCleanup_Portals s
                = Raise ERROR ERRCODE_INVALID_CURSOR_STATE s').
Proof using hash_seq_complete.
  unfold AtCleanup_Portals.
  erewrite (bind_of_Ok hash_seq_init); [|reflexivity]. split.
  - intros Hact.
    destruct (cleanup_scan _ _ AtCleanup_Portals_visit_Ok
                (hash_seq_order (PortalHashTable s)) s)
      as (s' & new & Hscan & Hnone & _ & Hin & Htr & HE & _).
    { intros n p Hp Hc. apply (Hact n p Hp).
      by apply Nat.eqb_neq, negb_true_iff. }
    exists s', new. split_and!; [exact Hscan| |done| |].
    + rewrite (cleanup_scan_table _ s s' new Hnone Hin).
      apply map_filter_ext. intros k p _. simpl.
      rewrite negb_false_iff. apply Nat.eqb_eq.
    + intros hook n Hel. rewrite Forall_forall in HE.
      by specialize (HE _ Hel).
    + intros n p Hp Hc.
      destruct (Hin n p Hp (hash_seq_complete _ _ _ Hp)) as [_ Hd].
      apply Hd. simpl. by apply negb_true_iff, Nat.eqb_neq.
  - intros n p Hp Hc Hact.
    apply (cleanup_scan_raises AtCleanup_Portals_visit
             (fun q => negb (createSubid q =? InvalidSubTransactionId)%nat)
             _ s n p); try done.
    + intros k q s0 Hq. unfold AtCleanup_Portals_visit.
      rewrite (bind_of_Ok _ _ _ _ _ (deref_Ok _ _ _ Hq)).
      by destruct (createSubid q =? _)%nat.
    + by apply negb_true_iff, Nat.eqb_neq.
    + by eapply hash_seq_complete.
Qed.

(** X16: [AtSubCleanup_Portals(mySubid)], run when no portal created in
    [mySubid] is ACTIVE any more, returns and drops exactly the portals whose
    createSubid is [mySubid], pinned or not; every other portal stays as it
    was.  No cleanup hook is called: a hook still in place is skipped with a
    WARNING.  If a portal created in [mySubid] is still ACTIVE, the call
    ends in ERROR with ERRCODE_INVALID_CURSOR_STATE, raised by
    [PortalDrop]. *)
Theorem AtSubCleanup_Portals_drops_this_subtransaction mySubid s :
  ((forall n p, PortalHashTable s !! n = Some p ->
      createSubid p = mySubid -> status p <> PORTAL_ACTIVE) ->
   exists s' new,
     AtSubCleanup_Portals mySubid s = Ok tt s' /\
     PortalHashTable s'
     = filter (fun kv : string * PortalData => createSubid kv.2 <> mySubid)
         (PortalHashTable s) /\
     trace s' = trace s ++ new /\
     (forall hook n, Ev_cleanup hook n ∉ new) /\
     (forall n p, PortalHashTable s !! n = Some p ->
        createSubid p = mySubid ->
        Ev_pfree n ∈ new /\ Ev_MemoryContextDelete (heap p) ∈ new /\
        (is_Some (cleanup p) -> Ev_WARNING_skipping_cleanup n ∈ new))) /\
  (forall n p, PortalHashTable s !! n = Some p ->
     createSubid p = mySubid -> status p = PORTAL_ACTIVE ->
     exists s', AtSubCleanup_Portals mySubid s
                = Raise ERROR ERRCODE_INVALID_CURSOR_STATE s').
Proof using hash_seq_complete.
  unfold AtSubCleanup_Portals.
  erewrite (bind_of_Ok hash_seq_init); [|reflexivity]. split.
  - intros Hact.
    destruct (cleanup_scan _ _ (AtSubCleanup_Portals_visit_Ok mySubid)
                (hash_seq_order (PortalHashTable s)) s)
      as (s' & new & Hscan & Hnone & _ & Hin & Htr & HE & _).
    { intros n p Hp Hc. apply (Hact n p Hp). by apply Nat.eqb_eq. }
    exists s', new. split_and!; [exact Hscan| |done| |].
    + rewrite (cleanup_scan_table _ s s' new Hnone Hin).
      apply map_filter_ext. intros k p _. simpl.
      by rewrite <- Nat.eqb_neq.
    + intros hook n Hel. rewrite Forall_forall in HE.
      by specialize (HE _ Hel).
    + intros n p Hp Hc.
      destruct (Hin n p Hp (hash_seq_complete _ _ _ Hp)) as [_ Hd].
      apply Hd. simpl. by apply Nat.eqb_eq.
  - intros n p Hp Hc Hact.
    apply (cleanup_scan_raises (AtSubCleanup_Portals_visit mySubid)
             (fun q => (createSubid q =? mySubid)%nat)
             _ s n p); try done.
    + intros k q s0 Hq. unfold AtSubCleanup_Portals_visit.
      rewrite (bind_of_Ok _ _ _ _ _ (deref_Ok _ _ _ Hq)).
      by destruct (createSubid q =? _)%nat.
    + by apply Nat.eqb_eq.
    + by eapply hash_seq_complete.
Qed.

(** ** Steps that work on one struct

    [acts_on n p m Post]: run where entry [n] holds the struct [p], the
    computation [m] returns, having changed nothing but that struct and
    the list of calls; [Post] holds of the struct it leaves and of the
    calls it made. *)
Definition acts_on (n : string) (p : PortalData) (m : R unit)
    (Post : PortalData -> list event -> Prop) : Prop :=
  forall s, PortalHashTable s !! n = Some p ->
    exists p' new,
      m s = Ok tt (set_PortalHashTable (<[n := p']> (PortalHashTable s))
                     (set_trace (trace s ++ new) s)) /\
      Post p' new.

Lemma registry_eq (s s' : registry) :
  PortalHashTable s = PortalHashTable s' -> trace s = trace s' ->
  next_address s = next_address s' ->
  CurrentSubTransactionId s = CurrentSubTransactionId s' -> s = s'.
Proof using Type. destruct s, s'. simpl. by intros -> -> -> ->. Qed.

Lemma acts_on_ret n p (Post : PortalData -> list event -> Prop) :
  Post p [] -> acts_on n p (ret tt) Post.
Proof using Type.
  intros HP s Hp. exists p, []. split; [|done]. unfold ret. f_equal.
  apply registry_eq; simpl; [by rewrite insert_id|by rewrite app_nil_r|done..].
Qed.

Lemma acts_on_emit n p e (Post : PortalData -> list event -> Prop) :
  Post p [e] -> acts_on n p (emit e) Post.
Proof using Type.
  intros HP s Hp. exists p, [e]. split; [|done]. unfold emit, modify. f_equal.
  apply registry_eq; simpl; [by rewrite insert_id|done..].
Qed.

Lemma acts_on_store n p f (Post : PortalData -> list event -> Prop) :
  Post (f p) [] -> acts_on n p (store n f) Post.
Proof using Type.
  intros HP s Hp. exists (f p), []. split; [|done].
  rewrite (store_Ok _ _ _ _ Hp). f_equal.
  apply registry_eq; simpl; [done|by rewrite app_nil_r|done..].
Qed.

Lemma acts_on_deref n p (k : PortalData -> R unit) Post :
  acts_on n p (k p) Post -> acts_on n p (bind (deref n) k) Post.
Proof using Type.
  intros Hk s Hp. rewrite (bind_of_Ok _ _ _ _ _ (deref_Ok _ _ _ Hp)).
  by apply Hk.
Qed.

Lemma acts_on_bind n p (m1 m2 : R unit) P1
    (Post : PortalData -> list event -> Prop) :
  acts_on n p m1 P1 ->
  (forall p1 e1, P1 p1 e1 ->
     acts_on n p1 m2 (fun p2 e2 => Post p2 (e1 ++ e2))) ->
  acts_on n p (m1 ;; m2) Post.
Proof using Type.
  intros H1 H2 s Hp. destruct (H1 s Hp) as (p1 & e1 & Hm1 & HP1).
  rewrite (bind_of_Ok _ _ _ _ _ Hm1).
  edestruct (H2 p1 e1 HP1) as (p2 & e2 & Hm2 & HP);
    [|rewrite Hm2; clear Hm2].
  { simpl. apply lookup_insert_eq. }
  exists p2, (e1 ++ e2). split; [|done]. f_equal.
  apply registry_eq; simpl;
    [by rewrite insert_insert_eq|by rewrite app_assoc|done..].
Qed.

Lemma acts_on_weaken n p m (P Post : PortalData -> list event -> Prop) :
  acts_on n p m P -> (forall p' new, P p' new -> Post p' new) ->
  acts_on n p m Post.
Proof using Type.
  intros Hm HP s Hp. destruct (Hm s Hp) as (p' & new & Hms & HP').
  exists p', new. auto.
Qed.

Lemma acts_on_run_cleanup_hook n p
    (Post : PortalData -> list event -> Prop) :
  match cleanup p with
  | Some hook =>
      forall q, Post (set_cleanup None (set_queryDesc q p)) [Ev_cleanup hook n]
  | None => Post p []
  end ->
  acts_on n p (run_cleanup_hook n) Post.
Proof using cleanup_benign.
  intros HP s Hp. destruct (run_cleanup_hook_Ok n p s Hp) as [q Hq].
  rewrite Hq. destruct (cleanup p) as [hook|].
  - eexists _, _. split; [reflexivity|]. apply HP.
  - exists p, []. split; [|done]. f_equal.
    apply registry_eq; simpl; [by rewrite insert_id|by rewrite app_nil_r|done..].
Qed.

Lemma acts_on_PortalReleaseCachedPlan n p
    (Post : PortalData -> list event -> Prop) :
  match cplan p with
  | Some plan =>
      Post (set_stmts [] (set_cplan None p)) [Ev_ReleaseCachedPlan plan false]
  | None => Post p []
  end ->
  acts_on n p (PortalReleaseCachedPlan n) Post.
Proof using Type.
  intros HP s Hp. rewrite (PortalReleaseCachedPlan_Ok n p s Hp).
  destruct (cplan p) as [plan|].
  - eexists _, _. split; [reflexivity|]. apply HP.
  - exists p, []. split; [|done]. f_equal.
    apply registry_eq; simpl; [by rewrite insert_id|by rewrite app_nil_r|done..].
Qed.

Lemma acts_on_MarkPortalFailed n p
    (Post : PortalData -> list event -> Prop) :
  match cleanup p with
  | Some hook =>
      forall q,
        Post (set_cleanup None (set_queryDesc q (set_status PORTAL_FAILED p)))
          [Ev_cleanup hook n]
  | None => Post (set_status PORTAL_FAILED p) []
  end ->
  acts_on n p (MarkPortalFailed n) Post.
Proof using cleanup_benign.
  intros HP. unfold MarkPortalFailed.
  apply (acts_on_bind _ _ _ _
           (fun p1 e1 => p1 = set_status PORTAL_FAILED p /\ e1 = []));
    [by apply acts_on_store|].
  intros p1 e1 [-> ->]. by apply acts_on_run_cleanup_hook.
Qed.

(** A visit that acts on the struct it finds is a visit as [Section Scan]
    wants it. *)
Lemma acts_on_visits n p m (Post : PortalData -> list event -> Prop) s :
  acts_on n p m Post -> PortalHashTable s !! n = Some p ->
  exists s' p' new,
    m s = Ok tt s' /\
    (forall k, k <> n -> PortalHashTable s' !! k = PortalHashTable s !! k) /\
    PortalHashTable s' !! n = Some p' /\
    trace s' = trace s ++ new /\ Post p' new /\
    next_address s' = next_address s /\
    CurrentSubTransactionId s' = CurrentSubTransactionId s.
Proof using Type.
  intros Hm Hp. destruct (Hm s Hp) as (p' & new & Hms & HP).
  eexists _, p', new. split; [exact Hms|]. simpl. split_and!; try done.
  - intros k Hne. by rewrite lookup_insert_ne.
  - apply lookup_insert_eq.
Qed.

Lemma acts_on_seq n p (m1 m2 : R unit)
    (Post : PortalData -> list event -> Prop) :
  acts_on n p m1
    (fun p1 e1 => acts_on n p1 m2 (fun p2 e2 => Post p2 (e1 ++ e2))) ->
  acts_on n p (m1 ;; m2) Post.
Proof using Type. intros H. eapply acts_on_bind; [exact H|]. auto. Qed.

(** Composite steps are taken apart by their syntax. *)
Ltac acts_step :=
  first
    [ apply acts_on_MarkPortalFailed | apply acts_on_run_cleanup_hook
    | apply acts_on_PortalReleaseCachedPlan
    | apply acts_on_store | apply acts_on_emit | apply acts_on_ret
    | apply acts_on_seq | apply acts_on_deref
    | match goal with
      | |- forall _ : option QueryDesc, _ => intros ?
      | H : ?x = _ |- acts_on _ _ (if ?x then _ else _) _ => rewrite H
      | H : ?x = _ |- acts_on _ _ (match ?x with _ => _ end) _ => rewrite H
      | H : ?x = _ |- match ?x with _ => _ end => rewrite H
      | |- acts_on _ _ (if ?b then _ else _) _ =>
          let H := fresh "Hb" in destruct b eqn:H
      | |- acts_on _ _ (match ?x with _ => _ end) _ =>
          let H := fresh "Hx" in destruct x eqn:H
      | |- match ?x with _ => _ end =>
          let H := fresh "Hx" in destruct x eqn:H
      end ];
  simpl.

(** What is left when all steps are taken: facts about one struct and a
    list of calls. *)
Ltac leaf :=
  simpl;
  repeat match goal with
    | H : ?x = _ |- context [?x] => rewrite H
    end;
  repeat match goal with
    | H : negb _ = true |- _ => apply negb_true_iff in H
    | H : negb _ = false |- _ => apply negb_false_iff in H
    | H : bool_decide _ = true |- _ => apply bool_decide_eq_true in H
    | H : bool_decide _ = false |- _ => apply bool_decide_eq_false in H
    | H : (_ =? _)%nat = true |- _ => apply Nat.eqb_eq in H
    | H : (_ =? _)%nat = false |- _ => apply Nat.eqb_neq in H
    end;
  tidy; simpl;
  repeat case_bool_decide;
  split_and?; intros; simplify_eq; simpl;
  repeat match goal with
    | H : ?x = _ |- context [?x] => rewrite H
    end;
  try done; try congruence;
  try (repeat constructor; done);
  try set_solver.

(** ** Abort of a transaction *)

(** The fields that no transaction-end routine writes. *)
Definition same_identity (p p' : PortalData) : Prop :=
  name p' = name p /\ cursorOptions p' = cursorOptions p /\
  portalPinned p' = portalPinned p /\ visible p' = visible p /\
  createSubid p' = createSubid p /\ heap p' = heap p /\
  holdContext p' = holdContext p /\ holdStore p' = holdStore p /\
  is_extended_query p' = is_extended_query p.

(** What [AtAbort_Portals] leaves of a struct [p]. *)
Definition aborted (p p' : PortalData) : Prop :=
  status p'
  = (if bool_decide (status p = PORTAL_ACTIVE) then PORTAL_FAILED
     else status p) /\
  (createSubid p = InvalidSubTransactionId ->
   cleanup p'
   = (if bool_decide (status p = PORTAL_ACTIVE) then None else cleanup p) /\
   cplan p' = cplan p /\ stmts p' = stmts p /\ resowner p' = resowner p) /\
  (createSubid p <> InvalidSubTransactionId ->
   cleanup p' = None /\ cplan p' = None /\
   stmts p' = match cplan p with Some _ => [] | None => stmts p end /\
   resowner p' = None) /\
  (cleanup p = None ->
   queryDesc p'
   = if is_extended_query p
     then match queryDesc p with
          | Some _ => Some {| cancelUnfinished := true |}
          | None => None
          end
     else queryDesc p) /\
  activeSubid p' = activeSubid p /\
  same_identity p p'.

Definition is_abort_call (e : event) : bool :=
  match e with
  | Ev_cleanup _ _ => true
  | Ev_ReleaseCachedPlan _ _ => true
  | Ev_MemoryContextDeleteChildren _ => true
  | _ => false
  end.

(** What [AtAbort_Portals] owes for a struct [p] it finds under [n]. *)
Definition abort_calls (n : string) (p : PortalData) (evs : list event)
  : Prop :=
  (forall hook, cleanup p = Some hook ->
     status p = PORTAL_ACTIVE \/ createSubid p <> InvalidSubTransactionId ->
     Ev_cleanup hook n ∈ evs) /\
  (createSubid p <> InvalidSubTransactionId ->
   Ev_MemoryContextDeleteChildren (heap p) ∈ evs /\
   forall plan, cplan p = Some plan -> Ev_ReleaseCachedPlan plan false ∈ evs).

Lemma AtAbort_Portals_visit_acts n p :
  acts_on n p (AtAbort_Portals_visit n)
    (fun p' new =>
       aborted p p' /\ Forall (fun e => is_abort_call e = true) new /\
       abort_calls n p new).
Proof using cleanup_benign.
  unfold AtAbort_Portals_visit.
  repeat acts_step.
  all: unfold aborted, abort_calls, same_identity; leaf.
Qed.

Lemma aborted_trans p p' p'' : aborted p p' -> aborted p' p'' -> aborted p p''.
Proof using Type.
  unfold aborted, same_identity.
  intros (Hs & Hheld & Hmine & Hq & Ha & Hi) (Hs' & Hheld' & Hmine' & Hq' & Ha' & Hi').
  destruct Hi as (? & ? & ? & ? & Hc & ? & ? & ? & Hext).
  destruct Hi' as (? & ? & ? & ? & Hc' & ? & ? & ? & ?).
  assert (Hna : status p' <> PORTAL_ACTIVE).
  { rewrite Hs. by destruct (bool_decide (status p = PORTAL_ACTIVE)) eqn:Hb;
      [|apply bool_decide_eq_false in Hb]. }
  rewrite (bool_decide_eq_false_2 _ Hna) in Hs', Hheld'.
  rewrite Hc, Hext in *.
  assert (Hcl : cleanup p = None -> cleanup p' = None).
  { intros Hnone. destruct (decide (createSubid p = InvalidSubTransactionId))
      as [Heq|Hne].
    - destruct (Hheld Heq) as (-> & _).
      by destruct (bool_decide (status p = PORTAL_ACTIVE)).
    - by destruct (Hmine Hne) as (-> & _). }
  tidy. split_and!; try congruence.
  - intros Heq. destruct (Hheld Heq) as (? & ? & ? & ?).
    destruct (Hheld' Heq) as (? & ? & ? & ?). split_and!; congruence.
  - intros Hne. destruct (Hmine Hne) as (? & Hcp & ? & ?).
    destruct (Hmine' Hne) as (? & ? & Hst & ?). rewrite Hcp in Hst.
    split_and!; congruence.
  - intros Hnone. rewrite (Hq' (Hcl Hnone)), (Hq Hnone).
    destruct (is_extended_query p); [|done]. by destruct (queryDesc p).
Qed.

Lemma AtAbort_Portals_scan l s :
  exists s' new,
    hash_seq_for_each AtAbort_Portals_visit l s = Ok tt s' /\
    (forall k, PortalHashTable s !! k = None ->
       PortalHashTable s' !! k = None) /\
    (forall k p, PortalHashTable s !! k = Some p -> k ∉ l ->
       PortalHashTable s' !! k = Some p) /\
    (forall k p, PortalHashTable s !! k = Some p -> k ∈ l ->
       (exists p', PortalHashTable s' !! k = Some p' /\ aborted p p') /\
       abort_calls k p new) /\
    trace s' = trace s ++ new /\
    Forall (fun e => is_abort_call e = true) new /\
    next_address s' = next_address s /\
    CurrentSubTransactionId s' = CurrentSubTransactionId s.
Proof using cleanup_benign.
  apply (hash_seq_for_each_visits AtAbort_Portals_visit
           (fun _ => True)
           (fun p r => exists p', r = Some p' /\ aborted p p')
           (fun e => is_abort_call e = true)
           abort_calls).
  - intros n p s0 Hp _.
    destruct (acts_on_visits n p _ _ s0 (AtAbort_Portals_visit_acts n p) Hp)
      as (s' & p' & new & Hm & Hframe & Hp' & Htr & (Hab & HE & HV) & Ha & Hc).
    exists s', new. split_and!; try done. exists p'. by rewrite Hp'.
  - done.
  - intros p p' r _ (? & [= <-] & Hab) (p'' & -> & Hab').
    exists p''. split; [done|]. by eapply aborted_trans.
  - intros n p before evs after [Hhook Hmine]. unfold abort_calls.
    setoid_rewrite elem_of_app. setoid_rewrite elem_of_app. tidy.
    naive_solver.
  - by intros k p _.
Qed.

(** X17: [AtAbort_Portals], when every cleanup hook is benign (it returns
    normally and changes nothing in the registry but the [queryDesc] of the
    portal it is called for), returns, and removes no portal.  Of each portal [p] it leaves a struct [p'] that is not ACTIVE:
    a portal that was ACTIVE is FAILED, and its cleanup hook has run; a portal
    created in the failed transaction has its cleanup hook run if it was
    still in place, its cached plan released, and cleanup, cplan and
    resowner NULL; a portal held over from an earlier transaction keeps
    plan, statements and resource owner.  The calls made are calls through
    cleanup hooks, releases of cached plans and deletions of the children of
    portal heaps: no portal is freed and no resource owner released. *)
Theorem AtAbort_Portals_fails_running_portals s :
  exists s' new,
    AtAbort_Portals s = Ok tt s' /\
    trace s' = trace s ++ new /\
    (forall n, PortalHashTable s !! n = None ->
       PortalHashTable s' !! n = None) /\
    (forall n p, PortalHashTable s !! n = Some p ->
       exists p',
         PortalHashTable s' !! n = Some p' /\ aborted p p' /\
         status p' <> PORTAL_ACTIVE /\
         (forall hook, cleanup p = Some hook ->
            status p = PORTAL_ACTIVE \/
            createSubid p <> InvalidSubTransactionId ->
            Ev_cleanup hook n ∈ new) /\
         (createSubid p <> InvalidSubTransactionId ->
          Ev_MemoryContextDeleteChildren (heap p) ∈ new /\
          forall plan, cplan p = Some plan ->
            Ev_ReleaseCachedPlan plan false ∈ new)) /\
    (forall e, e ∈ new -> is_abort_call e = true).
Proof using cleanup_benign hash_seq_complete.
  unfold AtAbort_Portals.
  erewrite (bind_of_Ok hash_seq_init); [|reflexivity].
  destruct (AtAbort_Portals_scan (hash_seq_order (PortalHashTable s)) s)
    as (s' & new & Hscan & Hnone & _ & Hin & Htr & HE & Ha & Hc).
  exists s', new. split_and!; try done.
  - intros n p Hp.
    destruct (Hin n p Hp (hash_seq_complete _ _ _ Hp))
      as [(p' & Hp' & Hab) [Hhook Hmine]].
    exists p'. split_and!; try done.
    destruct Hab as (-> & _).
    by destruct (bool_decide (status p = PORTAL_ACTIVE)) eqn:Hb;
      [|apply bool_decide_eq_false in Hb].
  - by apply Forall_forall.
Qed.

Lemma aborted_not_active p p' : aborted p p' -> status p' <> PORTAL_ACTIVE.
Proof using Type.
  intros (-> & _).
  by destruct (bool_decide (status p = PORTAL_ACTIVE)) eqn:Hb;
    [|apply bool_decide_eq_false in Hb].
Qed.

(** X18: abort processing as xact.c runs it, [AtAbort_Portals] and then
    [AtCleanup_Portals], goes through when every cleanup hook is benign (it
    returns normally and changes nothing in the registry but the [queryDesc]
    of the portal it is called for).  What is left are the portals held over from earlier transactions, none
    of them ACTIVE; every portal created in the failed transaction is gone,
    pinned or not. *)
Theorem abort_then_cleanup_leaves_held_portals s :
  exists s',
    (AtAbort_Portals ;; AtCleanup_Portals) s = Ok tt s' /\
    (forall n, PortalHashTable s !! n = None ->
       PortalHashTable s' !! n = None) /\
    (forall n p, PortalHashTable s !! n = Some p ->
       createSubid p <> InvalidSubTransactionId ->
       PortalHashTable s' !! n = None) /\
    (forall n p, PortalHashTable s !! n = Some p ->
       createSubid p = InvalidSubTransactionId ->
       exists p', PortalHashTable s' !! n = Some p' /\ aborted p p') /\
    (forall n p', PortalHashTable s' !! n = Some p' ->
       createSubid p' = InvalidSubTransactionId /\
       status p' <> PORTAL_ACTIVE).
Proof using cleanup_benign hash_seq_complete.
  destruct (AtAbort_Portals_scan (hash_seq_order (PortalHashTable s)) s)
    as (s1 & new1 & Hscan1 & Hnone1 & _ & Hin1 & _).
  assert (Habort : AtAbort_Portals s = Ok tt s1).
  { unfold AtAbort_Portals.
    by erewrite (bind_of_Ok hash_seq_init); [|reflexivity]. }
  rewrite (bind_of_Ok _ _ _ _ _ Habort).
  assert (Hfrom : forall n p1, PortalHashTable s1 !! n = Some p1 ->
            exists p, PortalHashTable s !! n = Some p /\ aborted p p1).
  { intros n p1 Hp1. destruct (PortalHashTable s !! n) as [p|] eqn:Hp.
    - destruct (Hin1 n p Hp (hash_seq_complete _ _ _ Hp))
        as [(p' & Hp' & Hab) _].
      exists p. split; [done|]. congruence.
    - rewrite (Hnone1 n Hp) in Hp1. discriminate. }
  unfold AtCleanup_Portals.
  erewrite (bind_of_Ok hash_seq_init); [|reflexivity].
  destruct (cleanup_scan _ _ AtCleanup_Portals_visit_Ok
              (hash_seq_order (PortalHashTable s1)) s1)
    as (s' & new & Hscan & Hnone & _ & Hin & _).
  { intros n p1 Hp1 _. destruct (Hfrom n p1 Hp1) as (p & _ & Hab).
    by eapply aborted_not_active. }
  exists s'. split; [exact Hscan|].
  assert (Hto : forall n p, PortalHashTable s !! n = Some p ->
            exists p1, aborted p p1 /\
              PortalHashTable s' !! n
              = if negb (createSubid p =? InvalidSubTransactionId)%nat
                then None else Some p1).
  { intros n p Hp.
    destruct (Hin1 n p Hp (hash_seq_complete _ _ _ Hp))
      as [(p1 & Hp1 & Hab) _].
    exists p1. split; [done|].
    destruct (Hin n p1 Hp1 (hash_seq_complete _ _ _ Hp1)) as [-> _].
    destruct Hab as (_ & _ & _ & _ & _ & _ & _ & _ & _ & -> & _). done. }
  split_and!.
  - intros n Hn. by apply Hnone, Hnone1.
  - intros n p Hp Hc. destruct (Hto n p Hp) as (p1 & _ & ->).
    by rewrite (proj2 (Nat.eqb_neq _ _) Hc).
  - intros n p Hp Hc. destruct (Hto n p Hp) as (p1 & Hab & ->).
    rewrite Hc, Nat.eqb_refl. by exists p1.
  - intros n p' Hp'. destruct (PortalHashTable s !! n) as [p|] eqn:Hp.
    + destruct (Hto n p Hp) as (p1 & Hab & Heq). rewrite Hp' in Heq.
      destruct (createSubid p =? InvalidSubTransactionId)%nat eqn:Hc;
        [|done].
      injection Heq as ->. apply Nat.eqb_eq in Hc. split.
      * by destruct Hab as (_ & _ & _ & _ & _ & _ & _ & _ & _ & -> & _).
      * by eapply aborted_not_active.
    + rewrite (Hnone n (Hnone1 n Hp)) in Hp'. discriminate.
Qed.

(** ** Commit of a subtransaction *)

(** What [AtSubCommit_Portals] leaves of a struct [p]. *)
Definition reparent (mySubid parentSubid : SubTransactionId)
    (p : PortalData) : PortalData :=
  set_activeSubid
    (if (activeSubid p =? mySubid)%nat then parentSubid else activeSubid p)
    (set_createSubid
       (if (createSubid p =? mySubid)%nat then parentSubid else createSubid p)
       p).

Definition reparent_calls (mySubid : SubTransactionId)
    (parentXactOwner : nat) (p : PortalData) : list event :=
  if (createSubid p =? mySubid)%nat then
    match resowner p with
    | Some owner => [Ev_ResourceOwnerNewParent owner parentXactOwner]
    | None => []
    end
  else [].

Lemma set_createSubid_id p : set_createSubid (createSubid p) p = p.
Proof using Type. by destruct p. Qed.

Lemma set_activeSubid_id p : set_activeSubid (activeSubid p) p = p.
Proof using Type. by destruct p. Qed.

Lemma AtSubCommit_Portals_visit_acts mySubid parentSubid parentXactOwner n p :
  acts_on n p
    (AtSubCommit_Portals_visit mySubid parentSubid parentXactOwner n)
    (fun p' new =>
       p' = reparent mySubid parentSubid p /\
       new = reparent_calls mySubid parentXactOwner p).
Proof using Type.
  unfold AtSubCommit_Portals_visit.
  repeat acts_step.
  all: unfold reparent, reparent_calls; simpl;
    repeat match goal with
      | H : ?x = _ |- context [?x] => rewrite H
      end;
    rewrite ?set_createSubid_id, ?set_activeSubid_id; done.
Qed.

Lemma reparent_idemp mySubid parentSubid p :
  reparent mySubid parentSubid (reparent mySubid parentSubid p)
  = reparent mySubid parentSubid p.
Proof using Type.
  unfold reparent. simpl.
  destruct (createSubid p =? mySubid)%nat eqn:Hc,
    (activeSubid p =? mySubid)%nat eqn:Ha; simpl; rewrite ?Hc, ?Ha;
    destruct (parentSubid =? mySubid)%nat eqn:Hp; try done;
    apply Nat.eqb_eq in Hp; by subst.
Qed.

(** X19: [AtSubCommit_Portals(mySubid, parentSubid, parentXactOwner)]
    returns and removes no portal.  In every portal a createSubid and an
    activeSubid equal to [mySubid] are replaced by [parentSubid], and nothing
    else in any struct changes.  The only calls made give the resource owner
    of each portal created in [mySubid] the new parent [parentXactOwner]:
    each such owner gets it, and no other. *)
Theorem AtSubCommit_Portals_reassigns_to_parent
    mySubid parentSubid parentXactOwner s :
  exists new,
    AtSubCommit_Portals mySubid parentSubid parentXactOwner s
    = Ok tt (set_PortalHashTable
               ((fun p =>
                   set_activeSubid
                     (if (activeSubid p =? mySubid)%nat then parentSubid
                      else activeSubid p)
                     (set_createSubid
                        (if (createSubid p =? mySubid)%nat then parentSubid
                         else createSubid p) p))
                <$> PortalHashTable s)
               (set_trace (trace s ++ new) s)) /\
    (forall e,
       e ∈ new <->
       exists n p owner,
         PortalHashTable s !! n = Some p /\ createSubid p = mySubid /\
         resowner p = Some owner /\
         e = Ev_ResourceOwnerNewParent owner parentXactOwner).
Proof using hash_seq_complete.
  set (E := fun e : event =>
         exists n p owner,
           PortalHashTable s !! n = Some p /\ createSubid p = mySubid /\
           resowner p = Some owner /\
           e = Ev_ResourceOwnerNewParent owner parentXactOwner).
  set (pre := fun p : PortalData =>
         exists n p0,
           PortalHashTable s !! n = Some p0 /\ resowner p = resowner p0 /\
           (createSubid p = mySubid -> createSubid p0 = mySubid)).
  destruct (hash_seq_for_each_visits
              (AtSubCommit_Portals_visit mySubid parentSubid parentXactOwner)
              pre
              (fun p r => r = Some (reparent mySubid parentSubid p))
              E
              (fun _ p evs =>
                 forall e, e ∈ reparent_calls mySubid parentXactOwner p ->
                           e ∈ evs))
      with (l := hash_seq_order (PortalHashTable s)) (s := s)
      as (s' & new & Hscan & Hnone & _ & Hin & Htr & HE & Ha & Hc).
  - intros n p s0 Hp (n0 & p0 & Hp0 & Hres & Hsub).
    destruct (acts_on_visits n p _ _ s0
                (AtSubCommit_Portals_visit_acts mySubid parentSubid
                   parentXactOwner n p) Hp)
      as (s' & p' & new & Hm & Hframe & Hp' & Htr & (-> & ->) & Ha & Hc).
    exists s', (reparent_calls mySubid parentXactOwner p).
    split_and!; try done.
    unfold reparent_calls.
    destruct (createSubid p =? mySubid)%nat eqn:Hcs; [|constructor].
    destruct (resowner p) as [owner|] eqn:Hr; repeat constructor.
    exists n0, p0, owner. split_and!; [done| |congruence|done].
    by apply Hsub, Nat.eqb_eq.
  - intros p p' (n0 & p0 & Hp0 & Hres & Hsub) [= ->].
    exists n0, p0. split_and!; [done|done|]. simpl.
    destruct (createSubid p =? mySubid)%nat eqn:Hcs;
      [intros _; by apply Hsub, Nat.eqb_eq|].
    intros Heq. apply Nat.eqb_neq in Hcs. done.
  - intros p p' r _ [= ->] ->. by rewrite reparent_idemp.
  - intros n p before evs after H e He. rewrite !elem_of_app. auto.
  - intros n p Hp. by exists n, p.
  - exists new. split.
    + unfold AtSubCommit_Portals.
      erewrite (bind_of_Ok hash_seq_init); [|reflexivity].
      rewrite Hscan. f_equal. apply registry_eq; simpl; try done.
      apply map_eq. intros n. rewrite lookup_fmap.
      destruct (PortalHashTable s !! n) as [p|] eqn:Hp; simpl.
      * by destruct (Hin n p Hp (hash_seq_complete _ _ _ Hp)) as [-> _].
      * by apply Hnone.
    + intros e. split.
      * intros He. rewrite Forall_forall in HE. by apply HE.
      * intros (n & p & owner & Hp & Hcs & Hr & ->).
        destruct (Hin n p Hp (hash_seq_complete _ _ _ Hp)) as [_ HV].
        apply HV. unfold reparent_calls.
        rewrite (proj2 (Nat.eqb_eq _ _) Hcs), Hr. by left.
Qed.

(** ** Abort of a subtransaction *)

(** What [AtSubAbort_Portals(mySubid, parentSubid, ..)] leaves of a struct
    [p]: a portal created in [mySubid] is shut down; a portal of an upper
    level that was used in [mySubid] is handed to [parentSubid], and if it
    failed there, now or earlier, it loses its resource owner; any other
    portal is left alone. *)
Definition sub_aborted (mySubid parentSubid : SubTransactionId)
    (p p' : PortalData) : Prop :=
  (createSubid p = mySubid ->
   status p'
   = (if bool_decide (status p = PORTAL_ACTIVE) then PORTAL_FAILED
      else status p) /\
   cleanup p' = None /\ cplan p' = None /\
   stmts p' = match cplan p with Some _ => [] | None => stmts p end /\
   resowner p' = None /\ activeSubid p' = activeSubid p) /\
  (createSubid p <> mySubid -> activeSubid p = mySubid ->
   activeSubid p' = parentSubid /\
   status p'
   = (if bool_decide (status p = PORTAL_ACTIVE) then PORTAL_FAILED
      else status p) /\
   cleanup p'
   = (if bool_decide (status p = PORTAL_ACTIVE) then None else cleanup p) /\
   resowner p'
   = (if bool_decide (status p = PORTAL_ACTIVE \/ status p = PORTAL_FAILED)
      then None else resowner p) /\
   cplan p' = cplan p /\ stmts p' = stmts p) /\
  (createSubid p <> mySubid -> activeSubid p <> mySubid -> p' = p) /\
  (cleanup p = None -> queryDesc p' = queryDesc p) /\
  same_identity p p'.

Definition is_sub_abort_call (e : event) : bool :=
  match e with
  | Ev_cleanup _ _ => true
  | Ev_ReleaseCachedPlan _ _ => true
  | Ev_MemoryContextDeleteChildren _ => true
  | Ev_ResourceOwnerNewParent _ _ => true
  | _ => false
  end.

(** What [AtSubAbort_Portals] owes for a struct [p] it finds under [n]. *)
Definition sub_abort_calls (mySubid : SubTransactionId) (myXactOwner : nat)
    (n : string) (p : PortalData) (evs : list event) : Prop :=
  (forall hook, cleanup p = Some hook ->
     createSubid p = mySubid \/
     (activeSubid p = mySubid /\ status p = PORTAL_ACTIVE) ->
     Ev_cleanup hook n ∈ evs) /\
  (createSubid p = mySubid ->
   Ev_MemoryContextDeleteChildren (heap p) ∈ evs /\
   forall plan, cplan p = Some plan -> Ev_ReleaseCachedPlan plan false ∈ evs) /\
  (createSubid p <> mySubid -> activeSubid p = mySubid ->
   status p = PORTAL_ACTIVE \/ status p = PORTAL_FAILED ->
   forall owner, resowner p = Some owner ->
     Ev_ResourceOwnerNewParent owner myXactOwner ∈ evs).

Lemma AtSubAbort_Portals_visit_acts
    mySubid parentSubid myXactOwner parentXactOwner n p :
  acts_on n p
    (AtSubAbort_Portals_visit mySubid parentSubid myXactOwner
       parentXactOwner n)
    (fun p' new =>
       sub_aborted mySubid parentSubid p p' /\
       Forall (fun e => is_sub_abort_call e = true) new /\
       sub_abort_calls mySubid myXactOwner n p new).
Proof using cleanup_benign.
  unfold AtSubAbort_Portals_visit.
  repeat acts_step.
  all: unfold sub_aborted, sub_abort_calls, same_identity; leaf.
Qed.

Lemma if_active_not_active (st : PortalStatus) :
  (if bool_decide (st = PORTAL_ACTIVE) then PORTAL_FAILED else st)
  <> PORTAL_ACTIVE.
Proof using Type.
  by destruct (bool_decide (st = PORTAL_ACTIVE)) eqn:Hb;
    [|apply bool_decide_eq_false in Hb].
Qed.

Lemma sub_aborted_trans mySubid parentSubid p p' p'' :
  sub_aborted mySubid parentSubid p p' ->
  sub_aborted mySubid parentSubid p' p'' ->
  sub_aborted mySubid parentSubid p p''.
Proof using Type.
  unfold sub_aborted, same_identity.
  intros (Hmine & Hused & Hother & Hq & Hi)
         (Hmine' & Hused' & Hother' & Hq' & Hi').
  destruct Hi as (? & ? & ? & ? & Hc & ? & ? & ? & ?).
  destruct Hi' as (? & ? & ? & ? & Hc' & ? & ? & ? & ?).
  rewrite Hc in *.
  assert (Hcl : cleanup p = None -> cleanup p' = None).
  { intros Hnone.
    destruct (decide (createSubid p = mySubid)) as [Heq|Hne];
      [by destruct (Hmine Heq) as (_ & -> & _)|].
    destruct (decide (activeSubid p = mySubid)) as [Heqa|Hnea].
    - destruct (Hused Hne Heqa) as (_ & _ & -> & _).
      by destruct (bool_decide (status p = PORTAL_ACTIVE)).
    - by rewrite (Hother Hne Hnea). }
  tidy. split_and!; try congruence.
  - intros Heq. destruct (Hmine Heq) as (Hst & ? & Hcp & ? & ? & ?).
    destruct (Hmine' Heq) as (Hst' & ? & ? & Hsm & ? & ?).
    rewrite Hcp in Hsm.
    rewrite Hst, (bool_decide_eq_false_2 _ (if_active_not_active _)) in Hst'.
    split_and!; congruence.
  - intros Hne Heqa.
    destruct (Hused Hne Heqa) as (Hact & Hst & Hcl1 & Hres & ? & ?).
    assert (Hna : status p' <> PORTAL_ACTIVE)
      by (rewrite Hst; apply if_active_not_active).
    destruct (decide (activeSubid p' = mySubid)) as [Heqa'|Hnea'].
    + destruct (Hused' Hne Heqa') as (? & Hst' & Hcl' & Hres' & ? & ?).
      rewrite (bool_decide_eq_false_2 _ Hna) in Hst', Hcl'.
      split_and!; try congruence.
      rewrite Hres', Hres, Hst.
      destruct (decide (status p = PORTAL_ACTIVE)) as [Ha|Ha].
      * rewrite (bool_decide_eq_true_2 _ Ha).
        rewrite !bool_decide_eq_true_2; [done|by left|by right].
      * rewrite (bool_decide_eq_false_2 _ Ha).
        destruct (decide (status p = PORTAL_FAILED)) as [Hf|Hf].
        -- rewrite !bool_decide_eq_true_2; [done|by right].
        -- rewrite !bool_decide_eq_false_2; [done|by intros [?|?]].
    + rewrite (Hother' Hne Hnea'). by split_and!.
  - intros Hne Hnea. rewrite (Hother Hne Hnea) in *. by apply Hother'.
  - intros Hnone. by rewrite (Hq' (Hcl Hnone)), (Hq Hnone).
Qed.

Lemma AtSubAbort_Portals_scan
    mySubid parentSubid myXactOwner parentXactOwner l s :
  exists s' new,
    hash_seq_for_each
      (AtSubAbort_Portals_visit mySubid parentSubid myXactOwner
         parentXactOwner) l s = Ok tt s' /\
    (forall k, PortalHashTable s !! k = None ->
       PortalHashTable s' !! k = None) /\
    (forall k p, PortalHashTable s !! k = Some p -> k ∉ l ->
       PortalHashTable s' !! k = Some p) /\
    (forall k p, PortalHashTable s !! k = Some p -> k ∈ l ->
       (exists p', PortalHashTable s' !! k = Some p' /\
                   sub_aborted mySubid parentSubid p p') /\
       sub_abort_calls mySubid myXactOwner k p new) /\
    trace s' = trace s ++ new /\
    Forall (fun e => is_sub_abort_call e = true) new /\
    next_address s' = next_address s /\
    CurrentSubTransactionId s' = CurrentSubTransactionId s.
Proof using cleanup_benign.
  apply (hash_seq_for_each_visits _
           (fun _ => True)
           (fun p r => exists p', r = Some p' /\
                                  sub_aborted mySubid parentSubid p p')
           (fun e => is_sub_abort_call e = true)
           (sub_abort_calls mySubid myXactOwner)).
  - intros n p s0 Hp _.
    destruct (acts_on_visits n p _ _ s0
                (AtSubAbort_Portals_visit_acts mySubid parentSubid
                   myXactOwner parentXactOwner n p) Hp)
      as (s' & p' & new & Hm & Hframe & Hp' & Htr & (Hab & HE & HV) & Ha & Hc).
    exists s', new. split_and!; try done. exists p'. by rewrite Hp'.
  - done.
  - intros p p' r _ (? & [= <-] & Hab) (p'' & -> & Hab').
    exists p''. split; [done|]. by eapply sub_aborted_trans.
  - intros n p before evs after (Hhook & Hmine & Hused).
    unfold sub_abort_calls.
    repeat setoid_rewrite elem_of_app. tidy. naive_solver.
  - by intros k p _.
Qed.

(** X20: [AtSubAbort_Portals(mySubid, parentSubid, myXactOwner, ..)],
    when every cleanup hook is benign (it returns normally and changes
    nothing in the registry but the [queryDesc] of the portal it is called
    for), returns and removes no portal.  A portal
    created in [mySubid] is no longer ACTIVE (FAILED if it was), its cleanup
    hook has run if still in place, its cached plan is released, and
    cleanup, cplan and resowner are NULL.  A portal of an upper level that
    was last run in [mySubid] gets activeSubid [parentSubid]; if it was
    ACTIVE it is FAILED and its hook has run, and if it is FAILED, now or
    from before, its resource owner is handed to [myXactOwner] and the field
    cleared.  Every other portal is untouched.  No portal is freed and no
    resource owner released. *)
Theorem AtSubAbort_Portals_shuts_down_subtransaction
    mySubid parentSubid myXactOwner parentXactOwner s :
  exists s' new,
    AtSubAbort_Portals mySubid parentSubid myXactOwner parentXactOwner s
    = Ok tt s' /\
    trace s' = trace s ++ new /\
    (forall n, PortalHashTable s !! n = None ->
       PortalHashTable s' !! n = None) /\
    (forall n p, PortalHashTable s !! n = Some p ->
       exists p',
         PortalHashTable s' !! n = Some p' /\
         sub_aborted mySubid parentSubid p p' /\
         (createSubid p = mySubid -> status p' <> PORTAL_ACTIVE) /\
         (forall hook, cleanup p = Some hook ->
            createSubid p = mySubid \/
            (activeSubid p = mySubid /\ status p = PORTAL_ACTIVE) ->
            Ev_cleanup hook n ∈ new) /\
         (createSubid p = mySubid ->
          Ev_MemoryContextDeleteChildren (heap p) ∈ new /\
          forall plan, cplan p = Some plan ->
            Ev_ReleaseCachedPlan plan false ∈ new) /\
         (createSubid p <> mySubid -> activeSubid p = mySubid ->
          status p = PORTAL_ACTIVE \/ status p = PORTAL_FAILED ->
          forall owner, resowner p = Some owner ->
            Ev_ResourceOwnerNewParent owner myXactOwner ∈ new)) /\
    (forall e, e ∈ new -> is_sub_abort_call e = true).
Proof using cleanup_benign hash_seq_complete.
  unfold AtSubAbort_Portals.
  erewrite (bind_of_Ok hash_seq_init); [|reflexivity].
  destruct (AtSubAbort_Portals_scan mySubid parentSubid myXactOwner
              parentXactOwner (hash_seq_order (PortalHashTable s)) s)
    as (s' & new & Hscan & Hnone & _ & Hin & Htr & HE & Ha & Hc).
  exists s', new. split_and!; try done.
  - intros n p Hp.
    destruct (Hin n p Hp (hash_seq_complete _ _ _ Hp))
      as [(p' & Hp' & Hab) (Hhook & Hmine & Hused)].
    exists p'. split_and!; try done.
    intros Heq. destruct Hab as (Hm & _). destruct (Hm Heq) as (-> & _).
    apply if_active_not_active.
  - by apply Forall_forall.
Qed.

(** X21: abort processing of a subtransaction as xact.c runs it,
    [AtSubAbort_Portals] and then [AtSubCleanup_Portals], goes through
    when every cleanup hook is benign (it returns normally and changes
    nothing in the registry but the [queryDesc] of the portal it is called
    for).  Every portal created in
    [mySubid] is gone, pinned or not; every other portal is still there,
    and if [parentSubid] differs from [mySubid] no remaining portal names
    [mySubid] as its createSubid or activeSubid. *)
Theorem subabort_then_subcleanup_leaves_outer_portals
    mySubid parentSubid myXactOwner parentXactOwner s :
  exists s',
    (AtSubAbort_Portals mySubid parentSubid myXactOwner parentXactOwner ;;
     AtSubCleanup_Portals mySubid) s = Ok tt s' /\
    (forall n, PortalHashTable s !! n = None ->
       PortalHashTable s' !! n = None) /\
    (forall n p, PortalHashTable s !! n = Some p ->
       createSubid p = mySubid -> PortalHashTable s' !! n = None) /\
    (forall n p, PortalHashTable s !! n = Some p ->
       createSubid p <> mySubid ->
       exists p', PortalHashTable s' !! n = Some p' /\
                  sub_aborted mySubid parentSubid p p') /\
    (parentSubid <> mySubid ->
     forall n p', PortalHashTable s' !! n = Some p' ->
       createSubid p' <> mySubid /\ activeSubid p' <> mySubid).
Proof using cleanup_benign hash_seq_complete.
  destruct (AtSubAbort_Portals_scan mySubid parentSubid myXactOwner
              parentXactOwner (hash_seq_order (PortalHashTable s)) s)
    as (s1 & new1 & Hscan1 & Hnone1 & _ & Hin1 & _).
  assert (Habort : AtSubAbort_Portals mySubid parentSubid myXactOwner
                     parentXactOwner s = Ok tt s1).
  { unfold AtSubAbort_Portals.
    by erewrite (bind_of_Ok hash_seq_init); [|reflexivity]. }
  rewrite (bind_of_Ok _ _ _ _ _ Habort).
  assert (Hfrom : forall n p1, PortalHashTable s1 !! n = Some p1 ->
            exists p, PortalHashTable s !! n = Some p /\
                      sub_aborted mySubid parentSubid p p1).
  { intros n p1 Hp1. destruct (PortalHashTable s !! n) as [p|] eqn:Hp.
    - destruct (Hin1 n p Hp (hash_seq_complete _ _ _ Hp))
        as [(p' & Hp' & Hab) _].
      exists p. split; [done|]. congruence.
    - rewrite (Hnone1 n Hp) in Hp1. discriminate. }
  assert (Hsame : forall p p1, sub_aborted mySubid parentSubid p p1 ->
            createSubid p1 = createSubid p).
  { by intros p p1 (_ & _ & _ & _ & _ & _ & _ & _ & -> & _). }
  unfold AtSubCleanup_Portals.
  erewrite (bind_of_Ok hash_seq_init); [|reflexivity].
  destruct (cleanup_scan _ _ (AtSubCleanup_Portals_visit_Ok mySubid)
              (hash_seq_order (PortalHashTable s1)) s1)
    as (s' & new & Hscan & Hnone & _ & Hin & _).
  { intros n p1 Hp1 Hc. destruct (Hfrom n p1 Hp1) as (p & _ & Hab).
    apply Nat.eqb_eq in Hc. rewrite (Hsame _ _ Hab) in Hc.
    destruct Hab as (Hm & _). destruct (Hm Hc) as (-> & _).
    apply if_active_not_active. }
  exists s'. split; [exact Hscan|].
  assert (Hto : forall n p, PortalHashTable s !! n = Some p ->
            exists p1, sub_aborted mySubid parentSubid p p1 /\
              PortalHashTable s' !! n
              = if (createSubid p =? mySubid)%nat then None else Some p1).
  { intros n p Hp.
    destruct (Hin1 n p Hp (hash_seq_complete _ _ _ Hp))
      as [(p1 & Hp1 & Hab) _].
    exists p1. split; [done|].
    destruct (Hin n p1 Hp1 (hash_seq_complete _ _ _ Hp1)) as [-> _].
    by rewrite (Hsame _ _ Hab). }
  split_and!.
  - intros n Hn. by apply Hnone, Hnone1.
  - intros n p Hp Hc. destruct (Hto n p Hp) as (p1 & _ & ->).
    by rewrite (proj2 (Nat.eqb_eq _ _) Hc).
  - intros n p Hp Hc. destruct (Hto n p Hp) as (p1 & Hab & ->).
    rewrite (proj2 (Nat.eqb_neq _ _) Hc). by exists p1.
  - intros Hparent n p' Hp'.
    destruct (PortalHashTable s !! n) as [p|] eqn:Hp.
    + destruct (Hto n p Hp) as (p1 & Hab & Heq). rewrite Hp' in Heq.
      destruct (createSubid p =? mySubid)%nat eqn:Hc; [done|].
      injection Heq as ->. apply Nat.eqb_neq in Hc.
      split; [by rewrite (Hsame _ _ Hab)|].
      destruct Hab as (_ & Hused & Hother & _).
      destruct (decide (activeSubid p = mySubid)) as [Heqa|Hnea].
      * destruct (Hused Hc Heqa) as (-> & _). done.
      * by rewrite (Hother Hc Hnea).
    + rewrite (Hnone n (Hnone1 n Hp)) in Hp'. discriminate.
Qed.

(** ** Pre-commit, for every portal *)

(** What one visit of [PreCommit_Portals] does with the struct [p] it finds
    under [n] in the table [t]: the result of the visit and the table it
    leaves. *)
Definition visit_outcome (n : string) (p : PortalData)
    (t : gmap string PortalData) (b : bool) (t' : gmap string PortalData)
  : Prop :=
  (status p = PORTAL_ACTIVE /\ b = false /\
   t' = <[n := set_resowner None p]> t) \/
  (holdable_in_current_xact p = true /\ b = true /\
   exists p' context tuplestore,
     t' = <[n := p']> t /\ materialized p p' context tuplestore) \/
  (status p <> PORTAL_ACTIVE /\ holdable_in_current_xact p = false /\
   createSubid p = InvalidSubTransactionId /\ b = false /\ t' = t) \/
  (status p <> PORTAL_ACTIVE /\ holdable_in_current_xact p = false /\
   createSubid p <> InvalidSubTransactionId /\ b = true /\ t' = delete n t).

Lemma PreCommit_Portals_visit_Ok isPrepare n p s :
  PortalHashTable s !! n = Some p -> portalPinned p = false ->
  (isPrepare = true -> holdable_in_current_xact p = false) ->
  exists b s',
    PreCommit_Portals_visit isPrepare n s = Ok b s' /\
    visit_outcome n p (PortalHashTable s) b (PortalHashTable s').
Proof using cleanup_benign persist_benign.
  intros Hp Hnp Hprep. unfold visit_outcome.
  destruct (decide (status p = PORTAL_ACTIVE)) as [Hact|Hact].
  { exists false. eexists. split.
    { unfold PreCommit_Portals_visit.
      rewrite (bind_of_Ok _ _ _ _ _ (deref_Ok _ _ _ Hp)), Hnp.
      rewrite bool_decide_eq_true_2 by done.
      erewrite (bind_of_Ok (store _ _)); [|by apply store_Ok]. reflexivity. }
    by left. }
  destruct (holdable_in_current_xact p) eqn:Hhold.
  { destruct isPrepare; [by discriminate Hprep|].
    destruct (PreCommit_Portals_visit_holdable n p s Hp Hnp Hhold)
      as (p' & Hvisit & Hm).
    exists true. eexists. split; [exact Hvisit|].
    right; left. split_and!; try done. by eexists p', _, _. }
  destruct (createSubid p =? InvalidSubTransactionId)%nat eqn:Hsub.
  { exists false, s. split.
    { unfold PreCommit_Portals_visit.
      rewrite (bind_of_Ok _ _ _ _ _ (deref_Ok _ _ _ Hp)), Hnp, Hhold, Hsub.
      by rewrite bool_decide_eq_false_2. }
    do 2 right; left. split_and!; try done. by apply Nat.eqb_eq. }
  destruct (PortalDrop_Ok n true p s Hp Hnp Hact) as [q Hdrop].
  exists true. eexists. split.
  { unfold PreCommit_Portals_visit.
    rewrite (bind_of_Ok _ _ _ _ _ (deref_Ok _ _ _ Hp)), Hnp, Hhold, Hsub.
    rewrite bool_decide_eq_false_2 by done.
    rewrite (bind_of_Ok _ _ _ _ _ Hdrop). reflexivity. }
  do 3 right. split_and!; try done. by apply Nat.eqb_neq.
Qed.

(** A portal that [PreCommit_Portals] has nothing left to do for. *)
Definition settled (q : PortalData) : Prop :=
  changeable q = false /\ (status q = PORTAL_ACTIVE -> resowner q = None).

(** How far [PreCommit_Portals] has got with a portal found as [p] when
    it started: [r] is what the table holds for it now. *)
Definition precommit_progress (p : PortalData) (r : option PortalData)
  : Prop :=
  r = Some p \/
  (status p = PORTAL_ACTIVE /\ r = Some (set_resowner None p)) \/
  (holdable_in_current_xact p = true /\
   exists p' context tuplestore,
     r = Some p' /\ materialized p p' context tuplestore) \/
  (status p <> PORTAL_ACTIVE /\ holdable_in_current_xact p = false /\
   createSubid p <> InvalidSubTransactionId /\ r = None).

Definition precommit_inv (t0 t : gmap string PortalData) : Prop :=
  forall n,
    match t0 !! n with
    | Some p => precommit_progress p (t !! n)
    | None => t !! n = None
    end.

(** PREPARE goes through only if no holdable portal of the transaction is
    there. *)
Definition preparable (isPrepare : bool) (t : gmap string PortalData)
  : Prop :=
  isPrepare = true ->
  forall n p, t !! n = Some p -> holdable_in_current_xact p = false.

Lemma changeable_set_resowner r p :
  changeable (set_resowner r p) = changeable p.
Proof using Type. done. Qed.

Lemma holdable_set_resowner r p :
  holdable_in_current_xact (set_resowner r p) = holdable_in_current_xact p.
Proof using Type. done. Qed.

Lemma materialized_not_holdable p p' context tuplestore :
  materialized p p' context tuplestore ->
  holdable_in_current_xact p' = false /\ changeable p' = false.
Proof using Type.
  intros (_ & _ & _ & _ & _ & Hc & _).
  unfold holdable_in_current_xact, changeable.
  by rewrite Hc, Nat.eqb_refl, !andb_false_r.
Qed.

Lemma holdable_changeable p :
  holdable_in_current_xact p = true ->
  changeable p = true /\ status p <> PORTAL_ACTIVE.
Proof using Type.
  intros [Hs Hc]%holdable_in_current_xact_spec. unfold changeable.
  rewrite bool_decide_eq_false_2 by (rewrite Hs; discriminate).
  rewrite (proj2 (Nat.eqb_neq _ _) Hc). split; [done|]. by rewrite Hs.
Qed.

Lemma not_active_changeable p :
  status p <> PORTAL_ACTIVE -> createSubid p <> InvalidSubTransactionId ->
  changeable p = true.
Proof using Type.
  intros Hs Hc. unfold changeable.
  by rewrite bool_decide_eq_false_2, (proj2 (Nat.eqb_neq _ _) Hc).
Qed.

Lemma visit_outcome_keeps isPrepare t0 n p t b t' :
  t !! n = Some p ->
  visit_outcome n p t b t' ->
  no_portal_pinned t -> precommit_inv t0 t -> preparable isPrepare t ->
  no_portal_pinned t' /\ precommit_inv t0 t' /\ preparable isPrepare t' /\
  (restarts_left t' + (if b then 1 else 0) <= restarts_left t)%nat.
Proof using Type.
  intros Hp Hout Hpin Hinv Hprep.
  assert (Hnp : portalPinned p = false) by (by eapply Hpin).
  (* the struct [p0] that the visited one has come from *)
  assert (Hfrom : exists p0, t0 !! n = Some p0 /\ precommit_progress p0 (Some p)).
  { specialize (Hinv n). rewrite Hp in Hinv.
    destruct (t0 !! n) as [p0|]; [by exists p0|done]. }
  destruct Hfrom as (p0 & Hp0 & Hprog).
  assert (Hinv' : forall r, t' !! n = r ->
            (forall k, k <> n -> t' !! k = t !! k) ->
            precommit_progress p0 r -> precommit_inv t0 t').
  { intros r Hr Hframe Hpr k. destruct (decide (k = n)) as [->|Hne].
    - by rewrite Hp0, Hr.
    - specialize (Hinv k). by rewrite Hframe. }
  destruct Hout as [(Hact & -> & ->)|[(Hhold & -> & p' & c & ts & -> & Hm)
    |[(Hact & Hhold & Hsub & -> & ->)|(Hact & Hhold & Hsub & -> & ->)]]].
  - (* active: the resource owner is forgotten *)
    split_and!.
    + by apply no_portal_pinned_insert.
    + apply (Hinv' (Some (set_resowner None p)));
        [apply lookup_insert_eq|by intros k Hne; rewrite lookup_insert_ne|].
      destruct Hprog as [[= ->]|[(Hact0 & [= ->])|[(Hhold0 & p1 & c & ts & [= <-] & Hm)
        |(_ & _ & _ & [=])]]].
      * by right; left.
      * right; left. by split.
      * destruct Hm as (_ & _ & _ & _ & _ & _ & _ & Hst & _).
        destruct (holdable_changeable p0 Hhold0) as [_ Hna].
        rewrite Hact in Hst. by rewrite <- Hst in Hna.
    + intros Hpre k q [(<- & <-)|[_ Hq]]%lookup_insert_Some.
      * rewrite holdable_set_resowner. by eapply Hprep.
      * by eapply Hprep.
    + by erewrite restarts_left_insert_same, Nat.add_0_r.
  - (* holdable: materialized *)
    destruct (materialized_not_holdable _ _ _ _ Hm) as [Hnh Hnc].
    destruct (holdable_changeable p Hhold) as [Hch Hna].
    split_and!.
    + apply no_portal_pinned_insert; [done|].
      by destruct Hm as (_ & _ & _ & _ & _ & _ & _ & _ & -> & _).
    + apply (Hinv' (Some p'));
        [apply lookup_insert_eq|by intros k Hne; rewrite lookup_insert_ne|].
      destruct Hprog as [[= ->]|[(Hact0 & [= ->])|[(Hhold0 & p1 & c1 & ts1 & [= <-] & Hm1)
        |(_ & _ & _ & [=])]]].
      * right; right; left. split; [done|]. by exists p', c, ts.
      * done.
      * destruct (materialized_not_holdable _ _ _ _ Hm1). congruence.
    + intros Hpre k q [(<- & <-)|[_ Hq]]%lookup_insert_Some; [done|].
      by eapply Hprep.
    + rewrite Nat.add_1_r. apply Nat.le_succ_l.
      by eapply restarts_left_insert_lt.
  - (* held over: left alone *)
    split_and!; try done. lia.
  - (* anything else: dropped *)
    split_and!.
    + by apply no_portal_pinned_delete.
    + apply (Hinv' None);
        [apply lookup_delete_eq|by intros k Hne; rewrite lookup_delete_ne|].
      destruct Hprog as [[= ->]|[(Hact0 & [= ->])|[(Hhold0 & p1 & c1 & ts1 & [= <-] & Hm1)
        |(_ & _ & _ & [=])]]].
      * by do 3 right.
      * done.
      * by destruct Hm1 as (_ & _ & _ & _ & _ & ? & _).
    + intros Hpre k q [_ Hq]%lookup_delete_Some. by eapply Hprep.
    + rewrite Nat.add_1_r. apply Nat.le_succ_l.
      eapply restarts_left_delete_lt; [done|]. by apply not_active_changeable.
Qed.

(** What a scan that reports no change has done: it has cleared the
    resource owner of ACTIVE portals and nothing else. *)
Definition quiet_scan (t t' : gmap string PortalData) : Prop :=
  forall k,
    t' !! k = t !! k \/
    exists q, t !! k = Some q /\ status q = PORTAL_ACTIVE /\
              t' !! k = Some (set_resowner None q).

Lemma PreCommit_Portals_scan_progress isPrepare t0 l s :
  no_portal_pinned (PortalHashTable s) ->
  precommit_inv t0 (PortalHashTable s) ->
  preparable isPrepare (PortalHashTable s) ->
  exists b s',
    PreCommit_Portals_scan isPrepare l s = Ok b s' /\
    no_portal_pinned (PortalHashTable s') /\
    precommit_inv t0 (PortalHashTable s') /\
    preparable isPrepare (PortalHashTable s') /\
    (restarts_left (PortalHashTable s') + (if b then 1 else 0)
     <= restarts_left (PortalHashTable s))%nat /\
    (b = false ->
     quiet_scan (PortalHashTable s) (PortalHashTable s') /\
     forall k q, k ∈ l -> PortalHashTable s' !! k = Some q -> settled q).
Proof using cleanup_benign persist_benign.
  revert s. induction l as [|n l IH]; intros s Hpin Hinv Hprep.
  { exists false, s. simpl. split_and!; try done; [lia|].
    intros _. split; [by left|]. by intros k q ?%elem_of_nil. }
  simpl. rewrite (bind_of_Ok _ _ s s s (eq_refl : get s = Ok s s)).
  destruct (PortalHashTable s !! n) as [p|] eqn:Hp.
  - destruct (PreCommit_Portals_visit_Ok isPrepare n p s Hp)
      as (b & s1 & Hvisit & Hout);
      [by eapply Hpin|by intros Hpre; eapply Hprep|].
    destruct (visit_outcome_keeps isPrepare t0 n p _ b _ Hp Hout Hpin Hinv Hprep)
      as (Hpin1 & Hinv1 & Hprep1 & Hle1).
    rewrite (bind_of_Ok _ _ _ _ _ Hvisit). destruct b.
    { exists true, s1. by split_and!. }
    destruct (IH s1 Hpin1 Hinv1 Hprep1)
      as (b & s2 & Hscan & Hpin2 & Hinv2 & Hprep2 & Hle2 & Hquiet).
    exists b, s2. split_and!; try done; [lia|].
    intros ->. destruct (Hquiet eq_refl) as [Hq2 Hset2].
    (* what the quiet visit of [n] has done *)
    assert (Hq1 : quiet_scan (PortalHashTable s) (PortalHashTable s1) /\
                  forall q, PortalHashTable s1 !! n = Some q -> settled q).
    { destruct Hout as [(Hact & _ & ->)|[(_ & [=] & _)
        |[(Hact & Hhold & Hsub & _ & ->)|(_ & _ & _ & [=] & _)]]].
      - split.
        + intros k. destruct (decide (k = n)) as [->|Hne].
          * right. exists p. by rewrite lookup_insert_eq.
          * left. by rewrite lookup_insert_ne.
        + intros q. rewrite lookup_insert_eq. intros [= <-].
          split; [|done]. unfold changeable. simpl.
          by rewrite bool_decide_eq_true_2.
      - split; [by left|]. intros q Hq. assert (q = p) as -> by congruence.
        split; [|done]. unfold changeable.
        by rewrite Hsub, Nat.eqb_refl, andb_false_r. }
    destruct Hq1 as [Hq1 Hset1]. split.
    + intros k. destruct (Hq1 k) as [Hk1|(q & Hk & Ha & Hk1)],
        (Hq2 k) as [Hk2|(q' & Hk' & Ha' & Hk2)].
      * left. congruence.
      * right. exists q'. split_and!; congruence.
      * right. exists q. split_and!; congruence.
      * right. exists q. split_and!; try done.
        rewrite Hk1 in Hk'. injection Hk' as <-. by rewrite Hk2.
    + intros k q [->|Hel]%elem_of_cons Hk; [|by eapply Hset2].
      destruct (Hq2 n) as [Hk2|(q' & Hk' & Ha' & Hk2)].
      * apply Hset1. congruence.
      * rewrite Hk in Hk2. injection Hk2 as ->.
        destruct (Hset1 q' Hk') as [Hch _]. by split.
  - destruct (IH s Hpin Hinv Hprep)
      as (b & s2 & Hscan & Hpin2 & Hinv2 & Hprep2 & Hle2 & Hquiet).
    exists b, s2. split_and!; try done.
    intros ->. destruct (Hquiet eq_refl) as [Hq2 Hset2]. split; [done|].
    intros k q [->|Hel]%elem_of_cons Hk; [|by eapply Hset2].
    destruct (Hq2 n) as [Hk2|(q' & Hk' & _)]; congruence.
Qed.

Lemma restarts_left_0 t :
  restarts_left t = 0%nat <->
  forall n p, t !! n = Some p -> changeable p = false.
Proof using Type.
  unfold restarts_left. split.
  - intros Hz n p Hp. destruct (changeable p) eqn:Hc; [|done].
    apply map_size_empty_iff in Hz.
    assert (filter (fun kv : string * PortalData => changeable kv.2 = true) t
            !! n = Some p) as Hin by (by apply map_lookup_filter_Some).
    rewrite Hz in Hin. by rewrite lookup_empty in Hin.
  - intros Hall. apply map_size_empty_iff, map_empty. intros n.
    apply map_lookup_filter_None. right. intros p Hp. simpl.
    by rewrite (Hall n p Hp).
Qed.

Lemma PreCommit_Portals_loop_general isPrepare t0 fuel result s :
  (restarts_left (PortalHashTable s) <= fuel)%nat ->
  no_portal_pinned (PortalHashTable s) ->
  precommit_inv t0 (PortalHashTable s) ->
  preparable isPrepare (PortalHashTable s) ->
  exists r s',
    PreCommit_Portals_loop fuel isPrepare result s = Ok (Some r) s' /\
    precommit_inv t0 (PortalHashTable s') /\
    (forall k q, PortalHashTable s' !! k = Some q -> settled q) /\
    (r = true <->
     result = true \/ restarts_left (PortalHashTable s) <> 0%nat).
Proof using cleanup_benign persist_benign hash_seq_complete.
  revert result s.
  induction fuel as [|fuel IH]; intros result s Hfuel Hpin Hinv Hprep;
    rewrite PreCommit_Portals_loop_eq;
    (erewrite (bind_of_Ok hash_seq_init); [|reflexivity]);
    destruct (PreCommit_Portals_scan_progress isPrepare t0
                (hash_seq_order (PortalHashTable s)) s Hpin Hinv Hprep)
      as (b & s1 & Hscan & Hpin1 & Hinv1 & Hprep1 & Hle1 & Hquiet);
    rewrite (bind_of_Ok _ _ _ _ _ Hscan);
    (destruct b;
     [|destruct (Hquiet eq_refl) as [Hq Hset];
       assert (Hall : forall k q, PortalHashTable s1 !! k = Some q -> settled q);
       [intros k q Hk; apply (Hset k q); [|done];
        destruct (Hq k) as [Hk1|(q' & Hk' & _)];
          [rewrite Hk1 in Hk|]; by eapply hash_seq_complete|];
       exists result, s1; split_and!; [done|done|done|];
       assert (Hzero : restarts_left (PortalHashTable s) = 0%nat);
       [apply restarts_left_0; intros n p Hp;
        destruct (Hq n) as [Hk1|(q' & Hk' & Ha & Hk1)];
          [rewrite Hp in Hk1; by destruct (Hall n p Hk1)
          |assert (q' = p) as -> by congruence;
           unfold changeable; by rewrite bool_decide_eq_true_2]|];
       rewrite Hzero; split; [by left|by intros [?|?]]]).
  - lia.
  - destruct (IH true s1 ltac:(lia) Hpin1 Hinv1 Hprep1)
      as (r & s2 & Hloop & Hinv2 & Hset2 & Hr).
    exists r, s2. split_and!; [done|done|done|].
    split; [intros _; right; lia|]. intros _. apply Hr. by left.
Qed.

(** X22: [PreCommit_Portals], when no portal is pinned, the cleanup hooks
    and [PersistHoldablePortal] are benign (they return normally and change
    nothing in the registry but the [queryDesc] of the portal they are
    called for) and, for PREPARE, the transaction has no holdable portal,
    returns, and one restart per portal is fuel enough.
    It adds no portal.  An ACTIVE portal stays, with resowner NULL.  A
    portal held over from an earlier transaction is not touched.  A holdable
    portal of this transaction stays, materialized.  Every other portal is
    dropped.  The result is true exactly if the table held a portal that is
    not ACTIVE and has a valid createSubid. *)
Theorem PreCommit_Portals_settles_every_portal isPrepare fuel s :
  (forall n p, PortalHashTable s !! n = Some p -> portalPinned p = false) ->
  (size (PortalHashTable s) <= fuel)%nat ->
  (isPrepare = true ->
   forall n p, PortalHashTable s !! n = Some p ->
     holdable_in_current_xact p = false) ->
  exists r s',
    PreCommit_Portals fuel isPrepare s = Ok (Some r) s' /\
    (r = true <->
     exists n p, PortalHashTable s !! n = Some p /\
       status p <> PORTAL_ACTIVE /\
       createSubid p <> InvalidSubTransactionId) /\
    (forall n, PortalHashTable s !! n = None ->
       PortalHashTable s' !! n = None) /\
    (forall n p, PortalHashTable s !! n = Some p ->
       (status p = PORTAL_ACTIVE ->
        PortalHashTable s' !! n = Some (set_resowner None p)) /\
       (status p <> PORTAL_ACTIVE ->
        createSubid p = InvalidSubTransactionId ->
        PortalHashTable s' !! n = Some p) /\
       (holdable_in_current_xact p = true ->
        exists p' context tuplestore,
          PortalHashTable s' !! n = Some p' /\
          materialized p p' context tuplestore) /\
       (status p <> PORTAL_ACTIVE ->
        createSubid p <> InvalidSubTransactionId ->
        holdable_in_current_xact p = false ->
        PortalHashTable s' !! n = None)).
Proof using cleanup_benign persist_benign hash_seq_complete.
  intros Hpin Hfuel Hprep.
  destruct (PreCommit_Portals_loop_general isPrepare (PortalHashTable s)
              fuel false s)
    as (r & s' & Hloop & Hinv & Hset & Hr); [|done| |done|].
  { etrans; [apply restarts_left_le_size|done]. }
  { intros n. destruct (PortalHashTable s !! n); [by left|done]. }
  exists r, s'. split_and!; [exact Hloop| | |].
  - rewrite Hr. split.
    + intros [?|Hne]; [done|].
      apply map_size_ne_0_lookup in Hne as [n [p Hp]].
      apply map_lookup_filter_Some in Hp as [Hp Hc]. simpl in Hc.
      exists n, p. split; [done|]. unfold changeable in Hc.
      apply andb_true_iff in Hc as [Ha Hc].
      split; [by apply negb_true_iff, bool_decide_eq_false in Ha|].
      by apply negb_true_iff, Nat.eqb_neq in Hc.
    + intros (n & p & Hp & Ha & Hc). right.
      intros Hz. rewrite restarts_left_0 in Hz.
      specialize (Hz n p Hp).
      by rewrite (not_active_changeable p Ha Hc) in Hz.
  - intros n Hn. specialize (Hinv n). by rewrite Hn in Hinv.
  - intros n p Hp. specialize (Hinv n). rewrite Hp in Hinv.
    destruct Hinv as [Hr0|[(Hact & Hr0)|[(Hhold & p' & c & ts & Hr0 & Hm)
      |(Hact & Hhold & Hsub & Hr0)]]].
    + destruct (Hset n p Hr0) as [Hch Hres]. split_and!.
      * intros Hact. rewrite Hr0. f_equal.
        specialize (Hres Hact). destruct p. simpl in *. by subst.
      * done.
      * intros Hhold. destruct (holdable_changeable p Hhold). congruence.
      * intros Ha Hc _. rewrite (not_active_changeable p Ha Hc) in Hch.
        discriminate.
    + split_and!; try done.
      intros Hhold. by destruct (holdable_changeable p Hhold).
    + destruct (holdable_changeable p Hhold) as [_ Hna].
      destruct (holdable_in_current_xact_spec p Hhold) as [_ Hc].
      split_and!; try done; [|congruence]. by exists p', c, ts.
    + split_and!; try done. congruence.
Qed.

(** ** Pinning, running and dropping one portal *)

Lemma PinPortal_Ok portal p s :
  PortalHashTable s !! portal = Some p -> portalPinned p = false ->
  PinPortal portal s
  = Ok tt (set_PortalHashTable
             (<[portal := set_portalPinned true p]> (PortalHashTable s)) s).
Proof using Type.
  intros Hp Hpin. unfold PinPortal.
  rewrite (bind_of_Ok _ _ _ _ _ (deref_Ok _ _ _ Hp)), Hpin.
  by apply store_Ok.
Qed.

(** X23: [PinPortal] and [UnpinPortal] are a balanced pair.  Pinning a
    portal that is not pinned sets the flag and nothing else; while it is
    pinned, a second [PinPortal] raises ERROR and [PortalDrop] refuses with
    ERRCODE_INVALID_CURSOR_STATE; [UnpinPortal] then gives back the registry
    as it was before the pin, and a second [UnpinPortal] raises ERROR.  None
    of the errors changes anything. *)
Theorem PinPortal_UnpinPortal_round_trip portal p isTopCommit s :
  PortalHashTable s !! portal = Some p -> portalPinned p = false ->
  exists s1,
    PinPortal portal s = Ok tt s1 /\
    PortalHashTable s1
    = <[portal := set_portalPinned true p]> (PortalHashTable s) /\
    PinPortal portal s1 = Raise ERROR ERRCODE_INTERNAL_ERROR s1 /\
    PortalDrop portal isTopCommit s1
    = Raise ERROR ERRCODE_INVALID_CURSOR_STATE s1 /\
    UnpinPortal portal s1 = Ok tt s /\
    UnpinPortal portal s = Raise ERROR ERRCODE_INTERNAL_ERROR s.
Proof using Type.
  intros Hp Hpin. eexists. split; [by apply PinPortal_Ok|].
  set (s1 := set_PortalHashTable _ s).
  assert (Hp1 : PortalHashTable s1 !! portal = Some (set_portalPinned true p))
    by apply lookup_insert_eq.
  split_and!.
  - done.
  - unfold PinPortal. by rewrite (bind_of_Ok _ _ _ _ _ (deref_Ok _ _ _ Hp1)).
  - by apply (PortalDrop_refuses _ _ _ _ Hp1); left.
  - unfold UnpinPortal. rewrite (bind_of_Ok _ _ _ _ _ (deref_Ok _ _ _ Hp1)).
    simpl. rewrite (store_Ok _ _ _ _ Hp1). f_equal.
    apply registry_eq; simpl; try done.
    rewrite insert_insert_eq, insert_id; [done|].
    rewrite Hp. f_equal. destruct p. simpl in *. by subst.
  - unfold UnpinPortal.
    by rewrite (bind_of_Ok _ _ _ _ _ (deref_Ok _ _ _ Hp)), Hpin.
Qed.

Lemma MarkPortalActive_Ok portal p s :
  PortalHashTable s !! portal = Some p -> status p = PORTAL_READY ->
  MarkPortalActive portal s
  = Ok tt (set_PortalHashTable
             (<[portal := set_activeSubid (CurrentSubTransactionId s)
                            (set_status PORTAL_ACTIVE p)]>
                (PortalHashTable s)) s).
Proof using Type.
  intros Hp Hready. unfold MarkPortalActive.
  rewrite (bind_of_Ok _ _ _ _ _ (deref_Ok _ _ _ Hp)).
  rewrite bool_decide_eq_true_2 by done.
  erewrite (bind_of_Ok (store _ _)); [|by apply store_Ok].
  erewrite (bind_of_Ok get); [|reflexivity].
  erewrite store_Ok; [|simpl; apply lookup_insert_eq].
  f_equal. apply registry_eq; simpl; try done. by rewrite insert_insert_eq.
Qed.

Lemma filter_hook_calls_tail portal p isTopCommit :
  filter (fun e => is_hook_call e = true)
    (PortalDrop_tail_events portal p isTopCommit) = [].
Proof using Type.
  pose proof (PortalDrop_tail_events_no_hook portal p isTopCommit) as H.
  induction H as [|e l He _ IH]; [done|].
  rewrite filter_cons. rewrite He. by case_decide.
Qed.

(** X24: a portal that is run to its end has its cleanup hook called
    once, provided the hook is benign (it returns normally and changes
    nothing in the registry but the [queryDesc] of the portal it is called
    for).  For a READY portal that is not pinned, [MarkPortalActive], then
    [MarkPortalDone] or [MarkPortalFailed], then [PortalDrop] all return and
    the portal is gone; the hook, if one is set, is called by the second
    step and not again by [PortalDrop], although both contain the call.
    The resource owner is released by [PortalDrop] as for a commit after
    [MarkPortalDone] (and not at all at top-level commit), and as for an
    abort after [MarkPortalFailed], top-level commit or not. *)
Theorem portal_run_to_its_end portal p (failed : bool) isTopCommit s :
  PortalHashTable s !! portal = Some p ->
  status p = PORTAL_READY -> portalPinned p = false ->
  exists new,
    (MarkPortalActive portal ;;
     (if failed then MarkPortalFailed portal
      else MarkPortalDone portal) ;;
     PortalDrop portal isTopCommit) s
    = Ok tt (dropped portal new s) /\
    filter (fun e => is_hook_call e = true) new
    = match cleanup p with
      | Some hook => [Ev_cleanup hook portal]
      | None => []
      end /\
    filter (fun e => is_resowner_event e = true) new
    = match resowner p with
      | Some owner =>
          if negb isTopCommit || failed then
            [Ev_ResourceOwnerRelease owner RESOURCE_RELEASE_BEFORE_LOCKS
               (negb failed) false;
             Ev_ResourceOwnerRelease owner RESOURCE_RELEASE_LOCKS
               (negb failed) false;
             Ev_ResourceOwnerRelease owner RESOURCE_RELEASE_AFTER_LOCKS
               (negb failed) false;
             Ev_ResourceOwnerDelete owner]
          else []
      | None => []
      end.
Proof using cleanup_benign.
  intros Hp Hready Hpin.
  rewrite (bind_of_Ok _ _ _ _ _ (MarkPortalActive_Ok _ _ _ Hp Hready)).
  set (st := if failed then PORTAL_FAILED else PORTAL_DONE).
  set (p1 := set_activeSubid (CurrentSubTransactionId s)
               (set_status PORTAL_ACTIVE p)).
  (* the second step *)
  assert (Hmark : acts_on portal p1
            (if failed then MarkPortalFailed portal else MarkPortalDone portal)
            (fun p2 e2 =>
               (exists q, p2 = set_cleanup None (set_queryDesc q
                                 (set_status st p1))) /\
               e2 = cleanup_event portal p)).
  { unfold st. destruct failed; unfold MarkPortalFailed, MarkPortalDone;
      repeat acts_step; unfold cleanup_event; simpl;
      repeat match goal with H : ?x = _ |- context [?x] => rewrite H end;
      (split; [|done]); eauto.
    all: exists (queryDesc p); unfold p1; destruct p; simpl in *; by subst. }
  destruct (Hmark (set_PortalHashTable
                     (<[portal := p1]> (PortalHashTable s)) s))
    as (p2 & e2 & Hrun & (q & ->) & ->);
    [simpl; apply lookup_insert_eq|].
  rewrite (bind_of_Ok _ _ _ _ _ Hrun). clear Hrun Hmark.
  erewrite PortalDrop_plain;
    [|simpl; apply lookup_insert_eq|done
     |unfold st; by destruct failed|done].
  eexists. split.
  { f_equal. unfold dropped. apply registry_eq; simpl; try done.
    - by rewrite !delete_insert_eq.
    - by rewrite <- app_assoc. }
  rewrite !filter_app, filter_hook_calls_tail, filter_resowner_tail, app_nil_r.
  split.
  - unfold cleanup_event. destruct (cleanup p); [|done].
    rewrite filter_cons, filter_nil. by case_decide.
  - assert (filter (fun e => is_resowner_event e = true)
              (cleanup_event portal p) = []) as ->
      by (unfold cleanup_event; by destruct (cleanup p)).
    unfold expected_release, st. simpl.
    destruct (resowner p); [|done]. by destruct failed, isTopCommit.
Qed.

(** X25: [PortalDrop] of a portal that is neither pinned nor ACTIVE,
    whatever its cleanup hook does.  The hook, if one is in place, is
    called first.  If it leaves by [ereport], so does [PortalDrop], in the
    state the hook left and with the hash entry still there.  With no hook,
    or once the hook has returned (leaving the portal in the table),
    [PortalDrop] returns: the hash entry is gone, every other entry is as
    the hook left it, and the calls made after the hook are, in order and
    read off
    the struct as the hook left it: the resource queue lock if one is held;
    the cached plan if there is one; the resource owner, released and
    deleted, unless this is a top-level commit of a portal that has not
    failed; the hold store and then its context; the heap context; the
    struct.  Nothing else is called. *)
Theorem PortalDrop_releases_everything_in_order portal isTopCommit p s :
  let calls := fun q : PortalData =>
    (if IsResQueueLockedForPortal q then [Ev_ResUnLockPortal portal] else [])
    ++ match cplan q with
       | Some plan => [Ev_ReleaseCachedPlan plan false]
       | None => []
       end
    ++ match resowner q with
       | Some owner =>
           if negb isTopCommit || bool_decide (status q = PORTAL_FAILED)
           then
             let isCommit := negb (bool_decide (status q = PORTAL_FAILED)) in
             [Ev_ResourceOwnerRelease owner RESOURCE_RELEASE_BEFORE_LOCKS
                isCommit false;
              Ev_ResourceOwnerRelease owner RESOURCE_RELEASE_LOCKS
                isCommit false;
              Ev_ResourceOwnerRelease owner RESOURCE_RELEASE_AFTER_LOCKS
                isCommit false;
              Ev_ResourceOwnerDelete owner]
           else []
       | None => []
       end
    ++ match holdStore q with
       | Some tuplestore => [Ev_tuplestore_end tuplestore (holdContext q)]
       | None => []
       end
    ++ match holdContext q with
       | Some context => [Ev_MemoryContextDelete context]
       | None => []
       end
    ++ [Ev_MemoryContextDelete (heap q); Ev_pfree portal] in
  PortalHashTable s !! portal = Some p ->
  portalPinned p = false -> status p <> PORTAL_ACTIVE ->
  (cleanup p = None ->
   exists s',
     PortalDrop portal isTopCommit s = Ok tt s' /\
     PortalHashTable s' = delete portal (PortalHashTable s) /\
     trace s' = trace s ++ calls p) /\
  (forall hook, cleanup p = Some hook ->
     let called := set_trace (trace s ++ [Ev_cleanup hook portal]) s in
     (forall s1 p1,
        cleanup_body hook portal called = Ok tt s1 ->
        PortalHashTable s1 !! portal = Some p1 ->
        exists s',
          PortalDrop portal isTopCommit s = Ok tt s' /\
          PortalHashTable s' = delete portal (PortalHashTable s1) /\
          trace s' = trace s1 ++ calls (set_cleanup None p1)) /\
     (forall lvl code s1,
        cleanup_body hook portal called = Raise lvl code s1 ->
        PortalDrop portal isTopCommit s = Raise lvl code s1)).
Proof using Type.
  intros calls Hp Hpin Hact.
  destruct (PortalDrop_cases portal isTopCommit p s Hp Hpin Hact)
    as [Hnone Hhook].
  split; [|intros hook Hc called; split].
  - intros Hc. eexists. split; [by apply Hnone|]. by split.
  - intros s1 p1 Hbody Hp1. eexists.
    split; [by apply (proj1 (Hhook hook Hc))|]. by split.
  - apply (proj2 (Hhook hook Hc)).
Qed.

(** ** Looking for READY portals *)

Lemma ThereAreNoReadyPortals_scan_spec l s :
  exists b,
    ThereAreNoReadyPortals_scan l s = Ok b s /\
    (b = true <->
     forall n p, n ∈ l -> PortalHashTable s !! n = Some p ->
       status p <> PORTAL_READY).
Proof using Type.
  induction l as [|k l [b [IH Hb]]]; simpl.
  { exists true. split; [done|]. split; [|done].
    by intros _ n p ?%elem_of_nil. }
  rewrite (bind_of_Ok _ _ s s s (eq_refl : get s = Ok s s)).
  destruct (PortalHashTable s !! k) as [q|] eqn:Hq.
  - destruct (decide (status q = PORTAL_READY)) as [Hr|Hr].
    + rewrite bool_decide_eq_true_2 by done. exists false.
      split; [done|]. split; [done|]. intros Hall.
      by destruct (Hall k q ltac:(by left) Hq).
    + rewrite bool_decide_eq_false_2 by done. exists b. split; [done|].
      rewrite Hb. split.
      * intros Hall n p [->|Hel]%elem_of_cons Hp; [congruence|by eapply Hall].
      * intros Hall n p Hel. apply Hall. by right.
  - exists b. split; [done|]. rewrite Hb. split.
    + intros Hall n p [->|Hel]%elem_of_cons Hp; [congruence|by eapply Hall].
    + intros Hall n p Hel. apply Hall. by right.
Qed.

(** X26: [ThereAreNoReadyPortals] changes nothing, and its answer is true
    exactly if no portal in the table has status PORTAL_READY; an empty
    table gives true. *)
Theorem ThereAreNoReadyPortals_iff_none_ready s :
  exists b,
    ThereAreNoReadyPortals s = Ok b s /\
    (b = true <->
     forall n p, PortalHashTable s !! n = Some p ->
       status p <> PORTAL_READY) /\
    (PortalHashTable s = ∅ -> b = true).
Proof using hash_seq_complete.
  unfold ThereAreNoReadyPortals.
  erewrite (bind_of_Ok hash_seq_init); [|reflexivity].
  destruct (ThereAreNoReadyPortals_scan_spec
              (hash_seq_order (PortalHashTable s)) s) as [b [Hrun Hb]].
  exists b. split; [done|].
  assert (Hiff : b = true <->
            forall n p, PortalHashTable s !! n = Some p ->
              status p <> PORTAL_READY).
  { rewrite Hb. split.
    - intros Hall n p Hp. eapply Hall; [|done]. by eapply hash_seq_complete.
    - intros Hall n p _. apply Hall. }
  split; [done|]. intros Hempty. apply Hiff. intros n p.
  by rewrite Hempty, lookup_empty.
Qed.

(** ** Deleting all cursors *)

Definition not_active (kv : string * PortalData) : Prop :=
  status kv.2 <> PORTAL_ACTIVE.

#[local] Instance not_active_dec kv : Decision (not_active kv).
Proof using Type. unfold not_active. apply _. Defined.

(** The portals that [PortalHashTableDeleteAll] has still to drop. *)
Definition drops_left (t : gmap string PortalData) : nat :=
  size (filter not_active t).

Lemma drops_left_delete_lt n p t :
  t !! n = Some p -> status p <> PORTAL_ACTIVE ->
  (drops_left (delete n t) < drops_left t)%nat.
Proof using Type.
  intros Hp Hc. unfold drops_left. rewrite map_filter_delete.
  assert (Hin : filter not_active t !! n = Some p)
    by (by apply map_lookup_filter_Some).
  rewrite map_size_delete_Some by eauto.
  assert (size (filter not_active t) <> 0%nat)
    by (eapply map_size_ne_0_lookup_2; eauto).
  lia.
Qed.

Lemma drops_left_le_size t : (drops_left t <= size t)%nat.
Proof using Type.
  unfold drops_left. apply map_subseteq_size, map_filter_subseteq.
Qed.

(** The table [t] is what is left of [t0] when some portals that were not
    ACTIVE have been dropped. *)
Definition partly_deleted (t0 t : gmap string PortalData) : Prop :=
  forall n,
    t !! n = t0 !! n \/
    (t !! n = None /\ exists p, t0 !! n = Some p /\ status p <> PORTAL_ACTIVE).

Definition droppable (t : gmap string PortalData) : Prop :=
  forall n p, t !! n = Some p -> status p <> PORTAL_ACTIVE ->
    portalPinned p = false.

Lemma PortalHashTableDeleteAll_scan_spec t0 l s :
  partly_deleted t0 (PortalHashTable s) -> droppable (PortalHashTable s) ->
  exists b s',
    PortalHashTableDeleteAll_scan l s = Ok b s' /\
    partly_deleted t0 (PortalHashTable s') /\
    droppable (PortalHashTable s') /\
    (drops_left (PortalHashTable s') + (if b then 1 else 0)
     <= drops_left (PortalHashTable s))%nat /\
    (b = false ->
     s' = s /\
     forall n p, n ∈ l -> PortalHashTable s !! n = Some p ->
       status p = PORTAL_ACTIVE).
Proof using cleanup_benign.
  intros Hpart Hdrop.
  induction l as [|k l (b & s' & IH & Hpart' & Hdrop' & Hle & Hb)]; simpl.
  { exists false, s. split_and!; try done; [lia|].
    intros _. split; [done|]. by intros n p ?%elem_of_nil. }
  rewrite (bind_of_Ok _ _ s s s (eq_refl : get s = Ok s s)).
  assert (Hrest : b = false ->
            s' = s /\
            forall n p, n ∈ k :: l -> n <> k ->
              PortalHashTable s !! n = Some p -> status p = PORTAL_ACTIVE).
  { intros Hbf. destruct (Hb Hbf) as [-> Hall]. split; [done|].
    intros n p [->|Hel]%elem_of_cons Hne Hp; [done|by eapply Hall]. }
  destruct (PortalHashTable s !! k) as [q|] eqn:Hq.
  - destruct (decide (status q = PORTAL_ACTIVE)) as [Ha|Ha].
    + rewrite bool_decide_eq_true_2 by done.
      exists b, s'. split_and!; try done.
      intros Hbf. destruct (Hrest Hbf) as [-> Hall]. split; [done|].
      intros n p Hel Hp. destruct (decide (n = k)) as [->|Hne];
        [congruence|by eapply Hall].
    + rewrite bool_decide_eq_false_2 by done.
      destruct (PortalDrop_Ok k false q s Hq (Hdrop k q Hq Ha) Ha)
        as [q' Hdrop1].
      rewrite (bind_of_Ok _ _ _ _ _ Hdrop1).
      exists true. eexists. split; [reflexivity|]. simpl. split_and!.
      * intros n. destruct (decide (n = k)) as [->|Hne].
        -- destruct (Hpart k) as [Heq|[Hnone _]]; [|congruence].
           right. rewrite lookup_delete_eq. split; [done|].
           exists q. split; [congruence|done].
        -- rewrite lookup_delete_ne by done. apply Hpart.
      * intros n p [_ Hp]%lookup_delete_Some. by eapply Hdrop.
      * rewrite Nat.add_1_r. apply Nat.le_succ_l.
        by eapply drops_left_delete_lt.
      * done.
  - exists b, s'. split_and!; try done.
    intros Hbf. destruct (Hrest Hbf) as [-> Hall]. split; [done|].
    intros n p Hel Hp. destruct (decide (n = k)) as [->|Hne];
      [congruence|by eapply Hall].
Qed.

Lemma PortalHashTableDeleteAll_loop_eq fuel :
  PortalHashTableDeleteAll_loop fuel
  = (let! scan := hash_seq_init in
     let! restart := PortalHashTableDeleteAll_scan scan in
     if restart then
       match fuel with
       | O => ret None
       | S fuel' => PortalHashTableDeleteAll_loop fuel'
       end
     else ret (Some tt)).
Proof using Type. by destruct fuel. Qed.

Lemma PortalHashTableDeleteAll_loop_spec t0 fuel s :
  (drops_left (PortalHashTable s) <= fuel)%nat ->
  partly_deleted t0 (PortalHashTable s) -> droppable (PortalHashTable s) ->
  exists s',
    PortalHashTableDeleteAll_loop fuel s = Ok (Some tt) s' /\
    partly_deleted t0 (PortalHashTable s') /\
    (forall n p, PortalHashTable s' !! n = Some p ->
       status p = PORTAL_ACTIVE).
Proof using cleanup_benign hash_seq_complete.
  revert s. induction fuel as [|fuel IH]; intros s Hfuel Hpart Hdrop;
    rewrite PortalHashTableDeleteAll_loop_eq;
    (erewrite (bind_of_Ok hash_seq_init); [|reflexivity]);
    destruct (PortalHashTableDeleteAll_scan_spec t0
                (hash_seq_order (PortalHashTable s)) s Hpart Hdrop)
      as (b & s1 & Hscan & Hpart1 & Hdrop1 & Hle & Hb);
    rewrite (bind_of_Ok _ _ _ _ _ Hscan);
    (destruct b;
     [|destruct (Hb eq_refl) as [-> Hall]; exists s; split_and!; [done|done|];
       intros n p Hp; eapply Hall; [|done]; by eapply hash_seq_complete]).
  - lia.
  - apply IH; [lia|done|done].
Qed.

(** ** Creation of portals *)

Section Manager.

(** The backend's role and the constants it is compared with (cdbvars.h),
    the resource scheduler (resscheduler.h), the start time of the
    statement (xact.h), CURSOR_OPT_NO_SCROLL (parsenodes.h),
    PORTAL_MULTI_QUERY (portal.h), and the address of [PortalCleanup]
    (portalcmds.c). *)
Variable Gp_role : nat.
Variable GP_ROLE_DISPATCH : nat.
Variable GP_ROLE_EXECUTE : nat.
Variable IsResQueueEnabled : bool.
Variable ResCreatePortalId : string -> Z.
Variable GetResQueueId : Z.
Variable GetCurrentStatementStartTimestamp : Z.
Variable CURSOR_OPT_NO_SCROLL : Z.
Variable PORTAL_MULTI_QUERY : nat.
Variable PortalCleanup_address : nat.

Definition EnablePortalManager : G unit :=
  let! context := outside allocate in
  outside (emit (Ev_AllocSetContextCreate context)) ;;
  modify (set_PortalMemory (Some context)) ;;
  (* hash_create *)
  modify (fun st =>
    set_PortalHashTable_created true
      (set_portals (set_PortalHashTable ∅ (portals st)) st)).

(** [PortalHashTableInsert(PORTAL, NAME)]: [hash_search] with HASH_ENTER
    makes the entry under the key of [NAME], and the macro then sets
    [PORTAL->name] to the key as the table stores it. *)
Definition PortalHashTableInsert (portal : PortalData) (name : string)
  : G unit :=
  let! found := on_table (GetPortalByName name) in
  match found with
  | Some _ => ereport ERROR ERRCODE_INTERNAL_ERROR
  | None =>
      let key := hash_key name in
      on_table (modify (fun s =>
        set_PortalHashTable
          (<[key := set_name key portal]> (PortalHashTable s)) s))
  end.

(** The block of [CreatePortal] under [IsResQueueEnabled()]: the values
    that portalId and queueId get; a field that is not assigned stays 0. *)
Definition resource_queue_ids (name : string) : G (Z * Z) :=
  if IsResQueueEnabled then
    if (Gp_role =? GP_ROLE_DISPATCH)%nat then
      note (Mv_ResCreatePortalId name) ;;
      ret (ResCreatePortalId name, GetResQueueId)
    else if (Gp_role =? GP_ROLE_EXECUTE)%nat then
      ret (0, GetResQueueId)
    else ret (0, 0)
  else ret (0, 0).

(** The second half of [CreatePortal], from "make new portal structure"
    on.  The struct is zeroed when it is allocated: the fields that the code
    does not assign hold 0, false or NULL; the name is the empty string
    until the portal is put in the table.  The result is the new portal,
    that is, the key under which the table holds it. *)
Definition CreatePortal_make (name : string) : G string :=
  let! st := get in
  match PortalMemory st with
  | None => undefined
  | Some _ =>
      let! heap := outside allocate in
      outside (emit (Ev_AllocSetContextCreate heap)) ;;
      let! owner := outside allocate in
      note (Mv_ResourceOwnerCreate owner) ;;
      let! st := get in
      let subid := CurrentSubTransactionId (portals st) in
      let portal :=
        {| name := ""; status := PORTAL_NEW;
           cursorOptions := CURSOR_OPT_NO_SCROLL;
           portalPinned := false; visible := true;
           createSubid := subid; activeSubid := subid;
           stmts := []; cplan := None; heap := heap;
           holdContext := None; holdStore := None;
           resowner := Some owner;
           cleanup := Some PortalCleanup_address;
           is_extended_query := false; queryDesc := None |} in
      let! ids := resource_queue_ids name in
      let detail :=
        {| strategy := PORTAL_MULTI_QUERY; atStart := true; atEnd := true;
           creation_time := GetCurrentStatementStartTimestamp;
           portalId := ids.1; queueId := ids.2;
           prepStmtName := None; sourceText := None; sourceTag := 0%nat;
           commandTag := None |} in
      (* put portal in table (sets portal->name) *)
      PortalHashTableInsert portal name ;;
      modify (fun st =>
        set_details (<[hash_key name := detail]> (details st)) st) ;;
      note Mv_gpmon_init ;;
      ret (hash_key name)
  end.

Definition CreatePortal (name : string) (allowDup dupSilent : bool)
  : G string :=
  let! portal := on_table (GetPortalByName name) in
  match portal with
  | Some _ =>
      (if negb allowDup then ereport ERROR ERRCODE_DUPLICATE_CURSOR
       else ret tt) ;;
      (when (negb dupSilent && negb (Gp_role =? GP_ROLE_EXECUTE)%nat) then
         note (Mv_WARNING_closing_existing_cursor name)) ;;
      (* the portal found: the entry under the key of [name] *)
      on_table (PortalDrop (hash_key name) false)
  | None => ret tt
  end ;;
  CreatePortal_make name.

(** The loop of [CreateNewPortal]: every further try takes one unit of
    fuel; [None] is returned when the fuel did not suffice. *)
Fixpoint CreateNewPortal_name (fuel : nat) : G (option string) :=
  modify (fun st =>
    set_unnamed_portal_count ((unnamed_portal_count st + 1) mod 2 ^ 32) st) ;;
  let! st := get in
  let portalname := unnamed_portal_name (unnamed_portal_count st) in
  let! found := on_table (GetPortalByName portalname) in
  match found with
  | None => ret (Some portalname)
  | Some _ =>
      match fuel with
      | O => ret None
      | S fuel' => CreateNewPortal_name fuel'
      end
  end.

Definition CreateNewPortal (fuel : nat) : G (option string) :=
  let! portalname := CreateNewPortal_name fuel in
  match portalname with
  | Some portalname =>
      let! portal := CreatePortal portalname false false in
      ret (Some portal)
  | None => ret None
  end.

(** The Assert lines of the routine are not part of a production build;
    a portal that is not there is a pointer that is not valid. *)
Definition PortalDefineQuery (portal : string)
    (prepStmtName_ : option string) (sourceText_ : string) (sourceTag_ : nat)
    (commandTag_ : option string) (stmts_ : list nat) (cplan_ : option nat)
  : G unit :=
  let! st := get in
  match details st !! portal with
  | None => undefined
  | Some d =>
      modify (set_details
        (<[portal :=
             {| strategy := strategy d; atStart := atStart d;
                atEnd := atEnd d; creation_time := creation_time d;
                portalId := portalId d; queueId := queueId d;
                prepStmtName := prepStmtName_;
                sourceText := Some sourceText_;
                sourceTag := sourceTag_; commandTag := commandTag_ |}]>
           (details st))) ;;
      outside (store portal (set_stmts stmts_)) ;;
      outside (store portal (set_cplan cplan_)) ;;
      outside (store portal (set_status PORTAL_DEFINED))
  end.

Definition PortalHashTableDeleteAll (fuel : nat) : G (option unit) :=
  let! st := get in
  if negb (PortalHashTable_created st) then ret (Some tt)
  else on_table (PortalHashTableDeleteAll_loop fuel).

Lemma on_table_Ok {A} (m : R A) st a s :
  PortalHashTable_created st = true -> m (portals st) = Ok a s ->
  on_table m st = Ok a (set_portals s st).
Proof using Type. unfold on_table. by intros -> ->. Qed.

Lemma on_table_Raise {A} (m : R A) st lvl code s :
  PortalHashTable_created st = true -> m (portals st) = Raise lvl code s ->
  on_table m st = Raise lvl code (set_portals s st).
Proof using Type. unfold on_table. by intros -> ->. Qed.

Lemma set_portals_id st : set_portals (portals st) st = st.
Proof using Type. by destruct st. Qed.

Lemma GetPortalByName_Ok name s :
  GetPortalByName name s = Ok (PortalHashTable s !! hash_key name) s.
Proof using Type. done. Qed.

Lemma PortalHashTableLookup_Ok name st :
  PortalHashTable_created st = true ->
  on_table (GetPortalByName name) st
  = Ok (PortalHashTable (portals st) !! hash_key name) st.
Proof using Type.
  intros Hc. erewrite on_table_Ok; [|done|apply GetPortalByName_Ok].
  by rewrite set_portals_id.
Qed.

(** X27: [PortalHashTableDeleteAll] returns at once, leaving everything as
    it is, while the table has not been created.  Otherwise, if no portal
    is pinned unless it is ACTIVE and every cleanup hook is benign (it
    returns normally and changes nothing in the registry but the
    [queryDesc] of the portal it is called for), it returns with exactly the ACTIVE portals left in the table, each one as it was;
    one restart of the scan for each portal is fuel enough. *)
Theorem PortalHashTableDeleteAll_keeps_active_portals fuel st :
  (PortalHashTable_created st = false ->
   PortalHashTableDeleteAll fuel st = Ok (Some tt) st) /\
  (PortalHashTable_created st = true ->
   (forall n p, PortalHashTable (portals st) !! n = Some p ->
      status p <> PORTAL_ACTIVE -> portalPinned p = false) ->
   (size (PortalHashTable (portals st)) <= fuel)%nat ->
   exists s',
     PortalHashTableDeleteAll fuel st = Ok (Some tt) (set_portals s' st) /\
     PortalHashTable s'
     = filter (fun kv : string * PortalData => status kv.2 = PORTAL_ACTIVE)
         (PortalHashTable (portals st))).
Proof using cleanup_benign hash_seq_complete.
  unfold PortalHashTableDeleteAll. split.
  - intros Hc. erewrite (bind_of_Ok get); [|reflexivity]. by rewrite Hc.
  - intros Hc Hpin Hfuel.
    erewrite (bind_of_Ok get); [|reflexivity]. rewrite Hc. simpl.
    destruct (PortalHashTableDeleteAll_loop_spec
                (PortalHashTable (portals st)) fuel (portals st))
      as (s' & Hloop & Hpart & Hact); [|by left|done|].
    { etrans; [apply drops_left_le_size|done]. }
    exists s'. split; [by apply on_table_Ok|].
    apply map_eq. intros n. symmetry.
    destruct (PortalHashTable (portals st) !! n) as [p|] eqn:Hp.
    + destruct (decide (status p = PORTAL_ACTIVE)) as [Ha|Ha].
      * destruct (Hpart n) as [->|(_ & p' & Hp' & Hna)]; [|congruence].
        rewrite Hp. by apply map_lookup_filter_Some.
      * destruct (PortalHashTable s' !! n) as [p'|] eqn:Hp'.
        -- destruct (Hpart n) as [Heq|[Hnone _]]; [|congruence].
           assert (p' = p) as -> by congruence.
           by destruct Ha; eapply Hact.
        -- apply map_lookup_filter_None. right. intros q Hq. simpl.
           congruence.
    + destruct (Hpart n) as [->|(_ & p' & Hp' & _)]; [|congruence].
      rewrite Hp. apply map_lookup_filter_None. by left.
Qed.

(** *** [CreatePortal] *)

(** The state that [CreatePortal_make] leaves. *)
Definition ResCreatePortalId_called : bool :=
  IsResQueueEnabled && (Gp_role =? GP_ROLE_DISPATCH)%nat.

Definition made (name : string) (st : manager) : manager :=
  let s := portals st in
  let key := hash_key name in
  let heap := next_address s in
  let owner := S (next_address s) in
  {| portals :=
       {| PortalHashTable :=
            <[key :=
                {| name := key; status := PORTAL_NEW;
                   cursorOptions := CURSOR_OPT_NO_SCROLL;
                   portalPinned := false; visible := true;
                   createSubid := CurrentSubTransactionId s;
                   activeSubid := CurrentSubTransactionId s;
                   stmts := []; cplan := None; heap := heap;
                   holdContext := None; holdStore := None;
                   resowner := Some owner;
                   cleanup := Some PortalCleanup_address;
                   is_extended_query := false; queryDesc := None |}]>
              (PortalHashTable s);
          trace := trace s ++ [Ev_AllocSetContextCreate heap];
          next_address := S (S (next_address s));
          CurrentSubTransactionId := CurrentSubTransactionId s |};
     PortalHashTable_created := PortalHashTable_created st;
     PortalMemory := PortalMemory st;
     details :=
       <[key :=
           {| strategy := PORTAL_MULTI_QUERY; atStart := true; atEnd := true;
              creation_time := GetCurrentStatementStartTimestamp;
              portalId :=
                if ResCreatePortalId_called then ResCreatePortalId name
                else 0;
              queueId :=
                if IsResQueueEnabled
                   && ((Gp_role =? GP_ROLE_DISPATCH)%nat
                       || (Gp_role =? GP_ROLE_EXECUTE)%nat)
                then GetResQueueId else 0;
              prepStmtName := None; sourceText := None; sourceTag := 0%nat;
              commandTag := None |}]>
         (details st);
     unnamed_portal_count := unnamed_portal_count st;
     manager_log :=
       manager_log st
       ++ [Mv_ResourceOwnerCreate owner]
       ++ (if ResCreatePortalId_called then [Mv_ResCreatePortalId name]
           else [])
       ++ [Mv_gpmon_init] |}.

Lemma resource_queue_ids_Ok name st :
  resource_queue_ids name st
  = Ok (if ResCreatePortalId_called then ResCreatePortalId name else 0,
        if IsResQueueEnabled
           && ((Gp_role =? GP_ROLE_DISPATCH)%nat
               || (Gp_role =? GP_ROLE_EXECUTE)%nat)
        then GetResQueueId else 0)
       (set_manager_log
          (manager_log st
           ++ if ResCreatePortalId_called then [Mv_ResCreatePortalId name]
              else []) st).
Proof using Type.
  unfold resource_queue_ids, ResCreatePortalId_called.
  destruct IsResQueueEnabled, (Gp_role =? GP_ROLE_DISPATCH)%nat,
    (Gp_role =? GP_ROLE_EXECUTE)%nat; simpl; try reflexivity;
    unfold ret; rewrite app_nil_r; by destruct st.
Qed.

Lemma CreatePortal_make_Ok name st :
  PortalHashTable_created st = true -> is_Some (PortalMemory st) ->
  PortalHashTable (portals st) !! hash_key name = None ->
  CreatePortal_make name st = Ok (hash_key name) (made name st).
Proof using Type.
  intros Hc [m Hm] Hfree. unfold CreatePortal_make.
  erewrite (bind_of_Ok get); [|reflexivity]. rewrite Hm.
  erewrite (bind_of_Ok (outside allocate)); [|reflexivity].
  erewrite (bind_of_Ok (outside (emit _))); [|reflexivity].
  erewrite (bind_of_Ok (outside allocate)); [|reflexivity].
  erewrite (bind_of_Ok (note _)); [|reflexivity].
  erewrite (bind_of_Ok get); [|reflexivity].
  erewrite (bind_of_Ok (resource_queue_ids _));
    [|apply resource_queue_ids_Ok].
  unfold PortalHashTableInsert.
  erewrite (bind_of_Ok (bind (on_table _) _)); cycle 1.
  { erewrite (bind_of_Ok (on_table _));
      [|by apply PortalHashTableLookup_Ok].
    simpl. rewrite Hfree. apply on_table_Ok; [done|reflexivity]. }
  unfold modify, note, bind, ret, made; simpl.
  by rewrite <- !app_assoc.
Qed.

(** The notice that [CreatePortal] sends before it closes a cursor of the
    same name. *)
Definition warned (name : string) (dupSilent : bool) (st : manager)
  : manager :=
  if negb dupSilent && negb (Gp_role =? GP_ROLE_EXECUTE)%nat
  then set_manager_log
         (manager_log st ++ [Mv_WARNING_closing_existing_cursor name]) st
  else st.

Lemma warn_Ok name dupSilent st :
  (when (negb dupSilent && negb (Gp_role =? GP_ROLE_EXECUTE)%nat) then
     note (Mv_WARNING_closing_existing_cursor name)) st
  = Ok tt (warned name dupSilent st).
Proof using Type.
  unfold warned. by destruct (negb dupSilent && _).
Qed.

Lemma warned_same name dupSilent st :
  portals (warned name dupSilent st) = portals st /\
  PortalHashTable_created (warned name dupSilent st)
  = PortalHashTable_created st /\
  PortalMemory (warned name dupSilent st) = PortalMemory st.
Proof using Type. unfold warned. by destruct (negb dupSilent && _). Qed.

Lemma CreatePortal_fresh name allowDup dupSilent st :
  PortalHashTable_created st = true -> is_Some (PortalMemory st) ->
  PortalHashTable (portals st) !! hash_key name = None ->
  CreatePortal name allowDup dupSilent st
  = Ok (hash_key name) (made name st).
Proof using Type.
  intros Hc Hm Hfree. unfold CreatePortal.
  rewrite (bind_of_Ok _ _ _ _ _ (PortalHashTableLookup_Ok name st Hc)).
  rewrite Hfree. cbv beta iota.
  erewrite (bind_of_Ok (ret _)); [|reflexivity].
  by apply CreatePortal_make_Ok.
Qed.

(** X28: [CreatePortal(name, allowDup, dupSilent)], once the module is
    enabled, whatever the cleanup hooks do.  The table knows a portal by
    the first MAX_PORTALNAME_LEN - 1 = 63 bytes of its name, the key.  If
    the key is free, the call returns and the table holds under the key a
    new portal whose name is the key, with status NEW, not pinned, created
    and active in the current subtransaction, with [PortalCleanup] as its
    cleanup hook, a heap context and a resource owner of its own and no
    statements; no other portal has changed, and [GetPortalByName] finds
    the new portal under every name with the same key.  If the key is taken
    and [allowDup] is false, the call raises ERRCODE_DUPLICATE_CURSOR and
    changes nothing.  If the key is taken and [allowDup] is true, a WARNING
    is sent unless [dupSilent] is set or the backend is a QE, and the old
    portal is dropped: if it is pinned or ACTIVE the call ends in ERROR with
    ERRCODE_INVALID_CURSOR_STATE and the old portal stays; if [PortalDrop]
    returns, the key is free and the new portal is made in the state that
    [PortalDrop] left; if [PortalDrop] ends in an error, as it does when the
    cleanup hook of the old portal does, the call ends in that error, and no
    portal is made. *)
Theorem CreatePortal_registers_portal name allowDup dupSilent st :
  let key := hash_key name in
  PortalHashTable_created st = true -> is_Some (PortalMemory st) ->
  (String.length key <= MAX_PORTALNAME_LEN - 1)%nat /\
  ((String.length name <= MAX_PORTALNAME_LEN - 1)%nat -> key = name) /\
  (PortalHashTable (portals st) !! key = None ->
   exists st' p,
     CreatePortal name allowDup dupSilent st = Ok key st' /\
     st' = made name st /\
     PortalHashTable (portals st')
     = <[key := p]> (PortalHashTable (portals st)) /\
     (forall other, hash_key other = key ->
        on_table (GetPortalByName other) st' = Ok (Some p) st') /\
     Portal.name p = key /\
     status p = PORTAL_NEW /\ portalPinned p = false /\
     createSubid p = CurrentSubTransactionId (portals st) /\
     activeSubid p = CurrentSubTransactionId (portals st) /\
     cleanup p = Some PortalCleanup_address /\
     heap p = next_address (portals st) /\
     resowner p = Some (S (next_address (portals st))) /\
     stmts p = [] /\ cplan p = None /\ holdStore p = None) /\
  (is_Some (PortalHashTable (portals st) !! key) -> allowDup = false ->
   CreatePortal name allowDup dupSilent st
   = Raise ERROR ERRCODE_DUPLICATE_CURSOR st) /\
  (forall p, PortalHashTable (portals st) !! key = Some p ->
     allowDup = true ->
     portalPinned p = true \/ status p = PORTAL_ACTIVE ->
     CreatePortal name allowDup dupSilent st
     = Raise ERROR ERRCODE_INVALID_CURSOR_STATE (warned name dupSilent st)) /\
  (is_Some (PortalHashTable (portals st) !! key) -> allowDup = true ->
   (forall s1,
      PortalDrop key false (portals st) = Ok tt s1 ->
      PortalHashTable s1 !! key = None /\
      CreatePortal name allowDup dupSilent st
      = Ok key (made name (set_portals s1 (warned name dupSilent st)))) /\
   (forall lvl code s1,
      PortalDrop key false (portals st) = Raise lvl code s1 ->
      CreatePortal name allowDup dupSilent st
      = Raise lvl code (set_portals s1 (warned name dupSilent st)))).
Proof using Type.
  intros key Hc Hm.
  split; [apply hash_key_length|]. split; [apply hash_key_short|]. split.
  { intros Hfree. rewrite (CreatePortal_fresh _ _ _ _ Hc Hm Hfree).
    eexists _, _. split; [reflexivity|]. split; [reflexivity|].
    split; [reflexivity|]. split; [|by split_and!].
    intros other Hother. rewrite PortalHashTableLookup_Ok by done. simpl.
    by rewrite Hother, lookup_insert_eq. }
  unfold CreatePortal.
  rewrite (bind_of_Ok _ _ _ _ _ (PortalHashTableLookup_Ok name st Hc)).
  fold key.
  destruct (warned_same name dupSilent st) as (Hw1 & Hw2 & Hw3).
  split_and!.
  - intros [p ->] ->. done.
  - intros p Hp -> Hcond. rewrite Hp. simpl.
    erewrite (bind_of_Raise (bind _ _)); cycle 1.
    { erewrite (bind_of_Ok (ret _)); [|reflexivity].
      erewrite (bind_of_Ok _); [|apply warn_Ok].
      apply on_table_Raise; [congruence|].
      apply (PortalDrop_refuses _ _ p); [by rewrite Hw1|done]. }
    by rewrite set_portals_id.
  - intros [p Hp] ->. rewrite Hp. simpl. split.
    + intros s1 Hdrop.
      pose proof (PortalDrop_Ok_unlinked _ _ _ _ Hdrop) as Hfree.
      split; [done|].
      erewrite (bind_of_Ok (bind _ _)); cycle 1.
      { erewrite (bind_of_Ok (ret _)); [|reflexivity].
        erewrite (bind_of_Ok _); [|apply warn_Ok].
        apply on_table_Ok; [congruence|]. rewrite Hw1. exact Hdrop. }
      apply CreatePortal_make_Ok; simpl; [congruence|congruence|done].
    + intros lvl code s1 Hdrop.
      erewrite (bind_of_Raise (bind _ _)); [done|].
      erewrite (bind_of_Ok (ret _)); [|reflexivity].
      erewrite (bind_of_Ok _); [|apply warn_Ok].
      apply on_table_Raise; [congruence|]. rewrite Hw1. exact Hdrop.
Qed.

(** *** [CreateNewPortal] *)

Lemma string_app_inj_r (s1 s2 : string) c :
  s1 +:+ String c "" = s2 +:+ String c "" -> s1 = s2.
Proof using Type.
  revert s2. induction s1 as [|a s1 IH]; intros [|b s2]; simpl; try done.
  - intros [= _ H]. by destruct s2.
  - intros [= _ H]. by destruct s1.
  - intros [= -> H]. f_equal. by apply IH.
Qed.

Lemma unnamed_portal_name_inj a b :
  0 <= a -> 0 <= b ->
  unnamed_portal_name a = unnamed_portal_name b -> a = b.
Proof using Type.
  intros Ha Hb. unfold unnamed_portal_name.
  intros H%String.app_inj%string_app_inj_r%(inj pretty).
  by apply Z2N.inj.
Qed.

(** The names that [CreateNewPortal] makes fit in the buffer and in the
    key: a 32-bit counter has at most ten digits. *)
Lemma string_length_app (s1 s2 : string) :
  String.length (s1 +:+ s2) = (String.length s1 + String.length s2)%nat.
Proof using Type. induction s1 as [|c s1 IH]; simpl; [done|by rewrite IH]. Qed.

Lemma pretty_N_go_length k x s :
  (x < 10 ^ N.of_nat k)%N ->
  (String.length (pretty_N_go x s) <= String.length s + k)%nat.
Proof using Type.
  revert x s. induction k as [|k IH]; intros x s Hx.
  - assert (x = 0%N) as -> by (simpl in Hx; lia).
    rewrite pretty_N_go_0. lia.
  - destruct (decide (x = 0%N)) as [->|Hne]; [rewrite pretty_N_go_0; lia|].
    rewrite pretty_N_go_step by lia.
    etrans; [apply IH|simpl; lia].
    rewrite Nat2N.inj_succ, N.pow_succ_r' in Hx.
    apply N.Div0.div_lt_upper_bound. lia.
Qed.

Lemma unnamed_portal_name_length count :
  0 <= count < 2 ^ 32 ->
  (String.length (unnamed_portal_name count) < MAX_PORTALNAME_LEN)%nat.
Proof using Type.
  intros Hcount. unfold unnamed_portal_name, MAX_PORTALNAME_LEN.
  rewrite !string_length_app.
  assert (String.length (pretty (Z.to_N count)) <= 10)%nat; [|simpl; lia].
  unfold pretty, pretty_N. case_decide; [simpl; lia|].
  apply (pretty_N_go_length 10 _ "").
  assert (10 ^ N.of_nat 10 = 10000000000)%N as -> by reflexivity.
  assert (2 ^ 32 = 4294967296) as Hpow by reflexivity. lia.
Qed.

Lemma hash_key_unnamed count :
  0 <= count < 2 ^ 32 ->
  hash_key (unnamed_portal_name count) = unnamed_portal_name count.
Proof using Type.
  intros Hcount. apply hash_key_short.
  pose proof (unnamed_portal_name_length count Hcount). lia.
Qed.

(** The [i]th name that the loop tries, counting from the value [count]
    of the counter before the call. *)
Definition candidate (count : Z) (i : nat) : string :=
  unnamed_portal_name ((count + Z.of_nat i) mod 2 ^ 32).

Lemma hash_key_candidate count i :
  hash_key (candidate count i) = candidate count i.
Proof using Type. by apply hash_key_unnamed, Z.mod_pos_bound. Qed.

Lemma candidate_inj count i j :
  (i <= j)%nat -> Z.of_nat j - Z.of_nat i < 2 ^ 32 ->
  candidate count i = candidate count j -> i = j.
Proof using Type.
  intros Hle Hlt Heq. unfold candidate in Heq.
  apply unnamed_portal_name_inj in Heq;
    [|by apply Z.mod_pos_bound..].
  assert (Hz : (Z.of_nat j - Z.of_nat i) mod 2 ^ 32 = 0).
  { replace (Z.of_nat j - Z.of_nat i)
      with ((count + Z.of_nat j) - (count + Z.of_nat i)) by lia.
    rewrite Zminus_mod, Heq, Z.sub_diag. done. }
  rewrite Z.mod_small in Hz by lia. lia.
Qed.

Lemma candidate_next count i :
  candidate ((count + 1) mod 2 ^ 32) i = candidate count (S i).
Proof using Type.
  unfold candidate. f_equal.
  rewrite Zplus_mod_idemp_l. f_equal. lia.
Qed.

Lemma first_free_candidate (t : gmap string PortalData) count k :
  (forall i, (1 <= i <= k)%nat -> is_Some (t !! candidate count i)) \/
  exists i, (1 <= i <= k)%nat /\ t !! candidate count i = None /\
    forall j, (1 <= j < i)%nat -> is_Some (t !! candidate count j).
Proof using Type.
  induction k as [|k [IH|IH]].
  - left. lia.
  - destruct (t !! candidate count (S k)) as [p|] eqn:Hk.
    + left. intros i Hi. destruct (decide (i = S k)) as [->|Hne];
        [by rewrite Hk|apply IH; lia].
    + right. exists (S k). split_and!; [lia|lia|done|].
      intros j Hj. apply IH. lia.
  - right. destruct IH as (i & Hi & Hfree & Hbefore).
    exists i. split_and!; [lia|lia|done|done].
Qed.

Lemma candidates_not_all_taken (t : gmap string PortalData) count k :
  Z.of_nat k <= 2 ^ 32 ->
  (forall i, (1 <= i <= k)%nat -> is_Some (t !! candidate count i)) ->
  (k <= size t)%nat.
Proof using Type.
  intros Hk Hall.
  rewrite <- (length_seq k 1), <- (length_fmap (candidate count)).
  rewrite <- length_map_to_list, <- (length_fmap fst).
  apply submseteq_length, NoDup_submseteq.
  - apply NoDup_fmap_2_strong; [|apply NoDup_seq].
    intros i j [Hi1 Hi2]%elem_of_seq [Hj1 Hj2]%elem_of_seq Heq.
    destruct (decide (i <= j)%nat).
    + apply (candidate_inj count); [done|lia|done].
    + symmetry. apply (candidate_inj count); [lia|lia|done].
  - intros x (i & -> & [Hi1 Hi2]%elem_of_seq)%list_elem_of_fmap.
    destruct (Hall i) as [p Hp]; [lia|].
    apply list_elem_of_fmap. exists (candidate count i, p).
    split; [done|]. by apply elem_of_map_to_list.
Qed.

Lemma CreateNewPortal_name_Ok fuel st i :
  PortalHashTable_created st = true ->
  (1 <= i <= S fuel)%nat ->
  PortalHashTable (portals st) !! candidate (unnamed_portal_count st) i
  = None ->
  (forall j, (1 <= j < i)%nat ->
     is_Some (PortalHashTable (portals st)
              !! candidate (unnamed_portal_count st) j)) ->
  CreateNewPortal_name fuel st
  = Ok (Some (candidate (unnamed_portal_count st) i))
       (set_unnamed_portal_count
          ((unnamed_portal_count st + Z.of_nat i) mod 2 ^ 32) st).
Proof using Type.
  revert st i. induction fuel as [|fuel IH]; intros st i Hc Hi Hfree Hbefore;
    simpl; (erewrite (bind_of_Ok (modify _)); [|reflexivity]);
    (erewrite (bind_of_Ok get); [|reflexivity]);
    (erewrite (bind_of_Ok (on_table _));
       [|by apply PortalHashTableLookup_Ok]);
    simpl; change (unnamed_portal_name
                     ((unnamed_portal_count st + 1) mod 2 ^ 32))
             with (candidate (unnamed_portal_count st) 1);
    rewrite hash_key_candidate;
    destruct (decide (i = 1%nat)) as [->|Hne].
  - by rewrite Hfree.
  - lia.
  - by rewrite Hfree.
  - destruct (Hbefore 1%nat) as [p ->]; [lia|].
    destruct i as [|i]; [lia|].
    rewrite (IH _ i); simpl.
    + rewrite candidate_next, Zplus_mod_idemp_l.
      replace (unnamed_portal_count st + 1 + Z.of_nat i)
        with (unnamed_portal_count st + Z.of_nat (S i)) by lia.
      done.
    + done.
    + lia.
    + by rewrite candidate_next.
    + intros j Hj. rewrite candidate_next. apply Hbefore. lia.
Qed.

(** X29: [CreateNewPortal], once the module is enabled, always finds a
    name: it returns a new portal under a name ["<unnamed portal N>"] that
    no portal had, without ever raising the duplicate-cursor error.  [N] is
    the first value of the counter, counted up from where it stood and
    wrapping at 2^32, whose name is free; the counter is left at [N], and at
    most as many names are tried as the table holds portals, plus one.
    (The table holds fewer than 2^32 portals.) *)
Theorem CreateNewPortal_finds_free_name fuel st :
  PortalHashTable_created st = true -> is_Some (PortalMemory st) ->
  Z.of_nat (size (PortalHashTable (portals st))) < 2 ^ 32 ->
  (size (PortalHashTable (portals st)) <= fuel)%nat ->
  exists i st' p,
    (1 <= i <= S (size (PortalHashTable (portals st))))%nat /\
    let count := (unnamed_portal_count st + Z.of_nat i) mod 2 ^ 32 in
    let portalname := unnamed_portal_name count in
    CreateNewPortal fuel st = Ok (Some portalname) st' /\
    unnamed_portal_count st' = count /\
    PortalHashTable (portals st) !! portalname = None /\
    (forall j, (1 <= j < i)%nat ->
       is_Some (PortalHashTable (portals st)
                !! unnamed_portal_name
                     ((unnamed_portal_count st + Z.of_nat j) mod 2 ^ 32))) /\
    PortalHashTable (portals st')
    = <[portalname := p]> (PortalHashTable (portals st)) /\
    status p = PORTAL_NEW /\ name p = portalname.
Proof using Type.
  intros Hc Hm Hsize Hfuel.
  destruct (first_free_candidate (PortalHashTable (portals st))
              (unnamed_portal_count st)
              (S (size (PortalHashTable (portals st)))))
    as [Hall|(i & Hi & Hfree & Hbefore)].
  { apply candidates_not_all_taken in Hall; lia. }
  exists i. eexists _, _. split; [done|]. cbv zeta.
  unfold CreateNewPortal.
  erewrite (bind_of_Ok (CreateNewPortal_name _));
    [|apply (CreateNewPortal_name_Ok fuel st i); [done|lia|done|done]].
  cbv beta iota.
  erewrite (bind_of_Ok (CreatePortal _ _ _));
    [|apply CreatePortal_fresh; [done|done|by rewrite hash_key_candidate]].
  unfold made. rewrite !hash_key_candidate. simpl.
  split_and!; try done.
Qed.

(** *** From start-up to a defined portal *)

Lemma PortalDefineQuery_Ok portal prepStmtName_ sourceText_ sourceTag_
    commandTag_ stmts_ cplan_ st p d :
  PortalHashTable (portals st) !! portal = Some p ->
  details st !! portal = Some d ->
  PortalDefineQuery portal prepStmtName_ sourceText_ sourceTag_ commandTag_
    stmts_ cplan_ st
  = Ok tt
      (set_portals
         (set_PortalHashTable
            (<[portal := set_status PORTAL_DEFINED
                           (set_cplan cplan_ (set_stmts stmts_ p))]>
               (PortalHashTable (portals st)))
            (portals st))
         (set_details
            (<[portal :=
                 {| strategy := strategy d; atStart := atStart d;
                    atEnd := atEnd d; creation_time := creation_time d;
                    portalId := portalId d; queueId := queueId d;
                    prepStmtName := prepStmtName_;
                    sourceText := Some sourceText_;
                    sourceTag := sourceTag_; commandTag := commandTag_ |}]>
               (details st))
            st)).
Proof using Type.
  intros Hp Hd. unfold PortalDefineQuery.
  erewrite (bind_of_Ok get); [|reflexivity]. rewrite Hd.
  erewrite (bind_of_Ok (modify _)); [|reflexivity].
  unfold outside.
  erewrite (bind_of_Ok (fun st => _)); cycle 1.
  { simpl. rewrite (store_Ok _ _ _ _ Hp). reflexivity. }
  erewrite (bind_of_Ok (fun st => _)); cycle 1.
  { simpl. erewrite store_Ok; [|simpl; apply lookup_insert_eq]. reflexivity. }
  simpl. erewrite store_Ok; [|simpl; apply lookup_insert_eq].
  unfold set_portals, set_PortalHashTable. simpl.
  by rewrite !insert_insert_eq.
Qed.

(** X30: after [EnablePortalManager] the registry is empty, so a
    [CreatePortal] of any name goes through whatever its flags, and
    [PortalDefineQuery] on the portal it returns then makes the portal
    DEFINED with the statement list, the cached plan, the source text and
    the tags it was given.  The portal is the only one in the table, under
    the first MAX_PORTALNAME_LEN - 1 bytes of the name, which are the name
    it has; [GetPortalByName] finds it by the name it was created with, and
    it still belongs to the current subtransaction and has its cleanup
    hook; it starts with atStart and atEnd set, so that nothing can be
    fetched before the query is set up. *)
Theorem portal_created_and_defined name allowDup dupSilent
    prepStmtName_ sourceText_ sourceTag_ commandTag_ stmts_ cplan_ st :
  exists st' p d,
    (EnablePortalManager ;;
     let! portal := CreatePortal name allowDup dupSilent in
     PortalDefineQuery portal prepStmtName_ sourceText_ sourceTag_
       commandTag_ stmts_ cplan_) st = Ok tt st' /\
    PortalHashTable (portals st') = {[ hash_key name := p ]} /\
    Portal.name p = hash_key name /\
    on_table (GetPortalByName name) st' = Ok (Some p) st' /\
    status p = PORTAL_DEFINED /\ stmts p = stmts_ /\ cplan p = cplan_ /\
    createSubid p = CurrentSubTransactionId (portals st) /\
    cleanup p = Some PortalCleanup_address /\
    details st' !! hash_key name = Some d /\
    prepStmtName d = prepStmtName_ /\ sourceText d = Some sourceText_ /\
    sourceTag d = sourceTag_ /\ commandTag d = commandTag_ /\
    strategy d = PORTAL_MULTI_QUERY /\ atStart d = true /\ atEnd d = true.
Proof using Type.
  set (st1 :=
    set_PortalHashTable_created true
      (set_portals
         (set_PortalHashTable ∅
            (set_trace
               (trace (portals st)
                ++ [Ev_AllocSetContextCreate (next_address (portals st))])
               (set_next_address (S (next_address (portals st)))
                  (portals st))))
         (set_PortalMemory (Some (next_address (portals st))) st))).
  assert (Henable : EnablePortalManager st = Ok tt st1) by reflexivity.
  rewrite (bind_of_Ok _ _ _ _ _ Henable).
  erewrite (bind_of_Ok (CreatePortal _ _ _));
    [|by apply CreatePortal_fresh].
  erewrite PortalDefineQuery_Ok;
    [|simpl; apply lookup_insert_eq|simpl; apply lookup_insert_eq].
  eexists _, _, _. split; [reflexivity|]. simpl.
  split; [by rewrite insert_insert_eq|].
  split; [done|].
  split.
  { unfold on_table, GetPortalByName, bind, get, ret. simpl.
    by rewrite lookup_insert_eq. }
  do 5 (split; [done|]).
  split; [by rewrite lookup_insert_eq|].
  by split_and!.
Qed.

End Manager.

End Persist.

End Benign.

End Registry.

(** ** A concrete registry

    The constants as c.h and parsenodes.h have them, a cleanup hook and a
    persist routine that shut the executor down and forget the query
    descriptor (what [PortalCleanup] and [PersistHoldablePortal] do to the
    portal struct), and a cleanup hook that fails: user-defined code run
    while the executor shuts down raised an error. *)
Definition demo_InvalidSubTransactionId : SubTransactionId := 0%nat.
Definition demo_CURSOR_OPT_HOLD : Z := 16.
Definition demo_CURSOR_OPT_SCROLL : Z := 2.

Definition PortalCleanup (hook : nat) (portal : string) : R unit :=
  modify (fun s =>
    set_PortalHashTable
      (alter (set_queryDesc None) portal (PortalHashTable s)) s).

Definition PersistHoldablePortal (portal : string) : R unit :=
  modify (fun s =>
    set_PortalHashTable
      (alter (set_queryDesc None) portal (PortalHashTable s)) s).

Definition failing_cleanup (hook : nat) (portal : string) : R unit :=
  ereport ERROR ERRCODE_INTERNAL_ERROR.

(** A cleanup hook that marks its portal failed before it returns. *)
Definition marking_cleanup (hook : nat) (portal : string) : R unit :=
  store portal (set_status PORTAL_FAILED).

Definition demo_IsResQueueLockedForPortal (p : PortalData) : bool := false.

Definition demo_hash_seq_order (t : gmap string PortalData) : list string :=
  (map_to_list t).*1.

(** A cursor declared WITH HOLD in the current transaction, ready to run. *)
Definition cursor : PortalData :=
  {| name := "c"; status := PORTAL_READY; cursorOptions := 16;
     portalPinned := false; visible := true;
     createSubid := 1%nat; activeSubid := 1%nat;
     stmts := [40%nat]; cplan := Some 41%nat; heap := 42%nat;
     holdContext := None; holdStore := None;
     resowner := Some 43%nat; cleanup := Some 44%nat;
     is_extended_query := false;
     queryDesc := Some {| cancelUnfinished := false |} |}.

Definition pinned_cursor : PortalData := set_portalPinned true cursor.
Definition failed_cursor : PortalData := set_status PORTAL_FAILED cursor.
Definition planless_cursor : PortalData := set_cplan None cursor.

Definition only (p : PortalData) : registry :=
  {| PortalHashTable := {[ name p := p ]}; trace := [];
     next_address := 100%nat; CurrentSubTransactionId := 1%nat |}.

Definition demo_PortalDrop : string -> bool -> R unit :=
  PortalDrop PortalCleanup demo_IsResQueueLockedForPortal.

Definition demo_PreCommit_Portals : nat -> bool -> R (option bool) :=
  PreCommit_Portals demo_InvalidSubTransactionId demo_CURSOR_OPT_HOLD
    demo_CURSOR_OPT_SCROLL PortalCleanup PersistHoldablePortal
    demo_IsResQueueLockedForPortal demo_hash_seq_order.

Definition demo_run_registry_op (hook : nat -> string -> R unit)
  : registry_op -> registry -> option registry :=
  run_registry_op demo_InvalidSubTransactionId demo_CURSOR_OPT_HOLD
    demo_CURSOR_OPT_SCROLL hook PersistHoldablePortal
    demo_IsResQueueLockedForPortal demo_hash_seq_order.

Lemma PortalCleanup_benign hook portal : benign portal (PortalCleanup hook portal).
Proof. intros s. by exists None. Defined.

Lemma PersistHoldablePortal_benign portal :
  benign portal (PersistHoldablePortal portal).
Proof. intros s. by exists None. Defined.

Lemma demo_hash_seq_complete t n p :
  t !! n = Some p -> n ∈ demo_hash_seq_order t.
Proof.
  intros Hp. apply list_elem_of_fmap. exists (n, p).
  split; [done|]. by apply elem_of_map_to_list.
Defined.

Lemma only_lookup p : PortalHashTable (only p) !! name p = Some p.
Proof. apply lookup_singleton_eq. Defined.

Lemma only_not_pinned p :
  portalPinned p = false ->
  forall n q, PortalHashTable (only p) !! n = Some q -> portalPinned q = false.
Proof.
  intros Hp n q Hq. simpl in Hq.
  apply lookup_singleton_Some in Hq as [_ <-]. exact Hp.
Defined.

Lemma only_cleanup_once p : cleanup_once (only p).
Proof. intros portal. split; [exact (Nat.le_0_l 1)|]. reflexivity. Defined.



(** The other half of what C3 gets wrong: a holdable portal that has no
    cached plan keeps its statement list when it is materialized. *)
Lemma PreCommit_Portals_keeps_stmts_without_plan :
  exists s' p,
    demo_PreCommit_Portals 1 false (only planless_cursor) = Ok (Some true) s' /\
    PortalHashTable s' !! "c" = Some p /\
    cplan p = None /\ stmts p = [40%nat].
Proof. eexists _, _. split; [vm_compute; reflexivity|]. by vm_compute. Qed.

Lemma PortalDrop_pinned_or_active_witness :
  demo_PortalDrop "c" false (only pinned_cursor)
  = Raise ERROR ERRCODE_INVALID_CURSOR_STATE (only pinned_cursor).
Proof.
  apply (PortalDrop_pinned_or_active PortalCleanup
           demo_IsResQueueLockedForPortal "c" false pinned_cursor
           (only pinned_cursor)).
  - exact (only_lookup pinned_cursor).
  - left. reflexivity.
Defined.

Lemma PortalDrop_releases_resowner_witness :
  (exists new s1,
     PortalCleanup 44 "c" (set_trace [Ev_cleanup 44 "c"] (only cursor))
     = Ok tt s1 /\
     demo_PortalDrop "c" false (only cursor) = Ok tt (dropped "c" new s1) /\
     filter (fun e => is_resowner_event e = true) new
     = [Ev_ResourceOwnerRelease 43 RESOURCE_RELEASE_BEFORE_LOCKS true false;
        Ev_ResourceOwnerRelease 43 RESOURCE_RELEASE_LOCKS true false;
        Ev_ResourceOwnerRelease 43 RESOURCE_RELEASE_AFTER_LOCKS true false;
        Ev_ResourceOwnerDelete 43]) /\
  (exists new s1,
     PortalCleanup 44 "c" (set_trace [Ev_cleanup 44 "c"] (only cursor))
     = Ok tt s1 /\
     demo_PortalDrop "c" true (only cursor) = Ok tt (dropped "c" new s1) /\
     filter (fun e => is_resowner_event e = true) new = []) /\
  (exists new s1,
     marking_cleanup 44 "c" (set_trace [Ev_cleanup 44 "c"] (only cursor))
     = Ok tt s1 /\
     PortalDrop marking_cleanup demo_IsResQueueLockedForPortal "c" true
       (only cursor)
     = Ok tt (dropped "c" new s1) /\
     filter (fun e => is_resowner_event e = true) new
     = [Ev_ResourceOwnerRelease 43 RESOURCE_RELEASE_BEFORE_LOCKS false false;
        Ev_ResourceOwnerRelease 43 RESOURCE_RELEASE_LOCKS false false;
        Ev_ResourceOwnerRelease 43 RESOURCE_RELEASE_AFTER_LOCKS false false;
        Ev_ResourceOwnerDelete 43]) /\
  PortalDrop failing_cleanup demo_IsResQueueLockedForPortal "c" false
    (only cursor)
  = Raise ERROR ERRCODE_INTERNAL_ERROR
      (set_trace [Ev_cleanup 44 "c"] (only cursor)).
Proof.
  pose proof (fun hook isTopCommit =>
    proj2 (PortalDrop_releases_resowner hook demo_IsResQueueLockedForPortal
             "c" isTopCommit cursor (only cursor) (only_lookup cursor)
             eq_refl ltac:(discriminate)) 44%nat eq_refl) as H.
  set (called := set_trace [Ev_cleanup 44 "c"] (only cursor)).
  set (s1 := set_PortalHashTable
               (alter (set_queryDesc None) "c" (PortalHashTable called))
               called).
  set (s2 := set_PortalHashTable
               (<["c" := set_status PORTAL_FAILED cursor]>
                  (PortalHashTable called))
               called).
  split; [|split; [|split]].
  - destruct (proj1 (H PortalCleanup false) s1 (set_queryDesc None cursor)
                eq_refl ltac:(vm_compute; reflexivity))
      as [new [Hrun Hfilter]].
    exists new, s1. split; [reflexivity|]. split; [exact Hrun|exact Hfilter].
  - destruct (proj1 (H PortalCleanup true) s1 (set_queryDesc None cursor)
                eq_refl ltac:(vm_compute; reflexivity))
      as [new [Hrun Hfilter]].
    exists new, s1. split; [reflexivity|]. split; [exact Hrun|exact Hfilter].
  - destruct (proj1 (H marking_cleanup true) s2
                (set_status PORTAL_FAILED cursor)
                ltac:(vm_compute; reflexivity) ltac:(vm_compute; reflexivity))
      as [new [Hrun Hfilter]].
    exists new, s2. split; [vm_compute; reflexivity|].
    split; [exact Hrun|exact Hfilter].
  - exact (proj2 (H failing_cleanup false) ERROR ERRCODE_INTERNAL_ERROR called
             eq_refl).
Defined.

(** C6, the claim as the spec has it, fails: the portal has a resource
    owner and this is not a top-level commit, but the cleanup hook, which
    [PortalDrop] calls first, raises an error: [PortalDrop] ends there, the
    resource owner is neither released nor deleted, and the portal keeps
    it. *)
Lemma PortalDrop_failing_hook_releases_nothing :
  PortalHashTable (only cursor) !! "c" = Some cursor /\
  resowner cursor = Some 43%nat /\ status cursor <> PORTAL_FAILED /\
  exists s',
    PortalDrop failing_cleanup demo_IsResQueueLockedForPortal "c" false
      (only cursor)
    = Raise ERROR ERRCODE_INTERNAL_ERROR s' /\
    trace s' = [Ev_cleanup 44 "c"] /\
    filter (fun e => is_resowner_event e = true) (trace s') = [] /\
    PortalHashTable s' !! "c" = Some cursor.
Proof.
  split; [exact (only_lookup cursor)|]. split; [reflexivity|].
  split; [discriminate|].
  eexists. split; [vm_compute; reflexivity|].
  split; [reflexivity|]. split; [reflexivity|]. vm_compute. reflexivity.
Qed.




(** ** A registry with several portals

    The end-of-transaction calls and the calls that create portals, run on
    registries that hold portals of every kind the code tells apart. *)

(** A cursor WITH HOLD that an earlier transaction left behind. *)
Definition held_cursor : PortalData :=
  {| name := "held"; status := PORTAL_READY; cursorOptions := 16;
     portalPinned := false; visible := true;
     createSubid := 0%nat; activeSubid := 0%nat;
     stmts := []; cplan := None; heap := 50%nat;
     holdContext := Some 51%nat; holdStore := Some 52%nat;
     resowner := None; cleanup := None;
     is_extended_query := false; queryDesc := None |}.

(** The portal of the statement that is running. *)
Definition running_portal : PortalData :=
  {| name := "run"; status := PORTAL_ACTIVE; cursorOptions := 0;
     portalPinned := false; visible := true;
     createSubid := 1%nat; activeSubid := 1%nat;
     stmts := [60%nat]; cplan := Some 61%nat; heap := 62%nat;
     holdContext := None; holdStore := None;
     resowner := Some 63%nat; cleanup := Some 44%nat;
     is_extended_query := false;
     queryDesc := Some {| cancelUnfinished := false |} |}.

(** A cursor without HOLD of the current transaction. *)
Definition plain_portal : PortalData :=
  {| name := "plain"; status := PORTAL_READY; cursorOptions := 0;
     portalPinned := false; visible := true;
     createSubid := 1%nat; activeSubid := 1%nat;
     stmts := [70%nat]; cplan := Some 71%nat; heap := 72%nat;
     holdContext := None; holdStore := None;
     resowner := Some 73%nat; cleanup := Some 44%nat;
     is_extended_query := false;
     queryDesc := Some {| cancelUnfinished := false |} |}.

(** A cursor declared in subtransaction 2. *)
Definition inner_portal : PortalData :=
  {| name := "inner"; status := PORTAL_READY; cursorOptions := 0;
     portalPinned := false; visible := true;
     createSubid := 2%nat; activeSubid := 2%nat;
     stmts := [80%nat]; cplan := Some 81%nat; heap := 82%nat;
     holdContext := None; holdStore := None;
     resowner := Some 83%nat; cleanup := Some 44%nat;
     is_extended_query := false;
     queryDesc := Some {| cancelUnfinished := false |} |}.

(** A cursor of the top transaction that subtransaction 2 is fetching
    from. *)
Definition outer_portal : PortalData :=
  {| name := "outer"; status := PORTAL_ACTIVE; cursorOptions := 0;
     portalPinned := false; visible := true;
     createSubid := 1%nat; activeSubid := 2%nat;
     stmts := [90%nat]; cplan := Some 91%nat; heap := 92%nat;
     holdContext := None; holdStore := None;
     resowner := Some 93%nat; cleanup := Some 44%nat;
     is_extended_query := false;
     queryDesc := Some {| cancelUnfinished := false |} |}.

(** A portal that has the first name [CreateNewPortal] would try. *)
Definition unnamed_portal : PortalData :=
  {| name := "<unnamed portal 1>"; status := PORTAL_READY; cursorOptions := 4;
     portalPinned := false; visible := true;
     createSubid := 1%nat; activeSubid := 1%nat;
     stmts := []; cplan := None; heap := 96%nat;
     holdContext := None; holdStore := None;
     resowner := Some 97%nat; cleanup := Some 44%nat;
     is_extended_query := false; queryDesc := None |}.

Definition registry_of (subid : SubTransactionId) (l : list PortalData)
  : registry :=
  {| PortalHashTable := list_to_map ((fun p => (name p, p)) <$> l);
     trace := []; next_address := 100%nat;
     CurrentSubTransactionId := subid |}.

(** A statement is running. *)
Definition several : registry :=
  registry_of 1 [cursor; held_cursor; running_portal; plain_portal].

(** No statement is running. *)
Definition idle : registry :=
  registry_of 1 [cursor; held_cursor; plain_portal].

(** Subtransaction 2 is open. *)
Definition nested : registry :=
  registry_of 2 [held_cursor; plain_portal; inner_portal; outer_portal].

Definition enabled (s : registry) : manager :=
  {| portals := s; PortalHashTable_created := true; PortalMemory := Some 1%nat;
     details := ∅; unnamed_portal_count := 0; manager_log := [] |}.

(** The module before [EnablePortalManager]. *)
Definition not_enabled : manager :=
  {| portals := registry_of 1 []; PortalHashTable_created := false;
     PortalMemory := None; details := ∅; unnamed_portal_count := 0;
     manager_log := [] |}.

Definition demo_AtCleanup_Portals : R unit :=
  AtCleanup_Portals demo_InvalidSubTransactionId PortalCleanup
    demo_IsResQueueLockedForPortal demo_hash_seq_order.

Definition demo_AtSubCleanup_Portals : SubTransactionId -> R unit :=
  AtSubCleanup_Portals PortalCleanup demo_IsResQueueLockedForPortal
    demo_hash_seq_order.

Definition demo_AtAbort_Portals : R unit :=
  AtAbort_Portals demo_InvalidSubTransactionId PortalCleanup
    demo_hash_seq_order.

Definition demo_AtSubAbort_Portals
  : SubTransactionId -> SubTransactionId -> nat -> nat -> R unit :=
  AtSubAbort_Portals PortalCleanup demo_hash_seq_order.

(** A dispatcher (Gp_role = GP_ROLE_DISPATCH = 1, GP_ROLE_EXECUTE = 2) with
    resource queues on; CURSOR_OPT_NO_SCROLL = 4, PORTAL_MULTI_QUERY = 4. *)
Definition demo_ResCreatePortalId (name : string) : Z := 7.

Definition demo_CreatePortal : string -> bool -> bool -> G string :=
  CreatePortal PortalCleanup demo_IsResQueueLockedForPortal
    1%nat 1%nat 2%nat true demo_ResCreatePortalId 8 9 4 4%nat 44%nat.

Definition demo_CreateNewPortal : nat -> G (option string) :=
  CreateNewPortal PortalCleanup demo_IsResQueueLockedForPortal
    1%nat 1%nat 2%nat true demo_ResCreatePortalId 8 9 4 4%nat 44%nat.

Definition demo_made : string -> manager -> manager :=
  made 1%nat 1%nat 2%nat true demo_ResCreatePortalId 8 9 4 4%nat 44%nat.

Definition demo_PortalHashTableDeleteAll : nat -> G (option unit) :=
  PortalHashTableDeleteAll PortalCleanup demo_IsResQueueLockedForPortal
    demo_hash_seq_order.

(** A property of every portal of a concrete table, by running through the
    table. *)
Ltac each_portal :=
  lazymatch goal with
  | |- forall n p, ?t !! n = Some p -> @?P n p =>
      change (map_Forall P t); refine (bool_decide_unpack _ _);
      vm_compute; exact I
  end.

Lemma AtCleanup_Portals_drops_this_transaction_witness :
  (exists s' new,
     demo_AtCleanup_Portals idle = Ok tt s' /\
     PortalHashTable s'
     = filter (fun kv : string * PortalData =>
                 createSubid kv.2 = demo_InvalidSubTransactionId)
         (PortalHashTable idle) /\
     trace s' = trace idle ++ new /\
     (forall hook n, Ev_cleanup hook n ∉ new) /\
     (forall n p, PortalHashTable idle !! n = Some p ->
        createSubid p <> demo_InvalidSubTransactionId ->
        Ev_pfree n ∈ new /\ Ev_MemoryContextDelete (heap p) ∈ new /\
        (is_Some (cleanup p) -> Ev_WARNING_skipping_cleanup n ∈ new))) /\
  (exists s', demo_AtCleanup_Portals several
              = Raise ERROR ERRCODE_INVALID_CURSOR_STATE s').
Proof.
  split.
  - apply (proj1 (AtCleanup_Portals_drops_this_transaction
                    demo_InvalidSubTransactionId PortalCleanup
                    demo_IsResQueueLockedForPortal demo_hash_seq_order
                    demo_hash_seq_complete idle)).
    each_portal.
  - apply (proj2 (AtCleanup_Portals_drops_this_transaction
                    demo_InvalidSubTransactionId PortalCleanup
                    demo_IsResQueueLockedForPortal demo_hash_seq_order
                    demo_hash_seq_complete several) "run" running_portal).
    + vm_compute. reflexivity.
    + vm_compute. discriminate.
    + reflexivity.
Defined.

Lemma AtSubCleanup_Portals_drops_this_subtransaction_witness :
  (exists s' new,
     demo_AtSubCleanup_Portals 2 nested = Ok tt s' /\
     PortalHashTable s'
     = filter (fun kv : string * PortalData => createSubid kv.2 <> 2%nat)
         (PortalHashTable nested) /\
     trace s' = trace nested ++ new /\
     (forall hook n, Ev_cleanup hook n ∉ new) /\
     (forall n p, PortalHashTable nested !! n = Some p ->
        createSubid p = 2%nat ->
        Ev_pfree n ∈ new /\ Ev_MemoryContextDelete (heap p) ∈ new /\
        (is_Some (cleanup p) -> Ev_WARNING_skipping_cleanup n ∈ new))) /\
  (exists s', demo_AtSubCleanup_Portals 1 several
              = Raise ERROR ERRCODE_INVALID_CURSOR_STATE s').
Proof.
  split.
  - apply (proj1 (AtSubCleanup_Portals_drops_this_subtransaction
                    PortalCleanup demo_IsResQueueLockedForPortal
                    demo_hash_seq_order demo_hash_seq_complete
                    2%nat nested)).
    each_portal.
  - apply (proj2 (AtSubCleanup_Portals_drops_this_subtransaction
                    PortalCleanup demo_IsResQueueLockedForPortal
                    demo_hash_seq_order demo_hash_seq_complete
                    1%nat several) "run" running_portal).
    + vm_compute. reflexivity.
    + reflexivity.
    + reflexivity.
Defined.

Lemma AtAbort_Portals_fails_running_portals_witness :
  exists s' new,
    demo_AtAbort_Portals several = Ok tt s' /\
    trace s' = trace several ++ new /\
    (forall n, PortalHashTable several !! n = None ->
       PortalHashTable s' !! n = None) /\
    (forall n p, PortalHashTable several !! n = Some p ->
       exists p',
         PortalHashTable s' !! n = Some p' /\
         aborted demo_InvalidSubTransactionId p p' /\
         status p' <> PORTAL_ACTIVE /\
         (forall hook, cleanup p = Some hook ->
            status p = PORTAL_ACTIVE \/
            createSubid p <> demo_InvalidSubTransactionId ->
            Ev_cleanup hook n ∈ new) /\
         (createSubid p <> demo_InvalidSubTransactionId ->
          Ev_MemoryContextDeleteChildren (heap p) ∈ new /\
          forall plan, cplan p = Some plan ->
            Ev_ReleaseCachedPlan plan false ∈ new)) /\
    (forall e, e ∈ new -> is_abort_call e = true).
Proof.
  exact (AtAbort_Portals_fails_running_portals
           demo_InvalidSubTransactionId PortalCleanup demo_hash_seq_order
           PortalCleanup_benign demo_hash_seq_complete several).
Defined.

Lemma abort_then_cleanup_leaves_held_portals_witness :
  exists s',
    (demo_AtAbort_Portals ;; demo_AtCleanup_Portals) several = Ok tt s' /\
    (forall n, PortalHashTable several !! n = None ->
       PortalHashTable s' !! n = None) /\
    (forall n p, PortalHashTable several !! n = Some p ->
       createSubid p <> demo_InvalidSubTransactionId ->
       PortalHashTable s' !! n = None) /\
    (forall n p, PortalHashTable several !! n = Some p ->
       createSubid p = demo_InvalidSubTransactionId ->
       exists p', PortalHashTable s' !! n = Some p' /\
                  aborted demo_InvalidSubTransactionId p p') /\
    (forall n p', PortalHashTable s' !! n = Some p' ->
       createSubid p' = demo_InvalidSubTransactionId /\
       status p' <> PORTAL_ACTIVE).
Proof.
  exact (abort_then_cleanup_leaves_held_portals
           demo_InvalidSubTransactionId PortalCleanup
           demo_IsResQueueLockedForPortal demo_hash_seq_order
           PortalCleanup_benign demo_hash_seq_complete several).
Defined.

Lemma AtSubCommit_Portals_reassigns_to_parent_witness :
  exists new,
    AtSubCommit_Portals demo_hash_seq_order 2 1 7 nested
    = Ok tt (set_PortalHashTable
               ((fun p =>
                   set_activeSubid
                     (if (activeSubid p =? 2)%nat then 1%nat
                      else activeSubid p)
                     (set_createSubid
                        (if (createSubid p =? 2)%nat then 1%nat
                         else createSubid p) p))
                <$> PortalHashTable nested)
               (set_trace (trace nested ++ new) nested)) /\
    (forall e,
       e ∈ new <->
       exists n p owner,
         PortalHashTable nested !! n = Some p /\ createSubid p = 2%nat /\
         resowner p = Some owner /\
         e = Ev_ResourceOwnerNewParent owner 7).
Proof.
  exact (AtSubCommit_Portals_reassigns_to_parent demo_hash_seq_order
           demo_hash_seq_complete 2%nat 1%nat 7%nat nested).
Defined.

Lemma AtSubAbort_Portals_shuts_down_subtransaction_witness :
  exists s' new,
    demo_AtSubAbort_Portals 2 1 8 7 nested = Ok tt s' /\
    trace s' = trace nested ++ new /\
    (forall n, PortalHashTable nested !! n = None ->
       PortalHashTable s' !! n = None) /\
    (forall n p, PortalHashTable nested !! n = Some p ->
       exists p',
         PortalHashTable s' !! n = Some p' /\
         sub_aborted 2 1 p p' /\
         (createSubid p = 2%nat -> status p' <> PORTAL_ACTIVE) /\
         (forall hook, cleanup p = Some hook ->
            createSubid p = 2%nat \/
            (activeSubid p = 2%nat /\ status p = PORTAL_ACTIVE) ->
            Ev_cleanup hook n ∈ new) /\
         (createSubid p = 2%nat ->
          Ev_MemoryContextDeleteChildren (heap p) ∈ new /\
          forall plan, cplan p = Some plan ->
            Ev_ReleaseCachedPlan plan false ∈ new) /\
         (createSubid p <> 2%nat -> activeSubid p = 2%nat ->
          status p = PORTAL_ACTIVE \/ status p = PORTAL_FAILED ->
          forall owner, resowner p = Some owner ->
            Ev_ResourceOwnerNewParent owner 8 ∈ new)) /\
    (forall e, e ∈ new -> is_sub_abort_call e = true).
Proof.
  exact (AtSubAbort_Portals_shuts_down_subtransaction PortalCleanup
           demo_hash_seq_order PortalCleanup_benign demo_hash_seq_complete
           2%nat 1%nat 8%nat 7%nat nested).
Defined.

Lemma subabort_then_subcleanup_leaves_outer_portals_witness :
  exists s',
    (demo_AtSubAbort_Portals 2 1 8 7 ;; demo_AtSubCleanup_Portals 2) nested
    = Ok tt s' /\
    (forall n, PortalHashTable nested !! n = None ->
       PortalHashTable s' !! n = None) /\
    (forall n p, PortalHashTable nested !! n = Some p ->
       createSubid p = 2%nat -> PortalHashTable s' !! n = None) /\
    (forall n p, PortalHashTable nested !! n = Some p ->
       createSubid p <> 2%nat ->
       exists p', PortalHashTable s' !! n = Some p' /\
                  sub_aborted 2 1 p p') /\
    (forall n p', PortalHashTable s' !! n = Some p' ->
       createSubid p' <> 2%nat /\ activeSubid p' <> 2%nat).
Proof.
  destruct (subabort_then_subcleanup_leaves_outer_portals PortalCleanup
              demo_IsResQueueLockedForPortal demo_hash_seq_order
              PortalCleanup_benign demo_hash_seq_complete
              2%nat 1%nat 8%nat 7%nat nested)
    as (s' & Hrun & Hnone & Hgone & Hkept & Hsub).
  exists s'.
  split; [exact Hrun|]. split; [exact Hnone|]. split; [exact Hgone|].
  split; [exact Hkept|]. apply Hsub. discriminate.
Defined.

Lemma PreCommit_Portals_settles_every_portal_witness :
  exists r s',
    demo_PreCommit_Portals 4 false several = Ok (Some r) s' /\
    (r = true <->
     exists n p, PortalHashTable several !! n = Some p /\
       status p <> PORTAL_ACTIVE /\
       createSubid p <> demo_InvalidSubTransactionId) /\
    (forall n, PortalHashTable several !! n = None ->
       PortalHashTable s' !! n = None) /\
    (forall n p, PortalHashTable several !! n = Some p ->
       (status p = PORTAL_ACTIVE ->
        PortalHashTable s' !! n = Some (set_resowner None p)) /\
       (status p <> PORTAL_ACTIVE ->
        createSubid p = demo_InvalidSubTransactionId ->
        PortalHashTable s' !! n = Some p) /\
       (holdable_in_current_xact demo_InvalidSubTransactionId
          demo_CURSOR_OPT_HOLD p = true ->
        exists p' context tuplestore,
          PortalHashTable s' !! n = Some p' /\
          materialized demo_InvalidSubTransactionId p p' context
            tuplestore) /\
       (status p <> PORTAL_ACTIVE ->
        createSubid p <> demo_InvalidSubTransactionId ->
        holdable_in_current_xact demo_InvalidSubTransactionId
          demo_CURSOR_OPT_HOLD p = false ->
        PortalHashTable s' !! n = None)).
Proof.
  apply (PreCommit_Portals_settles_every_portal demo_InvalidSubTransactionId
           demo_CURSOR_OPT_HOLD demo_CURSOR_OPT_SCROLL PortalCleanup
           PersistHoldablePortal demo_IsResQueueLockedForPortal
           demo_hash_seq_order
           PortalCleanup_benign PersistHoldablePortal_benign
           demo_hash_seq_complete false 4%nat several).
  - each_portal.
  - vm_compute. lia.
  - discriminate.
Defined.

Lemma PinPortal_UnpinPortal_round_trip_witness :
  exists s1,
    PinPortal "c" (only cursor) = Ok tt s1 /\
    PortalHashTable s1
    = <["c" := set_portalPinned true cursor]> (PortalHashTable (only cursor)) /\
    PinPortal "c" s1 = Raise ERROR ERRCODE_INTERNAL_ERROR s1 /\
    demo_PortalDrop "c" false s1
    = Raise ERROR ERRCODE_INVALID_CURSOR_STATE s1 /\
    UnpinPortal "c" s1 = Ok tt (only cursor) /\
    UnpinPortal "c" (only cursor)
    = Raise ERROR ERRCODE_INTERNAL_ERROR (only cursor).
Proof.
  apply (PinPortal_UnpinPortal_round_trip PortalCleanup
           demo_IsResQueueLockedForPortal "c" cursor false (only cursor)).
  - exact (only_lookup cursor).
  - reflexivity.
Defined.

Lemma portal_run_to_its_end_witness :
  exists new,
    (MarkPortalActive "c" ;; MarkPortalFailed PortalCleanup "c" ;;
     demo_PortalDrop "c" true) (only cursor)
    = Ok tt (dropped "c" new (only cursor)) /\
    filter (fun e => is_hook_call e = true) new = [Ev_cleanup 44 "c"] /\
    filter (fun e => is_resowner_event e = true) new
    = [Ev_ResourceOwnerRelease 43 RESOURCE_RELEASE_BEFORE_LOCKS false false;
       Ev_ResourceOwnerRelease 43 RESOURCE_RELEASE_LOCKS false false;
       Ev_ResourceOwnerRelease 43 RESOURCE_RELEASE_AFTER_LOCKS false false;
       Ev_ResourceOwnerDelete 43].
Proof.
  apply (portal_run_to_its_end PortalCleanup demo_IsResQueueLockedForPortal
           PortalCleanup_benign "c" cursor true true (only cursor)).
  - exact (only_lookup cursor).
  - reflexivity.
  - reflexivity.
Defined.

Lemma PortalDrop_releases_everything_in_order_witness :
  (exists s',
     demo_PortalDrop "held" false idle = Ok tt s' /\
     PortalHashTable s' = delete "held" (PortalHashTable idle) /\
     trace s'
     = [Ev_tuplestore_end 52 (Some 51%nat); Ev_MemoryContextDelete 51;
        Ev_MemoryContextDelete 50; Ev_pfree "held"]) /\
  (exists s',
     PortalDrop marking_cleanup demo_IsResQueueLockedForPortal "c" true idle
     = Ok tt s' /\
     PortalHashTable s'
     = delete "c" (<["c" := set_status PORTAL_FAILED cursor]>
                     (PortalHashTable idle)) /\
     trace s'
     = [Ev_cleanup 44 "c"; Ev_ReleaseCachedPlan 41 false;
        Ev_ResourceOwnerRelease 43 RESOURCE_RELEASE_BEFORE_LOCKS false false;
        Ev_ResourceOwnerRelease 43 RESOURCE_RELEASE_LOCKS false false;
        Ev_ResourceOwnerRelease 43 RESOURCE_RELEASE_AFTER_LOCKS false false;
        Ev_ResourceOwnerDelete 43; Ev_MemoryContextDelete 42;
        Ev_pfree "c"]) /\
  PortalDrop failing_cleanup demo_IsResQueueLockedForPortal "c" true idle
  = Raise ERROR ERRCODE_INTERNAL_ERROR (set_trace [Ev_cleanup 44 "c"] idle).
Proof.
  pose proof (fun hook =>
    proj2 (PortalDrop_releases_everything_in_order hook
             demo_IsResQueueLockedForPortal "c" true cursor idle
             ltac:(vm_compute; reflexivity) eq_refl ltac:(discriminate))
      44%nat eq_refl) as H.
  set (s1 := set_PortalHashTable
               (<["c" := set_status PORTAL_FAILED cursor]>
                  (PortalHashTable idle))
               (set_trace [Ev_cleanup 44 "c"] idle)).
  split; [|split].
  - exact (proj1 (PortalDrop_releases_everything_in_order PortalCleanup
                    demo_IsResQueueLockedForPortal "held" false held_cursor
                    idle ltac:(vm_compute; reflexivity) eq_refl
                    ltac:(discriminate))
             eq_refl).
  - exact (proj1 (H marking_cleanup) s1 (set_status PORTAL_FAILED cursor)
             ltac:(vm_compute; reflexivity) ltac:(vm_compute; reflexivity)).
  - exact (proj2 (H failing_cleanup) ERROR ERRCODE_INTERNAL_ERROR
             (set_trace [Ev_cleanup 44 "c"] idle) eq_refl).
Defined.

Lemma ThereAreNoReadyPortals_iff_none_ready_witness :
  exists b,
    ThereAreNoReadyPortals demo_hash_seq_order several = Ok b several /\
    (b = true <->
     forall n p, PortalHashTable several !! n = Some p ->
       status p <> PORTAL_READY) /\
    (PortalHashTable several = ∅ -> b = true).
Proof.
  exact (ThereAreNoReadyPortals_iff_none_ready demo_hash_seq_order
           demo_hash_seq_complete several).
Defined.

Lemma PortalHashTableDeleteAll_keeps_active_portals_witness :
  demo_PortalHashTableDeleteAll 0 not_enabled = Ok (Some tt) not_enabled /\
  exists s',
    demo_PortalHashTableDeleteAll 4 (enabled several)
    = Ok (Some tt) (set_portals s' (enabled several)) /\
    PortalHashTable s'
    = filter (fun kv : string * PortalData => status kv.2 = PORTAL_ACTIVE)
        (PortalHashTable several).
Proof.
  split.
  - apply (proj1 (PortalHashTableDeleteAll_keeps_active_portals PortalCleanup
                    demo_IsResQueueLockedForPortal demo_hash_seq_order
                    PortalCleanup_benign demo_hash_seq_complete
                    0%nat not_enabled)).
    reflexivity.
  - apply (proj2 (PortalHashTableDeleteAll_keeps_active_portals PortalCleanup
                    demo_IsResQueueLockedForPortal demo_hash_seq_order
                    PortalCleanup_benign demo_hash_seq_complete
                    4%nat (enabled several))).
    + reflexivity.
    + each_portal.
    + vm_compute. lia.
Defined.

(** A name of MAX_PORTALNAME_LEN bytes, and the 63 bytes of it that the
    table keeps. *)
Definition long_name : string :=
  "0123456789abcdef0123456789abcdef0123456789abcdef0123456789abcdef".

Definition long_name_key : string :=
  "0123456789abcdef0123456789abcdef0123456789abcdef0123456789abcde".

Lemma CreatePortal_registers_portal_witness :
  (exists st' p,
     demo_CreatePortal "d" false false (enabled several) = Ok "d" st' /\
     st' = demo_made "d" (enabled several) /\
     PortalHashTable (portals st') = <["d" := p]> (PortalHashTable several) /\
     name p = "d" /\
     status p = PORTAL_NEW /\ createSubid p = 1%nat /\
     cleanup p = Some 44%nat /\ heap p = 100%nat /\
     resowner p = Some 101%nat) /\
  (exists st' p,
     demo_CreatePortal long_name false false (enabled several)
     = Ok long_name_key st' /\
     PortalHashTable (portals st')
     = <[long_name_key := p]> (PortalHashTable several) /\
     name p = long_name_key /\
     on_table (GetPortalByName (long_name +:+ "g")) st' = Ok (Some p) st') /\
  demo_CreatePortal "c" false false (enabled several)
  = Raise ERROR ERRCODE_DUPLICATE_CURSOR (enabled several) /\
  demo_CreatePortal "run" true false (enabled several)
  = Raise ERROR ERRCODE_INVALID_CURSOR_STATE
      (warned 1 2 "run" false (enabled several)) /\
  (exists s1,
     demo_PortalDrop "c" false several = Ok tt s1 /\
     PortalHashTable s1 !! "c" = None /\
     demo_CreatePortal "c" true true (enabled several)
     = Ok "c" (demo_made "c"
                 (set_portals s1 (warned 1 2 "c" true (enabled several))))) /\
  CreatePortal failing_cleanup demo_IsResQueueLockedForPortal
    1%nat 1%nat 2%nat true demo_ResCreatePortalId 8 9 4 4%nat 44%nat
    "c" true true (enabled several)
  = Raise ERROR ERRCODE_INTERNAL_ERROR
      (set_portals (set_trace [Ev_cleanup 44 "c"] several)
         (warned 1 2 "c" true (enabled several))).
Proof.
  pose proof (fun hook name allowDup dupSilent =>
    proj2 (proj2 (CreatePortal_registers_portal hook
      demo_IsResQueueLockedForPortal
      1%nat 1%nat 2%nat true demo_ResCreatePortalId 8 9 4 4%nat 44%nat
      name allowDup dupSilent (enabled several) eq_refl
      (ex_intro _ 1%nat eq_refl)))) as H.
  assert (Htaken : is_Some (PortalHashTable (portals (enabled several))
                            !! hash_key "c"))
    by (exists cursor; vm_compute; reflexivity).
  split; [|split; [|split; [|split; [|split]]]].
  - destruct (proj1 (H PortalCleanup "d" false false)
                ltac:(vm_compute; reflexivity))
      as (st' & p & Hrun & Hmade & Htable & _ & Hname & Hstatus & _ & Hsub
          & _ & Hhook & Hheap & Howner & _).
    exists st', p.
    split; [exact Hrun|]. split; [exact Hmade|]. split; [exact Htable|].
    split; [exact Hname|].
    split; [exact Hstatus|]. split; [exact Hsub|]. split; [exact Hhook|].
    split; [exact Hheap|]. exact Howner.
  - destruct (proj1 (H PortalCleanup long_name false false)
                ltac:(vm_compute; reflexivity))
      as (st' & p & Hrun & _ & Htable & Hfind & Hname & _).
    exists st', p.
    split; [exact Hrun|]. split; [exact Htable|]. split; [exact Hname|].
    exact (Hfind (long_name +:+ "g") eq_refl).
  - apply (proj1 (proj2 (H PortalCleanup "c" false false))); [|reflexivity].
    exists cursor. vm_compute. reflexivity.
  - apply (proj1 (proj2 (proj2 (H PortalCleanup "run" true false)))
             running_portal).
    + vm_compute. reflexivity.
    + reflexivity.
    + right. reflexivity.
  - destruct (demo_PortalDrop "c" false several) as [[] s1|lvl code s1|]
      eqn:Hdrop;
      [|exfalso; revert Hdrop; vm_compute; discriminate..].
    exists s1. split; [reflexivity|].
    apply (proj1 (proj2 (proj2 (proj2 (H PortalCleanup "c" true true)))
                    Htaken eq_refl)).
    exact Hdrop.
  - apply (proj2 (proj2 (proj2 (proj2 (H failing_cleanup "c" true true)))
                    Htaken eq_refl)).
    vm_compute. reflexivity.
Defined.

Lemma CreateNewPortal_finds_free_name_witness :
  exists st' p,
    demo_CreateNewPortal 2 (enabled (registry_of 1 [unnamed_portal; cursor]))
    = Ok (Some "<unnamed portal 2>") st' /\
    unnamed_portal_count st' = 2 /\
    PortalHashTable (portals st')
    = <["<unnamed portal 2>" := p]>
        (PortalHashTable (registry_of 1 [unnamed_portal; cursor])) /\
    status p = PORTAL_NEW /\ name p = "<unnamed portal 2>".
Proof.
  destruct (CreateNewPortal_finds_free_name PortalCleanup
              demo_IsResQueueLockedForPortal
              1%nat 1%nat 2%nat true demo_ResCreatePortalId 8 9 4 4%nat
              44%nat 2%nat
              (enabled (registry_of 1 [unnamed_portal; cursor]))
              eq_refl (ex_intro _ 1%nat eq_refl)
              ltac:(vm_compute; reflexivity) ltac:(vm_compute; lia))
    as (i & st' & p & Hi & Hrun & Hcount & Hfree & Htaken & Htable
        & Hstatus & Hname).
  assert (Htwo : i = 2%nat).
  { destruct Hi as [Hi1 Hi2].
    assert (Hsize : size (PortalHashTable
                            (portals
                               (enabled
                                  (registry_of 1 [unnamed_portal; cursor]))))
                    = 2%nat)
      by (vm_compute; reflexivity).
    rewrite Hsize in Hi2.
    destruct i as [|[|[|[|i]]]]; [lia| |reflexivity| |lia].
    - exfalso. revert Hfree. vm_compute. discriminate.
    - exfalso. destruct (Htaken 2%nat ltac:(lia)) as [q Hq].
      revert Hq. vm_compute. discriminate. }
  subst i. exists st', p.
  split; [exact Hrun|]. split; [exact Hcount|]. split; [exact Htable|].
  split; [exact Hstatus|]. exact Hname.
Defined.

End Portal.
